(* ===== verification/_CoqProject ===== *)
-Q . S2P
Prelude.v
Float64.v
FloatOrder.v
FloatRound.v
FloatBound.v
Heap.v
Reasoning.v
Api.v
DeepCopy.v
State.v
Decision.v
Capacity.v
Config.v
Summary.v
Webhook.v
Features.v
Trend.v
Classifier.v
Channels.v
Adapters.v
Wire.v
Interfaces.v
Worker.v
Manager.v
Metrics.v
Controller.v
ReconcileCases.v
Scaling.v
Loop.v
Demo.v
Guarantees.v
Estimate.v
Steady.v
Explainer.v
Wiring.v
Timeouts.v
Startup.v
Supervision.v
System.v
Server.v
Replay.v
Health.v
Site.v
Live.v
Commits.v
Programs.v
TargetApp.v
Synthetic.v
TestUtils.v
