(* ===== verification/Prelude.v ===== *)
(** * Verification of the agentic autoscaler

    A shallow embedding of the Kubernetes operator under src/, with the theorems that
    make it correct. The operator reads the request rate of a Deployment from
    Prometheus, asks a Forecast Service for the load some minutes ahead, computes a
    replica count and patches the Deployment's scale; a classifier sets the parameters
    of this loop, and an explainer turns patches into events.

    ** The program and its model

    Three kinds of goroutine share the process. The reconciler ([Reconcile]) runs per
    custom resource (CR), one at a time. A classifier worker per CR, started by the
    [Manager] that the reconciler calls, writes [status.classifiedParams], which the
    reconciler reads back as the middle layer of its parameters. The explain worker takes
    requests from a channel of capacity one that the reconciler writes to. They meet in
    the CR (through the API server), in the manager's signal channels and in the explain
    channel. target-app is a separate process, the load target.

    The files, in the order of the dependencies, with the sources they translate:
    - Prelude: Go integers with their wrap-around, times and durations, results, a state
      monad [ST], a logic [emits] for what a computation appends to a log, list lemmas.
    - Float64, FloatOrder, FloatRound, FloatBound: Go's [float64] on the Standard Library's
      executable IEEE 754 specification; its order as integers; every operation as rounding
      to nearest; magnitudes carried through expressions.
    - Heap, DeepCopy: memory with typed cells, pointers and slices, and the generated code of
      api/v1alpha1/zz_generated.deepcopy.go over it. The rest of the development handles
      CRs as values, which these copies make sound: no two holders share a cell.
    - Reasoning: internal/reasoning/tokens.go.
    - Api: api/v1alpha1/agenticautoscaler_types.go.
    - State: internal/decision/state.go; the store is a map of pointers into a heap of
      states, so that sharing of a state between holders is modelled.
    - Decision, Capacity: internal/decision/decision.go; Capacity holds the facts on its
      floating-point side.
    - Config, Summary: internal/config/config.go.
    - Webhook: internal/webhook/v1alpha1.
    - Features, Classifier: features.go, classify.go, confidence.go, params.go and
      pipeline.go of internal/classifier; Trend shows when the slope is a number.
    - Channels: [dropAndPush] and [ChannelNotifier.Notify], their [select] statements as
      data ([dropAndPush_code], [Notify_code]) with two readings: a function of the channel,
      and a step relation over all interleavings of senders and the receiver.
    - Adapters, Wire: internal/promql and internal/adapters over an HTTP transport; the
      encoding of forecast requests and its inverse.
    - Interfaces: internal/controller/interfaces.go and the Kubernetes client as classes.
    - Worker, Manager: worker.go and manager.go of internal/classifier.
    - Metrics, Controller: internal/controller; [Reconcile] is [pre_checks], [hot_path],
      [call_forecast], [with_forecast], [decide_and_act] (with [load_state],
      [observe_rps], [decide_scale], [patch_scale]) and [finish], in the source's order.
    - ReconcileCases: the runs of [Reconcile], classified once; Scaling: the patches, over
      one reconcile and over any number of them; Loop: the decision as a step relation on
      replica counts and cooldowns, and how fast it gets into a band; Demo: a concrete
      cluster on which the theorems are exercised; Guarantees, Estimate, Steady: the
      theorems about a reconcile, its estimate of the load per pod, and a load that does
      not change.
    - Explainer: internal/explainer.
    - Wiring, Startup: cmd/controller/main.go, what it builds and in which order it starts;
      Timeouts: its HTTP clients and how long a reconcile waits for them.
    - Supervision, System: theorems across the components; Supervision follows the
      manager through the runs of the whole program.
    - Server, Commits: an API server with many clients, and who can change what in its
      objects when reconciles, workers and authors write at the same time. Replay reads
      what a program does as such a history; Health, Live: a healthy cluster, and the
      reconciler called over and over against it; Site: an executable one. Programs puts
      the guarantees about decisions and about histories together, for running programs.
    - TargetApp: target-app, with the goroutines of its requests as a step relation, and
      the stand-in server of the k6 scenarios, k6/lib/testserver.go.
    - Synthetic: hack/synthetic, the generator of the test fixtures, with [math.Sin].
    - TestUtils: test/utils/utils.go, which the end-to-end tests drive the cluster with.

    ** How the code is modelled

    Pure functions are Rocq functions. Code that calls out of the process threads a state:
    the outside world [W] behind the interfaces, the state of the component, and a
    transcript, the list of its calls with the answers they got ([Effect],
    [WorkerEffect]). The theorems about the reconciler are statements about transcripts:
    which answers precede a patch, what follows a failure. Classes stand for code that is
    not here: [ApiServer], [Clock], [PromQuerier], [Forecaster], [OllamaChatter],
    [HttpTransport], [ControllerRuntime], [VersionedServer], [LiveCluster], [ApiMachinery]
    (the copies of metadata and times), [GoRand], [FileSystem], [TestServerHost],
    [TestHost], [Listener], [TrigReduce], and [GoStrconv], [GoFormatG] for the text of doubles. [GoPlatform] is the conversion of an out-of-range double to an integer, which
    the Go specification leaves open; theorems hold for every platform.

    What is assumed of the outside is named in a class of laws, each shown to hold of a
    concrete world:
    [ClusterLaws] (the API server returns CRs that the webhook admitted, in a cluster whose
    replica counts are below [max_count]), [PromLaws] (no textual NaN), [ForecasterLaws]
    and [OllamaLaws] (proved of the HTTP clients, [forecast_client_lawful] and
    [ollama_client_lawful]), [TransportLaws] (decoded numbers are doubles), [KeyedReads] (a
    read answers with the object of that name), [ServerLaws] (a write is accepted only on
    top of the version it names, the status only through its subresource, times stored to
    the second; reads may lag behind and a failed write may have been accepted), [Coherent]
    (the clients see one server), [LiveLaws] (a healthy cluster, whose calls succeed and
    whose reads are current), [Workload] (Prometheus and the Forecast Service answer, within
    bounds), [ApiMachineryLaws] (its copies are deep) and [GoRandLaws] (the documented ranges).
    That the CRs of the cluster stay admitted, the first half of the first law, is a theorem
    about the program: [versions_stay_admitted] and, for its runs,
    [running_programs_scale_safely], which does without [ClusterLaws].
    [max_count] is 2^30 - 1: below it no sum of the decision leaves [int32]; the theorems
    on overflow ([admitted_step_can_overflow], [restart_midpoint_overflows]) show that the
    webhook alone does not imply it.

    Reconciles are serialised, as controller-runtime does by default; between two of them
    the environment may change everything but the controller's own store ([step]). No
    definition needs fuel: loops over input are folds or structural, and the loops that
    wait (the workers', the restart loop's) run over the list of what woke them up, for
    every such list.

    ** What the theorems show

    - Scaling is safe: every patch of any run stays within the bounds, the step and the
      cooldowns, across a restart too, and is justified by answers of the same reconcile
      ([every_patch_is_within_bounds], [patches_are_spaced], [every_patch_is_justified],
      [cooldown_survives_restart]); a CR that is paused, deleted or shadowed by an HPA is
      left alone ([paused_reconcile_is_inert]).
    - Scaling is right: [every_patch_serves_the_forecast], over the exact ceiling of the
      real quotient ([ComputeUnboundedRecommended_ceiling]), the refinement of the design's
      precedence rules ([ApplyCapAndCooldown_refines_design]), the progress of a reconcile
      that has its data ([data_means_decision]), and the convergence of the reconciler that
      is called again and again, among the reconciles of other CRs
      ([closed_loop_converges]); at a load that does not change it holds its count
      ([steady_load_holds]).
    - Failures are handled: [Reconcile_outcomes], [decode_range_all_or_nothing],
      [LoadFromEnv_sound], [main_fails_fast]; services that are slow or silent cost a
      reconcile three timeouts at most ([reconcile_wait_bounded]).
    - Concurrent writers do not undo each other's work: in every history the API server can
      have served to any number of reconciles, workers and authors, each writer changes its
      own part of a CR only ([writers_keep_to_their_part]), an accepted status write lasts
      until its like replaces it ([status_writes_survive]), and CRs stay admitted
      ([versions_stay_admitted]). The runs of programs are such histories
      ([program_history]), so that in them scaling is safe when authors' CRs are admitted
      ([running_programs_scale_safely]).
    - State is kept apart: [StateStore_refines_map], [Reconcile_isolated],
      [deep_copies_isolate]; and every CR has exactly one worker while it exists
      ([workers_follow_CRs]).
    - The classifier produces what the CRD admits, when its samples are numbers of a
      physical size: [RunPipelineV2_spec], [ComputeParams_bounds],
      [worker_writes_admissible]; its signals are delivered under every interleaving
      ([signals_are_delivered]), and so is the newest explain request of a single notifier
      ([Notify_keeps_newest]).
    - Round trips and termination: [wire_roundtrip], [Summary_roundtrip], [target_drains]. The
      fixtures are what the tests take them for: [fixtures_are_loads].
    - Where the code does not do what it or its documents say, a theorem shows the
      behaviour it has, for example [context_is_never_written],
      [edits_do_not_reach_the_worker], [zero_timeout_blocks], [auto_pin_shadows_classifier],
      [concurrent_Notify_drops_newest], [TrimContent_can_split_a_rune],
      [steady_load_creeps], [site_wakes_itself], [testserver_differs],
      [trailing_newline_lost], [NaN_sample_is_written].

    ** Not modelled

    The scheme registration of api/v1alpha1, three variables handed to a library; the draws of math/rand, known by their ranges, and the reduction of
    angles from 2^29 on in [math.Sin]; registration with the controller manager and of the
    metrics, the HTTP mux beyond its table of exact paths, and TLS, which are library
    calls; the text of log lines; the setters for tests; and panics of third-party
    clients, with the back-off of the workers after one (the one panic of the program's
    own making, [time.NewTicker] on a non-positive interval, is modelled). The Forecast
    Service is a Python program that only its interface stands for. *)
From stdpp Require Export prelude gmap strings list pretty sorting.
From Stdlib Require Export ZArith Lia.
#[export] Set Warnings "-clear-no-such-hyp".
#[global] Open Scope Z_scope.

(** ** Fixed-width Go integers

    A Go [int32] or [int64] is a [Z] inside the type's range; arithmetic that
    may leave the range is written with an explicit wrap-around. *)

Definition MaxInt32 : Z := 2147483647.
Definition MinInt32 : Z := -2147483648.
Definition MaxInt64 : Z := 9223372036854775807.
Definition MinInt64 : Z := -9223372036854775808.

Definition in_i32 (z : Z) : Prop := MinInt32 <= z <= MaxInt32.
Definition in_i64 (z : Z) : Prop := MinInt64 <= z <= MaxInt64.

#[export] Instance in_i32_dec z : Decision (in_i32 z).
Proof. unfold in_i32. apply _. Defined.
#[export] Instance in_i64_dec z : Decision (in_i64 z).
Proof. unfold in_i64. apply _. Defined.

(** Two's complement wrap-around of a mathematical integer. *)
Definition wrap32 (z : Z) : Z := (z + 2147483648) mod 4294967296 - 2147483648.
Definition wrap64 (z : Z) : Z :=
  (z + 9223372036854775808) mod 18446744073709551616 - 9223372036854775808.

Declare Scope go_scope.
Delimit Scope go_scope with go.
Notation "a +₃₂ b" := (wrap32 (a + b)) (at level 50, left associativity) : go_scope.
Notation "a -₃₂ b" := (wrap32 (a - b)) (at level 50, left associativity) : go_scope.
Notation "a *₆₄ b" := (wrap64 (a * b)) (at level 40, left associativity) : go_scope.
#[global] Open Scope go_scope.

(** Unfold every width constant and hand the goal to [lia]. *)
Ltac int_lia :=
  unfold in_i32, in_i64, MaxInt32, MinInt32, MaxInt64, MinInt64 in *; lia.

Create HintDb goint discriminated.
Create Rewrite HintDb goint.

Lemma wrap32_id z : in_i32 z → wrap32 z = z.
Proof.
  intros H. unfold wrap32. rewrite Z.mod_small; [lia|]. int_lia.
Qed.

Lemma wrap64_id z : in_i64 z → wrap64 z = z.
Proof.
  intros H. unfold wrap64. rewrite Z.mod_small; [lia|]. int_lia.
Qed.

Lemma wrap32_range z : in_i32 (wrap32 z).
Proof.
  unfold wrap32. pose proof (Z.mod_pos_bound (z + 2147483648) 4294967296 ltac:(lia)).
  int_lia.
Qed.

Lemma wrap64_range z : in_i64 (wrap64 z).
Proof.
  unfold wrap64.
  pose proof (Z.mod_pos_bound (z + 9223372036854775808) 18446744073709551616 ltac:(lia)).
  int_lia.
Qed.

#[export] Hint Rewrite wrap32_id wrap64_id using int_lia : goint.
#[export] Hint Resolve wrap32_range wrap64_range : goint.

(** Saturating conversion of an [int64] to [int32]: the shape shared by
    [durationSecondsAsInt32], [durationAsInt32] and [historyPointsAsInt32]. *)
Definition sat32 (v : Z) : Z :=
  if decide (v > MaxInt32) then MaxInt32
  else if decide (v < MinInt32) then MinInt32
  else v.

Lemma sat32_id v : in_i32 v → sat32 v = v.
Proof. intros. unfold sat32. repeat case_decide; int_lia. Qed.

Lemma sat32_range v : in_i32 (sat32 v).
Proof. unfold sat32. repeat case_decide; int_lia. Qed.

#[export] Hint Rewrite sat32_id using int_lia : goint.
#[export] Hint Resolve sat32_range : goint.

(** ** Package [time]

    A [Time] is the number of nanoseconds since the zero time
    (January 1, year 1, 00:00 UTC); a [Duration] is an [int64] of nanoseconds. *)
Abbreviation Time := Z (only parsing).
Abbreviation Duration := Z (only parsing).

Definition Nanosecond : Duration := 1.
Definition Millisecond : Duration := 1000000.
Definition Second : Duration := 1000000000.
Definition Minute : Duration := 60000000000.
Definition Hour : Duration := 3600000000000.

Definition time_IsZero (t : Time) : bool := bool_decide (t = 0).

(** [t.Sub(u)] saturates at the ends of the [Duration] range. *)
Definition time_Sub (t u : Time) : Duration :=
  if decide (in_i64 (t - u)) then t - u
  else if decide (t < u) then MinInt64 else MaxInt64.

Definition time_Add (t : Time) (d : Duration) : Time := t + d.
Definition time_After (t u : Time) : bool := bool_decide (u < t).
Definition time_HourUTC (t : Time) : Z := (t / Hour) mod 24.
Definition time_MinuteUTC (t : Time) : Z := (t / Minute) mod 60.

(** Seconds between the zero time and the Unix epoch, for [Time.Unix]. *)
Definition unixToInternal : Z := 62135596800.
Definition time_Unix (t : Time) : Z := t / Second - unixToInternal.
Definition time_FromUnix (sec : Z) : Time := (sec + unixToInternal) * Second.

Lemma time_Sub_exact t u : in_i64 (t - u) → time_Sub t u = t - u.
Proof. intros. unfold time_Sub. by rewrite decide_True. Qed.

(** Comparing a saturated difference with an [int64] bound is the same as
    comparing the exact difference: saturation never changes the verdict. *)
Lemma time_Sub_lt t u d : MinInt64 < d <= MaxInt64 → time_Sub t u < d ↔ t - u < d.
Proof.
  intros. unfold time_Sub. repeat case_decide; int_lia.
Qed.

Lemma time_Sub_ge t u d : MinInt64 < d <= MaxInt64 → d <= time_Sub t u ↔ d <= t - u.
Proof.
  intros. unfold time_Sub. repeat case_decide; int_lia.
Qed.

Lemma time_HourUTC_range t : 0 <= time_HourUTC t < 24.
Proof. apply Z.mod_pos_bound. lia. Qed.

Lemma time_MinuteUTC_range t : 0 <= time_MinuteUTC t < 60.
Proof. apply Z.mod_pos_bound. lia. Qed.

#[export] Hint Resolve time_HourUTC_range time_MinuteUTC_range : goint.

(** An [int32] number of seconds is always a representable [Duration]. *)
Lemma seconds_no_overflow v : in_i32 v → v *₆₄ Second = v * Second.
Proof. intros. apply wrap64_id. unfold Second. int_lia. Qed.

(** ** Optional (pointer) fields and errors *)

(** [derefOr p def]: [*p] when [p] is non-nil. *)
Definition deref_or {A} (p : option A) (def : A) : A :=
  match p with Some v => v | None => def end.

(** A call that returns [(T, error)]. *)
Inductive result (E A : Type) : Type :=
| Ok (a : A)
| Err (e : E).
Arguments Ok {E A} _.
Arguments Err {E A} _.

(** Case analysis on the decisions of an executable definition. *)
Ltac split_decisions :=
  repeat (first [ case_decide | case_bool_decide | case_match ]; simplify_eq/=).

(** ** Text *)
Definition dq : string := String (Ascii.ascii_of_nat 34) EmptyString.
Definition nl : string := String (Ascii.ascii_of_nat 10) EmptyString.

(** [%d] *)
Definition fmt_d (z : Z) : string := pretty z.

(** ** Namespaced names *)
Record NamespacedName := mkNN { nn_Namespace : string; nn_Name : string }.

#[export] Instance NamespacedName_eq_dec : EqDecision NamespacedName.
Proof. solve_decision. Defined.
#[export] Instance NamespacedName_countable : Countable NamespacedName.
Proof.
  refine (inj_countable' (λ k, (nn_Namespace k, nn_Name k)) (λ p, mkNN p.1 p.2) _).
  by intros [].
Defined.

(** [NamespacedName.String] *)
Definition nn_String (k : NamespacedName) : string :=
  nn_Namespace k +:+ "/" +:+ nn_Name k.

(** ** A state monad

    Code that calls out of the process threads a state through every call. *)
Definition ST (S A : Type) : Type := S → A * S.

#[export] Instance st_ret {S} : MRet (ST S) := λ A a s, (a, s).
#[export] Instance st_bind {S} : MBind (ST S) :=
  λ A B k m s, let '(a, s') := m s in k a s'.
Definition st_get {S} : ST S S := λ s, (s, s).
Definition st_modify {S} (f : S → S) : ST S unit := λ s, (tt, f s).

(** Weakest precondition of a computation: its postcondition holds of the value
    returned and the final state. *)
Definition wp {S A} (m : ST S A) (Q : A → S → Prop) (s : S) : Prop :=
  let '(a, s') := m s in Q a s'.

Section wp_rules.
Context {S A B : Type}.
Implicit Types (Q : B → S → Prop).

Lemma wp_ret (a : A) (Q : A → S → Prop) s : Q a s → wp (mret a) Q s.
Proof. done. Qed.

Lemma wp_bind (m : ST S A) (k : A → ST S B) Q s :
  wp m (λ a, wp (k a) Q) s → wp (m ≫= k) Q s.
Proof. unfold wp, mbind, st_bind. by destruct (m s). Qed.

Lemma wp_mono (m : ST S A) (Q1 Q2 : A → S → Prop) s :
  wp m Q1 s → (∀ a s', Q1 a s' → Q2 a s') → wp m Q2 s.
Proof. unfold wp. destruct (m s). auto. Qed.

Lemma wp_modify (f : S → S) (Q : unit → S → Prop) s :
  Q tt (f s) → wp (st_modify f) Q s.
Proof. done. Qed.

Lemma wp_get (Q : S → S → Prop) s : Q s s → wp st_get Q s.
Proof. done. Qed.

(** A [wp] read back as a fact about the run. *)
Lemma wp_run (m : ST S A) (Q : A → S → Prop) s : wp m Q s ↔ Q (m s).1 (m s).2.
Proof. unfold wp. by destruct (m s). Qed.
End wp_rules.

(** An answer a computation can give. *)
Definition answers {S A} (m : ST S A) (a : A) : Prop := ∃ s s', m s = (a, s').

Lemma answers_now {S A} (m : ST S A) s : answers m (m s).1.
Proof. exists s. destruct (m s) as [a s']. by exists s'. Qed.

(** ** A logic for what a computation emits

    The state carries a log; [emits log m Q] says that [m] only appends to it, and
    that the value returned and the entries appended satisfy [Q], from every state. *)
Definition emits {S E A} (log : S → list E) (m : ST S A) (Q : A → list E → Prop) : Prop :=
  ∀ s, ∃ k, log (m s).2 = log s ++ k ∧ Q (m s).1 k.

Section emits_rules.
Context {S E : Type} (log : S → list E).

Lemma emits_ret {A} (a : A) (Q : A → list E → Prop) : Q a [] → emits log (mret a) Q.
Proof. intros HQ s. exists []. by rewrite app_nil_r. Qed.

Lemma emits_bind {A B} (m : ST S A) (f : A → ST S B) Q1 (Q : B → list E → Prop) :
  emits log m Q1 → (∀ a k1, Q1 a k1 → emits log (f a) (λ b k2, Q b (k1 ++ k2))) →
  emits log (m ≫= f) Q.
Proof.
  intros Hm Hf s. unfold mbind, st_bind. destruct (Hm s) as (k1 & E1 & H1).
  destruct (m s) as [a s1]. simpl in *. destruct (Hf a k1 H1 s1) as (k2 & E2 & H2).
  exists (k1 ++ k2). by rewrite E2, E1, app_assoc.
Qed.

Lemma emits_mono {A} (m : ST S A) (Q1 Q2 : A → list E → Prop) :
  emits log m Q1 → (∀ a k, Q1 a k → Q2 a k) → emits log m Q2.
Proof. intros Hm HQ s. destruct (Hm s) as (k & ? & ?). eauto. Qed.

(** A computation that leaves the log alone. *)
Lemma emits_silent {A} (m : ST S A) (Q : A → list E → Prop) :
  (∀ s, log (m s).2 = log s) → (∀ a, Q a []) → emits log m Q.
Proof. intros Hl HQ s. exists []. by rewrite app_nil_r. Qed.

(** A property of logs that survives concatenation composes. *)
Lemma emits_bind_closed {A B} (m : ST S A) (f : A → ST S B) (R : list E → Prop) :
  (∀ k1 k2, R k1 → R k2 → R (k1 ++ k2)) →
  emits log m (λ _, R) → (∀ a, emits log (f a) (λ _, R)) → emits log (m ≫= f) (λ _, R).
Proof.
  intros Happ Hm Hf. eapply emits_bind; [done|]. intros a k1 H1. eapply emits_mono; [apply Hf|].
  intros b k2 H2. by apply Happ.
Qed.

Lemma emits_assoc {A B C} (m : ST S A) (f : A → ST S B) (g : B → ST S C) Q :
  emits log (a ← m; f a ≫= g) Q → emits log ((m ≫= f) ≫= g) Q.
Proof.
  intros Hm s. destruct (Hm s) as (k & Hk). exists k. revert Hk. unfold mbind, st_bind.
  by destruct (m s).
Qed.
End emits_rules.

(** ** Lists *)
Section list_lemmas.
Context {A : Type}.
Implicit Types (l k : list A).

Lemma Forall_app_intro (P : A → Prop) l k : Forall P l → Forall P k → Forall P (l ++ k).
Proof. intros. by apply Forall_app. Qed.

Lemma app_nil_iff l k : l ++ k = [] ↔ l = [] ∧ k = [].
Proof. split; [apply app_eq_nil|by intros [-> ->]]. Qed.

Lemma Forall_snoc (P : A → Prop) l x : Forall P l → P x → Forall P (l ++ [x]).
Proof. intros. apply Forall_app. auto. Qed.
End list_lemmas.

(** Counting the images that satisfy a predicate. *)
Lemma count_fmap {A B} (f : A → B) (P : B → Prop) (Q : A → Prop)
    `{!∀ x, Decision (P x), !∀ x, Decision (Q x)} l :
  (∀ x, x ∈ l → P (f x) ↔ Q x) → length (filter P (f <$> l)) = length (filter Q l).
Proof.
  induction l as [|x l IH]; intros HPQ; [done|]. rewrite fmap_cons, !filter_cons.
  assert (length (filter P (f <$> l)) = length (filter Q l)) as HI.
  { apply IH. intros y Hy. apply HPQ. by constructor. }
  destruct (HPQ x ltac:(constructor)) as [H1 H2].
  repeat case_decide; simpl; (tauto || lia).
Qed.
#[export] Hint Resolve Forall_snoc : core.

(** A filtering map that drops everything it meets. *)
Lemma omap_none {A B} (f : A → option B) (P : A → Prop) l :
  (∀ x, P x → f x = None) → Forall P l → omap f l = [].
Proof.
  intros Hf. induction 1 as [|x l Hx _ IH]; [done|]. cbn. by rewrite (Hf x Hx).
Qed.

Lemma StronglySorted_snoc {A} (R : A → A → Prop) l x :
  StronglySorted R l → (∀ y, y ∈ l → R y x) → StronglySorted R (l ++ [x]).
Proof.
  intros Hl Hx. apply StronglySorted_app. split_and!; [|done|by repeat constructor].
  intros y z Hy ->%list_elem_of_singleton. auto.
Qed.

Lemma StronglySorted_lookup_lt {A} (R : A → A → Prop) l i j x y :
  StronglySorted R l → (i < j)%nat → l !! i = Some x → l !! j = Some y → R x y.
Proof.
  intros Hl Hij Hx Hy. rewrite <- (take_drop (S i) l) in Hl.
  apply (StronglySorted_app_1_elem_of R _ _ _ _ Hl).
  - apply list_elem_of_lookup. exists i. by rewrite lookup_take_lt by lia.
  - apply list_elem_of_lookup. exists (j - S i)%nat. rewrite lookup_drop.
    by replace (S i + (j - S i))%nat with j by lia.
Qed.

(** ** Iteration and reachability *)
Section reach.
Context {S : Type} (step : S → S → Prop).

(** An invariant preserved by every step holds of every reachable state. *)
Lemma rtc_invariant (I : S → Prop) s s' :
  (∀ a b, I a → step a b → I b) → I s → rtc step s s' → I s'.
Proof. intros Hstep HI Hrtc. induction Hrtc; eauto. Qed.
End reach.
