(* ===== verification/Float64.v ===== *)
(** * Binary64 arithmetic of Go's [float64] and package [math]

    A [float64] is a [spec_float] of the Standard Library: the executable IEEE
    754 specification of which the kernel's own floats are an implementation,
    instantiated at precision 53 and maximal exponent 1024.  Every operation
    rounds to nearest, ties to even; no multiply-add is fused (the compiler does
    not fuse on amd64).  The functions of package [math] are translated from its
    portable Go sources. *)
From S2P Require Import Prelude.
From Stdlib Require Import SpecFloat.

Abbreviation float64 := spec_float (only parsing).
Abbreviation prec := 53%Z (only parsing).
Abbreviation emax := 1024%Z (only parsing).

#[export] Instance float64_eq_dec : EqDecision float64.
Proof. solve_decision. Defined.

(** ** Constants and conversions from integers *)

(** [float64(z)] for an integer, rounded to nearest even. *)
Definition f64_of_Z (z : Z) : float64 := binary_normalize prec emax z 0 false.

(** The double nearest to the decimal constant [n / d]. *)
Definition f64_frac (n d : positive) : float64 :=
  let '(q, e, l) := SFdiv_core_binary prec emax (Zpos n) 0 (Zpos d) 0 in
  binary_round_aux prec emax false q e l.

Definition f0 : float64 := S754_zero false.
Definition f1 : float64 := f64_of_Z 1.
Definition f2 : float64 := f64_of_Z 2.

(** ** Arithmetic and comparison *)
Definition fadd : float64 → float64 → float64 := SFadd prec emax.
Definition fsub : float64 → float64 → float64 := SFsub prec emax.
Definition fmul : float64 → float64 → float64 := SFmul prec emax.
Definition fdiv : float64 → float64 → float64 := SFdiv prec emax.
Definition fsqrt : float64 → float64 := SFsqrt prec emax.
Definition fneg : float64 → float64 := SFopp.
Definition fabs : float64 → float64 := SFabs.

Definition flt (x y : float64) : bool := SFltb x y.
Definition fle (x y : float64) : bool := SFleb x y.
Definition feq (x y : float64) : bool := SFeqb x y.

Declare Scope f64_scope.
Delimit Scope f64_scope with f64.
Infix "+" := fadd : f64_scope.
Infix "-" := fsub : f64_scope.
Infix "*" := fmul : f64_scope.
Infix "/" := fdiv : f64_scope.
Infix "<?" := flt : f64_scope.
Infix "<=?" := fle : f64_scope.
Notation "x >? y" := (flt y x) (only parsing) : f64_scope.
Notation "x >=? y" := (fle y x) (only parsing) : f64_scope.
Infix "=?" := feq : f64_scope.

Definition is_nan (x : float64) : bool :=
  match x with S754_nan => true | _ => false end.
Definition is_posinf (x : float64) : bool :=
  match x with S754_infinity false => true | _ => false end.
Definition is_inf (x : float64) : bool :=
  match x with S754_infinity _ => true | _ => false end.
Definition is_finite (x : float64) : bool :=
  match x with S754_nan | S754_infinity _ => false | _ => true end.
Definition signbit (x : float64) : bool :=
  match x with
  | S754_zero s | S754_infinity s | S754_finite s _ _ => s
  | S754_nan => false
  end.

(** ** Integer parts *)

(** The signed mantissa. *)
Definition smant (s : bool) (m : positive) : Z := if s then Zneg m else Zpos m.

(** Numerator and power-of-two denominator exponent of a finite value are
    [smant s m] and [-e]; the integer parts are taken on them exactly. *)
Definition ftruncZ (x : float64) : option Z :=
  match x with
  | S754_zero _ => Some 0
  | S754_finite s m e =>
      Some (if decide (0 <= e) then smant s m * 2 ^ e
            else Z.quot (smant s m) (2 ^ (- e)))
  | _ => None
  end.

Definition fceilZ (s : bool) (m : positive) (e : Z) : Z :=
  if decide (0 <= e) then smant s m * 2 ^ e else - (- smant s m / 2 ^ (- e)).

(** Round half away from zero. *)
Definition froundZ (s : bool) (m : positive) (e : Z) : Z :=
  if decide (0 <= e) then smant s m * 2 ^ e
  else let a := (2 * Zpos m + 2 ^ (- e)) / (2 * 2 ^ (- e)) in
       if s then - a else a.

(** An integral result is converted back; a zero keeps the argument's sign. *)
Definition f64_integral (s : bool) (z : Z) : float64 :=
  if decide (z = 0) then S754_zero s else f64_of_Z z.

(** [math.Ceil] *)
Definition math_Ceil (x : float64) : float64 :=
  match x with
  | S754_finite s m e => if decide (0 <= e) then x else f64_integral s (fceilZ s m e)
  | _ => x
  end.

(** [math.Round] *)
Definition math_Round (x : float64) : float64 :=
  match x with
  | S754_finite s m e => if decide (0 <= e) then x else f64_integral s (froundZ s m e)
  | _ => x
  end.

(** [math.Max] *)
Definition math_Max (x y : float64) : float64 :=
  if is_posinf x || is_posinf y then S754_infinity false
  else if is_nan x || is_nan y then S754_nan
  else if (feq x f0 && feq x y)%f64 then (if signbit x then y else x)
  else if (x >? y)%f64 then x else y.

(** ** Conversions to integers

    The Go specification leaves the result of converting a float outside the
    target type's range to the implementation; a platform supplies it. *)
Class GoPlatform := {
  f64_oor_i32 : float64 → Z;
  f64_oor_i32_range : ∀ f, in_i32 (f64_oor_i32 f);
  f64_oor_i64 : float64 → Z;
  f64_oor_i64_range : ∀ f, in_i64 (f64_oor_i64 f);
}.

#[export] Hint Resolve f64_oor_i32_range f64_oor_i64_range : goint.

(** [int32(x)]: truncation towards zero. *)
Definition f64_to_i32 `{GoPlatform} (x : float64) : Z :=
  match ftruncZ x with
  | Some z => if decide (in_i32 z) then z else f64_oor_i32 x
  | None => f64_oor_i32 x
  end.

(** [int(x)] and [int64(x)]. *)
Definition f64_to_i64 `{GoPlatform} (x : float64) : Z :=
  match ftruncZ x with
  | Some z => if decide (in_i64 z) then z else f64_oor_i64 x
  | None => f64_oor_i64 x
  end.

Lemma f64_to_i32_range `{GoPlatform} x : in_i32 (f64_to_i32 x).
Proof. unfold f64_to_i32. split_decisions; auto with goint. Qed.
#[export] Hint Resolve f64_to_i32_range : goint.

(** amd64: [CVTTSD2SL] and [CVTTSD2SQ] yield the integer indefinite value. *)
Definition amd64 : GoPlatform.
Proof.
  refine {| f64_oor_i32 := λ _, MinInt32; f64_oor_i64 := λ _, MinInt64 |}; intros; int_lia.
Defined.

(** arm64: [FCVTZSDW] and [FCVTZSD] saturate and send a NaN to 0. *)
Definition arm64 : GoPlatform.
Proof.
  refine {| f64_oor_i32 := λ x,
              if is_nan x then 0 else if signbit x then MinInt32 else MaxInt32;
            f64_oor_i64 := λ x,
              if is_nan x then 0 else if signbit x then MinInt64 else MaxInt64 |};
    intros f; destruct (is_nan f), (signbit f); int_lia.
Defined.

(** ** Logarithms (package [math], log.go and log10.go) *)

(** [math.Frexp]: a fraction in [0.5, 1) and a power of two. *)
Definition math_Frexp (x : float64) : float64 * Z :=
  match x with
  | S754_finite _ _ _ => SFfrexp prec emax x
  | _ => (x, 0)
  end.

Definition log_Ln2Hi : float64 := S754_finite false (0x162e42fee00000) (-53).
Definition log_Ln2Lo : float64 := S754_finite false (0x1a39ef35793c76) (-85).
Definition log_L1 : float64 := S754_finite false (0x15555555555593) (-53).
Definition log_L2 : float64 := S754_finite false (0x1999999997fa04) (-54).
Definition log_L3 : float64 := S754_finite false (0x12492494229359) (-54).
Definition log_L4 : float64 := S754_finite false (0x1c71c51d8e78af) (-55).
Definition log_L5 : float64 := S754_finite false (0x17466496cb03de) (-55).
Definition log_L6 : float64 := S754_finite false (0x139a09d078c69f) (-55).
Definition log_L7 : float64 := S754_finite false (0x12f112df3e5244) (-55).

(** [math.Ln2] and [math.Sqrt2], the decimal constants of package [math]. *)
Definition math_Ln2_num : positive := 693147180559945309417232121458176568075500.
Definition math_Ln2_den : positive := 1000000000000000000000000000000000000000000.
Definition math_Sqrt2_num : positive := 141421356237309504880168872420969807856967.
Definition math_Sqrt2_den : positive := 100000000000000000000000000000000000000000.

(** [math.Log] (the portable [log]). *)
Definition math_Log (x : float64) : float64 :=
  if is_nan x || is_posinf x then x
  else if (x <? f0)%f64 then S754_nan
  else if (x =? f0)%f64 then S754_infinity true
  else
    let '(f1', ki') := math_Frexp x in
    let small := (f1' <? f64_frac math_Sqrt2_num (2 * math_Sqrt2_den))%f64 in
    let f1'' := if small then (f1' * f2)%f64 else f1' in
    let ki := if small then ki' - 1 else ki' in
    let f := (f1'' - f1)%f64 in
    let k := f64_of_Z ki in
    let s := (f / (f2 + f))%f64 in
    let s2 := (s * s)%f64 in
    let s4 := (s2 * s2)%f64 in
    let t1 := (s2 * (log_L1 + s4 * (log_L3 + s4 * (log_L5 + s4 * log_L7))))%f64 in
    let t2 := (s4 * (log_L2 + s4 * (log_L4 + s4 * log_L6)))%f64 in
    let R := (t1 + t2)%f64 in
    let hfsq := (f64_frac 1 2 * f * f)%f64 in
    (k * log_Ln2Hi - ((hfsq - (s * (hfsq + R) + k * log_Ln2Lo)) - f))%f64.

(** [math.Log2]: exact on powers of two. *)
Definition math_Log2 (x : float64) : float64 :=
  let '(frac, exp) := math_Frexp x in
  if (frac =? f64_frac 1 2)%f64 then f64_of_Z (exp - 1)
  else (math_Log frac * f64_frac math_Ln2_den math_Ln2_num + f64_of_Z exp)%f64.

(** ** [sort.Float64s]

    NaNs order before every other value.  Up to twelve elements the library runs
    the insertion sort written here; beyond that it may only permute values that
    compare equal, that is zeros of either sign, differently. *)
Definition fless (x y : float64) : bool :=
  (x <? y)%f64 || (is_nan x && negb (is_nan y)).

Fixpoint fsort_insert (x : float64) (l : list float64) : list float64 :=
  match l with
  | [] => [x]
  | y :: l' => if fless x y then x :: y :: l' else y :: fsort_insert x l'
  end.

Definition sort_Float64s (l : list float64) : list float64 :=
  fold_left (λ acc x, fsort_insert x acc) l [].

(** ** Formatting: [%.1f] *)
Definition fmt_tenths (s : bool) (n : Z) : string :=
  (if s then "-" else EmptyString) +:+ fmt_d (n / 10) +:+ "." +:+ fmt_d (n mod 10).

(** Tenths of a magnitude [m * 2^e], rounded half to even. *)
Definition round_tenths (m : positive) (e : Z) : Z :=
  if decide (0 <= e) then 10 * Zpos m * 2 ^ e
  else
    let d := 2 ^ (- e) in
    let q := 10 * Zpos m / d in
    let r := 10 * Zpos m mod d in
    if decide (2 * r < d) then q
    else if decide (2 * r > d) then q + 1
    else if Z.even q then q else q + 1.

Definition fmt_f1 (x : float64) : string :=
  match x with
  | S754_nan => "NaN"
  | S754_infinity s => if s then "-Inf" else "+Inf"
  | S754_zero s => fmt_tenths s 0
  | S754_finite s m e => fmt_tenths s (round_tenths m e)
  end.
