(* ===== verification/FloatOrder.v ===== *)
(** * The order of [float64] and sorting

    Comparison of doubles is reduced to a lexicographic key of integers, on which
    [lia] decides every order fact.  Two doubles with the same key are
    indistinguishable to comparisons ([fequiv]: equal, or zeros of either sign).
    On top of it: [sort.Float64s] returns the sorted permutation of its input. *)
From S2P Require Import Prelude Float64.
From Stdlib Require Import SpecFloat.

(** ** The comparison key *)
Definition fkey (x : float64) : Z * Z * Z :=
  match x with
  | S754_nan => (-3, 0, 0)
  | S754_infinity true => (-2, 0, 0)
  | S754_finite true m e => (-1, - e, Zneg m)
  | S754_zero _ => (0, 0, 0)
  | S754_finite false m e => (1, e, Zpos m)
  | S754_infinity false => (2, 0, 0)
  end.

Definition klt (a b : Z * Z * Z) : Prop :=
  let '(a1, a2, a3) := a in
  let '(b1, b2, b3) := b in
  a1 < b1 ∨ (a1 = b1 ∧ (a2 < b2 ∨ (a2 = b2 ∧ a3 < b3))).
Definition kle (a b : Z * Z * Z) : Prop := ¬ klt b a.

(** Order goals about keys: name the components and call [lia]. *)
Ltac key_lia :=
  unfold kle, klt in *;
  repeat match goal with
         | H : context [fkey ?x] |- _ => destruct (fkey x) as [[? ?] ?]
         | |- context [fkey ?x] => destruct (fkey x) as [[? ?] ?]
         | p : (Z * Z * Z)%type |- _ => destruct p as [[? ?] ?]
         end;
  try match goal with |- @eq (Z * Z * Z) _ _ => f_equal; [f_equal|] end;
  simplify_eq/=; lia.

Lemma pos_compare_spec m1 m2 :
  Pos.compare_cont Eq m1 m2 = (Zpos m1 ?= Zpos m2).
Proof. reflexivity. Qed.

(** Case analysis down to comparisons of exponents and mantissas. *)
Ltac float_cases x y :=
  destruct x as [[]|[]| |[] ?m1 ?e1], y as [[]|[]| |[] ?m2 ?e2];
  cbn [fkey klt is_nan negb orb andb]; rewrite ?pos_compare_spec;
  try match goal with |- context [?e1 ?= ?e2] =>
    match e1 with Zpos _ => fail 1 | _ => idtac end;
    destruct (Z.compare_spec e1 e2); subst end;
  try match goal with |- context [Zpos ?m1 ?= Zpos ?m2] =>
    destruct (Z.compare_spec (Zpos m1) (Zpos m2)) end;
  cbn [CompOpp negb orb andb].

(** [fless] (the order used for sorting) is exactly the order of the keys. *)
Lemma fless_klt x y : fless x y = true ↔ klt (fkey x) (fkey y).
Proof.
  unfold fless, flt, SFltb, SFcompare.
  float_cases x y; (split; [intros ?; (discriminate || lia)|intros ?; (done || lia)]).
Qed.

Lemma fless_false x y : fless x y = false ↔ kle (fkey y) (fkey x).
Proof. rewrite <- not_true_iff_false, fless_klt. done. Qed.

Lemma flt_fless x y : is_nan y = false → is_nan x = false → (x <? y)%f64 = fless x y.
Proof. intros Hy Hx. unfold fless. rewrite Hx. by destruct (x <? y)%f64. Qed.

Lemma flt_nan_l y : (S754_nan <? y)%f64 = false.
Proof. done. Qed.
Lemma flt_nan_r x : (x <? S754_nan)%f64 = false.
Proof. by destruct x as [|[]| |[]]. Qed.

Lemma flt_klt x y :
  (x <? y)%f64 = true ↔ klt (fkey x) (fkey y) ∧ is_nan x = false ∧ is_nan y = false.
Proof.
  rewrite <- fless_klt. unfold fless.
  destruct x as [[]|[]| |[] m1 e1], y as [[]|[]| |[] m2 e2]; simpl;
    rewrite ?flt_nan_l, ?flt_nan_r, ?orb_false_r; simpl; naive_solver.
Qed.

Lemma fle_kle x y :
  (x <=? y)%f64 = true ↔ kle (fkey x) (fkey y) ∧ is_nan x = false ∧ is_nan y = false.
Proof.
  unfold fle, SFleb, SFcompare, kle.
  float_cases x y;
    (split; [intros ?; (discriminate || (split_and!; (done || lia)))
            |intros (?&?&?); (done || lia)]).
Qed.

Lemma fle_not_flt x y :
  is_nan x = false → is_nan y = false → (x <=? y)%f64 = negb (y <? x)%f64.
Proof.
  intros Hx Hy. apply eq_true_iff_eq. rewrite negb_true_iff, <- not_true_iff_false.
  rewrite fle_kle, flt_klt. unfold kle. naive_solver.
Qed.

Lemma fle_refl x : is_nan x = false → (x <=? x)%f64 = true.
Proof. intros. apply fle_kle. split_and!; [key_lia|done|done]. Qed.

Lemma fle_trans x y z :
  (x <=? y)%f64 = true → (y <=? z)%f64 = true → (x <=? z)%f64 = true.
Proof.
  rewrite !fle_kle. intros (?&?&?) (?&?&?). split_and!; [key_lia|done|done].
Qed.

Lemma fle_total x y :
  is_nan x = false → is_nan y = false → (x <=? y)%f64 = true ∨ (y <=? x)%f64 = true.
Proof.
  intros. rewrite !fle_kle.
  destruct (fkey x) as [[? ?] ?], (fkey y) as [[? ?] ?]. unfold kle, klt.
  assert (∀ P Q : Prop, (¬ P) ∨ (¬ Q) → (¬ P ∧ is_nan x = false ∧ is_nan y = false) ∨
            (¬ Q ∧ is_nan y = false ∧ is_nan x = false)) as HH by tauto.
  apply HH. lia.
Qed.

Lemma fle_lt_trans x y z :
  (x <=? y)%f64 = true → (y <? z)%f64 = true → (x <? z)%f64 = true.
Proof.
  rewrite fle_kle, !flt_klt. intros (?&?&?) (?&?&?). split_and!; [key_lia|done|done].
Qed.

Lemma flt_fle x y : (x <? y)%f64 = true → (x <=? y)%f64 = true.
Proof.
  rewrite fle_kle, !flt_klt. intros (?&?&?). split_and!; [key_lia|done|done].
Qed.

(** ** Indistinguishable doubles *)

(** Same key: equal, or zeros of either sign. *)
Definition fequiv (x y : float64) : Prop := fkey x = fkey y.
Infix "≈" := fequiv (at level 70) : f64_scope.

#[export] Instance fequiv_equiv : Equivalence fequiv.
Proof. unfold fequiv. split; congruence. Qed.

Lemma fequiv_cases x y :
  fequiv x y ↔ x = y ∨ (∃ s t, x = S754_zero s ∧ y = S754_zero t).
Proof.
  unfold fequiv. split.
  - destruct x as [[]|[]| |[] m1 e1], y as [[]|[]| |[] m2 e2]; simpl; intros H;
      simplify_eq; eauto; left; f_equal; lia.
  - intros [->|(s&t&->&->)]; done.
Qed.

#[export] Instance flt_proper : Proper (fequiv ==> fequiv ==> eq) flt.
Proof.
  intros x x' [->|(s&t&->&->)]%fequiv_cases y y' [->|(s'&t'&->&->)]%fequiv_cases;
    destruct_all bool; done || (by destruct y' as [|[]| |[]]) || (by destruct x' as [|[]| |[]]).
Qed.

#[export] Instance fle_proper : Proper (fequiv ==> fequiv ==> eq) fle.
Proof.
  intros x x' [->|(s&t&->&->)]%fequiv_cases y y' [->|(s'&t'&->&->)]%fequiv_cases;
    destruct_all bool; done || (by destruct y' as [|[]| |[]]) || (by destruct x' as [|[]| |[]]).
Qed.

#[export] Instance is_nan_proper : Proper (fequiv ==> eq) is_nan.
Proof. by intros x x' [->|(s&t&->&->)]%fequiv_cases. Qed.

(** ** [sort.Float64s] sorts *)

(** The order in which a sorted slice is listed. *)
Definition forder (x y : float64) : Prop := kle (fkey x) (fkey y).

#[export] Instance kle_po : PartialOrder kle.
Proof.
  split; [split|].
  - intros [[? ?] ?]. key_lia.
  - intros [[? ?] ?] [[? ?] ?] [[? ?] ?] ? ?. key_lia.
  - intros [[? ?] ?] [[? ?] ?] ? ?. key_lia.
Qed.

#[export] Instance forder_preorder : PreOrder forder.
Proof. unfold forder. split; [intros x; reflexivity|]. intros x y z ? ?. by etrans. Qed.

Lemma fsort_insert_perm x l : fsort_insert x l ≡ₚ x :: l.
Proof.
  induction l as [|y l IH]; simpl; [done|].
  destruct (fless x y); [done|]. rewrite IH. constructor.
Qed.

Lemma sort_fold_perm l acc : fold_left (λ acc x, fsort_insert x acc) l acc ≡ₚ acc ++ l.
Proof.
  revert acc. induction l as [|x l IH]; intros acc; simpl; [by rewrite app_nil_r|].
  rewrite IH, fsort_insert_perm. apply Permutation_middle.
Qed.

Lemma sort_Float64s_perm l : sort_Float64s l ≡ₚ l.
Proof. apply (sort_fold_perm l []). Qed.

Lemma sort_Float64s_length l : length (sort_Float64s l) = length l.
Proof. apply Permutation_length, sort_Float64s_perm. Qed.

Lemma fsort_insert_sorted x l :
  StronglySorted forder l → StronglySorted forder (fsort_insert x l).
Proof.
  induction 1 as [|y l Hl IH Hall]; simpl; [repeat constructor|].
  destruct (fless x y) eqn:E.
  - apply fless_klt in E. constructor; [by constructor|].
    constructor; [unfold forder; key_lia|].
    eapply Forall_impl; [exact Hall|]. intros z ?. unfold forder in *. key_lia.
  - apply fless_false in E. constructor; [done|].
    rewrite fsort_insert_perm. by constructor.
Qed.

Lemma sort_Float64s_sorted l : StronglySorted forder (sort_Float64s l).
Proof.
  unfold sort_Float64s. assert (StronglySorted forder []) as H by constructor.
  revert H. generalize (@nil float64). induction l as [|x l IH]; intros acc H; simpl; [done|].
  by apply IH, fsort_insert_sorted.
Qed.

(** The sorted keys depend on the multiset of values alone: whatever sorting
    algorithm is used, the results agree up to [fequiv] at every position. *)
Lemma StronglySorted_keys l :
  StronglySorted forder l → StronglySorted kle (fkey <$> l).
Proof. induction 1; simpl; constructor; [done|]. by apply Forall_fmap. Qed.

Lemma sorted_keys_unique l1 l2 :
  StronglySorted forder l1 → StronglySorted forder l2 → l1 ≡ₚ l2 →
  fkey <$> l1 = fkey <$> l2.
Proof.
  intros H1 H2 Hp. apply (StronglySorted_unique kle);
    [by apply StronglySorted_keys..|by apply fmap_Permutation].
Qed.

Lemma sort_keys_perm l1 l2 :
  l1 ≡ₚ l2 → fkey <$> sort_Float64s l1 = fkey <$> sort_Float64s l2.
Proof.
  intros. apply sorted_keys_unique; [apply sort_Float64s_sorted..|].
  by rewrite !sort_Float64s_perm.
Qed.

(** Position-wise consequence, in the shape array reads use it. *)
Lemma sort_lookup_perm l1 l2 i x :
  l1 ≡ₚ l2 → sort_Float64s l1 !! i = Some x →
  ∃ y, sort_Float64s l2 !! i = Some y ∧ fequiv x y.
Proof.
  intros Hp Hi. pose proof (sort_keys_perm _ _ Hp) as Hk.
  apply (f_equal (.!! i)) in Hk. rewrite !list_lookup_fmap, Hi in Hk. simpl in Hk.
  destruct (sort_Float64s l2 !! i) as [y|]; simplify_eq/=. by exists y.
Qed.

(** Reading a sorted slice at increasing indices gives increasing values. *)
Lemma sort_lookup_mono l i j x y :
  (i <= j)%nat → sort_Float64s l !! i = Some x → sort_Float64s l !! j = Some y →
  forder x y.
Proof.
  intros Hij Hx Hy. destruct (decide (i = j)) as [->|]; [simplify_eq; reflexivity|].
  pose proof (sort_Float64s_sorted l) as Hs.
  apply list_elem_of_split_length in Hx as (l1 & l2 & Heq & Hl1).
  rewrite Heq in Hs, Hy. replace j with (length l1 + S (j - length l1 - 1))%nat in Hy by lia.
  rewrite lookup_app_r in Hy by lia.
  replace (_ - _)%nat with (S (j - length l1 - 1)) in Hy by lia. simpl in Hy.
  apply StronglySorted_app_1_r, StronglySorted_cons in Hs as [Hall _].
  rewrite Forall_forall in Hall. by eapply Hall, list_elem_of_lookup_2.
Qed.

(** The number of elements with a given key. *)
Definition key_count (k : Z * Z * Z) (l : list float64) : nat :=
  length (filter (λ x, fkey x = k) l).

Lemma key_count_le k l : (key_count k l <= length l)%nat.
Proof. apply length_filter. Qed.

Lemma key_count_zero k l : (∀ x, x ∈ l → fkey x ≠ k) → key_count k l = 0%nat.
Proof.
  unfold key_count. induction l as [|x l IH]; intros H; [done|].
  rewrite filter_cons_False by (apply H; constructor). apply IH. intros y Hy.
  apply H. by constructor.
Qed.

Lemma key_count_app k l1 l2 : key_count k (l1 ++ l2) = (key_count k l1 + key_count k l2)%nat.
Proof. unfold key_count. by rewrite filter_app, length_app. Qed.

Lemma key_count_perm k l1 l2 : l1 ≡ₚ l2 → key_count k l1 = key_count k l2.
Proof. unfold key_count. intros ->. done. Qed.

(** A position whose smaller and larger sides are both too short to hold all the
    occurrences of a key carries that key. *)
Lemma sort_lookup_majority l i x k :
  sort_Float64s l !! i = Some x →
  (i < key_count k l)%nat → (length l < i + 1 + key_count k l)%nat →
  fkey x = k.
Proof.
  intros Hi Hlo Hhi. pose proof (sort_lookup_mono l) as Hmono.
  rewrite <- (key_count_perm k _ _ (sort_Float64s_perm l)) in Hlo, Hhi.
  rewrite <- (sort_Float64s_length l) in Hhi.
  set (s := sort_Float64s l) in *.
  assert (klt (fkey x) k ∨ fkey x = k ∨ klt k (fkey x)) as [Hlt|[?|Hgt]]; [|exfalso|done|exfalso].
  { destruct k as [[? ?] ?], (fkey x) as [[? ?] ?]. unfold klt.
    rewrite !pair_equal_spec. lia. }
  - rewrite <- (take_drop (S i) s), key_count_app in Hhi.
    rewrite (key_count_zero k (take (S i) s)) in Hhi.
    + pose proof (key_count_le k (drop (S i) s)) as Hc. rewrite length_drop in Hc.
      apply lookup_lt_Some in Hi. rewrite length_app, length_take, length_drop in Hhi. lia.
    + intros y (j & Hj)%list_elem_of_lookup_1 Hk; subst k.
      apply lookup_take_Some in Hj as [Hj ?].
      pose proof (Hmono j i y x ltac:(lia) Hj Hi) as Ho. unfold forder in Ho. key_lia.
  - rewrite <- (take_drop i s), key_count_app in Hlo.
    rewrite (key_count_zero k (drop i s)) in Hlo.
    + pose proof (key_count_le k (take i s)) as Hc. rewrite length_take in Hc. lia.
    + intros y (j & Hj)%list_elem_of_lookup_1 Hk; subst k. rewrite lookup_drop in Hj.
      pose proof (Hmono i (i + j)%nat x y ltac:(lia) Hi Hj) as Ho. unfold forder in Ho. key_lia.
Qed.
