(* ===== verification/FloatRound.v ===== *)
(** * Correct rounding of the binary64 operations

    The operations of [SpecFloat] compute a mantissa, an exponent and a location
    of the exact result, then round.  This file shows that what comes out is the
    representable number nearest to the exact result, with no reference to the
    algorithm: [rounds_to x r] says that no representable number is closer to the
    rational [x] than [fval r].  Monotonicity of rounding and its exactness on
    representable numbers follow, and with them the properties of quotients,
    sums and integer conversions the scaling formulas rely on. *)
From S2P Require Import Prelude Float64 FloatOrder.
From Stdlib Require Import SpecFloat QArith Qpower Qround Lqa.
#[local] Open Scope Q_scope.

(** ** Powers of two *)
Definition pow2 (e : Z) : Q := 2 ^ e.

Lemma pow2_pos e : 0 < pow2 e.
Proof. apply Qpower_0_lt. reflexivity. Qed.

Lemma pow2_plus a b : pow2 (a + b) == pow2 a * pow2 b.
Proof. apply Qpower_plus. discriminate. Qed.

Lemma pow2_succ e : pow2 (e + 1) == 2 * pow2 e.
Proof. rewrite pow2_plus. unfold pow2 at 2. simpl. ring. Qed.

Lemma pow2_Z n : (0 <= n)%Z → inject_Z (2 ^ n) == pow2 n.
Proof. intros. by rewrite Zpower_Qpower. Qed.

Lemma pow2_0 : pow2 0 == 1.
Proof. reflexivity. Qed.

Lemma pow2_m1 : pow2 (-1) == 1 # 2.
Proof. reflexivity. Qed.

Lemma pow2_cancel e : pow2 (- e) * pow2 e == 1.
Proof. rewrite <- pow2_plus. by replace (- e + e)%Z with 0%Z by lia. Qed.

Lemma pow2_le a b : (a <= b)%Z → pow2 a <= pow2 b.
Proof.
  intros. replace b with (a + (b - a))%Z by lia. rewrite pow2_plus.
  assert (1 <= pow2 (b - a)) as H1.
  { rewrite <- pow2_Z by lia. change 1 with (inject_Z 1). rewrite <- Zle_Qle.
    pose proof (Z.pow_pos_nonneg 2 (b - a)). lia. }
  pose proof (pow2_pos a). nra.
Qed.

#[local] Hint Resolve pow2_pos : core.
#[global] Opaque pow2.

(** ** Digits *)
Lemma digits2_pos_bounds p :
  (2 ^ (Zpos (digits2_pos p) - 1) <= Zpos p < 2 ^ Zpos (digits2_pos p))%Z.
Proof.
  assert (∀ q, (2 ^ Zpos (Pos.succ q) = 2 * 2 ^ Zpos q)%Z) as Hs.
  { intros. rewrite Pos2Z.inj_succ, Z.pow_succ_r; lia. }
  induction p as [p IH|p IH|]; cbn [digits2_pos]; [| |simpl; lia];
    replace (Zpos (Pos.succ (digits2_pos p)) - 1)%Z
      with (Z.succ (Zpos (digits2_pos p) - 1)) by lia;
    rewrite Z.pow_succ_r by lia; rewrite Hs; lia.
Qed.

Lemma Zdigits2_bounds m :
  (0 < m → 2 ^ (Zdigits2 m - 1) <= m < 2 ^ Zdigits2 m)%Z.
Proof. destruct m; [lia| |lia]. intros _. apply digits2_pos_bounds. Qed.

Lemma Zdigits2_pos m : (0 < m → 0 < Zdigits2 m)%Z.
Proof. destruct m; simpl; lia. Qed.

Lemma Zdigits2_ge m n : (0 <= n → 2 ^ n <= m → n + 1 <= Zdigits2 m)%Z.
Proof.
  intros Hn Hm. pose proof (Z.pow_pos_nonneg 2 n).
  destruct (Zdigits2_bounds m) as [_ Hub]; [lia|].
  destruct (decide (n < Zdigits2 m)%Z); [lia|].
  pose proof (Z.pow_le_mono_r 2 (Zdigits2 m) n). lia.
Qed.

Lemma Zdigits2_le m n : (0 <= n → 0 <= m < 2 ^ n → Zdigits2 m <= n)%Z.
Proof.
  intros Hn [H0 Hm]. destruct (decide (m = 0%Z)) as [->|]; [simpl; lia|].
  destruct (Zdigits2_bounds m) as [Hlb _]; [lia|].
  destruct (decide (Zdigits2 m <= n)%Z); [lia|].
  pose proof (Z.pow_le_mono_r 2 n (Zdigits2 m - 1)). lia.
Qed.

Abbreviation fexp := (SpecFloat.fexp 53 1024).

Lemma fexp_eq d : fexp d = Z.max (d - 53) (-1074).
Proof. reflexivity. Qed.

(** ** Shifted mantissas *)

(** [rec_ok mrs t]: the integer part and the two sticky bits locate [t]. *)
Definition rec_ok (mrs : shr_record) (t : Q) : Prop :=
  let m := inject_Z (shr_m mrs) in
  (0 <= shr_m mrs)%Z ∧
  match shr_r mrs, shr_s mrs with
  | false, false => t == m
  | false, true => m < t ∧ t < m + (1 # 2)
  | true, false => t == m + (1 # 2)
  | true, true => m + (1 # 2) < t ∧ t < m + 1
  end.

Lemma rec_ok_proper mrs t t' : t == t' → rec_ok mrs t → rec_ok mrs t'.
Proof. intros Ht [H0 H]. split; [done|]. destruct (shr_r mrs), (shr_s mrs); lra. Qed.

Lemma inject_Z_xO p : inject_Z (Zpos p~0) == 2 * inject_Z (Zpos p).
Proof. rewrite Pos2Z.inj_xO, inject_Z_mult. reflexivity. Qed.
Lemma inject_Z_xI p : inject_Z (Zpos p~1) == 2 * inject_Z (Zpos p) + 1.
Proof. rewrite Pos2Z.inj_xI, inject_Z_plus, inject_Z_mult. reflexivity. Qed.

Lemma shr_1_ok mrs t : rec_ok mrs t → rec_ok (shr_1 mrs) (t * (1 # 2)).
Proof.
  destruct mrs as [m r s]. intros [H0 H]. simpl in H0. unfold rec_ok in *.
  destruct m as [|[p|p|]|]; [| | | |lia];
    destruct r, s; cbn [shr_1 shr_m shr_r shr_s orb] in *;
    (split; [lia|]); rewrite ?inject_Z_xO, ?inject_Z_xI in H;
    change (inject_Z 1) with 1 in *; change (inject_Z 0) with 0 in *; lra.
Qed.

Lemma iter_shr_1_ok n mrs t :
  rec_ok mrs t → rec_ok (SpecFloat.iter_pos shr_1 n mrs) (t * pow2 (- Zpos n)).
Proof.
  revert mrs t. induction n as [n IH|n IH|]; intros mrs t H; cbn [iter_pos].
  - eapply rec_ok_proper; [|apply IH, IH, shr_1_ok, H].
    replace (- Zpos n~1)%Z with (- Zpos n + (- Zpos n + -1))%Z by lia.
    rewrite !pow2_plus. rewrite pow2_m1. ring.
  - eapply rec_ok_proper; [|apply IH, IH, H].
    replace (- Zpos n~0)%Z with (- Zpos n + - Zpos n)%Z by lia.
    rewrite !pow2_plus. ring.
  - eapply rec_ok_proper; [|apply shr_1_ok, H]. change (Z.opp (Zpos 1)) with (Zneg 1). by rewrite pow2_m1.
Qed.

Lemma shr_ok mrs e n t mrs' e' :
  rec_ok mrs t → shr mrs e n = (mrs', e') →
  e' = (e + Z.max 0 n)%Z ∧ rec_ok mrs' (t * pow2 (e - e')).
Proof.
  intros H Heq. unfold shr in Heq. destruct n as [|n|n]; simplify_eq.
  - split; [lia|]. eapply rec_ok_proper; [|exact H].
    rewrite Z.sub_diag, pow2_0. ring.
  - split; [lia|]. replace (e - (e + Zpos n))%Z with (- Zpos n)%Z by lia.
    by apply iter_shr_1_ok.
  - split; [lia|]. eapply rec_ok_proper; [|exact H].
    rewrite Z.sub_diag, pow2_0. ring.
Qed.

Lemma shr_record_of_loc_of mrs :
  shr_record_of_loc (shr_m mrs) (loc_of_shr_record mrs) = mrs.
Proof. by destruct mrs as [m [] []]. Qed.

(** Rounding the located number to the nearest integer. *)
Lemma round_nearest_even_ok mrs t :
  rec_ok mrs t →
  let k := round_nearest_even (shr_m mrs) (loc_of_shr_record mrs) in
  inject_Z k - (1 # 2) <= t ∧ t <= inject_Z k + (1 # 2) ∧
  (shr_m mrs <= k <= shr_m mrs + 1)%Z.
Proof.
  destruct mrs as [m r s]. intros [H0 H]. simpl in H0.
  destruct r, s; cbn [shr_m shr_r shr_s loc_of_shr_record round_nearest_even] in *;
    rewrite ?inject_Z_plus; change (inject_Z 1) with 1 in *;
    try destruct (Z.even m);
    rewrite ?inject_Z_plus; change (inject_Z 1) with 1 in *;
    split_and!; (lra || lia).
Qed.

(** ** The rounding step *)

(** Rational value of a finite double. *)
Definition fval (x : float64) : Q :=
  match x with
  | S754_finite s m e => inject_Z (smant s m) * pow2 e
  | _ => 0
  end.

(** Magnitude: the value without its sign. *)
Definition fmag (x : float64) : Q :=
  match x with
  | S754_finite _ m e => inject_Z (Zpos m) * pow2 e
  | _ => 0
  end.

(** Numbers with at most 53 significant bits and no bit below [2^-1074]. *)
Definition representable (q : Q) : Prop :=
  ∃ j f, (0 <= j <= 2 ^ 53)%Z ∧ (-1074 <= f)%Z ∧ q == inject_Z j * pow2 f.

(** What rounding the positive rational [x] delivers before packing: an integral
    multiple [k] of the unit [2^e'] in force at [x]. *)
Definition rounded (x : Q) (k e' : Z) : Prop :=
  (0 <= k <= 2 ^ 53)%Z ∧ (-1074 <= e')%Z ∧
  (inject_Z k - (1 # 2)) * pow2 e' <= x ∧ x <= (inject_Z k + (1 # 2)) * pow2 e' ∧
  ((-1074 < e')%Z → (2 ^ 52 <= k)%Z ∧ pow2 (e' + 52) <= x).

Lemma rounded_representable x k e' : rounded x k e' → representable (inject_Z k * pow2 e').
Proof. intros (?&?&_). by exists k, e'. Qed.

Lemma inject_Z_succ_le a b : (a + 1 <= b)%Z → inject_Z a + 1 <= inject_Z b.
Proof. rewrite Zle_Qle, inject_Z_plus. done. Qed.

(** A number below the binade of [x] with 53 bits is below its lower end. *)
Lemma representable_low_binade j f e' :
  (0 <= j <= 2 ^ 53)%Z → (f < e')%Z → inject_Z j * pow2 f <= pow2 (e' + 52).
Proof.
  intros Hj Hf. pose proof (pow2_pos f).
  assert (inject_Z j <= pow2 53) as Hj'.
  { rewrite <- pow2_Z by lia. rewrite <- Zle_Qle. lia. }
  assert (pow2 (53 + f) <= pow2 (e' + 52)) by (apply pow2_le; lia).
  rewrite pow2_plus in H0. nra.
Qed.

(** No representable number is closer. *)
Lemma rounded_nearest x k e' y :
  rounded x k e' → representable y →
  (y <= x → y <= inject_Z k * pow2 e' ∧ inject_Z k * pow2 e' - x <= x - y) ∧
  (x <= y → inject_Z k * pow2 e' <= y ∧ x - inject_Z k * pow2 e' <= y - x).
Proof.
  intros (Hk & He & Hlo & Hhi & Hnorm) (j & f & Hj & Hf & Hy).
  pose proof (pow2_pos e') as Hp.
  assert (∀ J, y == inject_Z J * pow2 e' →
    (y <= x → y <= inject_Z k * pow2 e' ∧ inject_Z k * pow2 e' - x <= x - y) ∧
    (x <= y → inject_Z k * pow2 e' <= y ∧ x - inject_Z k * pow2 e' <= y - x)) as Hmul.
  { intros J HJ. rewrite HJ.
    assert (J = k ∨ (J <= k - 1)%Z ∨ (k + 1 <= J)%Z) as [->|[HJk|HJk]] by lia.
    - split; intros; split; lra.
    - assert (J + 1 <= k)%Z as Hq%inject_Z_succ_le by lia. split; intros; split; nra.
    - apply inject_Z_succ_le in HJk. split; intros; split; nra. }
  destruct (decide (e' <= f)%Z) as [Hef|Hef].
  - apply (Hmul (j * 2 ^ (f - e'))%Z). rewrite Hy, inject_Z_mult, pow2_Z by lia.
    rewrite <- Qmult_assoc, <- pow2_plus. by replace (f - e' + e')%Z with f by lia.
  - destruct Hnorm as [Hk52 Hx]; [lia|].
    pose proof (representable_low_binade j f e' Hj ltac:(lia)) as Hlow. rewrite <- Hy in Hlow.
    assert (inject_Z (2 ^ 52) <= inject_Z k) as Hk' by (rewrite <- Zle_Qle; lia).
    rewrite pow2_plus, <- (pow2_Z 52) in Hx, Hlow by lia.
    assert (inject_Z (2 ^ 52) * pow2 e' <= x) as Hx' by lra.
    assert (k = 2 ^ 52 ∨ 2 ^ 52 + 1 <= k)%Z as [->|Hk1%inject_Z_succ_le] by lia.
    + split; intros; split; lra.
    + split; intros; split; nra.
Qed.

(** How a packed result relates to the rounded multiple. *)
Definition packs (s : bool) (r : float64) (k e' : Z) : Prop :=
  match r with
  | S754_zero s' => s' = s ∧ k = 0%Z
  | S754_finite s' m e =>
      s' = s ∧ inject_Z (Zpos m) * pow2 e == inject_Z k * pow2 e' ∧
      bounded 53 1024 m e = true
  | S754_infinity s' => s' = s ∧ pow2 1024 <= inject_Z k * pow2 e'
  | S754_nan => False
  end.

Lemma bounded_intro m e :
  fexp (Zdigits2 (Zpos m) + e) = e → (e <= 971)%Z → bounded 53 1024 m e = true.
Proof.
  intros Hc He. unfold bounded, canonical_mantissa. apply andb_true_iff. split.
  - by apply Z.eqb_eq.
  - by apply Z.leb_le.
Qed.

(** Second alignment: only a carry to [2^53] moves the exponent. *)
Lemma shr_fexp_rounded k e' :
  (0 <= k <= 2 ^ 53)%Z → (-1074 <= e')%Z →
  shr_fexp 53 1024 k e' loc_Exact =
    if decide (k = 2 ^ 53)%Z then (Build_shr_record (2 ^ 52) false false, (e' + 1)%Z)
    else (Build_shr_record k false false, e').
Proof.
  intros Hk He. unfold shr_fexp. case_decide as Heq.
  - subst k. replace (Zdigits2 (2 ^ 53)) with 54%Z by reflexivity.
    rewrite fexp_eq. replace (Z.max (54 + e' - 53) (-1074) - e')%Z with 1%Z by lia.
    reflexivity.
  - assert (Zdigits2 k <= 53)%Z by (apply Zdigits2_le; lia).
    rewrite fexp_eq. unfold shr.
    destruct (Z.max (Zdigits2 k + e' - 53) (-1074) - e')%Z eqn:E; [done|lia|done].
Qed.

Lemma pack_rounded s k e' :
  (0 <= k <= 2 ^ 53)%Z → (-1074 <= e')%Z → ((-1074 < e')%Z → (2 ^ 52 <= k)%Z) →
  packs s
    (let '(mrs, e) := shr_fexp 53 1024 k e' loc_Exact in
     match shr_m mrs with
     | Z0 => S754_zero s
     | Zpos m => if (e <=? 1024 - 53)%Z then S754_finite s m e else S754_infinity s
     | Zneg _ => S754_nan
     end) k e'.
Proof.
  intros Hk He Hn. rewrite shr_fexp_rounded by done. case_decide as Heq.
  - subst k. cbn [shr_m Z.pow Z.pow_pos Pos.iter Z.mul Pos.mul].
    assert (inject_Z (2 ^ 52) * pow2 (e' + 1) == inject_Z (2 ^ 53) * pow2 e') as Hv.
    { rewrite pow2_succ. change (2 ^ 53)%Z with (2 * 2 ^ 52)%Z. rewrite inject_Z_mult.
      change (inject_Z 2) with 2. ring. }
    destruct (Z.leb_spec (e' + 1) (1024 - 53)) as [Hle|Hgt]; (split; [reflexivity|]).
    + split; [exact Hv|]. apply bounded_intro; [|lia].
      replace (Zdigits2 _) with 53%Z by reflexivity. rewrite fexp_eq. lia.
    + change (9007199254740992)%Z with (2 ^ 53)%Z. rewrite pow2_Z, <- pow2_plus by lia.
      apply pow2_le. lia.
  - cbn [shr_m]. destruct k as [|m|]; [split; done| |lia].
    assert (Zdigits2 (Zpos m) <= 53)%Z by (apply Zdigits2_le; lia).
    assert ((-1074 < e')%Z → Zdigits2 (Zpos m) = 53%Z).
    { intros ?. pose proof (Zdigits2_ge (Zpos m) 52). lia. }
    destruct (Z.leb_spec e' (1024 - 53)) as [Hle|Hgt]; (split; [reflexivity|]).
    + split; [reflexivity|]. apply bounded_intro; [|lia]. rewrite fexp_eq. lia.
    + assert (inject_Z (2 ^ 52) <= inject_Z (Zpos m)) as Hm by (rewrite <- Zle_Qle; lia).
      rewrite pow2_Z in Hm by lia.
      apply Qle_trans with (pow2 52 * pow2 e'); [rewrite <- pow2_plus; apply pow2_le; lia|].
      pose proof (pow2_pos e'). nra.
Qed.

Lemma rec_ok_bounds mrs t :
  rec_ok mrs t → inject_Z (shr_m mrs) <= t ∧ t < inject_Z (shr_m mrs) + 1.
Proof. intros [H0 H]. destruct (shr_r mrs), (shr_s mrs); lra. Qed.

Lemma inject_Z_lt_pow2 m n : (0 <= n)%Z → inject_Z m < pow2 n → (m < 2 ^ n)%Z.
Proof. intros Hn. by rewrite <- pow2_Z, <- Zlt_Qlt by done. Qed.

(** Changing the exponent that a magnitude is scaled by. *)
Lemma rescale q E e' : q * pow2 (- E) == q * pow2 (- e') * pow2 (e' - E).
Proof.
  rewrite <- Qmult_assoc, <- pow2_plus. by replace (- e' + (e' - E))%Z with (- E)%Z by lia.
Qed.

(** At the target exponent a located magnitude stays below [2^53] ... *)
Lemma scaled_below M E x :
  (0 <= M)%Z → x * pow2 (- E) < inject_Z M + 1 →
  x * pow2 (- fexp (Zdigits2 M + E)) < pow2 53.
Proof.
  set (e' := fexp (Zdigits2 M + E)). intros HM Hb. pose proof (pow2_pos (e' - E)).
  assert (x * pow2 (- E) < pow2 (Zdigits2 M)) as Hx.
  { eapply Qlt_le_trans; [exact Hb|]. rewrite <- pow2_Z by (destruct M; simpl; lia).
    apply inject_Z_succ_le. destruct (decide (M = 0%Z)) as [->|]; [done|].
    pose proof (Zdigits2_bounds M). lia. }
  rewrite (rescale x E e') in Hx.
  assert (pow2 (Zdigits2 M) <= pow2 53 * pow2 (e' - E)).
  { rewrite <- pow2_plus. apply pow2_le. unfold e'. rewrite fexp_eq. lia. }
  nra.
Qed.

(** ... and reaches [2^52] unless the exponent is the subnormal one. *)
Lemma scaled_normal M E x :
  (0 <= M)%Z → (E <= fexp (Zdigits2 M + E))%Z → inject_Z M <= x * pow2 (- E) →
  (-1074 < fexp (Zdigits2 M + E))%Z →
  pow2 52 <= x * pow2 (- fexp (Zdigits2 M + E)).
Proof.
  set (e' := fexp (Zdigits2 M + E)). intros HM HE Hb Hgt. pose proof (pow2_pos (e' - E)).
  assert (0 < M)%Z as HM0.
  { destruct (decide (M = 0%Z)) as [->|]; [|lia]. unfold e' in *. rewrite fexp_eq in *.
    simpl in *. lia. }
  destruct (Zdigits2_bounds M HM0) as [Hlo _]. pose proof (Zdigits2_pos M HM0).
  rewrite Zle_Qle, pow2_Z in Hlo by lia. rewrite (rescale x E e') in Hb.
  assert (pow2 (Zdigits2 M - 1) == pow2 52 * pow2 (e' - E)) as Heq.
  { rewrite <- pow2_plus. unfold e' in *. rewrite fexp_eq in *.
    by replace (Zdigits2 M - 1)%Z
      with (52 + (Z.max (Zdigits2 M + E - 53) (-1074) - E))%Z by lia. }
  rewrite Heq in Hlo. nra.
Qed.

(** A significand that is nearest to the scaled magnitude is a correct
    rounding of the magnitude itself. *)
Lemma rounded_scaled x k e' :
  (0 <= k <= 2 ^ 53)%Z → (-1074 <= e')%Z →
  inject_Z k - (1 # 2) <= x * pow2 (- e') → x * pow2 (- e') <= inject_Z k + (1 # 2) →
  ((-1074 < e')%Z → (2 ^ 52 <= k)%Z ∧ pow2 52 <= x * pow2 (- e')) →
  rounded x k e'.
Proof.
  intros Hk He Hlo Hhi Hn. pose proof (pow2_pos e').
  assert (pow2 (- e') * pow2 e' == 1) as Hc by apply pow2_cancel.
  split_and!; [lia|lia|done| | |].
  - assert ((inject_Z k - (1 # 2)) * pow2 e' <= x * pow2 (- e') * pow2 e') by nra.
    rewrite <- Qmult_assoc, Hc in *. lra.
  - assert (x * pow2 (- e') * pow2 e' <= (inject_Z k + (1 # 2)) * pow2 e') by nra.
    rewrite <- Qmult_assoc, Hc in *. lra.
  - intros Hgt. destruct (Hn Hgt) as [? Hnorm]. split; [done|].
    rewrite Z.add_comm, pow2_plus.
    assert (pow2 52 * pow2 e' <= x * pow2 (- e') * pow2 e') by nra.
    rewrite <- Qmult_assoc, Hc in *. lra.
Qed.

(** [binary_round_aux] rounds the located magnitude [x] to nearest. *)
Lemma binary_round_aux_ok s M E l x :
  rec_ok (shr_record_of_loc M l) (x * pow2 (- E)) →
  (E <= fexp (Zdigits2 M + E))%Z →
  ∃ k e', rounded x k e' ∧ packs s (binary_round_aux 53 1024 s M E l) k e'.
Proof.
  intros Hrec HE. set (e' := fexp (Zdigits2 M + E)) in *.
  assert (0 <= M)%Z as HM by (destruct Hrec as [HM _]; destruct l as [|[]]; exact HM).
  unfold binary_round_aux. destruct (shr_fexp 53 1024 M E l) as [mrs' e1] eqn:Hshr.
  apply (shr_ok _ _ _ _ _ _ Hrec) in Hshr as [He1 Hrec'].
  fold e' in He1. assert (e1 = e') as -> by lia. clear He1.
  apply (rec_ok_proper _ _ (x * pow2 (- e'))) in Hrec'.
  2:{ rewrite <- Qmult_assoc, <- pow2_plus. by replace (- E + (E - e'))%Z with (- e')%Z by lia. }
  destruct (rec_ok_bounds _ _ Hrec) as [Hb1 Hb2].
  destruct (rec_ok_bounds _ _ Hrec') as [Hb1' Hb2'].
  destruct (round_nearest_even_ok _ _ Hrec') as (Hk1 & Hk2 & Hk3).
  set (k := round_nearest_even _ _) in *.
  assert (Hm0 : (0 <= shr_m mrs')%Z) by apply Hrec'.
  replace (shr_m (shr_record_of_loc M l)) with M in * by (by destruct l as [|[]]).
  assert (shr_m mrs' < 2 ^ 53)%Z as Hm53.
  { apply inject_Z_lt_pow2; [lia|]. eapply Qle_lt_trans; [exact Hb1'|].
    by apply scaled_below. }
  pose proof (scaled_normal M E x HM HE Hb1) as Hnorm. fold e' in Hnorm.
  assert ((-1074 < e')%Z → (2 ^ 52 <= k)%Z) as Hk52.
  { intros Hgt. specialize (Hnorm Hgt).
    assert (pow2 52 < inject_Z (shr_m mrs' + 1)) as Hlt.
    { rewrite inject_Z_plus. change (inject_Z 1) with 1. lra. }
    rewrite <- pow2_Z, <- Zlt_Qlt in Hlt by lia. lia. }
  assert (-1074 <= e')%Z as He' by (unfold e'; rewrite fexp_eq; lia).
  exists k, e'. split; [|apply pack_rounded; [lia|lia|done]].
  apply rounded_scaled; auto with lia.
Qed.

(** ** Rounded results *)

(** [r] is the double of sign [s] nearest to the magnitude [x]. *)
Definition rounds (s : bool) (x : Q) (r : float64) : Prop :=
  ∃ k e', rounded x k e' ∧ packs s r k e'.

Lemma packs_fmag s r k e' :
  packs s r k e' → is_finite r = true → fmag r == inject_Z k * pow2 e'.
Proof.
  destruct r as [s'|s'| |s' m e]; simpl; try done.
  - intros [_ ->] _. change (inject_Z 0) with 0. ring.
  - by intros (_ & H & _) _.
Qed.

Lemma fval_fmag r : is_finite r = true → signbit r = false → fval r == fmag r.
Proof. destruct r as [s'|s'| |[] m e]; simpl; try done; reflexivity. Qed.

Lemma rounds_signbit s x r : rounds s x r → signbit r = s.
Proof. intros (k & e' & _ & H). destruct r; simpl in H; naive_solver. Qed.

(** An upper bound that is representable and in range bounds the result, which
    is then finite; a lower bound bounds a finite result from below. *)
Lemma rounds_le s x r y :
  rounds s x r → representable y → x <= y → y < pow2 1024 →
  is_finite r = true ∧ 0 <= fmag r ∧ fmag r <= y.
Proof.
  intros (k & e' & Hr & Hp) Hy Hxy Hmax.
  destruct (rounded_nearest _ _ _ _ Hr Hy) as [_ [Hle _]]; [done|].
  destruct Hr as ([Hk _] & _). rewrite Zle_Qle in Hk. change (inject_Z 0) with 0 in Hk.
  pose proof (pow2_pos e').
  assert (is_finite r = true) as Hfin.
  { destruct r; simpl in *; try done. destruct Hp as [_ Hp]. exfalso. lra. }
  rewrite (packs_fmag _ _ _ _ Hp Hfin). split_and!; [done|nra|done].
Qed.

Lemma rounds_ge s x r y :
  rounds s x r → representable y → y <= x → is_finite r = true → y <= fmag r.
Proof.
  intros (k & e' & Hr & Hp) Hy Hyx Hfin. rewrite (packs_fmag _ _ _ _ Hp Hfin).
  by destruct (rounded_nearest _ _ _ _ Hr Hy) as [[? _] _].
Qed.

(** Rounding does not move a representable number. *)
Lemma rounds_exact s x r :
  rounds s x r → representable x → x < pow2 1024 → is_finite r = true ∧ fmag r == x.
Proof.
  intros Hr Hx Hmax.
  destruct (rounds_le _ _ _ _ Hr Hx (Qle_refl _) Hmax) as (Hf & _ & Hle).
  split; [done|]. apply Qle_antisym; [done|]. by eapply rounds_ge; eauto using Qle_refl.
Qed.

(** Rounding is monotone. *)
Lemma rounds_mono s1 s2 x1 x2 r1 r2 :
  rounds s1 x1 r1 → rounds s2 x2 r2 → x1 < x2 →
  is_finite r1 = true → is_finite r2 = true → fmag r1 <= fmag r2.
Proof.
  intros (k1 & e1 & Hr1 & Hp1) (k2 & e2 & Hr2 & Hp2) Hx Hf1 Hf2.
  rewrite (packs_fmag _ _ _ _ Hp1 Hf1), (packs_fmag _ _ _ _ Hp2 Hf2).
  destruct (rounded_nearest _ _ _ _ Hr1 (rounded_representable _ _ _ Hr2)) as [H1a H1b].
  destruct (rounded_nearest _ _ _ _ Hr2 (rounded_representable _ _ _ Hr1)) as [H2a H2b].
  set (v1 := inject_Z k1 * pow2 e1) in *. set (v2 := inject_Z k2 * pow2 e2) in *.
  destruct (Qlt_le_dec v2 v1) as [Hlt|]; [exfalso|done].
  destruct (Qlt_le_dec x1 v2) as [H|H]; [destruct H1b; lra|].
  destruct (Qlt_le_dec x2 v1) as [H'|H']; [|destruct H2a; lra].
  destruct H1a; [done|]. destruct H2b; lra.
Qed.

(** The result is a valid double. *)
Lemma rounds_valid s x r : rounds s x r → valid_binary 53 1024 r = true.
Proof. intros (k & e' & _ & Hp). destruct r; simpl in *; [done..|]. by destruct Hp as (?&?&?). Qed.

(** ** Division *)
Lemma fexp_mono a b : (a <= b → fexp a <= fexp b)%Z.
Proof. rewrite !fexp_eq. lia. Qed.

(** A fraction [r / m] against one half and the unit interval. *)
Lemma fraction_bounds r m :
  (0 <= r < m)%Z →
  let f := inject_Z r / inject_Z m in
  0 <= f ∧ f < 1 ∧ (r ≠ 0%Z → 0 < f) ∧
  ((2 * r < m)%Z → f < 1 # 2) ∧ ((2 * r = m)%Z → f == 1 # 2) ∧ ((m < 2 * r)%Z → 1 # 2 < f).
Proof.
  intros [H0 Hrm] f.
  assert (0 < inject_Z m) as Hm by (change 0 with (inject_Z 0); rewrite <- Zlt_Qlt; lia).
  assert (f * inject_Z m == inject_Z r) as Hf by (unfold f; field; lra).
  assert (∀ a b, (a < b)%Z → inject_Z a < inject_Z b) as Hlt by (intros; by rewrite <- Zlt_Qlt).
  assert (inject_Z (2 * r) == 2 * inject_Z r) as H2 by by rewrite inject_Z_mult.
  pose proof H0 as H0Z. rewrite Zle_Qle in H0. apply Hlt in Hrm. change (inject_Z 0) with 0 in H0.
  split_and!.
  - nra.
  - nra.
  - intros Hr. assert (0 < r)%Z as Hr'%Hlt by lia.
    change (inject_Z 0) with 0 in Hr'. nra.
  - intros H%Hlt. nra.
  - intros H%(f_equal inject_Z). assert (inject_Z (2 * r) == inject_Z m) by by rewrite H. nra.
  - intros H%Hlt. nra.
Qed.

Lemma new_location_ok q m r :
  (0 <= q)%Z → (0 <= r < m)%Z →
  rec_ok (shr_record_of_loc q (new_location m r)) (inject_Z q + inject_Z r / inject_Z m).
Proof.
  intros Hq Hr. destruct (fraction_bounds r m Hr) as (Hf0 & Hf1 & Hpos & Hlt & Heq & Hgt).
  set (f := inject_Z r / inject_Z m) in *.
  assert (r = 0%Z → f == 0) as Hz.
  { intros Hr0. unfold f, Qdiv. rewrite Hr0. change (inject_Z 0) with 0. ring. }
  unfold new_location, new_location_even, new_location_odd.
  destruct (Z.even m) eqn:Hev; cbv beta; destruct (Z.eqb_spec r 0) as [Hr0|Hr0];
    try (specialize (Hz Hr0); (split; [exact Hq|]); cbn; rewrite Hz; ring);
    specialize (Hpos Hr0).
  - destruct (Z.compare_spec (2 * r) m) as [E|E|E];
      [specialize (Heq E)|specialize (Hlt E)|specialize (Hgt E)];
      (split; [exact Hq|]); cbn; lra.
  - assert (2 * r ≠ m)%Z by (intros <-; rewrite Z.even_mul in Hev; done).
    destruct (Z.compare_spec (2 * r + 1) m) as [E|E|E];
      [specialize (Hlt ltac:(lia))|specialize (Hlt ltac:(lia))|specialize (Hgt ltac:(lia))];
      (split; [exact Hq|]); cbn; lra.
Qed.

Lemma SFdiv_core_exp_ok m1 e1 m2 e2 q e' l :
  (0 < m1)%Z → (0 < m2)%Z → SFdiv_core_binary 53 1024 m1 e1 m2 e2 = (q, e', l) →
  (e' <= fexp (Zdigits2 q + e'))%Z ∧
  rec_ok (shr_record_of_loc q l)
    (inject_Z m1 * pow2 e1 / (inject_Z m2 * pow2 e2) * pow2 (- e')).
Proof.
  intros Hm1 Hm2. unfold SFdiv_core_binary.
  set (D := (Zdigits2 m1 + e1 - (Zdigits2 m2 + e2))%Z).
  set (ee := Z.min (fexp D) (e1 - e2)). set (s := (e1 - e2 - ee)%Z).
  assert (0 <= s)%Z as Hs by lia.
  assert (match s with 0%Z => m1 | Z.pos _ => Z.shiftl m1 s | Z.neg _ => 0%Z end
          = m1 * 2 ^ s)%Z as ->.
  { destruct s eqn:E; [lia| |lia]. rewrite Z.shiftl_mul_pow2 by lia. done. }
  pose proof (Z.pow_pos_nonneg 2 s ltac:(lia) Hs) as H2s.
  pose proof (Z_div_mod (m1 * 2 ^ s) m2 ltac:(lia)) as Hdm.
  destruct (Z.div_eucl (m1 * 2 ^ s) m2) as [q0 r0]. destruct Hdm as [Hdm Hr0].
  intros [= <- <- <-]. assert (0 <= q0)%Z as Hq0 by nia. split.
  - destruct (decide (D <= ee)%Z) as [HD|HD].
    { unfold ee in *. rewrite !fexp_eq in *. lia. }
    transitivity (fexp D); [lia|]. apply fexp_mono.
    destruct (Zdigits2_bounds m1 Hm1) as [Hl1 _], (Zdigits2_bounds m2 Hm2) as [_ Hu2].
    pose proof (Zdigits2_pos m1 Hm1). pose proof (Zdigits2_pos m2 Hm2).
    assert (2 ^ (D - ee - 1) <= q0)%Z as Hq.
    { assert (2 ^ (Zdigits2 m1 - 1) * 2 ^ s = 2 ^ (D - ee - 1) * 2 ^ Zdigits2 m2)%Z as Hp.
      { rewrite <- !Z.pow_add_r by lia. f_equal. lia. }
      assert (2 ^ (D - ee - 1) * m2 <= m1 * 2 ^ s)%Z.
      { pose proof (Z.pow_pos_nonneg 2 (D - ee - 1)). nia. }
      assert (2 ^ (D - ee - 1) < q0 + 1)%Z by nia. lia. }
    pose proof (Zdigits2_ge q0 (D - ee - 1) ltac:(lia) Hq). lia.
  - eapply rec_ok_proper; [|apply new_location_ok; [done|lia]].
    assert (0 < inject_Z m2) by (change 0 with (inject_Z 0); rewrite <- Zlt_Qlt; lia).
    pose proof (pow2_pos e2).
    assert (inject_Z m1 * pow2 s == inject_Z q0 * inject_Z m2 + inject_Z r0) as Heq.
    { rewrite <- pow2_Z, <- !inject_Z_mult, <- inject_Z_plus by lia.
      apply inject_Z_injective. lia. }
    assert (pow2 e1 == pow2 s * pow2 ee * pow2 e2) as He1.
    { rewrite <- !pow2_plus. by replace (s + ee + e2)%Z with e1 by lia. }
    pose proof (pow2_cancel ee) as Hc. rewrite Qmult_comm in Hc.
    transitivity ((inject_Z m1 * pow2 s) * (pow2 ee * pow2 (- ee)) / inject_Z m2).
    + rewrite Heq, Hc. field. lra.
    + rewrite He1. field. lra.
Qed.

Lemma fdiv_rounds s1 m1 e1 s2 m2 e2 :
  rounds (xorb s1 s2)
    (inject_Z (Zpos m1) * pow2 e1 / (inject_Z (Zpos m2) * pow2 e2))
    (S754_finite s1 m1 e1 / S754_finite s2 m2 e2)%f64.
Proof.
  unfold fdiv, SFdiv.
  destruct (SFdiv_core_binary 53 1024 (Zpos m1) e1 (Zpos m2) e2) as [[q e'] l] eqn:E.
  apply SFdiv_core_exp_ok in E as [He Hrec]; [|lia..].
  by apply binary_round_aux_ok.
Qed.

(** ** Exact inputs: integers and sums *)
Lemma Pos_iter_xO m d : Zpos (Pos.iter xO m d) = (Zpos m * 2 ^ Zpos d)%Z.
Proof.
  induction d as [|d IH] using Pos.peano_ind; [simpl; lia|].
  rewrite Pos.iter_succ, Pos2Z.inj_xO, IH, Pos2Z.inj_succ, Z.pow_succ_r; lia.
Qed.

Lemma digits2_iter_xO m d :
  Zpos (digits2_pos (Pos.iter xO m d)) = (Zpos (digits2_pos m) + Zpos d)%Z.
Proof.
  induction d as [|d IH] using Pos.peano_ind; [simpl; lia|].
  rewrite Pos.iter_succ. cbn [digits2_pos]. lia.
Qed.

Lemma binary_round_rounds s m e :
  rounds s (inject_Z (Zpos m) * pow2 e) (binary_round 53 1024 s m e).
Proof.
  unfold binary_round, shl_align. set (ex := fexp (Zpos (digits2_pos m) + e)).
  destruct (ex - e)%Z as [|d|d] eqn:E.
  - apply binary_round_aux_ok; [|change (e <= ex)%Z; lia].
    split; [done|]. cbn. rewrite <- Qmult_assoc, <- pow2_plus, Z.add_opp_diag_r, pow2_0. ring.
  - apply binary_round_aux_ok; [|change (e <= ex)%Z; lia].
    split; [done|]. cbn. rewrite <- Qmult_assoc, <- pow2_plus, Z.add_opp_diag_r, pow2_0. ring.
  - apply binary_round_aux_ok.
    + split; [done|]. cbn [shr_record_of_loc shr_m shr_r shr_s].
      rewrite Pos_iter_xO, inject_Z_mult, pow2_Z by lia.
      rewrite <- Qmult_assoc, <- pow2_plus. by replace (e + - ex)%Z with (Zpos d) by lia.
    + unfold Zdigits2. rewrite digits2_iter_xO.
      replace (Zpos (digits2_pos m) + Zpos d + ex)%Z with (Zpos (digits2_pos m) + e)%Z by lia.
      change (ex <= ex)%Z. lia.
Qed.

(** [binary_normalize] rounds the signed dyadic number [m * 2^e]. *)
Lemma binary_normalize_rounds m e sz :
  (m = 0%Z ∧ binary_normalize 53 1024 m e sz = S754_zero sz) ∨
  (m ≠ 0%Z ∧ rounds (m <? 0)%Z (inject_Z (Z.abs m) * pow2 e) (binary_normalize 53 1024 m e sz)).
Proof.
  destruct m as [|m|m]; [by left|right; split; [done|]..]; apply binary_round_rounds.
Qed.

Lemma representable_Z z : (0 <= z <= 2 ^ 53)%Z → representable (inject_Z z).
Proof. intros. exists z, 0%Z. rewrite pow2_0. split_and!; [lia..|ring]. Qed.

Lemma Z_lt_pow2_1024 z : (z <= 2 ^ 53)%Z → inject_Z z < pow2 1024.
Proof.
  intros Hz. apply Qle_lt_trans with (pow2 53); [rewrite <- pow2_Z, <- Zle_Qle; lia|].
  apply Qlt_le_trans with (pow2 54); [|apply pow2_le; lia].
  rewrite <- !pow2_Z, <- Zlt_Qlt by lia. done.
Qed.

Lemma fval_signed r :
  is_finite r = true → fval r == if signbit r then - fmag r else fmag r.
Proof.
  destruct r as [[]|s'| |[] m e]; simpl; try done; intros _; [ring..|].
  change (Zneg m) with (- Zpos m)%Z. rewrite inject_Z_opp. ring.
Qed.

(** [float64(z)] is exact up to 53 bits. *)
Lemma f64_of_Z_exact z :
  (Z.abs z <= 2 ^ 53)%Z → is_finite (f64_of_Z z) = true ∧ fval (f64_of_Z z) == inject_Z z.
Proof.
  intros Hz. unfold f64_of_Z.
  destruct (binary_normalize_rounds z 0 false) as [[-> ->]|[Hz0 Hr]]; [done|].
  pose proof (rounds_signbit _ _ _ Hr) as Hs.
  destruct (rounds_exact _ _ _ Hr) as [Hf Hm].
  - exists (Z.abs z), 0%Z. split_and!; [lia..|reflexivity].
  - rewrite pow2_0, Qmult_1_r. by apply Z_lt_pow2_1024.
  - split; [done|]. rewrite fval_signed, Hs by done.
    destruct (Z.ltb_spec z 0); rewrite Hm, pow2_0.
    + rewrite Z.abs_neq, inject_Z_opp by lia. ring.
    + rewrite Z.abs_eq by lia. ring.
Qed.

Lemma f64_of_Z_valid z : valid_binary 53 1024 (f64_of_Z z) = true.
Proof.
  unfold f64_of_Z. destruct (binary_normalize_rounds z 0 false) as [[-> ->]|[_ Hr]]; [done|].
  by eapply rounds_valid.
Qed.

(** ** Integer parts *)
Lemma ftruncZ_integral x z :
  is_finite x = true → fval x == inject_Z z → ftruncZ x = Some z.
Proof.
  destruct x as [s|s| |s m e]; simpl; intros Hf Hv; try done.
  - f_equal. by apply inject_Z_injective.
  - f_equal. case_decide as He.
    + apply inject_Z_injective. by rewrite <- Hv, inject_Z_mult, pow2_Z.
    + assert (smant s m = z * 2 ^ (- e))%Z as ->.
      { apply inject_Z_injective. rewrite inject_Z_mult, pow2_Z, <- Hv by lia.
        rewrite <- Qmult_assoc, <- pow2_plus. rewrite Z.add_opp_diag_r, pow2_0. ring. }
      apply Z.quot_mul. pose proof (Z.pow_pos_nonneg 2 (- e)). lia.
Qed.

Lemma f64_integral_trunc s z :
  (Z.abs z <= 2 ^ 53)%Z → ftruncZ (f64_integral s z) = Some z.
Proof.
  intros. unfold f64_integral. case_decide; [by subst|].
  by apply ftruncZ_integral; apply f64_of_Z_exact.
Qed.

Lemma f64_integral_shape s z :
  f64_integral s z = S754_zero s ∧ z = 0%Z ∨
  z ≠ 0%Z ∧ rounds (z <? 0)%Z (inject_Z (Z.abs z) * pow2 0) (f64_integral s z).
Proof.
  unfold f64_integral. case_decide; [by left|right]. split; [done|].
  by destruct (binary_normalize_rounds z 0 false) as [[? _]|[_ ?]].
Qed.

Lemma f64_integral_not_nan s z : is_nan (f64_integral s z) = false.
Proof.
  destruct (f64_integral_shape s z) as [[-> _]|[_ (k & e' & _ & Hp)]]; [done|].
  by destruct (f64_integral s z).
Qed.

Lemma f64_integral_signbit z : (0 <= z)%Z → signbit (f64_integral false z) = false.
Proof.
  intros Hz. destruct (f64_integral_shape false z) as [[-> _]|[_ Hr]]; [done|].
  rewrite (rounds_signbit _ _ _ Hr). by apply Z.ltb_ge.
Qed.

Lemma valid_mantissa m e :
  bounded 53 1024 m e = true → (Zpos m < 2 ^ 53)%Z ∧ (-1074 <= e <= 971)%Z.
Proof.
  unfold bounded, canonical_mantissa. rewrite andb_true_iff, Z.eqb_eq, Z.leb_le, fexp_eq.
  intros [Hc He]. destruct (digits2_pos_bounds m) as [_ Hub].
  pose proof (Z.pow_le_mono_r 2 (Zpos (digits2_pos m)) 53). lia.
Qed.

Lemma Qceiling_neg_pow2 a n :
  (0 <= n)%Z → Qceiling (inject_Z a * pow2 (- n)) = (- (- a / 2 ^ n))%Z.
Proof.
  intros Hn. pose proof (Z.pow_pos_nonneg 2 n ltac:(lia) Hn) as Hp.
  assert (inject_Z a * pow2 (- n) == a # Z.to_pos (2 ^ n)) as Heq.
  { rewrite Qmake_Qdiv, Z2Pos.id by done. rewrite pow2_Z by done.
    pose proof (pow2_pos n). pose proof (pow2_cancel n) as Hc.
    transitivity (inject_Z a * (pow2 (- n) * pow2 n) / pow2 n); [field|rewrite Hc; field]; lra. }
  rewrite (Qceiling_comp _ _ Heq). unfold Qceiling, Qfloor, Qopp. simpl.
  by rewrite Z2Pos.id.
Qed.

(** [math.Ceil] is the exact ceiling of the value. *)
Lemma math_Ceil_spec x :
  is_finite x = true → valid_binary 53 1024 x = true →
  ftruncZ (math_Ceil x) = Some (Qceiling (fval x)).
Proof.
  destruct x as [s|s| |s m e]; simpl; intros Hf Hv; try done.
  apply valid_mantissa in Hv as [Hm He]. case_decide as Hpos.
  - simpl. rewrite decide_True by done. f_equal.
    rewrite <- (pow2_Z e), <- inject_Z_mult by done. by rewrite Qceiling_Z.
  - assert (fceilZ s m e = Qceiling (inject_Z (smant s m) * pow2 e)) as Hc.
    { unfold fceilZ. rewrite decide_False by done.
      replace e with (- - e)%Z at 2 by lia. by rewrite Qceiling_neg_pow2 by lia. }
    rewrite f64_integral_trunc; [by rewrite Hc|].
    unfold fceilZ. rewrite decide_False by done.
    pose proof (Z.pow_pos_nonneg 2 (- e) ltac:(lia) ltac:(lia)).
    assert (- 2 ^ 53 <= - smant s m / 2 ^ (- e) <= 2 ^ 53)%Z; [|lia].
    split; [apply Z.div_le_lower_bound|apply Z.div_le_upper_bound]; destruct s; simpl; nia.
Qed.

(** ** Comparison is comparison of values *)
Lemma valid_value_bounds m e :
  bounded 53 1024 m e = true →
  inject_Z (Zpos m) * pow2 e < pow2 (e + 53) ∧
  ((-1074 < e)%Z → pow2 (e + 52) <= inject_Z (Zpos m) * pow2 e).
Proof.
  intros Hb. destruct (valid_mantissa _ _ Hb) as [Hm He]. pose proof (pow2_pos e).
  rewrite !(Z.add_comm e), !pow2_plus. split.
  - assert (inject_Z (Zpos m) < pow2 53) by (rewrite <- pow2_Z, <- Zlt_Qlt by lia; done). nra.
  - intros Hgt. assert (2 ^ 52 <= Zpos m)%Z as Hlo.
    { unfold bounded, canonical_mantissa in Hb.
      rewrite andb_true_iff, Z.eqb_eq, fexp_eq in Hb.
      destruct (digits2_pos_bounds m) as [Hlo _].
      replace (Zpos (digits2_pos m)) with 53%Z in Hlo by lia. done. }
    rewrite Zle_Qle, pow2_Z in Hlo by lia. nra.
Qed.

Lemma lex_value m1 e1 m2 e2 :
  bounded 53 1024 m1 e1 = true → bounded 53 1024 m2 e2 = true →
  (e1 < e2 ∨ (e1 = e2 ∧ Zpos m1 < Zpos m2))%Z →
  inject_Z (Zpos m1) * pow2 e1 < inject_Z (Zpos m2) * pow2 e2.
Proof.
  intros H1 H2 [Hlt|[-> Hlt]].
  - destruct (valid_value_bounds _ _ H1) as [Hu _], (valid_value_bounds _ _ H2) as [_ Hl].
    destruct (valid_mantissa _ _ H1) as [_ ?].
    eapply Qlt_le_trans; [exact Hu|]. eapply Qle_trans; [|apply Hl; lia].
    apply pow2_le. lia.
  - rewrite Zlt_Qlt in Hlt. pose proof (pow2_pos e2). nra.
Qed.

Lemma dyadic_pos m e : 0 < inject_Z (Zpos m) * pow2 e.
Proof.
  pose proof (pow2_pos e). assert (0 < inject_Z (Zpos m)); [|nra].
  change 0 with (inject_Z 0). by rewrite <- Zlt_Qlt.
Qed.

Lemma smant_neg m e : inject_Z (Zneg m) * pow2 e == - (inject_Z (Zpos m) * pow2 e).
Proof. change (Zneg m) with (- Zpos m)%Z. rewrite inject_Z_opp. ring. Qed.

(** The key order of valid finite doubles implies the order of their values. *)
Lemma klt_fval x y :
  is_finite x = true → is_finite y = true →
  valid_binary 53 1024 x = true → valid_binary 53 1024 y = true →
  klt (fkey x) (fkey y) → fval x < fval y.
Proof.
  intros Hfx Hfy Hvx Hvy Hk.
  destruct x as [sx|sx| |sx mx ex], y as [sy|sy| |sy my ey]; try done; simpl in Hvx, Hvy;
    try (pose proof (dyadic_pos mx ex) as Px); try (pose proof (dyadic_pos my ey) as Py);
    try destruct sx; try destruct sy; cbn [fval smant fkey klt] in *;
    rewrite ?smant_neg; try lra; try (exfalso; lia).
  - assert (inject_Z (Zpos my) * pow2 ey < inject_Z (Zpos mx) * pow2 ex); [|lra].
    apply lex_value; [done..|lia].
  - apply lex_value; [done..|lia].
Qed.

Lemma fkey_fval x y : fkey x = fkey y → fval x == fval y.
Proof. intros [->|(s&t&->&->)]%fequiv_cases; reflexivity. Qed.

Lemma klt_total a b : klt a b ∨ a = b ∨ klt b a.
Proof.
  destruct a as [[a1 a2] a3], b as [[b1 b2] b3]. unfold klt.
  destruct (Z.lt_trichotomy a1 b1) as [|[->|]], (Z.lt_trichotomy a2 b2) as [|[->|]],
    (Z.lt_trichotomy a3 b3) as [|[->|]]; auto; (left; lia) || (right; right; lia).
Qed.

Definition finite_valid (x : float64) : Prop :=
  is_finite x = true ∧ valid_binary 53 1024 x = true.

Lemma finite_not_nan x : is_finite x = true → is_nan x = false.
Proof. by destruct x. Qed.

(** On valid finite doubles [<] and [<=] compare the rational values. *)
Lemma flt_fval x y :
  finite_valid x → finite_valid y → (x <? y)%f64 = true ↔ fval x < fval y.
Proof.
  intros [Hfx Hvx] [Hfy Hvy]. rewrite flt_klt. split.
  - intros (Hk & _). by apply klt_fval.
  - intros Hlt. split_and!; [|by apply finite_not_nan..].
    destruct (klt_total (fkey x) (fkey y)) as [?|[He|Hk]]; [done|exfalso..].
    + apply fkey_fval in He. lra.
    + apply klt_fval in Hk; [lra|done..].
Qed.

Lemma fle_fval x y :
  finite_valid x → finite_valid y → (x <=? y)%f64 = true ↔ fval x <= fval y.
Proof.
  intros Hx Hy. pose proof (flt_fval y x Hy Hx) as Hlt.
  rewrite fle_not_flt, negb_true_iff, <- not_true_iff_false, Hlt
    by (apply finite_not_nan, Hx || apply finite_not_nan, Hy).
  split; [apply Qnot_lt_le|apply Qle_not_lt].
Qed.

Lemma f64_of_Z_finite_valid z : (Z.abs z <= 2 ^ 53)%Z → finite_valid (f64_of_Z z).
Proof. intros. split; [by apply f64_of_Z_exact|apply f64_of_Z_valid]. Qed.

Lemma f64_of_i32 z :
  in_i32 z → finite_valid (f64_of_Z z) ∧ fval (f64_of_Z z) == inject_Z z.
Proof.
  intros. assert (Z.abs z <= 2 ^ 53)%Z by int_lia.
  split; [by apply f64_of_Z_finite_valid|by apply f64_of_Z_exact].
Qed.

(** ** Positive doubles: doubling and halving *)

(** Valid doubles of the same value have the same key; positive ones are equal. *)
Lemma fval_fkey x y : finite_valid x → finite_valid y → fval x == fval y → fkey x = fkey y.
Proof.
  intros [Hfx Hvx] [Hfy Hvy] He.
  destruct (klt_total (fkey x) (fkey y)) as [Hk|[Hk|Hk]]; [exfalso|done|exfalso];
    apply klt_fval in Hk; (done || lra).
Qed.

Lemma fkey_pos_eq x y : 0 < fval x → fkey x = fkey y → x = y.
Proof.
  intros Hx [->|(s&t&->&->)]%fequiv_cases; [done|]. simpl in Hx. by apply Qlt_irrefl in Hx.
Qed.

Lemma representable_finite_valid x :
  finite_valid x → representable (fmag x).
Proof.
  intros [Hf Hv]. destruct x as [s|s| |s m e]; try done; simpl.
  - exists 0%Z, 0%Z. split_and!; [lia..|ring].
  - apply valid_mantissa in Hv. exists (Zpos m), e. split_and!; [lia..|reflexivity].
Qed.

Lemma representable_double q : representable q → representable (2 * q).
Proof.
  intros (j & f & ? & ? & Hq). exists j, (f + 1)%Z. split_and!; [lia..|]. rewrite Hq, pow2_succ. ring.
Qed.

Lemma shl_align_value m e e' :
  (e' <= e)%Z → inject_Z (Zpos (shl_align m e e').1) * pow2 e' == inject_Z (Zpos m) * pow2 e.
Proof.
  intros. unfold shl_align. destruct (e' - e)%Z as [|d|d] eqn:E; [|lia|]; simpl.
  - by replace e' with e by lia.
  - rewrite Pos_iter_xO, inject_Z_mult, pow2_Z, <- Qmult_assoc, <- pow2_plus by lia.
    by replace (Zpos d + e')%Z with e by lia.
Qed.

#[export] Instance rounds_proper s : Proper (Qeq ==> eq ==> iff) (rounds s).
Proof.
  intros x x' Hx ? r ->. unfold rounds, rounded. by setoid_rewrite Hx.
Qed.

(** The sum of two positive doubles is the correctly rounded sum. *)
Lemma fadd_rounds m1 e1 m2 e2 :
  rounds false (inject_Z (Zpos m1) * pow2 e1 + inject_Z (Zpos m2) * pow2 e2)
    (S754_finite false m1 e1 + S754_finite false m2 e2)%f64.
Proof.
  unfold fadd, SFadd. set (ez := Z.min e1 e2).
  rewrite <- (shl_align_value m1 e1 ez), <- (shl_align_value m2 e2 ez) by lia.
  simpl cond_Zopp. rewrite <- Qmult_plus_distr_l, <- inject_Z_plus.
  apply binary_round_rounds.
Qed.

(** A valid positive double, seen through its mantissa and exponent. *)
Lemma positive_shape v :
  finite_valid v → 0 < fval v → ∃ m e, v = S754_finite false m e.
Proof.
  intros [Hf _] Hp. destruct v as [s|s| |[] m e]; try done; simpl in Hp; eauto.
  pose proof (dyadic_pos m e). rewrite smant_neg in Hp. lra.
Qed.

Lemma f2_shape : ∃ m e, f2 = S754_finite false m e ∧ inject_Z (Zpos m) * pow2 e == 2.
Proof.
  exists 4503599627370496%positive, (-51)%Z. split; [by vm_compute|].
  change (Zpos 4503599627370496) with (2 * 2 ^ 51)%Z.
  rewrite inject_Z_mult, pow2_Z, <- Qmult_assoc, <- pow2_plus by lia.
  by rewrite pow2_0.
Qed.

(** A rounded positive magnitude caught between representable bounds. *)
Lemma rounds_between x r lo hi :
  rounds false x r → representable lo → representable hi → lo <= x -> x <= hi →
  hi < pow2 1024 → finite_valid r ∧ lo <= fval r <= hi.
Proof.
  intros Hr Hlo Hhi H1 H2 Hmax.
  destruct (rounds_le _ _ _ _ Hr Hhi H2 Hmax) as (Hf & _ & Hle).
  pose proof (rounds_ge _ _ _ _ Hr Hlo H1 Hf) as Hge.
  rewrite fval_fmag by (done || by eapply rounds_signbit).
  split; [split; [done|by eapply rounds_valid]|done].
Qed.

(** The average of two positive doubles lies between them. *)
Lemma average_between a b :
  finite_valid a → finite_valid b → 0 < fval a → fval a <= fval b →
  2 * fval b < pow2 1024 →
  finite_valid ((a + b) / f2)%f64 ∧ fval a <= fval ((a + b) / f2)%f64 <= fval b.
Proof.
  intros Ha Hb Hpa Hab Hmax.
  assert (0 < fval b) as Hpb by lra.
  pose proof (representable_finite_valid a Ha) as Hra.
  pose proof (representable_finite_valid b Hb) as Hrb.
  destruct (positive_shape a Ha Hpa) as (m1 & e1 & ->).
  destruct (positive_shape b Hb Hpb) as (m2 & e2 & ->). cbn [fval fmag smant] in *.
  destruct (rounds_between _ _ _ _ (fadd_rounds m1 e1 m2 e2)
    (representable_double _ Hra) (representable_double _ Hrb)) as (Hs & Hs1 & Hs2);
    [lra..|].
  destruct (positive_shape _ Hs ltac:(lra)) as (m3 & e3 & Heq).
  destruct f2_shape as (m & e & -> & H2). rewrite Heq in *. cbn [fval smant] in Hs1, Hs2.
  pose proof (fdiv_rounds false m3 e3 false m e) as Hd. rewrite H2 in Hd. simpl xorb in Hd.
  apply (rounds_between _ _ _ _ Hd Hra Hrb); [|apply Qle_shift_div_r; lra|lra].
  apply Qle_shift_div_l; lra.
Qed.

(** The average of a positive double with itself is itself. *)
Lemma average_self v :
  finite_valid v → 0 < fval v → 2 * fval v < pow2 1024 → ((v + v) / f2)%f64 = v.
Proof.
  intros Hv Hpos Hmax.
  destruct (average_between v v Hv Hv Hpos (Qle_refl _) Hmax) as (Ha & H1 & H2).
  symmetry. apply fkey_pos_eq; [done|]. apply fval_fkey; [done..|lra].
Qed.
