(* ===== verification/FloatBound.v ===== *)
(** * Bounds on double arithmetic

    Magnitudes below powers of two, carried through sums, differences, products and
    quotients: the results stay finite as long as the bounds are in range.  And what can
    overflow is still never a NaN. *)
From S2P Require Import Prelude Float64 FloatOrder FloatRound.
From Stdlib Require Import SpecFloat QArith Lqa.
#[local] Open Scope Q_scope.

(** [x] is finite and at most [2^k] in magnitude. *)
Definition mag (k : Z) (x : float64) : Prop := finite_valid x ∧ fmag x <= pow2 k.

Lemma mag_finite k x : mag k x → is_finite x = true.
Proof. by intros [[] _]. Qed.

Lemma mag_mono k l x : mag k x → (k <= l)%Z → mag l x.
Proof. intros [Hx Hk] Hl. split; [done|]. eapply Qle_trans; [exact Hk|by apply pow2_le]. Qed.

Lemma representable_pow2 k : (-1074 <= k)%Z → representable (pow2 k).
Proof. intros. exists 1%Z, k. split_and!; [lia..|]. change (inject_Z 1) with 1. ring. Qed.

Lemma pow2_lt a b : (a < b)%Z → pow2 a < pow2 b.
Proof.
  intros. assert (pow2 (a + 1) <= pow2 b) as H' by (apply pow2_le; lia).
  rewrite pow2_succ in H'. pose proof (pow2_pos a). lra.
Qed.

(** A rounded magnitude of at most [2^k]. *)
Lemma rounds_mag s x r k :
  rounds s x r → x <= pow2 k → (-1074 <= k < 1024)%Z → mag k r.
Proof.
  intros Hr Hx Hk. destruct (rounds_le _ _ _ _ Hr (representable_pow2 k ltac:(lia)) Hx) as (Hf & _ & Hm).
  { apply pow2_lt. lia. }
  split; [|done]. split; [done|]. by eapply rounds_valid.
Qed.

Lemma rounds_not_nan s x r : rounds s x r → is_nan r = false.
Proof. intros (k & e' & _ & Hp). by destruct r. Qed.

Lemma normalize_not_nan m e sz : is_nan (binary_normalize 53 1024 m e sz) = false.
Proof.
  destruct (binary_normalize_rounds m e sz) as [[_ ->]|[_ Hr]]; [done|]. by eapply rounds_not_nan.
Qed.

(** [x] is finite and at most [B] in magnitude, for bounds that are no powers of two. *)
Definition within (B : Q) (x : float64) : Prop := finite_valid x ∧ fmag x <= B.

Lemma within_mono A B x : within A x → A <= B → within B x.
Proof. intros [Hx HA] HB. split; [done|]. by eapply Qle_trans. Qed.

Lemma within_0_le B x : within B x → 0 <= B.
Proof.
  intros [_ HB]. eapply Qle_trans; [|exact HB]. destruct x as [s|s| |s m e]; simpl; try done.
  apply Qlt_le_weak, dyadic_pos.
Qed.

Lemma zero_within B s : 0 <= B → within B (S754_zero s).
Proof. by split. Qed.

(** Rounding respects bounds that are doubles. *)
Lemma rounds_within s x r B :
  rounds s x r → x <= B → representable B → B < pow2 1024 → within B r.
Proof.
  intros Hr Hx HB Hmax. destruct (rounds_le _ _ _ _ Hr HB Hx Hmax) as (Hf & _ & Hm).
  split; [|done]. split; [done|]. by eapply rounds_valid.
Qed.

Lemma normalize_within m e sz B :
  inject_Z (Z.abs m) * pow2 e <= B → representable B → B < pow2 1024 →
  within B (binary_normalize 53 1024 m e sz).
Proof.
  intros Hm HB Hmax. destruct (binary_normalize_rounds m e sz) as [[-> ->]|[_ Hr]].
  - apply zero_within. change (inject_Z (Z.abs 0)) with 0 in Hm. lra.
  - by eapply rounds_within.
Qed.

Lemma zero_mag k s : mag k (S754_zero s).
Proof. split; [done|]. simpl. pose proof (pow2_pos k). lra. Qed.

Lemma normalize_mag m e sz k :
  inject_Z (Z.abs m) * pow2 e <= pow2 k → (-1074 <= k < 1024)%Z → mag k (binary_normalize 53 1024 m e sz).
Proof.
  intros Hm Hk. apply normalize_within; [done|apply representable_pow2; lia|apply pow2_lt; lia].
Qed.

(** ** Sums *)

Lemma cond_Zopp_abs s z : Z.abs (cond_Zopp s z) = Z.abs z.
Proof. destruct s; simpl; lia. Qed.

(** The exact sum of two doubles, aligned, is at most the sum of their magnitudes. *)
Lemma aligned_sum s1 m1 e1 s2 m2 e2 :
  inject_Z (Z.abs (cond_Zopp s1 (Zpos (shl_align m1 e1 (Z.min e1 e2)).1) +
                   cond_Zopp s2 (Zpos (shl_align m2 e2 (Z.min e1 e2)).1))) * pow2 (Z.min e1 e2) <=
  inject_Z (Zpos m1) * pow2 e1 + inject_Z (Zpos m2) * pow2 e2.
Proof.
  set (ez := Z.min e1 e2). set (a := (shl_align m1 e1 ez).1). set (b := (shl_align m2 e2 ez).1).
  rewrite <- (shl_align_value m1 e1 ez), <- (shl_align_value m2 e2 ez) by lia. fold a b.
  rewrite <- Qmult_plus_distr_l, <- inject_Z_plus.
  apply Qmult_le_compat_r; [|apply Qlt_le_weak, pow2_pos]. rewrite <- Zle_Qle.
  pose proof (Z.abs_triangle (cond_Zopp s1 (Zpos a)) (cond_Zopp s2 (Zpos b))) as Ht.
  rewrite !cond_Zopp_abs in Ht. lia.
Qed.

Lemma fadd_within A B C x y :
  within A x → within B y → A + B <= C → representable C → C < pow2 1024 → within C (x + y)%f64.
Proof.
  intros Hx Hy HC Hr Hmax. pose proof (within_0_le _ _ Hx). pose proof (within_0_le _ _ Hy).
  assert (within C x ∧ within C y) as [Hx' Hy'] by (split; eapply within_mono; eauto; lra).
  destruct Hx as [[Hfx _] Hx], Hy as [[Hfy _] Hy].
  destruct x as [s1|s1| |s1 m1 e1], y as [s2|s2| |s2 m2 e2]; try done; unfold fadd, SFadd.
  - destruct s1, s2; apply zero_within; lra.
  - apply normalize_within; [|done..]. eapply Qle_trans; [apply aligned_sum|]. simpl in *. lra.
Qed.

Lemma fadd_mag k l x y :
  mag k x → mag l y → (-1074 <= Z.max k l < 1023)%Z → mag (Z.max k l + 1) (x + y)%f64.
Proof.
  intros Hx Hy Hkl. apply (fadd_within (pow2 k) (pow2 l));
    [done|done| |apply representable_pow2; lia|apply pow2_lt; lia].
  rewrite pow2_succ. pose proof (pow2_le k (Z.max k l) ltac:(lia)). pose proof (pow2_le l (Z.max k l) ltac:(lia)). lra.
Qed.

(** Adding something does not make a sum smaller. *)
Lemma fadd_grows x y :
  finite_valid x → finite_valid y → signbit x = false → signbit y = false →
  is_finite (x + y)%f64 = true → signbit (x + y)%f64 = false ∧ fmag x <= fmag (x + y)%f64.
Proof.
  intros Hx [Hfy _] Hsx Hsy Hf. pose proof (representable_finite_valid x Hx) as Hrep. destruct Hx as [Hfx _].
  destruct x as [[]|s1| |[] m1 e1], y as [[]|s2| |[] m2 e2]; try done.
  - split; [done|]. simpl. apply Qlt_le_weak, dyadic_pos.
  - split; [done|]. simpl. lra.
  - pose proof (fadd_rounds m1 e1 m2 e2) as Hr. split; [by eapply rounds_signbit|].
    eapply (rounds_ge _ _ _ _ Hr Hrep); [|done]. simpl. pose proof (dyadic_pos m2 e2). lra.
Qed.

Lemma fneg_mag k x : mag k x → mag k (fneg x).
Proof. intros [[Hf Hv] Hm]. by destruct x. Qed.

Lemma fsub_neg x y : is_finite x = true → is_finite y = true → fsub x y = fadd x (fneg y).
Proof.
  destruct x as [s1|s1| |s1 m1 e1], y as [s2|s2| |s2 m2 e2]; try done; intros _ _.
  - by destruct s1, s2.
  - unfold fsub, fadd, SFsub, SFadd. simpl. by destruct s2.
Qed.

Lemma fsub_mag k l x y :
  mag k x → mag l y → (-1074 <= Z.max k l < 1023)%Z → mag (Z.max k l + 1) (x - y)%f64.
Proof.
  intros Hx Hy Hkl. rewrite fsub_neg by (by eapply mag_finite). by apply fadd_mag; [|apply fneg_mag|].
Qed.

(** A sum with a finite term is never a NaN. *)
Lemma fadd_not_nan x y : is_finite x = true → is_nan y = false → is_nan (x + y)%f64 = false.
Proof.
  destruct x as [s1|s1| |s1 m1 e1], y as [s2|s2| |s2 m2 e2]; try done; intros _ _.
  - by destruct s1, s2.
  - apply normalize_not_nan.
Qed.
Lemma fadd_not_nan' x y : is_nan x = false → is_finite y = true → is_nan (x + y)%f64 = false.
Proof.
  destruct x as [s1|s1| |s1 m1 e1], y as [s2|s2| |s2 m2 e2]; try done; intros _ _.
  - by destruct s1, s2.
  - apply normalize_not_nan.
Qed.

(** ** Products and quotients *)

Lemma fmul_rounds s1 m1 e1 s2 m2 e2 :
  bounded 53 1024 m1 e1 = true → bounded 53 1024 m2 e2 = true →
  rounds (xorb s1 s2) (inject_Z (Zpos m1) * pow2 e1 * (inject_Z (Zpos m2) * pow2 e2))
    (S754_finite s1 m1 e1 * S754_finite s2 m2 e2)%f64.
Proof.
  intros H1 H2. unfold fmul, SFmul. apply binary_round_aux_ok.
  - split; [done|]. cbn. rewrite Pos2Z.inj_mul, inject_Z_mult.
    pose proof (pow2_cancel (e1 + e2)) as Hc. rewrite (pow2_plus e1 e2) in *.
    transitivity (inject_Z (Zpos m1) * inject_Z (Zpos m2) * (pow2 (- (e1 + e2)) * (pow2 e1 * pow2 e2)));
      [ring|]. rewrite Hc. ring.
  - rewrite fexp_eq. unfold bounded, canonical_mantissa in *.
    rewrite andb_true_iff, Z.eqb_eq, fexp_eq in H1, H2. destruct H1 as [H1 _], H2 as [H2 _].
    destruct (decide (e1 + e2 <= -1074)%Z) as [|Hgt]; [lia|].
    assert (53 <= Zdigits2 (Zpos (m1 * m2)))%Z; [|lia].
    replace 53%Z with (52 + 1)%Z by lia. apply Zdigits2_ge; [lia|]. rewrite Pos2Z.inj_mul.
    destruct (digits2_pos_bounds m1) as [L1 _], (digits2_pos_bounds m2) as [L2 _].
    assert (Zpos (digits2_pos m1) = 53 ∨ Zpos (digits2_pos m2) = 53)%Z as [E|E] by lia;
      rewrite E in *; nia.
Qed.

Lemma fmul_mag k l x y :
  mag k x → mag l y → (-1074 <= k + l < 1024)%Z → mag (k + l) (x * y)%f64.
Proof.
  intros [[Hfx Hvx] Hx] [[Hfy Hvy] Hy] Hkl.
  destruct x as [s1|s1| |s1 m1 e1], y as [s2|s2| |s2 m2 e2]; try done; try apply zero_mag.
  eapply rounds_mag; [by apply fmul_rounds| |done]. simpl in *. rewrite pow2_plus.
  apply Qmult_le_compat_nonneg; (split; [|done]); apply Qlt_le_weak, dyadic_pos.
Qed.

Lemma fmul_not_nan x y : finite_valid x → finite_valid y → is_nan (x * y)%f64 = false.
Proof.
  intros [Hfx Hvx] [Hfy Hvy].
  destruct x as [s1|s1| |s1 m1 e1], y as [s2|s2| |s2 m2 e2]; try done.
  eapply rounds_not_nan. by apply fmul_rounds.
Qed.

Lemma fmul_ge c d x y :
  finite_valid x → finite_valid y → 0 < c → 0 < d → c <= fmag x → d <= fmag y → representable (c * d) →
  is_finite (x * y)%f64 = true → c * d <= fmag (x * y)%f64.
Proof.
  intros [Hfx Hvx] [Hfy Hvy] Hc Hd Hx Hy Hr Hf.
  destruct x as [s1|s1| |s1 m1 e1], y as [s2|s2| |s2 m2 e2]; try done; simpl in Hx, Hy; try lra.
  eapply (rounds_ge _ _ _ _ (fmul_rounds s1 m1 e1 s2 m2 e2 Hvx Hvy) Hr); [|done].
  apply Qmult_le_compat_nonneg; split; lra.
Qed.

Lemma fdiv_within A B c x y :
  within A x → finite_valid y → 0 < c → c <= fmag y → A <= B * c → representable B → B < pow2 1024 →
  within B (x / y)%f64.
Proof.
  intros Hx [Hfy Hvy] Hc Hy HB Hr Hmax. pose proof (within_0_le _ _ Hx). destruct Hx as [[Hfx Hvx] Hx].
  destruct y as [s2|s2| |s2 m2 e2]; try done; simpl in Hy; try lra.
  destruct x as [s1|s1| |s1 m1 e1]; try done; try (apply zero_within; nra).
  eapply rounds_within; [by apply fdiv_rounds| |done|done]. simpl in *.
  pose proof (dyadic_pos m2 e2). apply Qle_shift_div_r; [done|]. nra.
Qed.

Lemma fdiv_ge c x y :
  finite_valid x → finite_valid y → 0 < c → 0 < fmag y → c * fmag y <= fmag x → representable c →
  is_finite (x / y)%f64 = true → c <= fmag (x / y)%f64.
Proof.
  intros [Hfx Hvx] [Hfy Hvy] Hc Hy Hxy Hr Hf.
  destruct y as [s2|s2| |s2 m2 e2]; try done; simpl in Hy; try lra.
  destruct x as [s1|s1| |s1 m1 e1]; try done; simpl in Hxy; try nra.
  eapply (rounds_ge _ _ _ _ (fdiv_rounds s1 m1 e1 s2 m2 e2) Hr); [|done]. simpl in *.
  by apply Qle_shift_div_l.
Qed.

Lemma fdiv_mag k l x y :
  mag k x → mag l y → 1 <= fmag y → (-1074 <= k < 1024)%Z → mag k (x / y)%f64.
Proof.
  intros Hx [Hy _] Hy1 Hk. apply (fdiv_within (pow2 k) (pow2 k) 1);
    [done|done|done|done|lra|apply representable_pow2; lia|apply pow2_lt; lia].
Qed.

(** ** Sums of a list *)

Lemma representable_multiple j k :
  (0 <= j <= 2 ^ 53)%Z → (-1074 <= k)%Z → representable (inject_Z j * pow2 k).
Proof. intros. exists j, k. split_and!; [lia..|reflexivity]. Qed.

Lemma multiple_le j k l : (j <= 2 ^ l)%Z → (0 <= l)%Z → inject_Z j * pow2 k <= pow2 (l + k).
Proof.
  intros Hj Hl. rewrite pow2_plus. apply Qmult_le_compat_r; [|apply Qlt_le_weak, pow2_pos].
  rewrite <- pow2_Z, <- Zle_Qle by done. done.
Qed.

(** The magnitude of a sum grows linearly with the number of its terms. *)
Lemma fold_fadd_within {T} (g : T → float64) k l acc c :
  Forall (λ t, mag k (g t)) l → within (inject_Z c * pow2 k) acc →
  (0 <= c)%Z → (c + Z.of_nat (length l) <= 2 ^ 53)%Z → (-1074 <= k < 971)%Z →
  within (inject_Z (c + Z.of_nat (length l)) * pow2 k) (fold_left (λ a t, a + g t)%f64 l acc).
Proof.
  intros Hl. revert acc c. induction Hl as [|t l Ht _ IH]; intros acc c Hacc Hc Hlen Hk; simpl.
  { by rewrite Z.add_0_r. }
  simpl length in Hlen. replace (c + Z.of_nat (S (length l)))%Z with (c + 1 + Z.of_nat (length l))%Z by lia.
  apply IH; [|lia..]. apply (fadd_within (inject_Z c * pow2 k) (pow2 k)); [done|done| | |].
  - rewrite inject_Z_plus. change (inject_Z 1) with 1. lra.
  - apply representable_multiple; lia.
  - eapply Qle_lt_trans; [apply (multiple_le _ _ 53); lia|apply pow2_lt; lia].
Qed.

(** ** Constants and integers *)

(** A magnitude that evaluates. *)
Definition mag_b (k : Z) (x : float64) : bool :=
  match x with
  | S754_zero _ => true
  | S754_finite s m e =>
      bounded 53 1024 m e &&
      (if decide (e <= k)%Z then bool_decide (Zpos m <= 2 ^ (k - e))%Z
       else if decide (k < e)%Z then bool_decide (Zpos m * 2 ^ (e - k) <= 1)%Z else false)
  | _ => false
  end.

Lemma mag_b_ok k x : mag_b k x = true → mag k x.
Proof.
  destruct x as [s|s| |s m e]; try done; [intros; apply zero_mag|].
  simpl. intros [Hb Hk]%andb_true_iff. split; [done|]. simpl.
  assert (pow2 k == pow2 (k - e) * pow2 e) as -> by (rewrite <- pow2_plus; by replace (k - e + e)%Z with k by lia).
  apply Qmult_le_compat_r; [|apply Qlt_le_weak, pow2_pos].
  case_decide as Hle.
  - apply bool_decide_eq_true in Hk. rewrite <- pow2_Z by lia. by rewrite <- Zle_Qle.
  - case_decide; [|done]. apply bool_decide_eq_true in Hk.
    pose proof (Z.pow_pos_nonneg 2 (e - k) ltac:(lia) ltac:(lia)).
    pose proof (Z.pow_gt_1 2 (e - k) ltac:(lia)). nia.
Qed.

Lemma f64_of_Z_mag z k : (Z.abs z <= 2 ^ k)%Z → (0 <= k <= 53)%Z → mag k (f64_of_Z z).
Proof.
  intros Hz Hk. unfold f64_of_Z. apply normalize_mag; [|lia].
  rewrite pow2_0, Qmult_1_r, <- pow2_Z, <- Zle_Qle by lia. done.
Qed.

(** The integer part of a magnitude. *)
Lemma ftruncZ_mag k x : mag k x → (0 <= k)%Z → ∃ z, ftruncZ x = Some z ∧ (Z.abs z <= 2 ^ k)%Z.
Proof.
  intros [[Hf Hv] Hm] Hk. destruct x as [s|s| |s m e]; try done; simpl in *.
  - exists 0%Z. split; [done|]. simpl. pose proof (Z.pow_pos_nonneg 2 k). lia.
  - eexists. split; [done|]. assert (Z.abs (smant s m) = Zpos m) as Hs by (by destruct s).
    case_decide as He.
    + rewrite Z.abs_mul, Hs, (Z.abs_eq (2 ^ e)) by (apply Z.pow_nonneg; lia).
      rewrite <- (pow2_Z e), <- (pow2_Z k), <- inject_Z_mult, <- Zle_Qle in Hm by lia. done.
    + assert (Zpos m <= 2 ^ k * 2 ^ (- e))%Z as Hle.
      { rewrite Zle_Qle, inject_Z_mult, !pow2_Z by lia.
        assert (inject_Z (Zpos m) == inject_Z (Zpos m) * pow2 e * pow2 (- e)) as ->.
        { rewrite <- Qmult_assoc, <- pow2_plus, Z.add_opp_diag_r, pow2_0. ring. }
        apply Qmult_le_compat_r; [done|apply Qlt_le_weak, pow2_pos]. }
      pose proof (Z.pow_pos_nonneg 2 (- e) ltac:(lia) ltac:(lia)) as Hp.
      rewrite <- Z.quot_abs, Hs, Z.quot_div_nonneg by lia. rewrite (Z.abs_eq (2 ^ (- e))) by lia.
      apply Z.div_le_upper_bound; lia.
Qed.

Lemma fval_le_mag x : fval x <= fmag x.
Proof.
  destruct x as [s|s| |[] m e]; simpl; try lra. rewrite smant_neg. pose proof (dyadic_pos m e). lra.
Qed.

(** Bounds of compound expressions, from those of their leaves. *)
Ltac mag_bound :=
  lazymatch goal with
  | |- mag _ (fadd _ _) => eapply fadd_mag; [mag_bound|mag_bound|lia]
  | |- mag _ (fsub _ _) => eapply fsub_mag; [mag_bound|mag_bound|lia]
  | |- mag _ (fmul _ _) => eapply fmul_mag; [mag_bound|mag_bound|lia]
  | |- mag _ ?x =>
      first [is_var x; eassumption | apply (mag_b_ok 0); vm_compute; reflexivity
            | apply (mag_b_ok 3); vm_compute; reflexivity | eassumption]
  end.
