(* ===== verification/Heap.v ===== *)
(** * Go's memory

    Pointers, typed cells and slices, for the code whose point is which cells a value
    shares with another: allocation, loads and stores in an error monad (a nil or ill-typed
    access panics), what it means that a value in memory represents one of the model's, and
    copies that share nothing with their original. *)
From S2P Require Import Prelude.

Abbreviation loc := positive.
Abbreviation Heap := (gmap loc).

(** A computation panics or ends with a result and the memory. *)
Definition HeapM (C A : Type) : Type := Heap C → option (A * Heap C).
#[export] Instance heap_ret {C} : MRet (HeapM C) := λ A a h, Some (a, h).
#[export] Instance heap_bind {C} : MBind (HeapM C) := λ A B f m h, '(a, h) ← m h; f a h.

(** The values a cell can hold, among the cells' contents [C]; Go's zero values. *)
Class Stored (C A : Type) := {
  to_cell : A → C;
  of_cell : C → option A;
  of_to_cell a : of_cell (to_cell a) = Some a;
}.
Class Zero (A : Type) := zero : A.

(** A slice: a window on an array; [nil] is no slice. *)
Record Slice := mkSlice { sl_array : loc; sl_offset : nat; sl_len : nat }.

Section memory.
Context {C : Type}.
Implicit Types (h : Heap C) (l : loc).

Definition next_loc h : loc := Pos.succ (map_fold (λ l _ m, Pos.max l m) 1%positive h).

Definition alloc {A} `{!Stored C A} (a : A) : HeapM C loc :=
  λ h, let l := next_loc h in Some (l, <[ l := to_cell a ]> h).
(** [new(T)] and [make([]T, n)] *)
Definition new {A} `{!Stored C A, !Zero A} : HeapM C loc := alloc (zero : A).
Definition make_slice {A} `{!Stored C (list A), !Zero A} (n : nat) : HeapM C Slice :=
  l ← alloc (replicate n (zero : A)); mret (mkSlice l 0 n).

Definition load {A} `{!Stored C A} l : HeapM C A := λ h, a ← h !! l ≫= of_cell; Some (a, h).
(** A store keeps the type of the cell. *)
Definition store {A} `{!Stored C A} l (a : A) : HeapM C () :=
  λ h, _ ← h !! l ≫= of_cell (A := A); Some ((), <[ l := to_cell a ]> h).

Definition panic {A} : HeapM C A := λ _, None.
Definition nonnil {A} (o : option A) : HeapM C A := match o with Some a => mret a | None => panic end.

Definition slice_read {A} `{!Stored C (list A)} (s : Slice) : HeapM C (list A) :=
  arr ← load (A := list A) (sl_array s);
  if decide (sl_offset s + sl_len s ≤ length arr)%nat
  then mret (take (sl_len s) (drop (sl_offset s) arr)) else panic.
Definition slice_get {A} `{!Stored C (list A)} (s : Slice) (i : nat) : HeapM C A :=
  els ← slice_read s; nonnil (els !! i).
Definition slice_set {A} `{!Stored C (list A)} (s : Slice) (i : nat) (a : A) : HeapM C () :=
  arr ← load (A := list A) (sl_array s);
  if decide (i < sl_len s ∧ sl_offset s + sl_len s ≤ length arr)%nat
  then store (sl_array s) (<[ (sl_offset s + i)%nat := a ]> arr) else panic.
(** [copy(dst, src)] of two slices of different arrays. *)
Definition slice_copy {A} `{!Stored C (list A)} (dst src : Slice) : HeapM C () :=
  els ← slice_read src;
  arr ← load (A := list A) (sl_array dst);
  let n := min (sl_len dst) (length els) in
  store (sl_array dst) (take (sl_offset dst) arr ++ take n els ++ drop (sl_offset dst + n) arr).

(** ** Rules *)

(** [m] does not panic, and ends in [Q]. *)
Definition hwp {A} (m : HeapM C A) h (Q : A → Heap C → Prop) : Prop :=
  ∃ a h', m h = Some (a, h') ∧ Q a h'.

Lemma hwp_ret {A} (a : A) h (Q : A → Heap C → Prop) : Q a h → hwp (mret a) h Q.
Proof. intros HQ. by exists a, h. Qed.

Lemma hwp_bind {A B} (m : HeapM C A) (f : A → HeapM C B) h Q :
  hwp m h (λ a h', hwp (f a) h' Q) → hwp (m ≫= f) h Q.
Proof.
  intros (a & h' & Hm & b & h'' & Hf & HQ). exists b, h''. split; [|done].
  unfold mbind, heap_bind. by rewrite Hm.
Qed.

Lemma hwp_mono {A} (m : HeapM C A) h (P Q : A → Heap C → Prop) :
  hwp m h P → (∀ a h', P a h' → Q a h') → hwp m h Q.
Proof. intros (a & h' & Hm & HP) H. exists a, h'. auto. Qed.

Lemma next_loc_fresh h : h !! next_loc h = None.
Proof.
  destruct (h !! next_loc h) as [c|] eqn:E; [exfalso|done].
  assert (∀ l c, h !! l = Some c → (l <= map_fold (λ l _ m, Pos.max l m) 1 h)%positive) as Hle.
  { apply (map_fold_weak_ind (λ m h, ∀ l c, h !! l = Some c → (l <= m)%positive)).
    - intros l d. by rewrite lookup_empty.
    - intros k x h' m Hk IH l d [[-> ->]|[Hne Hl]]%lookup_insert_Some; [lia|]. specialize (IH _ _ Hl). lia. }
  apply Hle in E. unfold next_loc in E. lia.
Qed.

Lemma hwp_alloc {A} `{!Stored C A} (a : A) h Q :
  (∀ l, h !! l = None → Q l (<[ l := to_cell a ]> h)) → hwp (alloc a) h Q.
Proof. intros HQ. exists (next_loc h), (<[ next_loc h := to_cell a ]> h). split; [done|]. apply HQ, next_loc_fresh. Qed.

Lemma hwp_load {A} `{!Stored C A} l (a : A) h Q :
  h !! l = Some (to_cell a) → Q a h → hwp (load l) h Q.
Proof. intros Hl HQ. exists a, h. split; [|done]. unfold load. rewrite Hl. simpl. by rewrite of_to_cell. Qed.

Lemma hwp_store {A} `{!Stored C A} l (a b : A) h (Q : () → Heap C → Prop) :
  h !! l = Some (to_cell b) → Q () (<[ l := to_cell a ]> h) → hwp (store l a) h Q.
Proof.
  intros Hl HQ. exists (), (<[ l := to_cell a ]> h). split; [|done].
  unfold store. rewrite Hl. simpl. by rewrite of_to_cell.
Qed.
End memory.

Lemma heap_bind_Some {C A B} (m : HeapM C A) (f : A → HeapM C B) h b h' :
  (m ≫= f) h = Some (b, h') → ∃ a h1, m h = Some (a, h1) ∧ f a h1 = Some (b, h').
Proof. intros ([a h1] & Hm & Hf)%bind_Some. by exists a, h1. Qed.

(** ** Representation *)

(** [R h v a D]: in [h] the Go value [v] represents the value [a] of the model, and every
    cell this takes is in [D]. *)
Definition Repr (C T A : Type) : Type := Heap C → T → A → gset loc → Prop.

(** Only the cells of [D] matter. *)
Class Framed {C T A} (R : Repr C T A) : Prop :=
  framed h h' v a D D' :
    R h v a D → (∀ l c, l ∈ D → h !! l = Some c → h' !! l = Some c ∧ l ∈ D') → R h' v a D'.

(** What is in [h'] and was not in [h]. *)
Definition fresh_in {C} (h h' : Heap C) : gset loc := dom h' ∖ dom h.

(** A computation that represents [a] in new cells alone, and leaves the others as they
    were: total, so that it panics nowhere. *)
Definition yields {C T A} (R : Repr C T A) (m : HeapM C T) (h0 h : Heap C) (a : A) : Prop :=
  hwp m h (λ v' h', h ⊆ h' ∧ R h' v' a (fresh_in h0 h')).

(** A deep copier, whatever was allocated since the original was made. *)
Class Copier {C T A} (R : Repr C T A) (f : T → HeapM C T) : Prop :=
  copies h0 h v a : h0 ⊆ h → R h0 v a (dom h0) → yields R (f v) h0 h a.

(** A value without pointers. *)
Definition plain {C T} : Repr C T T := λ _ v a _, v = a.
#[export] Instance plain_framed {C T} : Framed (@plain C T).
Proof. by intros h h' v a D D'. Qed.
#[export] Instance plain_copier {C T} : Copier (@plain C T) mret.
Proof. intros h0 h v a Hh ->. by apply hwp_ret. Qed.

Section pointers.
Context {C T A : Type} `{!Stored C T, !Zero T} (R : Repr C T A).

(** A pointer, possibly nil, to a value. *)
Definition points : Repr C (option loc) (option A) := λ h p o D,
  match p, o with
  | None, None => True
  | Some l, Some a => ∃ v, h !! l = Some (to_cell v) ∧ l ∈ D ∧ R h v a D
  | _, _ => False
  end.

(** [if in == nil { return nil }; out := new(T); in.DeepCopyInto(out); return out]; the same
    for the generated code of a pointer field. *)
Definition copy_pointer (into : T → HeapM C T) (p : option loc) : HeapM C (option loc) :=
  match p with
  | None => mret None
  | Some in_ =>
      out ← new (A := T);
      v ← load in_;
      v' ← into v;
      _ ← store out v';
      mret (Some out)
  end.

Lemma copy_pointer_nil into p h p' h' : copy_pointer into p h = Some (p', h') → (p' = None ↔ p = None).
Proof.
  destruct p as [l|]; simpl; [|by intros [= -> _]].
  intros (out & h1 & _ & (v & h2 & _ & (v' & h3 & _ & ([] & h4 & _ & [= <- _])%heap_bind_Some)%heap_bind_Some)%heap_bind_Some)%heap_bind_Some.
  done.
Qed.

#[export] Instance points_framed `{!Framed R} : Framed points.
Proof.
  intros h h' p o D D' Hp Hf. destruct p as [l|], o as [a|]; try done.
  destruct Hp as (v & Hl & HD & Hv). exists v. destruct (Hf l _ HD Hl) as [Hl' HD'].
  split_and!; [done|done|]. by eapply framed.
Qed.
End pointers.

Section frame_lemmas.
Context {C T A : Type} (R : Repr C T A) `{!Framed R}.

Lemma repr_grows h h' v a D : R h v a D → h ⊆ h' → R h' v a D.
Proof. intros Hr Hh. eapply framed; [done|]. intros l c HD Hl. split; [by eapply lookup_weaken|done]. Qed.

Lemma fresh_in_spec (h h' : Heap C) l : l ∈ fresh_in h h' ↔ is_Some (h' !! l) ∧ h !! l = None.
Proof. unfold fresh_in. by rewrite elem_of_difference, elem_of_dom, not_elem_of_dom. Qed.

(** What is represented in [h0] is represented in every later memory. *)
Lemma repr_known (h0 h : Heap C) v a : R h0 v a (dom h0) → h0 ⊆ h → R h v a (dom h).
Proof.
  intros Hr Hh. eapply framed; [exact Hr|]. intros l c _ Hl.
  pose proof (lookup_weaken _ _ _ _ Hl Hh). split; [done|]. by eapply elem_of_dom_2.
Qed.

(** New cells stay new, whatever else is allocated. *)
Lemma repr_fresh h0 h1 h2 v a : R h1 v a (fresh_in h0 h1) → h1 ⊆ h2 → R h2 v a (fresh_in h0 h2).
Proof.
  intros Hr Hh. eapply framed; [done|]. intros l c [_ HD]%fresh_in_spec Hl.
  pose proof (lookup_weaken _ _ _ _ Hl Hh) as Hl2. split; [done|]. apply fresh_in_spec. by split.
Qed.
End frame_lemmas.

#[export] Instance copy_pointer_copier {C T A} `{!Stored C T, !Zero T} (R : Repr C T A) f
  `{!Framed R} `{!Copier R f} : Copier (points R) (copy_pointer f).
Proof.
  intros h0 h p o Hh Hp. destruct p as [l|], o as [a|]; try done; [|by apply hwp_ret].
  destruct Hp as (v & Hl & _ & Hv). unfold yields, copy_pointer.
  apply hwp_bind, hwp_alloc. intros out Hout. set (h1 := <[ out := _ ]> h).
  assert (h ⊆ h1) as Hh1 by (by apply insert_subseteq).
  assert (h0 ⊆ h1) as Hh01 by (by etrans).
  apply hwp_bind. eapply hwp_load; [by eapply lookup_weaken|].
  apply hwp_bind. eapply hwp_mono; [apply (copies h1 h1 v a); [done|by eapply repr_known]|].
  intros v' h2 [Hh2 Hv']. apply hwp_bind.
  assert (h1 !! out = Some (to_cell (zero : T))) as Hout1 by apply lookup_insert_eq.
  eapply hwp_store; [by eapply lookup_weaken|]. apply hwp_ret. split.
  - etrans; [|apply insert_mono, Hh2]. unfold h1. rewrite insert_insert_eq. by apply insert_subseteq.
  - exists v'. rewrite lookup_insert_eq. split_and!; [done| |].
    + apply fresh_in_spec. rewrite lookup_insert_eq. split; [done|]. by eapply lookup_weaken_None.
    + eapply framed; [exact Hv'|]. intros l' c [_ Hl']%fresh_in_spec Hc.
      assert (l' ≠ out) as Hne by congruence.
      split; [by rewrite lookup_insert_ne|]. apply fresh_in_spec. rewrite lookup_insert_ne by done.
      split; [by eexists|]. by eapply lookup_weaken_None.
Qed.

(** ** Slices *)

(** [for i := range ...] over [n] indices from [i]. *)
Fixpoint for_range {C} (i n : nat) (body : nat → HeapM C ()) : HeapM C () :=
  match n with O => mret () | S n => _ ← body i; for_range (S i) n body end.

Lemma hwp_for_range {C} (I : nat → Heap C → Prop) n body :
  ∀ i h, I i h → (∀ j h, (i ≤ j < i + n)%nat → I j h → hwp (body j) h (λ _ h', I (S j) h')) →
  hwp (for_range i n body) h (λ _ h', I (i + n)%nat h').
Proof.
  induction n as [|n IH]; intros i h Hi Hb; simpl.
  - apply hwp_ret. by rewrite Nat.add_0_r.
  - apply hwp_bind. eapply hwp_mono; [apply Hb; [lia|done]|]. intros [] h' Hi'.
    replace (i + S n)%nat with (S i + n)%nat by lia. apply IH; [done|]. intros j h'' Hj. apply Hb. lia.
Qed.

Section slices.
Context {C T A : Type} `{!Stored C (list T), !Zero T} (R : Repr C T A).

Definition window (s : Slice) (arr : list T) : list T := take (sl_len s) (drop (sl_offset s) arr).

(** A slice, possibly nil, of values. *)
Definition slice_of : Repr C (option Slice) (option (list A)) := λ h s o D,
  match s, o with
  | None, None => True
  | Some s, Some l => ∃ arr, h !! sl_array s = Some (to_cell arr) ∧ sl_array s ∈ D ∧
      (sl_offset s + sl_len s ≤ length arr)%nat ∧ Forall2 (λ v a, R h v a D) (window s arr) l
  | _, _ => False
  end.

#[export] Instance slice_of_framed `{!Framed R} : Framed slice_of.
Proof.
  intros h h' s o D D' Hp Hf. destruct s as [s|], o as [l|]; try done.
  destruct Hp as (arr & Hl & HD & Hlen & Hv). exists arr. destruct (Hf _ _ HD Hl) as [Hl' HD'].
  split_and!; [done|done|done|]. eapply Forall2_impl; [exact Hv|]. intros v a Hr.
  eapply framed; [exact Hr|exact Hf].
Qed.

(** [make] a slice of the same length and copy the elements one by one. *)
Definition copy_slice (into : T → HeapM C T) (s : option Slice) : HeapM C (option Slice) :=
  match s with
  | None => mret None
  | Some in_ =>
      out ← make_slice (A := T) (sl_len in_);
      _ ← for_range 0 (sl_len in_) (λ i, v ← slice_get in_ i; v' ← into v; slice_set out i v');
      mret (Some out)
  end.

(** The same with [copy], for elements without pointers. *)
Definition copy_slice_flat (s : option Slice) : HeapM C (option Slice) :=
  match s with
  | None => mret None
  | Some in_ =>
      out ← make_slice (A := T) (sl_len in_);
      _ ← slice_copy out in_;
      mret (Some out)
  end.

Lemma window_length s arr : (sl_offset s + sl_len s ≤ length arr)%nat → length (window s arr) = sl_len s.
Proof. intros. unfold window. rewrite length_take, length_drop. lia. Qed.

Lemma hwp_slice_read s arr h Q :
  h !! sl_array s = Some (to_cell arr) → (sl_offset s + sl_len s ≤ length arr)%nat →
  Q (window s arr) h → hwp (slice_read (A := T) s) h Q.
Proof.
  intros Hl Hlen HQ. apply hwp_bind. eapply hwp_load; [exact Hl|]. rewrite decide_True by done. by apply hwp_ret.
Qed.

Lemma hwp_slice_get s arr i v h Q :
  h !! sl_array s = Some (to_cell arr) → (sl_offset s + sl_len s ≤ length arr)%nat →
  window s arr !! i = Some v → Q v h → hwp (slice_get (A := T) s i) h Q.
Proof.
  intros Hl Hlen Hi HQ. apply hwp_bind. eapply hwp_slice_read; [done|done|]. rewrite Hi. by apply hwp_ret.
Qed.

Lemma hwp_slice_set l n arr i v h (Q : () → Heap C → Prop) :
  h !! l = Some (to_cell arr) → (i < n)%nat → length arr = n →
  Q () (<[ l := to_cell (<[ i := v ]> arr) ]> h) → hwp (slice_set (A := T) (mkSlice l 0 n) i v) h Q.
Proof.
  intros Hl Hi Hlen HQ. apply hwp_bind. eapply hwp_load; [exact Hl|]. simpl.
  rewrite decide_True by lia. by eapply hwp_store.
Qed.

Lemma hwp_make_slice n h Q :
  (∀ l, h !! l = None → Q (mkSlice l 0 n) (<[ l := to_cell (replicate n (zero : T)) ]> h)) →
  hwp (make_slice (A := T) n) h Q.
Proof. intros HQ. apply hwp_bind, hwp_alloc. intros l Hl. by apply hwp_ret, HQ. Qed.
End slices.

Lemma plain_list {C T} (h : Heap C) (l k : list T) D : Forall2 (λ v a, plain h v a D) l k ↔ l = k.
Proof. split; [induction 1; by f_equal|intros ->; by apply Forall_Forall2_diag, Forall_true]. Qed.

#[export] Instance copy_slice_flat_copier {C T} `{!Stored C (list T), !Zero T} :
  Copier (slice_of (@plain C T)) copy_slice_flat.
Proof.
  intros h0 h p o Hh Hp. destruct p as [s|], o as [l|]; try done; [|by apply hwp_ret].
  destruct Hp as (arr & Hl & _ & Hlen & Hv).
  assert (window s arr = l) as Hw by (by apply plain_list in Hv). clear Hv.
  unfold yields, copy_slice_flat. apply hwp_bind, hwp_make_slice. intros out Hout. set (h1 := <[ out := _ ]> h).
  assert (h ⊆ h1) as Hh1 by (by apply insert_subseteq).
  assert (h0 !! out = None) as Hout0 by (by eapply lookup_weaken_None).
  apply hwp_bind. unfold slice_copy. apply hwp_bind.
  eapply hwp_slice_read; [eapply lookup_weaken; [exact Hl|by etrans]|done|]. rewrite Hw.
  apply hwp_bind. eapply hwp_load; [apply lookup_insert_eq|]. simpl.
  eapply hwp_store; [apply lookup_insert_eq|]. apply hwp_ret.
  assert (length l = sl_len s) as Hll by (rewrite <- Hw; by apply window_length).
  unfold h1. rewrite insert_insert_eq. split; [by apply insert_subseteq|].
  rewrite Hll, Nat.min_id, firstn_all2, drop_ge, app_nil_r by (rewrite ?length_replicate; lia).
  cbn [take app].
  exists l. simpl. rewrite lookup_insert_eq. split_and!; [done| |lia|].
  - apply fresh_in_spec. rewrite lookup_insert_eq. split; [done|done].
  - unfold window. simpl. rewrite drop_0, firstn_all2 by lia. by apply plain_list.
Qed.

Section copy_slice.
Context {C T A : Type} `{!Stored C (list T), !Zero T} (R : Repr C T A) `{!Framed R}.
Context (f : T → HeapM C T) `{!Copier R f}.

(** The loop after [i] elements: [i] copies, in new cells other than the new array's. *)
Definition copied (h0 : Heap C) (out : loc) (n : nat) (l : list A) (i : nat) (h : Heap C) : Prop :=
  h0 ⊆ h ∧ ∃ vs, length vs = i ∧
    h !! out = Some (to_cell (vs ++ replicate (n - i) (zero : T))) ∧
    Forall2 (λ v a, R h v a (fresh_in h0 h ∖ {[ out ]})) vs (take i l).

Lemma copied_step h0 s arr l out i h :
  h0 !! sl_array s = Some (to_cell arr) → (sl_offset s + sl_len s ≤ length arr)%nat →
  Forall2 (λ v a, R h0 v a (dom h0)) (window s arr) l → h0 !! out = None → (i < sl_len s)%nat →
  copied h0 out (sl_len s) l i h →
  hwp (v ← slice_get (A := T) s i; v' ← f v; slice_set (mkSlice out 0 (sl_len s)) i v') h
    (λ _ h', copied h0 out (sl_len s) l (S i) h').
Proof.
  intros Harr Hlen Hels Hout Hi (Hh & vs & Hvs & Hcell & Hdone).
  pose proof (Forall2_length _ _ _ Hels) as Hll. rewrite window_length in Hll by done.
  destruct (lookup_lt_is_Some_2 (window s arr) i) as [v Hv]; [by rewrite window_length|].
  destruct (Forall2_lookup_l _ _ _ _ _ Hels Hv) as (a & Ha & Hr).
  apply hwp_bind. eapply hwp_slice_get; [by eapply lookup_weaken|done|exact Hv|].
  apply hwp_bind. eapply hwp_mono; [apply (copies h h v a); [done|by eapply repr_known]|].
  intros v' h' [Hh' Hv']. eapply hwp_slice_set; [by eapply lookup_weaken|done| |].
  { rewrite length_app, length_replicate. lia. }
  assert (∀ l' c, h' !! l' = Some c → l' ≠ out → <[ out := to_cell (<[ i := v' ]>
      (vs ++ replicate (sl_len s - i) zero)) ]> h' !! l' = Some c) as Hoth
    by (intros; by rewrite lookup_insert_ne).
  assert (∀ l' c, h' !! l' = Some c → l' ≠ out → h0 !! l' = None →
    l' ∈ fresh_in h0 (<[ out := to_cell (<[ i := v' ]> (vs ++ replicate (sl_len s - i) zero)) ]> h') ∖ {[ out ]})
    as Hnew.
  { intros l' c Hl' Hne Hn. apply elem_of_difference. split; [|set_solver].
    apply fresh_in_spec. rewrite lookup_insert_ne by done. split; [by eexists|done]. }
  split.
  - apply map_subseteq_spec. intros l' c Hl'. rewrite lookup_insert_ne by congruence.
    eapply lookup_weaken; [exact Hl'|]. by etrans.
  - exists (vs ++ [v']). rewrite length_app, lookup_insert_eq. simpl. split_and!; [lia| |].
    + f_equal. f_equal. rewrite insert_app_r_alt, Hvs, Nat.sub_diag by lia.
      replace (sl_len s - i)%nat with (S (sl_len s - S i)) by lia. simpl. by rewrite <- app_assoc.
    + rewrite (take_S_r _ _ a) by done. apply Forall2_app; [|constructor; [|constructor]].
      * eapply Forall2_impl; [exact Hdone|]. intros w b Hw. eapply framed; [exact Hw|].
        intros l' c [[_ Hn]%fresh_in_spec Hne]%elem_of_difference Hl'.
        assert (l' ≠ out) by set_solver. pose proof (lookup_weaken _ _ _ _ Hl' Hh').
        split; [by apply Hoth|by eapply Hnew].
      * eapply framed; [exact Hv'|]. intros l' c [_ Hn]%fresh_in_spec Hl'.
        assert (l' ≠ out) by congruence. assert (h0 !! l' = None) by (by eapply lookup_weaken_None).
        split; [by apply Hoth|by eapply Hnew].
Qed.

#[export] Instance copy_slice_copier : Copier (slice_of R) (copy_slice f).
Proof.
  intros h0 h p o Hh Hp. destruct p as [s|], o as [l|]; try done; [|by apply hwp_ret].
  destruct Hp as (arr & Hl & _ & Hlen & Hels).
  unfold yields, copy_slice. apply hwp_bind, hwp_make_slice. intros out Hout. set (h1 := <[ out := _ ]> h).
  assert (h ⊆ h1) as Hh1 by (by apply insert_subseteq).
  assert (Forall2 (λ v a, R h v a (dom h)) (window s arr) l) as Hels'.
  { eapply Forall2_impl; [exact Hels|]. intros v a Hr. apply (repr_known R h0); [exact Hr|exact Hh]. }
  apply hwp_bind. eapply hwp_mono.
  - apply (hwp_for_range (copied h out (sl_len s) l)).
    + split; [done|]. exists []. simpl. rewrite Nat.sub_0_r, take_0. unfold h1. by rewrite lookup_insert_eq.
    + intros j h' Hj. apply (copied_step _ _ arr); try done; [by eapply lookup_weaken|lia].
  - intros [] h' (Hh' & vs & Hvs & Hcell & Hdone). simpl in *. apply hwp_ret.
    pose proof (Forall2_length _ _ _ Hels) as Hll. rewrite window_length in Hll by done.
    rewrite Nat.sub_diag, app_nil_r in Hcell. rewrite firstn_all2 in Hdone by lia.
    assert (h0 !! out = None) as Hout0 by (by eapply lookup_weaken_None).
    split; [done|]. exists vs. simpl. split_and!; [done| |lia|].
    + apply fresh_in_spec. split; [by eexists|done].
    + unfold window. simpl. rewrite drop_0, firstn_all2 by lia.
      eapply Forall2_impl; [exact Hdone|]. intros v a Hr. eapply framed; [exact Hr|].
      intros l' c [[Hn Hn']%fresh_in_spec _]%elem_of_difference Hc. split; [exact Hc|].
      apply fresh_in_spec. split; [done|]. by eapply lookup_weaken_None.
Qed.
End copy_slice.

(** ** What a copy is good for *)

(** [h2] is [h] after any writes to the cells of [D], and to no other that there was. *)
Definition written {C} (D : gset loc) (h h2 : Heap C) : Prop := ∀ l c, l ∉ D → h !! l = Some c → h2 !! l = Some c.

(** A copy of a pointer: it never panics, keeps [nil], leaves memory as it was and makes
    a pointer to the same value, so that neither writes to the cells of the copy change
    what the original is, nor writes to those of the original what the copy is. *)
Definition isolates {C T A} `{!Stored C T} (R : Repr C T A) (copy : option loc → HeapM C (option loc)) : Prop :=
  ∀ h p o, points R h p o (dom h) →
    ∃ p' h', copy p h = Some (p', h') ∧ (p' = None ↔ p = None) ∧ h ⊆ h' ∧
      (∀ h2, written (fresh_in h h') h' h2 → points R h2 p o (dom h)) ∧
      (∀ h2, written (dom h) h' h2 → points R h2 p' o (fresh_in h h')).

Lemma copier_isolates {C T A} `{!Stored C T, !Zero T} (R : Repr C T A) f `{!Framed R, !Copier R f} :
  isolates R (copy_pointer f).
Proof.
  intros h p o Hp. destruct (copies (f := copy_pointer f) h h p o (reflexivity h) Hp)
    as (p' & h' & Hc & Hh & Hp').
  exists p', h'. split_and!; [done| |done|..].
  - by destruct p, p', o.
  - intros h2 Hw. eapply (framed (R := points R)); [exact Hp|]. intros l c HD Hl. split; [|done].
    apply Hw; [|by eapply lookup_weaken]. intros [_ Hn]%fresh_in_spec. by rewrite Hl in Hn.
  - intros h2 Hw. eapply (framed (R := points R)); [exact Hp'|]. intros l c HD Hl. split; [|done].
    apply fresh_in_spec in HD as [_ Hn]. apply Hw; [by apply not_elem_of_dom|done].
Qed.
