(* ===== verification/Reasoning.v ===== *)
(** * internal/reasoning: reasoning tokens and Event reasons

    The snake_case tokens, the CR annotation keys, the token inventory and the
    snake_case to PascalCase mapping of tokens.go.  Shown: the mapping loses no
    information (distinct tokens give distinct reasons, and no known token is
    left unmapped), and it agrees with the inventory. *)
From S2P Require Import Prelude.

Definition ScaleUp : string := "scale_up".
Definition ScaleDown : string := "scale_down".
Definition NoChange : string := "no_change".
Definition StepCappedUp : string := "step_capped_up".
Definition StepCappedDown : string := "step_capped_down".
Definition CooldownHoldingUp : string := "cooldown_holding_up".
Definition CooldownHoldingDown : string := "cooldown_holding_down".
Definition MaxReplicasBinding : string := "max_replicas_binding".
Definition MinReplicasBinding : string := "min_replicas_binding".
Definition KillSwitched : string := "kill_switched".
Definition ConflictDetected : string := "conflict_detected".
Definition ForecastUnavailable : string := "forecast_unavailable".
Definition MetricsUnavailable : string := "metrics_unavailable".
Definition PatternClassified : string := "pattern_classified".
Definition PatternUnknown : string := "pattern_unknown".
Definition ScaleExplained : string := "scale_explained".

Definition AnnotationKillSwitch : string := "autoscaling.agentic.io/kill-switch".
Definition AnnotationReclassify : string := "autoscaling.agentic.io/reclassify".

(** [AllTokens]: Go constant name to token. *)
Definition AllTokens_list : list (string * string) :=
  [("ScaleUp", ScaleUp); ("ScaleDown", ScaleDown); ("NoChange", NoChange);
   ("StepCappedUp", StepCappedUp); ("StepCappedDown", StepCappedDown);
   ("CooldownHoldingUp", CooldownHoldingUp);
   ("CooldownHoldingDown", CooldownHoldingDown);
   ("MaxReplicasBinding", MaxReplicasBinding);
   ("MinReplicasBinding", MinReplicasBinding);
   ("KillSwitched", KillSwitched); ("ConflictDetected", ConflictDetected);
   ("ForecastUnavailable", ForecastUnavailable);
   ("MetricsUnavailable", MetricsUnavailable);
   ("PatternClassified", PatternClassified); ("PatternUnknown", PatternUnknown);
   ("ScaleExplained", ScaleExplained)].
Definition AllTokens : gmap string string := list_to_map AllTokens_list.

(** [pascalMap]: token to Event reason. *)
Definition pascalMap_list : list (string * string) :=
  [(ScaleUp, "ScaleUp"); (ScaleDown, "ScaleDown"); (NoChange, "NoChange");
   (StepCappedUp, "StepCappedUp"); (StepCappedDown, "StepCappedDown");
   (CooldownHoldingUp, "CooldownHoldingUp");
   (CooldownHoldingDown, "CooldownHoldingDown");
   (MaxReplicasBinding, "MaxReplicasBinding");
   (MinReplicasBinding, "MinReplicasBinding");
   (KillSwitched, "KillSwitched"); (ConflictDetected, "ConflictDetected");
   (ForecastUnavailable, "ForecastUnavailable");
   (MetricsUnavailable, "MetricsUnavailable");
   (PatternClassified, "PatternClassified"); (PatternUnknown, "PatternUnknown");
   (ScaleExplained, "ScaleExplained")].
Definition pascalMap : gmap string string := list_to_map pascalMap_list.

(** [PascalReason]: unknown tokens are returned unchanged. *)
Definition PascalReason (snake : string) : string :=
  match pascalMap !! snake with
  | Some p => p
  | None => snake
  end.

(** The tokens known to the inventory. *)
Definition known_token (t : string) : Prop := t ∈ pascalMap_list.*1.
#[export] Instance known_token_dec t : Decision (known_token t).
Proof. unfold known_token. apply _. Defined.

Lemma pascalMap_keys_NoDup : NoDup pascalMap_list.*1.
Proof. apply (bool_decide_unpack _). vm_compute. exact I. Qed.

Lemma PascalReason_pair t p : (t, p) ∈ pascalMap_list → PascalReason t = p.
Proof.
  intros Hin. unfold PascalReason.
  assert (pascalMap !! t = Some p) as ->; [|done].
  apply elem_of_list_to_map; [apply pascalMap_keys_NoDup|done].
Qed.

Lemma PascalReason_known t :
  known_token t → (t, PascalReason t) ∈ pascalMap_list.
Proof.
  unfold known_token. rewrite list_elem_of_fmap. intros ([t' p] & -> & Hin). simpl.
  by rewrite (PascalReason_pair _ _ Hin).
Qed.

Lemma pascalMap_values_NoDup : NoDup pascalMap_list.*2.
Proof. apply (bool_decide_unpack _). vm_compute. exact I. Qed.

(** Every row of the mapping names the token's own Go constant. *)
Lemma pascalMap_AllTokens :
  Forall (λ r, AllTokens !! r.2 = Some r.1 ∧ r.2 ≠ r.1) pascalMap_list.
Proof. apply (bool_decide_unpack _). vm_compute. exact I. Qed.

Lemma NoDup_snd_inj {A B} (l : list (A * B)) a1 a2 b :
  NoDup l.*2 → (a1, b) ∈ l → (a2, b) ∈ l → a1 = a2.
Proof.
  induction l as [|[a b'] l IH]; simpl; [set_solver|].
  rewrite NoDup_cons, !elem_of_cons. intros [Hnin Hnd] [H1|H1] [H2|H2]; simplify_eq; auto;
    exfalso; apply Hnin, list_elem_of_fmap; by eexists (_, _).
Qed.

(** Known tokens have pairwise distinct reasons, each the Go constant name
    under which the inventory lists the token, so nothing is lost by emitting the
    PascalCase reason; an unknown token is passed through unchanged. *)
Theorem PascalReason_faithful t1 t2 :
  (known_token t1 → known_token t2 → PascalReason t1 = PascalReason t2 → t1 = t2) ∧
  (known_token t1 → AllTokens !! PascalReason t1 = Some t1 ∧ PascalReason t1 ≠ t1) ∧
  (¬ known_token t1 → PascalReason t1 = t1).
Proof.
  split_and!.
  - intros H1%PascalReason_known H2%PascalReason_known Heq. rewrite Heq in H1.
    eapply NoDup_snd_inj; eauto using pascalMap_values_NoDup.
  - intros H1%PascalReason_known. pose proof pascalMap_AllTokens as Hall.
    rewrite Forall_forall in Hall. by apply Hall in H1.
  - intros Hunk. unfold PascalReason. destruct (pascalMap !! t1) as [p|] eqn:E; [|done].
    exfalso. apply Hunk. apply elem_of_list_to_map_2 in E.
    unfold known_token. apply list_elem_of_fmap. by exists (t1, p).
Qed.

Lemma PascalReason_faithful_witness :
  known_token ScaleUp ∧ AllTokens !! PascalReason ScaleUp = Some ScaleUp ∧
  PascalReason ScaleUp ≠ ScaleUp.
Proof.
  assert (known_token ScaleUp) as H by (apply (bool_decide_unpack _); vm_compute; exact I).
  split; [exact H|]. exact (proj1 (proj2 (PascalReason_faithful ScaleUp ScaleUp)) H).
Defined.
