(* ===== verification/Api.v ===== *)
(** * api/v1alpha1: the AgenticAutoscaler custom resource

    The types of agenticautoscaler_types.go.  A pointer field is an [option]; an
    [int32] is a [Z]; a [metav1.Time] is a [Time]. *)
From S2P Require Import Prelude Float64.

Record CrossVersionObjectReference := mkRef {
  ref_APIVersion : string;
  ref_Kind : string;
  ref_Name : string;
}.

Record AgenticAutoscalerSpec := mkSpec {
  spec_TargetRef : CrossVersionObjectReference;
  spec_MinReplicas : option Z;
  spec_MaxReplicas : option Z;
  spec_RpsPerPodMin : option Z;
  spec_RpsPerPodMax : option Z;
  spec_MaxStepSize : option Z;
  spec_ScaleUpCooldownSeconds : option Z;
  spec_ScaleDownCooldownSeconds : option Z;
  spec_PreferredForecaster : option string;
}.

Record ContextFields := mkContextFields {
  ctx_BaselineRPS : Z;
  ctx_PeakP95RPS : Z;
  ctx_Trend24hSlope : float64;
  ctx_HourlyProfile : list Z;
  ctx_HourlyProfileValid : bool;
}.

(** [ClassifiedParams] of the API package (the decision package has its own). *)
Record ApiClassifiedParams := mkApiClassifiedParams {
  cp_Pattern : string;
  cp_ScaleUpCooldownSeconds : Z;
  cp_ScaleDownCooldownSeconds : Z;
  cp_MaxStepSize : Z;
  cp_PreferredForecaster : string;
  cp_ClassifiedAt : Time;
  cp_HistoryPoints : Z;
  cp_Confidence : string;
  cp_Context : option ContextFields;
}.

Definition PhaseReady : string := "Ready".
Definition PhaseDisabled : string := "Disabled".
Definition PhaseConflict : string := "Conflict".

Record AgenticAutoscalerStatus := mkStatus {
  st_Phase : string;
  st_ConflictReason : string;
  st_CurrentReplicas : Z;
  st_RecommendedReplicas : Z;
  st_UnboundedRecommended : Z;
  st_PredictedRPS : Z;
  st_RpsPerPodCurrent : Z;
  st_LastScaleTime : option Time;
  st_ClassifiedParams : option ApiClassifiedParams;
}.

(** The object metadata that matters: what the controller reads, and the resource version,
    which it hands back with every write of the object for the API server to compare. *)
Record AgenticAutoscaler := mkAAS {
  aas_Namespace : string;
  aas_Name : string;
  aas_ResourceVersion : string;
  aas_Annotations : gmap string string;
  aas_DeletionTimestamp : option Time;
  aas_Spec : AgenticAutoscalerSpec;
  aas_Status : AgenticAutoscalerStatus;
}.

Definition aas_key (aas : AgenticAutoscaler) : NamespacedName :=
  mkNN (aas_Namespace aas) (aas_Name aas).

(** [aas.Annotations[k]]: the empty string when absent. *)
Definition annotation (aas : AgenticAutoscaler) (k : string) : string :=
  deref_or (aas_Annotations aas !! k) EmptyString.

Definition set_status (st : AgenticAutoscalerStatus) (aas : AgenticAutoscaler) :
    AgenticAutoscaler :=
  mkAAS (aas_Namespace aas) (aas_Name aas) (aas_ResourceVersion aas) (aas_Annotations aas)
    (aas_DeletionTimestamp aas) (aas_Spec aas) st.

Definition set_annotations (m : gmap string string) (aas : AgenticAutoscaler) :
    AgenticAutoscaler :=
  mkAAS (aas_Namespace aas) (aas_Name aas) (aas_ResourceVersion aas) m
    (aas_DeletionTimestamp aas) (aas_Spec aas) (aas_Status aas).

(** Assignments to single status fields, as the handlers make them. *)
Definition set_phase (p : string) (st : AgenticAutoscalerStatus) : AgenticAutoscalerStatus :=
  mkStatus p (st_ConflictReason st) (st_CurrentReplicas st) (st_RecommendedReplicas st)
    (st_UnboundedRecommended st) (st_PredictedRPS st) (st_RpsPerPodCurrent st)
    (st_LastScaleTime st) (st_ClassifiedParams st).

Definition set_phase_reason (p r : string) (st : AgenticAutoscalerStatus) :
    AgenticAutoscalerStatus :=
  mkStatus p r (st_CurrentReplicas st) (st_RecommendedReplicas st)
    (st_UnboundedRecommended st) (st_PredictedRPS st) (st_RpsPerPodCurrent st)
    (st_LastScaleTime st) (st_ClassifiedParams st).

Definition set_classified (cp : ApiClassifiedParams) (st : AgenticAutoscalerStatus) :
    AgenticAutoscalerStatus :=
  mkStatus (st_Phase st) (st_ConflictReason st) (st_CurrentReplicas st)
    (st_RecommendedReplicas st) (st_UnboundedRecommended st) (st_PredictedRPS st)
    (st_RpsPerPodCurrent st) (st_LastScaleTime st) (Some cp).
