(* ===== verification/DeepCopy.v ===== *)
(** * api/v1alpha1/zz_generated.deepcopy.go: deep copies of the API objects

    The generated code over memory with pointers: every [DeepCopyInto] as the value of
    [*out] it leaves for the value of [*in], every [DeepCopy] as a pointer for a pointer.
    The copies of metadata and times are apimachinery's, an interface with its promise. *)
From S2P Require Import Prelude Float64 Heap Api.

(** ** The objects in memory *)

Record TypeMeta := mkTypeMeta { tm_Kind : string; tm_APIVersion : string }.

(** [metav1.Time] *)
Record Timestamp := mkTimestamp { ts_instant : Time }.

Record GoContext := mkGoContext {
  gx_BaselineRPS : Z;
  gx_PeakP95RPS : Z;
  gx_Trend24hSlope : float64;
  gx_HourlyProfile : option Slice;
  gx_HourlyProfileValid : bool;
}.

Record GoParams := mkGoParams {
  gp_Pattern : string;
  gp_ScaleUpCooldownSeconds : Z;
  gp_ScaleDownCooldownSeconds : Z;
  gp_MaxStepSize : Z;
  gp_PreferredForecaster : string;
  gp_ClassifiedAt : Timestamp;
  gp_HistoryPoints : Z;
  gp_Confidence : string;
  gp_Context : option loc;
}.

Record GoSpec := mkGoSpec {
  gs_TargetRef : CrossVersionObjectReference;
  gs_MinReplicas : option loc;
  gs_MaxReplicas : option loc;
  gs_RpsPerPodMin : option loc;
  gs_RpsPerPodMax : option loc;
  gs_MaxStepSize : option loc;
  gs_ScaleUpCooldownSeconds : option loc;
  gs_ScaleDownCooldownSeconds : option loc;
  gs_PreferredForecaster : option loc;
}.

Record GoStatus := mkGoStatus {
  gt_Phase : string;
  gt_ConflictReason : string;
  gt_CurrentReplicas : Z;
  gt_RecommendedReplicas : Z;
  gt_UnboundedRecommended : Z;
  gt_PredictedRPS : Z;
  gt_RpsPerPodCurrent : Z;
  gt_LastScaleTime : option loc;
  gt_ClassifiedParams : option loc;
}.

(** [OM] and [LM] are the metadata of objects and lists, [X] what else apimachinery keeps
    in memory. *)
Record GoObject (OM : Type) := mkGoObject {
  go_TypeMeta : TypeMeta;
  go_ObjectMeta : OM;
  go_Spec : GoSpec;
  go_Status : GoStatus;
}.
Arguments mkGoObject {OM} _ _ _ _.
Arguments go_TypeMeta {OM} _.
Arguments go_ObjectMeta {OM} _.
Arguments go_Spec {OM} _.
Arguments go_Status {OM} _.

Record GoList (LM : Type) := mkGoList {
  gl_TypeMeta : TypeMeta;
  gl_ListMeta : LM;
  gl_Items : option Slice;
}.
Arguments mkGoList {LM} _ _ _.
Arguments gl_TypeMeta {LM} _.
Arguments gl_ListMeta {LM} _.
Arguments gl_Items {LM} _.

Inductive Cell (OM LM X : Type) :=
| CInt32 (z : Z)
| CString (s : string)
| CTime (t : Timestamp)
| CInt32s (l : list Z)
| CRef (r : CrossVersionObjectReference)
| CContext (c : GoContext)
| CParams (p : GoParams)
| CSpec (s : GoSpec)
| CStatus (s : GoStatus)
| CObject (o : GoObject OM)
| CObjects (l : list (GoObject OM))
| CList (l : GoList LM)
| CLibrary (x : X).
Arguments CInt32 {OM LM X} _.
Arguments CString {OM LM X} _.
Arguments CTime {OM LM X} _.
Arguments CInt32s {OM LM X} _.
Arguments CRef {OM LM X} _.
Arguments CContext {OM LM X} _.
Arguments CParams {OM LM X} _.
Arguments CSpec {OM LM X} _.
Arguments CStatus {OM LM X} _.
Arguments CObject {OM LM X} _.
Arguments CObjects {OM LM X} _.
Arguments CList {OM LM X} _.
Arguments CLibrary {OM LM X} _.

Section cells.
Context {OM LM X : Type}.

#[export] Instance stored_int32 : Stored (Cell OM LM X) Z :=
  {| to_cell := CInt32; of_cell c := match c with CInt32 z => Some z | _ => None end;
     of_to_cell _ := eq_refl |}.
#[export] Instance stored_string : Stored (Cell OM LM X) string :=
  {| to_cell := CString; of_cell c := match c with CString s => Some s | _ => None end;
     of_to_cell _ := eq_refl |}.
#[export] Instance stored_time : Stored (Cell OM LM X) Timestamp :=
  {| to_cell := CTime; of_cell c := match c with CTime t => Some t | _ => None end;
     of_to_cell _ := eq_refl |}.
#[export] Instance stored_int32s : Stored (Cell OM LM X) (list Z) :=
  {| to_cell := CInt32s; of_cell c := match c with CInt32s l => Some l | _ => None end;
     of_to_cell _ := eq_refl |}.
#[export] Instance stored_ref : Stored (Cell OM LM X) CrossVersionObjectReference :=
  {| to_cell := CRef; of_cell c := match c with CRef r => Some r | _ => None end;
     of_to_cell _ := eq_refl |}.
#[export] Instance stored_context : Stored (Cell OM LM X) GoContext :=
  {| to_cell := CContext; of_cell c := match c with CContext x => Some x | _ => None end;
     of_to_cell _ := eq_refl |}.
#[export] Instance stored_params : Stored (Cell OM LM X) GoParams :=
  {| to_cell := CParams; of_cell c := match c with CParams p => Some p | _ => None end;
     of_to_cell _ := eq_refl |}.
#[export] Instance stored_spec : Stored (Cell OM LM X) GoSpec :=
  {| to_cell := CSpec; of_cell c := match c with CSpec s => Some s | _ => None end;
     of_to_cell _ := eq_refl |}.
#[export] Instance stored_status : Stored (Cell OM LM X) GoStatus :=
  {| to_cell := CStatus; of_cell c := match c with CStatus s => Some s | _ => None end;
     of_to_cell _ := eq_refl |}.
#[export] Instance stored_object : Stored (Cell OM LM X) (GoObject OM) :=
  {| to_cell := CObject; of_cell c := match c with CObject o => Some o | _ => None end;
     of_to_cell _ := eq_refl |}.
#[export] Instance stored_objects : Stored (Cell OM LM X) (list (GoObject OM)) :=
  {| to_cell := CObjects; of_cell c := match c with CObjects l => Some l | _ => None end;
     of_to_cell _ := eq_refl |}.
#[export] Instance stored_list : Stored (Cell OM LM X) (GoList LM) :=
  {| to_cell := CList; of_cell c := match c with CList l => Some l | _ => None end;
     of_to_cell _ := eq_refl |}.
#[export] Instance stored_library : Stored (Cell OM LM X) X :=
  {| to_cell := CLibrary; of_cell c := match c with CLibrary x => Some x | _ => None end;
     of_to_cell _ := eq_refl |}.
End cells.

#[export] Instance zero_int32 : Zero Z := 0.
#[export] Instance zero_string : Zero string := EmptyString.
#[export] Instance zero_time : Zero Timestamp := mkTimestamp 0.
#[export] Instance zero_type_meta : Zero TypeMeta := mkTypeMeta EmptyString EmptyString.
#[export] Instance zero_ref : Zero CrossVersionObjectReference :=
  mkRef EmptyString EmptyString EmptyString.
#[export] Instance zero_context : Zero GoContext := mkGoContext 0 0 f0 None false.
#[export] Instance zero_params : Zero GoParams :=
  mkGoParams EmptyString 0 0 0 EmptyString zero 0 EmptyString None.
#[export] Instance zero_spec : Zero GoSpec :=
  mkGoSpec zero None None None None None None None None.
#[export] Instance zero_status : Zero GoStatus :=
  mkGoStatus EmptyString EmptyString 0 0 0 0 0 None None.
#[export] Instance zero_object {OM} `{!Zero OM} : Zero (GoObject OM) := mkGoObject zero zero zero zero.
#[export] Instance zero_list {LM} `{!Zero LM} : Zero (GoList LM) := mkGoList zero zero None.

(** ** apimachinery's copies *)
Class ApiMachinery (OM LM X : Type) := {
  om_zero :: Zero OM;
  lm_zero :: Zero LM;
  Time_DeepCopyInto : Timestamp → HeapM (Cell OM LM X) Timestamp;
  Time_DeepCopy : option loc → HeapM (Cell OM LM X) (option loc);
  ObjectMeta_DeepCopyInto : OM → HeapM (Cell OM LM X) OM;
  ListMeta_DeepCopyInto : LM → HeapM (Cell OM LM X) LM;
}.

(** ** The generated code *)
Section deepcopy.
Context {OM LM X : Type} `{!ApiMachinery OM LM X}.
Abbreviation M := (HeapM (Cell OM LM X)).

Definition CrossVersionObjectReference_DeepCopyInto (in_ : CrossVersionObjectReference) :
    M CrossVersionObjectReference := mret in_.
Definition CrossVersionObjectReference_DeepCopy : option loc → M (option loc) :=
  copy_pointer CrossVersionObjectReference_DeepCopyInto.

Definition ContextFields_DeepCopyInto (in_ : GoContext) : M GoContext :=
  profile ← copy_slice_flat (T := Z) (gx_HourlyProfile in_);
  mret (mkGoContext (gx_BaselineRPS in_) (gx_PeakP95RPS in_) (gx_Trend24hSlope in_) profile
          (gx_HourlyProfileValid in_)).
Definition ContextFields_DeepCopy : option loc → M (option loc) :=
  copy_pointer ContextFields_DeepCopyInto.

Definition ClassifiedParams_DeepCopyInto (in_ : GoParams) : M GoParams :=
  at_ ← Time_DeepCopyInto (gp_ClassifiedAt in_);
  ctx ← copy_pointer ContextFields_DeepCopyInto (gp_Context in_);
  mret (mkGoParams (gp_Pattern in_) (gp_ScaleUpCooldownSeconds in_) (gp_ScaleDownCooldownSeconds in_)
          (gp_MaxStepSize in_) (gp_PreferredForecaster in_) at_ (gp_HistoryPoints in_)
          (gp_Confidence in_) ctx).
Definition ClassifiedParams_DeepCopy : option loc → M (option loc) :=
  copy_pointer ClassifiedParams_DeepCopyInto.

(** [*out = new(int32); **out = **in], and the same with strings. *)
Definition copy_int32 : option loc → M (option loc) := copy_pointer (T := Z) mret.
Definition copy_string : option loc → M (option loc) := copy_pointer (T := string) mret.

Definition Spec_DeepCopyInto (in_ : GoSpec) : M GoSpec :=
  minReplicas ← copy_int32 (gs_MinReplicas in_);
  maxReplicas ← copy_int32 (gs_MaxReplicas in_);
  rpsPerPodMin ← copy_int32 (gs_RpsPerPodMin in_);
  rpsPerPodMax ← copy_int32 (gs_RpsPerPodMax in_);
  maxStepSize ← copy_int32 (gs_MaxStepSize in_);
  scaleUp ← copy_int32 (gs_ScaleUpCooldownSeconds in_);
  scaleDown ← copy_int32 (gs_ScaleDownCooldownSeconds in_);
  forecaster ← copy_string (gs_PreferredForecaster in_);
  mret (mkGoSpec (gs_TargetRef in_) minReplicas maxReplicas rpsPerPodMin rpsPerPodMax maxStepSize
          scaleUp scaleDown forecaster).
Definition Spec_DeepCopy : option loc → M (option loc) := copy_pointer Spec_DeepCopyInto.

(** [if in.LastScaleTime != nil { *out = ( *in).DeepCopy() }] *)
Definition copy_time (p : option loc) : M (option loc) :=
  match p with None => mret None | Some _ => Time_DeepCopy p end.

Definition Status_DeepCopyInto (in_ : GoStatus) : M GoStatus :=
  lastScale ← copy_time (gt_LastScaleTime in_);
  params ← copy_pointer ClassifiedParams_DeepCopyInto (gt_ClassifiedParams in_);
  mret (mkGoStatus (gt_Phase in_) (gt_ConflictReason in_) (gt_CurrentReplicas in_)
          (gt_RecommendedReplicas in_) (gt_UnboundedRecommended in_) (gt_PredictedRPS in_)
          (gt_RpsPerPodCurrent in_) lastScale params).
Definition Status_DeepCopy : option loc → M (option loc) := copy_pointer Status_DeepCopyInto.

Definition Object_DeepCopyInto (in_ : GoObject OM) : M (GoObject OM) :=
  meta ← ObjectMeta_DeepCopyInto (go_ObjectMeta in_);
  spec ← Spec_DeepCopyInto (go_Spec in_);
  status ← Status_DeepCopyInto (go_Status in_);
  mret (mkGoObject (go_TypeMeta in_) meta spec status).
Definition Object_DeepCopy : option loc → M (option loc) := copy_pointer Object_DeepCopyInto.

Definition List_DeepCopyInto (in_ : GoList LM) : M (GoList LM) :=
  meta ← ListMeta_DeepCopyInto (gl_ListMeta in_);
  items ← copy_slice Object_DeepCopyInto (gl_Items in_);
  mret (mkGoList (gl_TypeMeta in_) meta items).
Definition List_DeepCopy : option loc → M (option loc) := copy_pointer List_DeepCopyInto.

(** The dynamic types of [runtime.Object]; a nil interface is no object. *)
Inductive RuntimeObject := ObjectPointer (l : loc) | ListPointer (l : loc).

Definition Object_DeepCopyObject (in_ : option loc) : M (option RuntimeObject) :=
  c ← Object_DeepCopy in_; mret (ObjectPointer <$> c).
Definition List_DeepCopyObject (in_ : option loc) : M (option RuntimeObject) :=
  c ← List_DeepCopy in_; mret (ListPointer <$> c).
End deepcopy.

(** ** What the objects in memory represent *)
Section values.
Context {OM LM X : Type}.
Abbreviation C := (Cell OM LM X).

Definition time_repr : Repr C Timestamp Time := λ _ v a _, ts_instant v = a.

Definition ints_repr : Repr C (option Slice) (option (list Z)) := slice_of plain.

Definition context_repr : Repr C GoContext ContextFields := λ h v a D,
  gx_BaselineRPS v = ctx_BaselineRPS a ∧ gx_PeakP95RPS v = ctx_PeakP95RPS a ∧
  gx_Trend24hSlope v = ctx_Trend24hSlope a ∧
  (∃ o, ints_repr h (gx_HourlyProfile v) o D ∧ default [] o = ctx_HourlyProfile a) ∧
  gx_HourlyProfileValid v = ctx_HourlyProfileValid a.

Definition params_repr : Repr C GoParams ApiClassifiedParams := λ h v a D,
  gp_Pattern v = cp_Pattern a ∧ gp_ScaleUpCooldownSeconds v = cp_ScaleUpCooldownSeconds a ∧
  gp_ScaleDownCooldownSeconds v = cp_ScaleDownCooldownSeconds a ∧
  gp_MaxStepSize v = cp_MaxStepSize a ∧ gp_PreferredForecaster v = cp_PreferredForecaster a ∧
  time_repr h (gp_ClassifiedAt v) (cp_ClassifiedAt a) D ∧
  gp_HistoryPoints v = cp_HistoryPoints a ∧ gp_Confidence v = cp_Confidence a ∧
  points context_repr h (gp_Context v) (cp_Context a) D.

Definition int32_pointer : Repr C (option loc) (option Z) := points (T := Z) plain.
Definition string_pointer : Repr C (option loc) (option string) := points (T := string) plain.

Definition spec_repr : Repr C GoSpec AgenticAutoscalerSpec := λ h v a D,
  gs_TargetRef v = spec_TargetRef a ∧
  int32_pointer h (gs_MinReplicas v) (spec_MinReplicas a) D ∧
  int32_pointer h (gs_MaxReplicas v) (spec_MaxReplicas a) D ∧
  int32_pointer h (gs_RpsPerPodMin v) (spec_RpsPerPodMin a) D ∧
  int32_pointer h (gs_RpsPerPodMax v) (spec_RpsPerPodMax a) D ∧
  int32_pointer h (gs_MaxStepSize v) (spec_MaxStepSize a) D ∧
  int32_pointer h (gs_ScaleUpCooldownSeconds v) (spec_ScaleUpCooldownSeconds a) D ∧
  int32_pointer h (gs_ScaleDownCooldownSeconds v) (spec_ScaleDownCooldownSeconds a) D ∧
  string_pointer h (gs_PreferredForecaster v) (spec_PreferredForecaster a) D.

Definition status_repr : Repr C GoStatus AgenticAutoscalerStatus := λ h v a D,
  gt_Phase v = st_Phase a ∧ gt_ConflictReason v = st_ConflictReason a ∧
  gt_CurrentReplicas v = st_CurrentReplicas a ∧ gt_RecommendedReplicas v = st_RecommendedReplicas a ∧
  gt_UnboundedRecommended v = st_UnboundedRecommended a ∧ gt_PredictedRPS v = st_PredictedRPS a ∧
  gt_RpsPerPodCurrent v = st_RpsPerPodCurrent a ∧
  points time_repr h (gt_LastScaleTime v) (st_LastScaleTime a) D ∧
  points params_repr h (gt_ClassifiedParams v) (st_ClassifiedParams a) D.

(** The value of an object whose metadata has values in [OMV]; of a list of objects. *)
Record ObjectValue (OMV : Type) := mkObjectValue {
  ov_TypeMeta : TypeMeta;
  ov_ObjectMeta : OMV;
  ov_Spec : AgenticAutoscalerSpec;
  ov_Status : AgenticAutoscalerStatus;
}.
Record ListValue (OMV LMV : Type) := mkListValue {
  lv_TypeMeta : TypeMeta;
  lv_ListMeta : LMV;
  lv_Items : option (list (ObjectValue OMV));
}.

Definition object_repr {OMV} (rm : Repr C OM OMV) : Repr C (GoObject OM) (ObjectValue OMV) := λ h v a D,
  go_TypeMeta v = ov_TypeMeta _ a ∧ rm h (go_ObjectMeta v) (ov_ObjectMeta _ a) D ∧
  spec_repr h (go_Spec v) (ov_Spec _ a) D ∧ status_repr h (go_Status v) (ov_Status _ a) D.

Definition list_repr {OMV LMV} (rm : Repr C OM OMV) (rl : Repr C LM LMV) :
    Repr C (GoList LM) (ListValue OMV LMV) := λ h v a D,
  gl_TypeMeta v = lv_TypeMeta _ _ a ∧ rl h (gl_ListMeta v) (lv_ListMeta _ _ a) D ∧
  slice_of (object_repr rm) h (gl_Items v) (lv_Items _ _ a) D.
End values.
Arguments mkObjectValue {OMV} _ _ _ _.
Arguments mkListValue {OMV LMV} _ _ _.

(** What apimachinery promises of its copies. *)
Class ApiMachineryLaws {OM LM X OMV LMV} `{!ApiMachinery OM LM X}
    (rm : Repr (Cell OM LM X) OM OMV) (rl : Repr (Cell OM LM X) LM LMV) : Prop := {
  rm_framed :: Framed rm;
  rl_framed :: Framed rl;
  time_into_copier :: Copier time_repr Time_DeepCopyInto;
  time_copier :: Copier (points time_repr) Time_DeepCopy;
  meta_copier :: Copier rm ObjectMeta_DeepCopyInto;
  list_meta_copier :: Copier rl ListMeta_DeepCopyInto;
}.

(** ** The copies are copies *)

(** One field after the other: the next copier's result, in what is new since [h0]; the
    results of the fields before stay. *)
Ltac copy_field Hr :=
  apply hwp_bind;
  match goal with
  | H0 : ?h0 ⊆ ?h |- hwp _ ?h _ =>
      eapply hwp_mono; [eapply (copies h0 h); [exact H0|exact Hr]|];
      let v := fresh "v" in let h' := fresh "h" in let Hh := fresh "Hh" in let Hv := fresh "Hv" in
      intros v h' [Hh Hv];
      repeat match goal with
      | H : ?R h ?w ?b (fresh_in h0 h) |- _ => apply (repr_fresh R h0 h h' w b) in H; [|exact Hh]
      end;
      let H' := fresh "Hs" in assert (H' : h0 ⊆ h') by (etrans; [exact H0|exact Hh])
  end.

Section copies.
Context {OM LM X : Type}.
Abbreviation C := (Cell OM LM X).

#[export] Instance time_framed : Framed (@time_repr OM LM X).
Proof. by intros h h' v a D D'. Qed.

#[export] Instance context_framed : Framed (@context_repr OM LM X).
Proof.
  intros h h' v a D D' (?&?&?&(o & Ho & Hd)&?) Hf. repeat split; try done. exists o. split; [|done].
  unfold ints_repr in *. eapply framed; [exact Ho|exact Hf].
Qed.

#[export] Instance params_framed : Framed (@params_repr OM LM X).
Proof.
  intros h h' v a D D' (?&?&?&?&?&?&?&?&Hc) Hf. repeat split; try done. eapply framed; [exact Hc|exact Hf].
Qed.

#[export] Instance spec_framed : Framed (@spec_repr OM LM X).
Proof.
  intros h h' v a D D' (?&?&?&?&?&?&?&?&?) Hf. unfold spec_repr, int32_pointer, string_pointer in *.
  split_and!; try done; (eapply framed; [eassumption|exact Hf]).
Qed.

#[export] Instance status_framed : Framed (@status_repr OM LM X).
Proof.
  intros h h' v a D D' (?&?&?&?&?&?&?&?&?) Hf. unfold status_repr in *.
  split_and!; try done; (eapply framed; [eassumption|exact Hf]).
Qed.

#[export] Instance object_framed {OMV} (rm : Repr C OM OMV) `{!Framed rm} : Framed (object_repr rm).
Proof.
  intros h h' v a D D' (?&?&?&?) Hf. unfold object_repr.
  split_and!; try done; (eapply framed; [eassumption|exact Hf]).
Qed.

#[export] Instance list_framed {OMV LMV} (rm : Repr C OM OMV) (rl : Repr C LM LMV)
  `{!Framed rm, !Framed rl} : Framed (list_repr rm rl).
Proof.
  intros h h' v a D D' (?&?&?) Hf. unfold list_repr.
  split_and!; try done; (eapply framed; [eassumption|exact Hf]).
Qed.

#[export] Instance context_copier : Copier (@context_repr OM LM X) ContextFields_DeepCopyInto.
Proof.
  intros h0 h v a Hh (?&?&?&(o & Ho & Hd)&?). unfold yields, ContextFields_DeepCopyInto.
  unfold ints_repr in Ho. copy_field Ho. apply hwp_ret. split; [done|]. repeat split; try done.
  exists o. by split.
Qed.

Context `{!ApiMachinery OM LM X} {OMV LMV : Type} (rm : Repr C OM OMV) (rl : Repr C LM LMV).
Context `{!ApiMachineryLaws rm rl}.

Lemma params_copier : Copier (@params_repr OM LM X) ClassifiedParams_DeepCopyInto.
Proof using All.
  intros h0 h v a Hh (?&?&?&?&?&Ht&?&?&Hc). unfold yields, ClassifiedParams_DeepCopyInto.
  copy_field Ht. copy_field Hc. apply hwp_ret. split; [by etrans|]. split_and!; done.
Qed.

Lemma spec_copier : Copier (@spec_repr OM LM X) Spec_DeepCopyInto.
Proof using All.
  intros h0 h v a Hh (?&H1&H2&H3&H4&H5&H6&H7&H8). unfold yields, Spec_DeepCopyInto.
  unfold int32_pointer, string_pointer, copy_int32, copy_string in *.
  copy_field H1. copy_field H2. copy_field H3. copy_field H4.
  copy_field H5. copy_field H6. copy_field H7. copy_field H8.
  apply hwp_ret. split; [repeat (etrans; [eassumption|]); done|]. split_and!; done.
Qed.

Lemma status_copier : Copier (@status_repr OM LM X) Status_DeepCopyInto.
Proof using All.
  pose proof params_copier.
  intros h0 h v a Hh (?&?&?&?&?&?&?&Ht&Hp). unfold yields, Status_DeepCopyInto.
  assert (Copier (points (@time_repr OM LM X)) copy_time).
  { intros g0 g p t Hg Hpt. destruct p; [by apply (copies (f := Time_DeepCopy) g0)|]. destruct t; [done|]. by apply hwp_ret. }
  copy_field Ht. copy_field Hp. apply hwp_ret. split; [by etrans|]. split_and!; done.
Qed.

Lemma object_copier : Copier (object_repr rm) Object_DeepCopyInto.
Proof using All.
  pose proof spec_copier. pose proof status_copier.
  intros h0 h v a Hh (?&Hm&Hs&Ht). unfold yields, Object_DeepCopyInto.
  copy_field Hm. copy_field Hs. copy_field Ht. apply hwp_ret.
  split; [repeat (etrans; [eassumption|]); done|]. split_and!; done.
Qed.

Lemma list_copier : Copier (list_repr rm rl) List_DeepCopyInto.
Proof using All.
  pose proof object_copier.
  intros h0 h v a Hh (?&Hm&Hi). unfold yields, List_DeepCopyInto.
  copy_field Hm. copy_field Hi. apply hwp_ret. split; [by etrans|]. split_and!; done.
Qed.
End copies.

(** Claim C26: The deep copies are deep. Every generated [DeepCopy], of the CR, its list
    and each of their parts, returns for every object in memory (a nil pointer included)
    without a panic, keeps nil, changes nothing that was there and makes a pointer to
    the same value in cells of its own: writes through the copy never show in the original
    and writes to the original never in the copy. [DeepCopyObject] wraps the same
    pointer, and never a nil one. *)
Theorem deep_copies_isolate {OM LM X OMV LMV} `{!ApiMachinery OM LM X}
    (rm : Repr (Cell OM LM X) OM OMV) (rl : Repr (Cell OM LM X) LM LMV) `{!ApiMachineryLaws rm rl} :
  (isolates (object_repr rm) Object_DeepCopy ∧ isolates (list_repr rm rl) List_DeepCopy ∧
   isolates (@spec_repr OM LM X) Spec_DeepCopy ∧ isolates (@status_repr OM LM X) Status_DeepCopy ∧
   isolates (@params_repr OM LM X) ClassifiedParams_DeepCopy ∧
   isolates (@context_repr OM LM X) ContextFields_DeepCopy ∧
   isolates (@plain (Cell OM LM X) CrossVersionObjectReference) CrossVersionObjectReference_DeepCopy) ∧
  ∀ (h h' : Heap (Cell OM LM X)) p r,
    (Object_DeepCopyObject p h = Some (r, h') →
       ∃ p', Object_DeepCopy p h = Some (p', h') ∧ r = ObjectPointer <$> p' ∧ (r = None ↔ p = None)) ∧
    (List_DeepCopyObject p h = Some (r, h') →
       ∃ p', List_DeepCopy p h = Some (p', h') ∧ r = ListPointer <$> p' ∧ (r = None ↔ p = None)).
Proof.
  pose proof (object_copier rm rl). pose proof (list_copier rm rl).
  pose proof (spec_copier rm rl). pose proof (status_copier rm rl). pose proof (params_copier rm rl).
  split; [split_and!; apply copier_isolates; apply _|].
  intros h h' p r. split; intros (p' & h1 & Hc & [= <- <-])%heap_bind_Some; exists p';
    (split; [exact Hc|]); (split; [done|]); rewrite fmap_None.
  - exact (copy_pointer_nil Object_DeepCopyInto _ _ _ _ Hc).
  - exact (copy_pointer_nil List_DeepCopyInto _ _ _ _ Hc).
Qed.

(** ** A CR in memory *)

(** Metadata with a name and a map of annotations behind a pointer. *)
Record SampleMeta := mkSampleMeta { sm_Name : string; sm_Annotations : option loc }.
Abbreviation SampleCell := (Cell SampleMeta unit (gmap string string)).

#[export] Instance zero_sample_meta : Zero SampleMeta := mkSampleMeta EmptyString None.
#[export] Instance zero_unit : Zero unit := tt.
#[export] Instance zero_map : Zero (gmap string string) := (∅ : gmap string string).

#[export] Instance sample_machinery : ApiMachinery SampleMeta unit (gmap string string) := {|
  Time_DeepCopyInto := mret;
  Time_DeepCopy := copy_pointer (T := Timestamp) mret;
  ObjectMeta_DeepCopyInto m :=
    annotations ← copy_pointer (T := gmap string string) mret (sm_Annotations m);
    mret (mkSampleMeta (sm_Name m) annotations);
  ListMeta_DeepCopyInto := mret;
|}.

Definition sample_meta_repr : Repr SampleCell SampleMeta (string * option (gmap string string)) :=
  λ h v a D, sm_Name v = a.1 ∧ points (T := gmap string string) plain h (sm_Annotations v) a.2 D.

#[export] Instance sample_laws : ApiMachineryLaws sample_meta_repr (@plain SampleCell unit).
Proof.
  assert (Copier (@time_repr SampleMeta unit (gmap string string)) mret) as Ht.
  { intros h0 h v a Hh Hv. by apply hwp_ret. }
  split; try apply _.
  - intros h h' v a D D' [Hn Hp] Hf. split; [done|]. eapply framed; [exact Hp|exact Hf].
  - intros h0 h v a Hh [Hn Hp]. unfold yields, ObjectMeta_DeepCopyInto, sample_machinery.
    copy_field Hp. apply hwp_ret. split; [done|]. by split.
Qed.

Definition sample_spec : AgenticAutoscalerSpec :=
  mkSpec (mkRef "apps/v1" "Deployment" "app") (Some 2) None None None None None None (Some "prophet").
Definition sample_params : ApiClassifiedParams :=
  mkApiClassifiedParams "flat" 120 180 1 "linear_extrap" 5 12 "medium"
    (Some (mkContextFields 10 20 f0 [7; 8; 9] true)).
Definition sample_value : ObjectValue (string * option (gmap string string)) :=
  mkObjectValue (mkTypeMeta "AgenticAutoscaler" "v1alpha1") ("app", Some ∅) sample_spec
    (mkStatus "Ready" EmptyString 2 2 2 100 50 (Some 3) (Some sample_params)).

Definition sample_heap : Heap SampleCell := list_to_map [
  (1%positive, CObject (mkGoObject (mkTypeMeta "AgenticAutoscaler" "v1alpha1") (mkSampleMeta "app" (Some 2%positive))
     (mkGoSpec (mkRef "apps/v1" "Deployment" "app") (Some 3%positive) None None None None None None
        (Some 4%positive))
     (mkGoStatus "Ready" EmptyString 2 2 2 100 50 (Some 5%positive) (Some 6%positive))));
  (2%positive, CLibrary ∅);
  (3%positive, CInt32 2);
  (4%positive, CString "prophet");
  (5%positive, CTime (mkTimestamp 3));
  (6%positive, CParams (mkGoParams "flat" 120 180 1 "linear_extrap" (mkTimestamp 5) 12 "medium" (Some 7%positive)));
  (7%positive, CContext (mkGoContext 10 20 f0 (Some (mkSlice 8%positive 0 3)) true));
  (8%positive, CInt32s [7; 8; 9])].

Lemma sample_represented : points (object_repr sample_meta_repr) sample_heap (Some 1%positive)
  (Some sample_value) (dom sample_heap).
Proof.
  assert (∀ l c, sample_heap !! l = Some c → l ∈ dom sample_heap) as Hd by (intros l c; apply elem_of_dom_2).
  eexists. split; [reflexivity|]. split; [by eapply Hd|]. split; [done|]. split.
  { split; [done|]. exists ∅. split_and!; [done|by eapply Hd|done]. }
  split.
  - split_and!; try done; eexists; (split_and!; [reflexivity|by eapply Hd|done]).
  - split_and!; try done; eexists; (split; [reflexivity|]; split; [by eapply Hd|]); [done|].
    split_and!; try done. eexists. split; [reflexivity|]. split; [by eapply Hd|].
    split_and!; try done. exists (Some [7; 8; 9]). split; [|done]. exists [7; 8; 9].
    split_and!; [reflexivity|by eapply Hd|simpl; lia|by apply plain_list].
Qed.

(** The sample is copied, and the original stays what it is when the copy's replica bound
    is set. *)
Lemma deep_copies_isolate_witness :
  ∃ p h', Object_DeepCopy (Some 1%positive) sample_heap = Some (Some p, h') ∧
    ∀ h2, written (fresh_in sample_heap h') h' h2 →
      points (object_repr sample_meta_repr) h2 (Some 1%positive) (Some sample_value) (dom sample_heap).
Proof.
  destruct (proj1 (proj1 (deep_copies_isolate sample_meta_repr (@plain SampleCell unit)))
    sample_heap (Some 1%positive) (Some sample_value) sample_represented)
    as ([p|] & h' & Hc & [Hn _] & _ & Hw & _).
  - exists p, h'. split; [exact Hc|exact Hw].
  - discriminate (Hn eq_refl).
Defined.
