(* ===== verification/State.v ===== *)
(** * internal/decision/state.go: ring buffer, per-CR state, state store

    The ring buffer is the list of its observations, oldest first, with its
    capacity.  The store maps CR keys to pointers into a heap of [PerCRState]
    cells, as the Go map of pointers does: [GetOrCreate] hands out the shared
    pointer, and a mutation through it is visible to every later holder. *)
From S2P Require Import Prelude Float64 FloatOrder FloatRound.
From Stdlib Require Import SpecFloat QArith Lqa.
#[local] Open Scope Z_scope.

Record RingBuffer := mkRB { rb_data : list float64; rb_cap : Z }.

Definition rb_len (rb : RingBuffer) : Z := Z.of_nat (length (rb_data rb)).

(** [NewRingBuffer]; [make] panics on a negative capacity ([None]). *)
Definition NewRingBuffer (capacity : Z) : option RingBuffer :=
  if decide (capacity < 0) then None else Some (mkRB [] capacity).

(** [Push]; slicing [data[1:]] of an empty buffer of capacity 0 panics. *)
Definition Push (rb : RingBuffer) (v : float64) : option RingBuffer :=
  if decide (rb_len rb = rb_cap rb) then
    match rb_data rb with
    | [] => None
    | _ :: d => Some (mkRB (d ++ [v]) (rb_cap rb))
    end
  else Some (mkRB (rb_data rb ++ [v]) (rb_cap rb)).

(** [SeedN] *)
Definition SeedN (rb : RingBuffer) (v : float64) (n : Z) : RingBuffer :=
  let count := if decide (n < 0) then 0 else n in
  let count := if decide (count > rb_cap rb) then rb_cap rb else count in
  mkRB (replicate (Z.to_nat count) v) (rb_cap rb).

(** [Seed] *)
Definition Seed (rb : RingBuffer) (v : float64) : RingBuffer := SeedN rb v 1.

(** [Values] *)
Definition Values (rb : RingBuffer) : list float64 := rb_data rb.

(** [sorted[i]] for an index known to be in range. *)
Definition f64_at (l : list float64) (i : nat) : float64 := deref_or (l !! i) S754_nan.

(** [Median] *)
Definition Median (rb : RingBuffer) : float64 :=
  let n := length (rb_data rb) in
  if decide (n = 0%nat) then f0
  else
    let sorted := sort_Float64s (rb_data rb) in
    if decide (n `mod` 2 = 1)%nat then f64_at sorted (n / 2)
    else ((f64_at sorted (n / 2 - 1) + f64_at sorted (n / 2)) / f2)%f64.

Record PerCRState := mkPerCRState {
  pc_Observations : RingBuffer;
  pc_RpsPerPod : float64;
  pc_LastScaleUpTime : Time;
  pc_LastScaleDownTime : Time;
  pc_Initialized : bool;
}.

(** ** The state store *)
Definition loc : Type := positive.

Record StateStore := mkStore {
  ss_heap : gmap loc PerCRState;
  ss_store : gmap NamespacedName loc;
}.

(** [NewStateStore] *)
Definition NewStateStore : StateStore := mkStore ∅ ∅.

(** [Get]: the pointer, or nil. *)
Definition Get (s : StateStore) (key : NamespacedName) : option loc := ss_store s !! key.

(** Dereference and assignment through a [*PerCRState]. *)
Definition deref (s : StateStore) (p : loc) : option PerCRState := ss_heap s !! p.
Definition assign (s : StateStore) (p : loc) (st : PerCRState) : StateStore :=
  mkStore (<[p := st]> (ss_heap s)) (ss_store s).

(** [GetOrCreate] for a non-negative capacity (the only caller passes 10). *)
Definition GetOrCreate (s : StateStore) (key : NamespacedName) (capacity : Z) :
    loc * StateStore :=
  match ss_store s !! key with
  | Some p => (p, s)
  | None =>
      let p := fresh (dom (ss_heap s)) in
      let st := mkPerCRState (mkRB [] capacity) f0 0 0 false in
      (p, mkStore (<[p := st]> (ss_heap s)) (<[key := p]> (ss_store s)))
  end.

(** [Delete]: the map entry goes; a cell still held elsewhere stays. *)
Definition Delete (s : StateStore) (key : NamespacedName) : StateStore :=
  mkStore (ss_heap s) (delete key (ss_store s)).

(** ** The ring buffer is a sliding window *)

(** A buffer built by [NewRingBuffer] with a positive capacity, pushed to or seeded. *)
Definition rb_wf (rb : RingBuffer) : Prop := 0 < rb_cap rb ∧ rb_len rb <= rb_cap rb.

(** The last [n] elements of a list. *)
Definition last_n {A} (n : nat) (l : list A) : list A := drop (length l - n) l.

Definition Push_all (rb : RingBuffer) (vs : list float64) : option RingBuffer :=
  fold_left (λ acc v, acc ≫= λ rb, Push rb v) vs (Some rb).

Lemma last_n_length {A} n (l : list A) : length (last_n n l) = (n `min` length l)%nat.
Proof. unfold last_n. rewrite length_drop. lia. Qed.

(** Dropping from the window and then from its extension is dropping once. *)
Lemma last_n_app {A} n (l k : list A) : last_n n (last_n n l ++ k) = last_n n (l ++ k).
Proof.
  unfold last_n. rewrite !length_app, length_drop.
  destruct (decide (length l <= n)%nat).
  - replace (length l - n)%nat with 0%nat by lia. rewrite drop_0. f_equal. lia.
  - rewrite <- (drop_app_le l k (length l - n)) by lia. rewrite drop_drop. f_equal. lia.
Qed.

Lemma Push_spec rb v :
  rb_wf rb →
  ∃ rb', Push rb v = Some rb' ∧ rb_wf rb' ∧ rb_cap rb' = rb_cap rb ∧
    rb_data rb' = last_n (Z.to_nat (rb_cap rb)) (rb_data rb ++ [v]).
Proof.
  destruct rb as [d c]. unfold rb_wf, rb_len, Push, last_n; simpl. intros [Hc Hl].
  unfold rb_len; simpl. case_decide as Hd.
  - destruct d as [|x d]; simpl in *; [lia|]. eexists. split; [done|]. simpl.
    rewrite !length_app; simpl. split_and!; [lia|lia|done|].
    by replace (S (length d + 1) - Z.to_nat c)%nat with 1%nat by lia.
  - eexists. split; [done|]. simpl. rewrite !length_app; simpl. split_and!; [lia|lia|done|].
    by replace (length d + 1 - Z.to_nat c)%nat with 0%nat by lia.
Qed.

Lemma Push_all_None vs : fold_left (λ acc v, acc ≫= λ rb, Push rb v) vs None = None.
Proof. by induction vs. Qed.

Lemma Push_all_spec rb vs :
  rb_wf rb →
  ∃ rb', Push_all rb vs = Some rb' ∧ rb_wf rb' ∧ rb_cap rb' = rb_cap rb ∧
    rb_data rb' = last_n (Z.to_nat (rb_cap rb)) (rb_data rb ++ vs).
Proof.
  unfold Push_all. revert rb. induction vs as [|v vs IH]; intros rb Hwf; simpl.
  - exists rb. split_and!; [done..|]. rewrite app_nil_r. unfold last_n, rb_wf, rb_len in *.
    by replace (length (rb_data rb) - Z.to_nat (rb_cap rb))%nat with 0%nat by lia.
  - destruct (Push_spec rb v Hwf) as (rb1 & -> & Hwf1 & Hc1 & Hd1).
    destruct (IH rb1 Hwf1) as (rb2 & -> & Hwf2 & Hc2 & Hd2).
    exists rb2. split_and!; [done|done|congruence|].
    rewrite Hd2, Hd1, Hc1, last_n_app. by rewrite <- app_assoc.
Qed.

(** Claim C24: the ring buffer is a sliding window. A buffer of capacity at least 1 that
    receives any sequence of observations never panics, never holds more than its
    capacity, and holds exactly the most recent ones, oldest first. *)
Theorem RingBuffer_sliding_window cap vs :
  1 <= cap →
  ∃ rb rb', NewRingBuffer cap = Some rb ∧ Push_all rb vs = Some rb' ∧
    rb_len rb' <= cap ∧ Values rb' = last_n (Z.to_nat cap) vs.
Proof.
  intros Hc. exists (mkRB [] cap). unfold NewRingBuffer. rewrite decide_False by lia.
  destruct (Push_all_spec (mkRB [] cap) vs) as (rb' & ? & [? ?] & ? & Hd).
  { split; simpl; unfold rb_len; simpl; lia. }
  exists rb'. split_and!; [done..| |exact Hd]. simpl in *. lia.
Qed.

Lemma RingBuffer_sliding_window_witness :
  1 <= 3 ∧ ∃ rb rb', NewRingBuffer 3 = Some rb ∧
    Push_all rb [f64_of_Z 1; f64_of_Z 2; f64_of_Z 3; f64_of_Z 4] = Some rb' ∧
    rb_len rb' <= 3 ∧ Values rb' = [f64_of_Z 2; f64_of_Z 3; f64_of_Z 4].
Proof. split; [lia|]. apply (RingBuffer_sliding_window 3). lia. Defined.

(** ** The median *)

Lemma f64_at_lookup l i : (i < length l)%nat → l !! i = Some (f64_at l i).
Proof. unfold f64_at. intros [x ->]%lookup_lt_is_Some. done. Qed.

(** When more than half the observations are [v], so is the median. *)
Lemma Median_majority d c v :
  finite_valid v → (0 < fval v)%Q → (2 * fval v < pow2 1024)%Q →
  (length d < 2 * key_count (fkey v) d)%nat →
  Median (mkRB d c) = v.
Proof.
  intros Hv Hpos Hmax Hmaj. unfold Median. cbn [rb_data].
  pose proof (key_count_le (fkey v) d). set (n := length d) in *.
  assert (∀ i, (i < key_count (fkey v) d)%nat → (n < i + 1 + key_count (fkey v) d)%nat →
    f64_at (sort_Float64s d) i = v) as Hat.
  { intros i Hlo Hhi. symmetry. apply fkey_pos_eq; [done|]. symmetry.
    apply (sort_lookup_majority d i _ _); [|done..]. apply f64_at_lookup.
    rewrite sort_Float64s_length. fold n. lia. }
  pose proof (Nat.div_mod_eq n 2). pose proof (Nat.mod_upper_bound n 2 ltac:(lia)).
  rewrite decide_False by lia. case_decide.
  - apply Hat; lia.
  - rewrite !Hat by lia. by apply average_self.
Qed.

Lemma last_n_all {A} n (l : list A) : (length l <= n)%nat → last_n n l = l.
Proof. intros. unfold last_n. by replace (length l - n)%nat with 0%nat by lia. Qed.

(** Restart recovery. A buffer of capacity 10 reseeded with the five copies of
    a persisted estimate keeps that estimate as its median through the next four
    observations, whatever they are. *)
Theorem restart_seed_dominates rb v vs :
  rb_cap rb = 10 → finite_valid v → (0 < fval v)%Q → (2 * fval v < pow2 1024)%Q →
  (length vs <= 4)%nat →
  ∃ rb', Push_all (SeedN rb v 5) vs = Some rb' ∧ Median rb' = v.
Proof.
  intros Hc Hv Hpos Hmax Hvs. unfold SeedN. rewrite Hc. simpl.
  destruct (Push_all_spec (mkRB [v; v; v; v; v] 10) vs) as ([d c] & -> & _ & _ & Hd).
  { split; simpl; unfold rb_len; simpl; lia. }
  eexists. split; [done|]. simpl in Hd. rewrite last_n_all in Hd by (simpl; lia). subst d.
  apply Median_majority; [done..|].
  change (v :: v :: v :: v :: v :: vs) with ([v; v; v; v; v] ++ vs).
  rewrite key_count_app, length_app.
  assert (key_count (fkey v) [v; v; v; v; v] = 5%nat) as ->; [|simpl; lia].
  unfold key_count. by rewrite !filter_cons_True by done.
Qed.

Lemma restart_seed_dominates_witness :
  let rb := mkRB [] 10 in
  let v := f64_of_Z 120 in
  finite_valid v ∧
  ∃ rb', Push_all (SeedN rb v 5) [f64_of_Z 1; f64_of_Z 900; S754_nan; f64_of_Z 2] = Some rb' ∧
    Median rb' = v.
Proof.
  intros rb v. assert (finite_valid v) as Hv by (split; vm_compute; reflexivity).
  split; [exact Hv|]. apply (restart_seed_dominates rb v); [reflexivity|exact Hv|..].
  - vm_compute. reflexivity.
  - apply Qlt_trans with (inject_Z (2 ^ 53)); [vm_compute; reflexivity|].
    apply Z_lt_pow2_1024. lia.
  - simpl. lia.
Defined.

(** Five copies do not dominate a fifth observation. After five observations
    of 500 on a seed of 100 the median is already 300, and after six it is 500. *)
Theorem restart_seed_washed_out :
  let seeded := SeedN (mkRB [] 10) (f64_of_Z 100) 5 in
  Median <$> Push_all seeded (replicate 5 (f64_of_Z 500)) = Some (f64_of_Z 300) ∧
  Median <$> Push_all seeded (replicate 6 (f64_of_Z 500)) = Some (f64_of_Z 500).
Proof. split; vm_compute; reflexivity. Qed.

(** Arithmetic does not tell indistinguishable doubles apart, beyond a zero's sign. *)
#[export] Instance fadd_proper : Proper (fequiv ==> fequiv ==> fequiv) fadd.
Proof.
  intros x x' [->|(s&t&->&->)]%fequiv_cases y y' [->|(s'&t'&->&->)]%fequiv_cases;
    destruct_all bool; try reflexivity;
    (destruct y' as [[]|[]| |[]] || destruct x' as [[]|[]| |[]]); reflexivity.
Qed.

#[export] Instance fdiv_by_proper d : Proper (fequiv ==> fequiv) (λ x, fdiv x d).
Proof.
  intros x x' [->|(s&t&->&->)]%fequiv_cases; [done|].
  destruct s, t, d as [[]|[]| |[]]; reflexivity.
Qed.

Lemma f64_at_perm l1 l2 i :
  l1 ≡ₚ l2 → (i < length l1)%nat →
  fequiv (f64_at (sort_Float64s l1) i) (f64_at (sort_Float64s l2) i).
Proof.
  intros Hp Hi. rewrite <- (sort_Float64s_length l1) in Hi.
  destruct (sort_lookup_perm l1 l2 i _ Hp (f64_at_lookup _ _ Hi)) as (y & Hy & Hxy).
  unfold f64_at at 2. by rewrite Hy.
Qed.

(** The median depends on the observations, not on the order in which they
    arrived. *)
Theorem Median_order_irrelevant d1 d2 c1 c2 :
  d1 ≡ₚ d2 → fequiv (Median (mkRB d1 c1)) (Median (mkRB d2 c2)).
Proof.
  intros Hp. unfold Median. cbn [rb_data]. rewrite <- (Permutation_length Hp).
  case_decide as H0; [done|].
  pose proof (Nat.div_mod_eq (length d1) 2). pose proof (Nat.mod_upper_bound (length d1) 2 ltac:(lia)).
  case_decide.
  - apply f64_at_perm; [done|lia].
  - apply fdiv_by_proper. f_equiv; (apply f64_at_perm; [done|lia]).
Qed.

Lemma Median_order_irrelevant_witness :
  [f64_of_Z 3; f64_of_Z 1; f64_of_Z 2] ≡ₚ [f64_of_Z 2; f64_of_Z 3; f64_of_Z 1] ∧
  fequiv (Median (mkRB [f64_of_Z 3; f64_of_Z 1; f64_of_Z 2] 10))
         (Median (mkRB [f64_of_Z 2; f64_of_Z 3; f64_of_Z 1] 10)) ∧
  Median (mkRB [f64_of_Z 3; f64_of_Z 1; f64_of_Z 2] 10) = f64_of_Z 2.
Proof.
  assert ([f64_of_Z 3; f64_of_Z 1; f64_of_Z 2] ≡ₚ [f64_of_Z 2; f64_of_Z 3; f64_of_Z 1]) as Hp.
  { apply (Permutation_app_comm [f64_of_Z 3; f64_of_Z 1] [f64_of_Z 2]). }
  split; [exact Hp|]. split; [exact (Median_order_irrelevant _ _ 10 10 Hp)|].
  vm_compute. reflexivity.
Defined.

(** ** The store implements a map from CR keys to states *)

(** Every entry points into the heap, and no two entries share a cell. *)
Record store_wf (s : StateStore) : Prop := {
  sw_valid : ∀ k p, ss_store s !! k = Some p → is_Some (ss_heap s !! p);
  sw_inj : ∀ k1 k2 p, ss_store s !! k1 = Some p → ss_store s !! k2 = Some p → k1 = k2;
}.

(** The state a reconcile of [k] sees. *)
Definition view (s : StateStore) (k : NamespacedName) : option PerCRState :=
  Get s k ≫= deref s.

Lemma NewStateStore_wf : store_wf NewStateStore.
Proof. split; simpl; intros *; by rewrite lookup_empty. Qed.

Lemma GetOrCreate_spec s k c :
  store_wf s →
  let '(p, s') := GetOrCreate s k c in
  store_wf s' ∧ Get s' k = Some p ∧
  view s' k = Some (deref_or (view s k) (mkPerCRState (mkRB [] c) f0 0 0 false)) ∧
  (∀ k', k' ≠ k → view s' k' = view s k').
Proof.
  intros [Hv Hi]. unfold GetOrCreate, view, Get, deref.
  destruct (ss_store s !! k) as [p|] eqn:Hk; simpl.
  - destruct (Hv k p Hk) as [x Hx]. rewrite Hk. simpl. rewrite Hx. by split_and!.
  - set (p := fresh (dom (ss_heap s))).
    assert (ss_heap s !! p = None) as Hp by (apply not_elem_of_dom, is_fresh).
    assert (∀ k', ss_store s !! k' ≠ Some p) as Hfr.
    { intros k' Hk'. destruct (Hv _ _ Hk') as [? ?]. congruence. }
    rewrite !lookup_insert_eq. simpl. rewrite lookup_insert_eq. split_and!; [|done|done|].
    + split; simpl.
      * intros k' q. destruct (decide (k' = k)) as [->|].
        -- rewrite lookup_insert_eq. intros [= <-]. rewrite lookup_insert_eq. eauto.
        -- rewrite lookup_insert_ne by done. intros [x Hx]%Hv.
           apply lookup_insert_is_Some'. eauto.
      * intros k1 k2 q. rewrite !lookup_insert_Some. naive_solver.
    + intros k' Hk'. rewrite lookup_insert_ne by done.
      destruct (ss_store s !! k') as [q|] eqn:Hq; simpl; [|done].
      rewrite lookup_insert_ne; [done|]. intros <-. by apply (Hfr k').
Qed.

(** An assignment through the pointer of [k] is seen by [k] and by nobody else. *)
Lemma assign_spec s k p st :
  store_wf s → Get s k = Some p →
  store_wf (assign s p st) ∧ Get (assign s p st) k = Some p ∧
  view (assign s p st) k = Some st ∧ (∀ k', k' ≠ k → view (assign s p st) k' = view s k').
Proof.
  intros [Hv Hi] Hk. unfold view, Get, deref, assign in *. simpl. rewrite Hk. simpl.
  rewrite lookup_insert_eq. split_and!; [|done|done|].
  - split; simpl; [|done]. intros k' q [x Hx]%Hv. apply lookup_insert_is_Some'. eauto.
  - intros k' Hk'. destruct (ss_store s !! k') as [q|] eqn:Hq; simpl; [|done].
    rewrite lookup_insert_ne; [done|]. intros <-. by apply Hk', (Hi _ _ p).
Qed.

Lemma Delete_spec s k :
  store_wf s →
  store_wf (Delete s k) ∧ view (Delete s k) k = None ∧
  (∀ k', k' ≠ k → view (Delete s k) k' = view s k').
Proof.
  intros [Hv Hi]. unfold view, Get, deref, Delete. simpl. split_and!.
  - split; simpl.
    + intros k' p. rewrite lookup_delete_Some. naive_solver.
    + intros k1 k2 p. rewrite !lookup_delete_Some. naive_solver.
  - by rewrite lookup_delete_eq.
  - intros k' Hk'. by rewrite lookup_delete_ne.
Qed.

(** What the reconciler does to the store: look the key up and, if asked to, store a
    new value through the pointer it received; or drop the key. *)
Inductive StoreOp :=
| OpUpdate (k : NamespacedName) (f : PerCRState → PerCRState)
| OpDelete (k : NamespacedName).

Definition run_op (capacity : Z) (s : StateStore) (op : StoreOp) : StateStore :=
  match op with
  | OpUpdate k f =>
      let '(p, s) := GetOrCreate s k capacity in
      match deref s p with Some st => assign s p (f st) | None => s end
  | OpDelete k => Delete s k
  end.

(** The specification: a partial map. *)
Definition spec_op (capacity : Z) (m : NamespacedName → option PerCRState) (op : StoreOp) :
    NamespacedName → option PerCRState :=
  match op with
  | OpUpdate k f => λ k',
      if decide (k' = k)
      then Some (f (deref_or (m k) (mkPerCRState (mkRB [] capacity) f0 0 0 false)))
      else m k'
  | OpDelete k => λ k', if decide (k' = k) then None else m k'
  end.

Lemma run_op_refines c s op :
  store_wf s → store_wf (run_op c s op) ∧ ∀ k, view (run_op c s op) k = spec_op c (view s) op k.
Proof.
  intros Hwf. destruct op as [k f|k]; simpl.
  - pose proof (GetOrCreate_spec s k c Hwf) as H. destruct (GetOrCreate s k c) as [p s'].
    destruct H as (Hwf' & Hp & Hv & Ho).
    assert (deref s' p = view s' k) as -> by (unfold view; by rewrite Hp). rewrite Hv.
    destruct (assign_spec s' k p (f (deref_or (view s k)
      (mkPerCRState (mkRB [] c) f0 0 0 false))) Hwf' Hp) as (? & _ & Hv2 & Ho2).
    split; [done|]. intros k'. case_decide; [by subst|]. by rewrite Ho2, Ho.
  - destruct (Delete_spec s k Hwf) as (? & Hn & Ho). split; [done|].
    intros k'. case_decide; [by subst|auto].
Qed.

(** Claim C23: the shared-pointer store behaves as a plain map. After any sequence of
    updates and deletions, the state every key sees is the one the map specification
    gives: updates reach the key they are made for, and no other CR's state. *)
Theorem StateStore_refines_map c ops k :
  view (fold_left (run_op c) ops NewStateStore) k =
  fold_left (spec_op c) ops (λ _, None) k.
Proof.
  assert (∀ s m, store_wf s → (∀ k, view s k = m k) →
    view (fold_left (run_op c) ops s) k = fold_left (spec_op c) ops m k) as H.
  { induction ops as [|op ops IH]; intros s m Hwf Hm; simpl; [done|].
    destruct (run_op_refines c s op Hwf) as [Hwf' Hv]. apply IH; [done|].
    intros k'. rewrite Hv. destruct op; simpl; by rewrite !Hm. }
  apply H; [apply NewStateStore_wf|]. intros k'. unfold view, Get. simpl.
  by rewrite lookup_empty.
Qed.
