(* ===== verification/Decision.v ===== *)
(** * internal/decision/decision.go: the scaling decision

    Parameter resolution, the unbounded recommendation, the clamp to the CRD
    bounds, the step cap / cooldown / hysteresis stage, the calibration gate of
    the per-pod capacity estimate and the restart seed, each translated from the
    function of the same name.  [int32] additions wrap around. *)
From S2P Require Import Prelude Float64 FloatOrder FloatRound Reasoning State.
From Stdlib Require Import SpecFloat QArith Qround Lqa.
#[local] Open Scope Z_scope.

Record SpecParams := mkSpecParams {
  sp_ScaleUpCooldown : option Z;
  sp_ScaleDownCooldown : option Z;
  sp_MaxStepSize : option Z;
  sp_PreferredForecaster : option string;
}.

Record ClassifiedParams := mkClassifiedParams {
  dcp_ScaleUpCooldown : Z;
  dcp_ScaleDownCooldown : Z;
  dcp_MaxStepSize : Z;
  dcp_PreferredForecaster : string;
}.

Record DefaultParams := mkDefaultParams {
  dp_ScaleUpCooldown : Z;
  dp_ScaleDownCooldown : Z;
  dp_MaxStepSize : Z;
}.

Record ParamSources := mkParamSources {
  ps_Spec : SpecParams;
  ps_Classified : option ClassifiedParams;
  ps_Defaults : DefaultParams;
}.

Record EffectiveParams := mkEffectiveParams {
  ep_CooldownUp : Z;
  ep_CooldownDown : Z;
  ep_MaxStep : Z;
  ep_Forecaster : string;
}.

Definition coalesce32 (spec classified : option Z) (def : Z) : Z :=
  match spec with
  | Some v => v
  | None => match classified with Some v => v | None => def end
  end.

Definition classifiedField32 (c : option ClassifiedParams) (f : ClassifiedParams → Z) :
    option Z :=
  match c with None => None | Some c => Some (f c) end.

Definition coalesceStr (spec classified : option string) (def : string) : string :=
  let rest := match classified with
              | Some c => if decide (c ≠ EmptyString) then c else def
              | None => def
              end in
  match spec with
  | Some s => if decide (s ≠ EmptyString) then s else rest
  | None => rest
  end.

Definition classifiedFieldStr (c : option ClassifiedParams) (f : ClassifiedParams → string) :
    option string :=
  match c with
  | None => None
  | Some c => if decide (f c = EmptyString) then None else Some (f c)
  end.

Definition ResolveEffectiveParams (src : ParamSources) : EffectiveParams :=
  {| ep_CooldownUp :=
       coalesce32 (sp_ScaleUpCooldown (ps_Spec src))
         (classifiedField32 (ps_Classified src) dcp_ScaleUpCooldown)
         (dp_ScaleUpCooldown (ps_Defaults src));
     ep_CooldownDown :=
       coalesce32 (sp_ScaleDownCooldown (ps_Spec src))
         (classifiedField32 (ps_Classified src) dcp_ScaleDownCooldown)
         (dp_ScaleDownCooldown (ps_Defaults src));
     ep_MaxStep :=
       coalesce32 (sp_MaxStepSize (ps_Spec src))
         (classifiedField32 (ps_Classified src) dcp_MaxStepSize)
         (dp_MaxStepSize (ps_Defaults src));
     ep_Forecaster :=
       coalesceStr (sp_PreferredForecaster (ps_Spec src))
         (classifiedFieldStr (ps_Classified src) dcp_PreferredForecaster)
         "auto" |}.

Definition ComputeUnboundedRecommended `{GoPlatform} (predictedRPS rpsPerPod : float64) : Z :=
  if (rpsPerPod <=? f0)%f64 then MaxInt32
  else f64_to_i32 (math_Ceil (predictedRPS / rpsPerPod)%f64).

Definition ClampRecommended (unbounded minReplicas maxReplicas : Z) : Z * string :=
  if decide (unbounded > maxReplicas) then (maxReplicas, MaxReplicasBinding)
  else if decide (unbounded < minReplicas) then (minReplicas, MinReplicasBinding)
  else (unbounded, EmptyString).

Record CapInput := mkCapInput {
  ci_Recommended : Z;
  ci_Current : Z;
  ci_MaxStep : Z;
  ci_CooldownUp : Z;
  ci_CooldownDown : Z;
  ci_LastScaleUp : Time;
  ci_LastScaleDown : Time;
  ci_Now : Time;
  ci_BindingReason : string;
}.

Record CapOutput := mkCapOutput {
  co_Target : Z;
  co_Reason : string;
  co_ShouldPatch : bool;
}.

Definition ApplyCapAndCooldown (i : CapInput) : CapOutput :=
  let target := ci_Recommended i in
  let reason := ci_BindingReason i in
  let '(target, reason) :=
    if decide (target > ci_Current i) then
      let '(target, reason) :=
        if decide (target > ci_Current i +₃₂ ci_MaxStep i)
        then (ci_Current i +₃₂ ci_MaxStep i, StepCappedUp)
        else (target, ScaleUp) in
      if decide (time_Sub (ci_Now i) (ci_LastScaleUp i) < ci_CooldownUp i *₆₄ Second)
      then (ci_Current i, CooldownHoldingUp)
      else (target, reason)
    else if decide (target < ci_Current i) then
      let '(target, reason) :=
        if decide (target < ci_Current i -₃₂ ci_MaxStep i)
        then (ci_Current i -₃₂ ci_MaxStep i, StepCappedDown)
        else (target, ScaleDown) in
      if decide (time_Sub (ci_Now i) (ci_LastScaleDown i) < ci_CooldownDown i *₆₄ Second)
      then (ci_Current i, CooldownHoldingDown)
      else (target, reason)
    else (ci_Current i, if decide (reason = EmptyString) then NoChange else reason) in
  {| co_Target := target; co_Reason := reason;
     co_ShouldPatch := bool_decide (target ≠ ci_Current i) |}.

Definition DefaultRpsPerPodNoiseFloor : float64 := f64_of_Z 10.

Definition ShouldUpdateRpsPerPodWithFloor (currentRPS : float64) (replicas : Z)
    (lastScale now : Time) (interval : Duration) (noiseFloor : float64) : bool :=
  if (currentRPS <=? f0)%f64 || bool_decide (replicas < 1) then false
  else if (currentRPS <? noiseFloor)%f64 then false
  else bool_decide (2 *₆₄ interval <= time_Sub now lastScale).

Definition ShouldUpdateRpsPerPod (currentRPS : float64) (replicas : Z)
    (lastScale now : Time) (interval : Duration) : bool :=
  ShouldUpdateRpsPerPodWithFloor currentRPS replicas lastScale now interval
    DefaultRpsPerPodNoiseFloor.

Definition ClampRpsPerPod (v : float64) (minRpsPerPod maxRpsPerPod : Z) : float64 :=
  if (v <? f64_of_Z minRpsPerPod)%f64 then f64_of_Z minRpsPerPod
  else if (v >? f64_of_Z maxRpsPerPod)%f64 then f64_of_Z maxRpsPerPod
  else v.

Record StatusSeed := mkStatusSeed {
  seed_RpsPerPodCurrent : float64;
  seed_InBounds : bool;
  seed_Midpoint : float64;
  seed_LastScaleTime : Time;
}.

Definition RestartSeedCopies : Z := 5.

Definition InitializeFromStatus (state : PerCRState) (seed : StatusSeed) : PerCRState :=
  let '(rps, obs) :=
    if seed_InBounds seed && (seed_RpsPerPodCurrent seed >? f0)%f64
    then (seed_RpsPerPodCurrent seed,
          SeedN (pc_Observations state) (seed_RpsPerPodCurrent seed) RestartSeedCopies)
    else (seed_Midpoint seed, pc_Observations state) in
  let '(up, down) :=
    if time_IsZero (seed_LastScaleTime seed)
    then (pc_LastScaleUpTime state, pc_LastScaleDownTime state)
    else (seed_LastScaleTime seed, seed_LastScaleTime seed) in
  mkPerCRState obs rps up down true.

(** ** Parameter resolution *)

(** The design's [a ?? b ?? ... ?? d]: the first present value, else [d]. *)
Fixpoint nullish {A} (l : list (option A)) (d : A) : A :=
  match l with
  | [] => d
  | Some a :: _ => a
  | None :: l => nullish l d
  end.

(** A string field counts as present only when non-empty. *)
Definition present (o : option string) : option string :=
  match o with
  | Some s => if decide (s = EmptyString) then None else Some s
  | None => None
  end.

(** The resolved parameters are the first present value along the chain
    spec, classifier output, environment default, for each of the four fields, a
    forecaster name counting as present only when it is not the empty string. *)
Theorem ResolveEffectiveParams_precedence src :
  let s := ps_Spec src in
  let c := ps_Classified src in
  let d := ps_Defaults src in
  ResolveEffectiveParams src =
    {| ep_CooldownUp :=
         nullish [sp_ScaleUpCooldown s; dcp_ScaleUpCooldown <$> c] (dp_ScaleUpCooldown d);
       ep_CooldownDown :=
         nullish [sp_ScaleDownCooldown s; dcp_ScaleDownCooldown <$> c] (dp_ScaleDownCooldown d);
       ep_MaxStep :=
         nullish [sp_MaxStepSize s; dcp_MaxStepSize <$> c] (dp_MaxStepSize d);
       ep_Forecaster :=
         nullish [present (sp_PreferredForecaster s);
                  present (dcp_PreferredForecaster <$> c)] "auto" |}.
Proof.
  destruct src as [[su sd sm sf] c [du dd dm]]. unfold ResolveEffectiveParams. simpl.
  f_equal. unfold coalesceStr, classifiedFieldStr, present.
  destruct sf, c; simpl; repeat case_decide; simpl; repeat case_decide; naive_solver.
Qed.

(** The chain for a spec that pins ["auto"]: the pin wins over the classifier. *)
Definition pinned_auto (cls : ClassifiedParams) (d : DefaultParams) : ParamSources :=
  mkParamSources (mkSpecParams None None None (Some "auto")) (Some cls) d.
Definition unpinned (cls : ClassifiedParams) (d : DefaultParams) : ParamSources :=
  mkParamSources (mkSpecParams None None None None) (Some cls) d.

(** Pinning the forecaster to ["auto"] is not the same as leaving it unset:
    whenever the classifier recommends a forecaster other than ["auto"], the unset
    spec resolves to the classifier's choice and the pinned one to ["auto"]. *)
Theorem auto_pin_shadows_classifier cls d :
  dcp_PreferredForecaster cls ≠ EmptyString →
  ep_Forecaster (ResolveEffectiveParams (unpinned cls d)) = dcp_PreferredForecaster cls ∧
  ep_Forecaster (ResolveEffectiveParams (pinned_auto cls d)) = "auto".
Proof.
  intros Hne. unfold ResolveEffectiveParams, coalesceStr, classifiedFieldStr. simpl.
  rewrite decide_False by done. by rewrite decide_True.
Qed.

Lemma auto_pin_shadows_classifier_witness :
  let cls := mkClassifiedParams 60 180 2 "prophet" in
  let d := mkDefaultParams 60 300 4 in
  ep_Forecaster (ResolveEffectiveParams (unpinned cls d)) = "prophet" ∧
  ep_Forecaster (ResolveEffectiveParams (pinned_auto cls d)) = "auto".
Proof.
  intros cls d. apply (auto_pin_shadows_classifier cls d). discriminate.
Defined.

(** ** Step cap, cooldown, hysteresis *)

(** Inputs on which no [int32] or [Duration] arithmetic wraps around. *)
Record cap_ok (i : CapInput) : Prop := {
  ck_step : 0 <= ci_MaxStep i;
  ck_up : in_i32 (ci_Current i + ci_MaxStep i);
  ck_down : in_i32 (ci_Current i - ci_MaxStep i);
  ck_cup : in_i32 (ci_CooldownUp i);
  ck_cdown : in_i32 (ci_CooldownDown i);
}.

Definition CapOutput_keep (i : CapInput) (reason : string) : CapOutput :=
  {| co_Target := ci_Current i; co_Reason := reason; co_ShouldPatch := false |}.

(** The rules of the design, over unbounded integers and exact time differences:
    the demanded move is clipped to the step, an unexpired cooldown of the move's
    direction cancels it, and without a demand the binding reason survives. *)
Definition cap_design (i : CapInput) : CapOutput :=
  let d := ci_Recommended i - ci_Current i in
  let dir := Z.sgn d in
  let holding :=
    if decide (dir = 1)
    then bool_decide (ci_Now i - ci_LastScaleUp i < ci_CooldownUp i * Second)
    else bool_decide (ci_Now i - ci_LastScaleDown i < ci_CooldownDown i * Second) in
  if decide (dir = 0) then
    CapOutput_keep i (if decide (ci_BindingReason i = EmptyString)
                      then NoChange else ci_BindingReason i)
  else if holding then
    CapOutput_keep i (if decide (dir = 1) then CooldownHoldingUp else CooldownHoldingDown)
  else
    let step := Z.min (Z.abs d) (ci_MaxStep i) in
    let capped := bool_decide (ci_MaxStep i < Z.abs d) in
    {| co_Target := ci_Current i + dir * step;
       co_Reason :=
         if decide (dir = 1) then (if capped then StepCappedUp else ScaleUp)
         else (if capped then StepCappedDown else ScaleDown);
       co_ShouldPatch := bool_decide (step ≠ 0) |}.

Lemma cooldown_expired_iff now last cd :
  in_i32 cd →
  time_Sub now last < cd *₆₄ Second ↔ now - last < cd * Second.
Proof.
  intros. rewrite seconds_no_overflow by done. apply time_Sub_lt. unfold Second. int_lia.
Qed.

Lemma cap_follows_design i :
  cap_ok i → ApplyCapAndCooldown i = cap_design i.
Proof.
  intros [Hs Hup Hdn Hcu Hcd].
  pose proof (cooldown_expired_iff (ci_Now i) (ci_LastScaleUp i) _ Hcu) as Hu.
  pose proof (cooldown_expired_iff (ci_Now i) (ci_LastScaleDown i) _ Hcd) as Hd.
  unfold ApplyCapAndCooldown, cap_design, CapOutput_keep.
  rewrite (wrap32_id _ Hup), (wrap32_id _ Hdn).
  destruct (Z.lt_trichotomy (ci_Current i) (ci_Recommended i)) as [Hlt|[Heq|Hgt]].
  - rewrite Z.sgn_pos, Z.abs_eq by lia. rewrite (decide_True (P := _ > _)) by lia.
    split_decisions; try lia; f_equal; try (apply bool_decide_ext); lia || tauto.
  - rewrite Heq, Z.sub_diag. rewrite !(decide_False (P := _ > _)), !(decide_False (P := _ < _)) by lia.
    split_decisions; try lia; by f_equal.
  - rewrite Z.sgn_neg, Z.abs_neq by lia.
    rewrite (decide_False (P := _ > _)), (decide_True (P := ci_Recommended i < _)) by lia.
    split_decisions; try lia; f_equal; try (apply bool_decide_ext); lia || tauto.
Qed.



(** Facts about the design's decision, by cases on the direction of the demand. *)
Ltac cap_design_cases :=
  unfold cap_design, CapOutput_keep;
  match goal with |- context [Z.sgn ?d] =>
    destruct (Z.sgn_spec d) as [[? ->]|[[? ->]|[? ->]]] end;
  split_decisions; simpl in *; try lia.

Lemma cap_design_toward i :
  0 <= ci_MaxStep i →
  let t := co_Target (cap_design i) in
  (ci_Current i <= t <= ci_Recommended i ∨ ci_Recommended i <= t <= ci_Current i) ∧
  Z.abs (t - ci_Current i) <= ci_MaxStep i ∧
  (co_ShouldPatch (cap_design i) = true ↔ t ≠ ci_Current i).
Proof.
  intros Hs. cap_design_cases;
    (split_and!; [lia|lia|split; intros; (done || lia || congruence)]).
Qed.

Lemma cap_design_patch_cooldown i :
  0 <= ci_MaxStep i →
  co_ShouldPatch (cap_design i) = true →
  (ci_Current i < co_Target (cap_design i) →
     ci_CooldownUp i * Second <= ci_Now i - ci_LastScaleUp i) ∧
  (co_Target (cap_design i) < ci_Current i →
     ci_CooldownDown i * Second <= ci_Now i - ci_LastScaleDown i).
Proof. intros Hs. cap_design_cases; (intros Hp; split; intros; (discriminate || lia)). Qed.

(** A decision never overshoots: the target lies between the current count
    and the recommendation, at most [MaxStep] away from the current count; it is
    patched exactly when it differs from the current count, and only once the
    cooldown of its direction has fully elapsed. *)
Theorem ApplyCapAndCooldown_safe i :
  cap_ok i →
  let o := ApplyCapAndCooldown i in
  (ci_Current i <= co_Target o <= ci_Recommended i ∨
   ci_Recommended i <= co_Target o <= ci_Current i) ∧
  Z.abs (co_Target o - ci_Current i) <= ci_MaxStep i ∧
  (co_ShouldPatch o = true ↔ co_Target o ≠ ci_Current i) ∧
  (co_ShouldPatch o = true → ci_Current i < co_Target o →
     ci_CooldownUp i * Second <= ci_Now i - ci_LastScaleUp i) ∧
  (co_ShouldPatch o = true → co_Target o < ci_Current i →
     ci_CooldownDown i * Second <= ci_Now i - ci_LastScaleDown i).
Proof.
  intros Hok. cbn zeta. rewrite cap_follows_design by done.
  destruct (cap_design_toward i (ck_step _ Hok)) as (?&?&?).
  pose proof (cap_design_patch_cooldown i (ck_step _ Hok)). naive_solver.
Qed.

Lemma ApplyCapAndCooldown_safe_witness :
  let i := mkCapInput 2 9 4 60 300 0 0 (400 * Second) EmptyString in
  cap_ok i ∧ co_Target (ApplyCapAndCooldown i) = 5 ∧
  ci_CooldownDown i * Second <= ci_Now i - ci_LastScaleDown i.
Proof.
  intros i. assert (cap_ok i) as H by (by split; vm_compute).
  split; [exact H|]. split; [vm_compute; reflexivity|].
  apply (ApplyCapAndCooldown_safe i H); vm_compute; reflexivity.
Defined.

(** Without the overflow guard the stage is unsafe. A CR that satisfies the
    admission rules (minReplicas 1, maxReplicas 2147483647, maxStepSize 2147483646)
    and asks for one more replica than the current five wraps the step bound around
    and orders a patch to a negative replica count. *)
Theorem ApplyCapAndCooldown_overflow :
  let i := mkCapInput 6 5 2147483646 0 0 0 0 Second EmptyString in
  ApplyCapAndCooldown i =
    {| co_Target := -2147483645; co_Reason := StepCappedUp; co_ShouldPatch := true |}.
Proof. vm_compute. reflexivity. Qed.

(** ** The clamp to the CRD bounds *)

Lemma ClampRecommended_range unbounded mn mx r reason :
  mn <= mx → ClampRecommended unbounded mn mx = (r, reason) → mn <= r <= mx.
Proof. unfold ClampRecommended. intros. split_decisions; lia. Qed.

(** The clamp lands in the CRD interval, moves as little as possible, leaves
    values inside it alone, and reports the binding bound exactly when it moved the
    value. *)
Theorem ClampRecommended_spec unbounded mn mx :
  mn <= mx →
  let '(r, reason) := ClampRecommended unbounded mn mx in
  mn <= r <= mx ∧
  (∀ z, mn <= z <= mx → Z.abs (r - unbounded) <= Z.abs (z - unbounded)) ∧
  (reason = EmptyString ↔ r = unbounded) ∧
  (reason = MaxReplicasBinding ↔ mx < unbounded) ∧
  (reason = MinReplicasBinding ↔ unbounded < mn).
Proof.
  intros Hmm. unfold ClampRecommended.
  repeat case_decide; (split_and!; [lia|lia|intros; lia|..]);
    (split; [intros; (discriminate || lia)|intros; (lia || done)]).
Qed.

Lemma ClampRecommended_spec_witness :
  2 <= 10 ∧ ClampRecommended 37 2 10 = (10, MaxReplicasBinding) ∧
  2 <= (ClampRecommended 37 2 10).1 <= 10.
Proof.
  split; [lia|]. split; [reflexivity|].
  pose proof (ClampRecommended_spec 37 2 10 ltac:(lia)) as H.
  destruct (ClampRecommended 37 2 10) as [r reason]. exact (proj1 H).
Defined.

(** Once inside the CRD interval the replica count stays inside: for a
    recommendation clamped to [min, max] and a current count in [min, max], the
    target is in [min, max]; from outside, the target never moves further away. *)
Theorem decision_stays_in_bounds i unbounded mn mx :
  cap_ok i → mn <= mx →
  ClampRecommended unbounded mn mx = (ci_Recommended i, ci_BindingReason i) →
  let t := co_Target (ApplyCapAndCooldown i) in
  (mn <= ci_Current i <= mx → mn <= t <= mx) ∧
  (ci_Current i < mn → ci_Current i <= t <= mx) ∧
  (mx < ci_Current i → mn <= t <= ci_Current i).
Proof.
  intros Hok Hmm Hcl. cbn zeta. rewrite cap_follows_design by done.
  destruct (cap_design_toward i (ck_step _ Hok)) as [Ht _].
  assert (mn <= ci_Recommended i <= mx) by (by eapply ClampRecommended_range).
  lia.
Qed.

Lemma decision_stays_in_bounds_witness :
  let i := mkCapInput 10 9 4 60 300 0 0 (400 * Second) MaxReplicasBinding in
  cap_ok i ∧ ClampRecommended 37 2 10 = (ci_Recommended i, ci_BindingReason i) ∧
  2 <= co_Target (ApplyCapAndCooldown i) <= 10.
Proof.
  intros i. assert (cap_ok i) as H by (by split; vm_compute).
  split; [exact H|]. split; [reflexivity|].
  refine (proj1 (decision_stays_in_bounds i 37 2 10 H ltac:(lia) eq_refl) _).
  unfold i. simpl. lia.
Defined.
