(* ===== verification/Capacity.v ===== *)
(** * Capacity arithmetic of the decision package

    The float64 side of decision.go: what [ComputeUnboundedRecommended] returns as
    a function of the exact quotient forecast / capacity, its monotonicity, what
    happens outside the [int32] range, and the calibration gate and clamp of the
    per-pod capacity estimate. *)
From S2P Require Import Prelude Float64 FloatOrder FloatRound Reasoning State Decision.
From Stdlib Require Import SpecFloat QArith Qround Lqa.
#[local] Open Scope Q_scope.

(** A usable load: finite, valid and not negative (a zero may have either sign). *)
Definition load (p : float64) : Prop := finite_valid p ∧ 0 <= fval p.

(** A usable capacity: finite, valid and positive. *)
Definition capacity (r : float64) : Prop := finite_valid r ∧ 0 < fval r.

Lemma capacity_shape r :
  capacity r → ∃ m e, r = S754_finite false m e ∧ bounded 53 1024 m e = true.
Proof.
  intros [[Hf Hv] Hp]. destruct r as [s|s| |[] m e]; simpl in *; try done; try lra.
  - rewrite smant_neg in Hp. pose proof (dyadic_pos m e). lra.
  - by exists m, e.
Qed.

Lemma capacity_positive r : capacity r → (r <=? f0)%f64 = false.
Proof. by intros (m & e & -> & _)%capacity_shape. Qed.

(** The quotient of a load by a capacity is the correctly rounded quotient. *)
Lemma quotient_cases p r :
  load p → capacity r →
  ((∃ s, (p / r)%f64 = S754_zero s) ∧ fval p == 0) ∨
  (0 < fval p ∧ rounds false (fval p / fval r) (p / r)%f64).
Proof.
  intros [[Hf Hv] Hs] (m & e & -> & _)%capacity_shape.
  destruct p as [s|s| |[] mp ep]; simpl in Hf, Hs; try done.
  - left. split; [by exists (xorb s false)|reflexivity].
  - rewrite smant_neg in Hs. pose proof (dyadic_pos mp ep). lra.
  - right. split; [apply dyadic_pos|]. exact (fdiv_rounds false mp ep false m e).
Qed.

Lemma fval_quotient p r k : 0 < fval r → fval p / fval r <= k ↔ fval p <= k * fval r.
Proof.
  intros Hr. split; intros H.
  - assert (fval p == fval p / fval r * fval r) as -> by (field; lra). nra.
  - by apply Qle_shift_div_r.
Qed.

Lemma Qceiling_le q z : q <= inject_Z z → (Qceiling q <= z)%Z.
Proof. intros Hq%Qceiling_resp_le. by rewrite Qceiling_Z in Hq. Qed.

Lemma Qceiling_ge q z : inject_Z z <= q → (z <= Qceiling q)%Z.
Proof. intros Hq%Qceiling_resp_le. by rewrite Qceiling_Z in Hq. Qed.

Lemma Qceiling_pred_lt q : inject_Z (Qceiling q - 1) < q.
Proof. apply Qceiling_lt. Qed.

(** The conversion of an in-range rounded quotient is its exact ceiling. *)
Lemma ceil_to_i32 `{GoPlatform} x :
  finite_valid x → in_i32 (Qceiling (fval x)) → f64_to_i32 (math_Ceil x) = Qceiling (fval x).
Proof.
  intros [Hf Hv] Hin. unfold f64_to_i32. rewrite math_Ceil_spec by done. by rewrite decide_True.
Qed.

Lemma rounded_quotient_bounds q R :
  0 < q → q <= inject_Z MaxInt32 → rounds false q R →
  finite_valid R ∧ (Qceiling q - 1 <= Qceiling (fval R) <= Qceiling q)%Z ∧
  (0 <= Qceiling (fval R) <= MaxInt32)%Z ∧
  (∀ k, q == inject_Z k → Qceiling (fval R) = k).
Proof.
  intros Hq Hmax Hr.
  assert (∀ z, (z <= MaxInt32)%Z → inject_Z z < pow2 1024) as Hlt.
  { intros. apply Z_lt_pow2_1024. unfold MaxInt32 in *. lia. }
  assert (∀ z, (0 <= z <= MaxInt32)%Z → representable (inject_Z z)) as Hrep.
  { intros. apply representable_Z. unfold MaxInt32 in *. lia. }
  pose proof (Qceiling_pred_lt q) as Hc1. pose proof (Qle_ceiling q) as Hc2.
  pose proof (Qceiling_le _ _ Hmax) as Hcmax.
  assert (0 < Qceiling q)%Z as Hcpos.
  { rewrite Zlt_Qlt. eapply Qlt_le_trans; [exact Hq|exact Hc2]. }
  destruct (rounds_le _ _ _ _ Hr (Hrep (Qceiling q) ltac:(lia)) Hc2 (Hlt _ Hcmax))
    as (Hf & H0 & Hle).
  assert (fval R == fmag R) as Hv.
  { apply fval_fmag; [done|]. by eapply rounds_signbit. }
  rewrite <- Hv in *. split; [split; [done|by eapply rounds_valid]|].
  assert (Qceiling q - 1 <= Qceiling (fval R) <= Qceiling q)%Z as Hbr.
  { split; [|by apply Qceiling_le]. apply Qceiling_ge. rewrite Hv.
    eapply rounds_ge; [exact Hr|apply Hrep; lia|lra|done]. }
  split_and!; [lia..| |lia|].
  - rewrite <- (Qceiling_Z 0). by apply Qceiling_resp_le.
  - intros k Hk. assert (0 < k <= MaxInt32)%Z as Hkr.
    { rewrite Hk in Hq, Hmax. change 0 with (inject_Z 0) in Hq.
      rewrite <- Zlt_Qlt in Hq. rewrite <- Zle_Qle in Hmax. lia. }
    destruct (rounds_exact _ _ _ Hr) as [_ He].
    + destruct (Hrep k ltac:(lia)) as (j & f & ? & ? & Hj). exists j, f. by rewrite Hk.
    + rewrite Hk. apply Hlt. lia.
    + rewrite <- Hv, Hk in He. by rewrite (Qceiling_comp _ _ He), Qceiling_Z.
Qed.

Lemma unbounded_ceiling `{GoPlatform} p r :
  load p → capacity r → fval p <= inject_Z MaxInt32 * fval r →
  let n := ComputeUnboundedRecommended p r in
  (Qceiling (fval p / fval r) - 1 <= n <= Qceiling (fval p / fval r))%Z ∧
  (0 <= n <= MaxInt32)%Z ∧
  (∀ k, fval p == inject_Z k * fval r → n = k).
Proof.
  intros Hp Hr Hmax. unfold ComputeUnboundedRecommended. rewrite capacity_positive by done.
  pose proof (proj2 Hr) as Hr0.
  assert (∀ k, fval p == inject_Z k * fval r → fval p / fval r == inject_Z k) as Hk.
  { intros k ->. field. lra. }
  destruct (quotient_cases p r Hp Hr) as [[[? ->] Hz]|[Hpos Hq]].
  - assert (fval p / fval r == 0) as Hq0 by (rewrite Hz; field; lra).
    rewrite (Qceiling_comp _ _ Hq0). split_and!; [done..|].
    intros k Hpk%Hk. rewrite Hq0 in Hpk. by apply (inject_Z_injective 0 k).
  - rewrite <- fval_quotient in Hmax by done.
    assert (0 < fval p / fval r) as Hqpos by (apply Qlt_shift_div_l; lra).
    destruct (rounded_quotient_bounds _ _ Hqpos Hmax Hq) as (Hfv & Hb & Hr32 & He).
    rewrite ceil_to_i32 by (done || int_lia). split_and!; [lia..|]. auto.
Qed.

(** Claim C13: the unbounded recommendation is the ceiling of the exact quotient of
    forecast and per-pod capacity, or one less when rounding the quotient to a double
    lands on the integer below; it is exact when the quotient is an integer, and
    never asks for more pods than the exact ceiling. *)
Theorem ComputeUnboundedRecommended_ceiling `{GoPlatform} p r :
  load p → capacity r → fval p <= inject_Z MaxInt32 * fval r →
  let n := ComputeUnboundedRecommended p r in
  (Qceiling (fval p / fval r) - 1 <= n <= Qceiling (fval p / fval r))%Z ∧
  (0 <= n <= MaxInt32)%Z ∧
  (∀ k, fval p == inject_Z k * fval r → n = k).
Proof. intros; by apply unbounded_ceiling. Qed.

Lemma load_of_i32 z : (0 <= z <= MaxInt32)%Z → load (f64_of_Z z).
Proof.
  intros Hz. destruct (f64_of_i32 z) as [Hv Hval]; [int_lia|]. split; [done|].
  rewrite Hval. change 0 with (inject_Z 0). rewrite <- Zle_Qle. lia.
Qed.

Lemma capacity_of_i32 z : (0 < z <= MaxInt32)%Z → capacity (f64_of_Z z).
Proof.
  intros Hz. destruct (f64_of_i32 z) as [Hv Hval]; [int_lia|]. split; [done|].
  rewrite Hval. change 0 with (inject_Z 0). rewrite <- Zlt_Qlt. lia.
Qed.

Lemma ComputeUnboundedRecommended_ceiling_witness :
  let _ := amd64 in
  load (f64_of_Z 1000) ∧ capacity (f64_of_Z 300) ∧
  (0 <= ComputeUnboundedRecommended (f64_of_Z 1000) (f64_of_Z 300) <= MaxInt32)%Z ∧
  ComputeUnboundedRecommended (f64_of_Z 1000) (f64_of_Z 300) = 4%Z.
Proof.
  assert (load (f64_of_Z 1000)) as Hp by (apply load_of_i32; split; vm_compute; congruence).
  assert (capacity (f64_of_Z 300)) as Hr by (apply capacity_of_i32; split; vm_compute; congruence).
  split; [exact Hp|]. split; [exact Hr|]. split; [|vm_compute; reflexivity].
  refine (proj1 (proj2 (@ComputeUnboundedRecommended_ceiling amd64 _ _ Hp Hr _))).
  vm_compute. congruence.
Defined.

(** Loads with the same key give the same recommendation. *)
Lemma load_fequiv `{GoPlatform} p1 p2 r :
  capacity r → fkey p1 = fkey p2 →
  ComputeUnboundedRecommended p1 r = ComputeUnboundedRecommended p2 r.
Proof.
  intros (m & e & -> & _)%capacity_shape [->|(s&t&->&->)]%fequiv_cases; [done|]. by destruct s, t.
Qed.

Lemma Qdiv_lt a b c : 0 < c → a < b → a / c < b / c.
Proof. intros. unfold Qdiv. apply Qmult_lt_r; [by apply Qinv_lt_0_compat|done]. Qed.

Lemma Qdiv_0_l c : 0 / c == 0.
Proof. unfold Qdiv. ring. Qed.

(** More load on weaker pods never means fewer of them. *)
Lemma unbounded_mono `{GoPlatform} p1 r1 p2 r2 :
  load p1 → load p2 → capacity r1 → capacity r2 → fval p2 <= inject_Z MaxInt32 * fval r2 →
  fval p1 <= fval p2 → fval r2 <= fval r1 →
  (ComputeUnboundedRecommended p1 r1 <= ComputeUnboundedRecommended p2 r2)%Z.
Proof.
  intros Hp1 Hp2 Hr1 Hr2 Hmax Hp Hr. pose proof (proj2 Hr1) as Hr10. pose proof (proj2 Hr2) as Hr20.
  destruct (unbounded_ceiling p2 r2 Hp2 Hr2 Hmax) as (_ & [Hn2 _] & _).
  destruct (quotient_cases p1 r1 Hp1 Hr1) as [[Hq1 Hz1]|[Hpos1 Hq1]].
  { unfold ComputeUnboundedRecommended at 1. rewrite capacity_positive by done. by destruct Hq1 as [? ->]. }
  destruct (quotient_cases p2 r2 Hp2 Hr2) as [[_ Hz2]|[Hpos2 Hq2]]; [lra|].
  assert (0 < fval p1 / fval r1) as Hq10 by (apply Qlt_shift_div_l; lra).
  assert (0 < fval p2 / fval r2) as Hq20 by (apply Qlt_shift_div_l; lra).
  assert (fval p1 / fval r1 <= fval p2 / fval r2) as Hle.
  { apply Qle_shift_div_l; [done|].
    assert (fval p1 / fval r1 * fval r2 == fval p1 * fval r2 / fval r1) as -> by (field; lra).
    apply Qle_shift_div_r; [done|]. nra. }
  rewrite <- fval_quotient in Hmax by done.
  destruct (Qlt_le_dec (fval p1 / fval r1) (fval p2 / fval r2)) as [Hlt|Hge].
  - unfold ComputeUnboundedRecommended. rewrite !capacity_positive by done.
    destruct (rounded_quotient_bounds _ _ Hq10 ltac:(lra) Hq1) as (Hf1 & _ & Hb1 & _).
    destruct (rounded_quotient_bounds _ _ Hq20 Hmax Hq2) as (Hf2 & _ & Hb2 & _).
    rewrite !ceil_to_i32 by (done || int_lia).
    apply Qceiling_resp_le. rewrite !fval_fmag by (apply Hf1 || apply Hf2 || by eapply rounds_signbit).
    eapply rounds_mono; [exact Hq1|exact Hq2|done|apply Hf1|apply Hf2].
  - assert (fval p1 * fval r2 == fval p2 * fval r1) as Heq.
    { assert (fval p1 / fval r1 == fval p2 / fval r2) as He by lra.
      assert (fval p1 * fval r2 == fval p1 / fval r1 * (fval r1 * fval r2)) as -> by (field; lra).
      rewrite He. field. lra. }
    assert (fval p1 == fval p2 ∧ fval r1 == fval r2) as [Ep Er] by (split; nra).
    rewrite (load_fequiv p1 p2 r1 Hr1) by (apply fval_fkey; [apply Hp1|apply Hp2|done]).
    assert (r1 = r2) as ->; [|done].
    destruct (proj1 (fequiv_cases r1 r2)) as [?|(s & t & -> & _)]; [|done|simpl in Hr10; lra].
    apply fval_fkey; [apply Hr1|apply Hr2|done].
Qed.

(** For the same capacity, a larger forecast (as [<=] compares doubles) never yields a
    smaller unbounded recommendation, as long as the larger one is inside the [int32]
    range. *)
Theorem ComputeUnboundedRecommended_mono `{GoPlatform} p1 p2 r :
  load p1 → load p2 → capacity r → fval p2 <= inject_Z MaxInt32 * fval r →
  (p1 <=? p2)%f64 = true →
  (ComputeUnboundedRecommended p1 r <= ComputeUnboundedRecommended p2 r)%Z.
Proof.
  intros Hp1 Hp2 Hr Hmax Hle. apply unbounded_mono; try done; [|apply Qle_refl].
  by apply (fle_fval p1 p2 (proj1 Hp1) (proj1 Hp2)).
Qed.

Lemma ComputeUnboundedRecommended_mono_witness :
  load (f64_of_Z 899) ∧ load (f64_of_Z 901) ∧ capacity (f64_of_Z 300) ∧
  (@ComputeUnboundedRecommended amd64 (f64_of_Z 899) (f64_of_Z 300) <=
   @ComputeUnboundedRecommended amd64 (f64_of_Z 901) (f64_of_Z 300))%Z.
Proof.
  assert (load (f64_of_Z 899)) as Hp1 by (apply load_of_i32; split; vm_compute; congruence).
  assert (load (f64_of_Z 901)) as Hp2 by (apply load_of_i32; split; vm_compute; congruence).
  assert (capacity (f64_of_Z 300)) as Hr by (apply capacity_of_i32; split; vm_compute; congruence).
  split_and!; [exact Hp1|exact Hp2|exact Hr|].
  apply (@ComputeUnboundedRecommended_mono amd64 _ _ _ Hp1 Hp2 Hr);
    [vm_compute; congruence|vm_compute; reflexivity].
Defined.

(** ** Outside the [int32] range *)

(** The ceiling of a quotient of at least [2^31] does not fit. *)
Lemma quotient_out_of_range p r :
  load p → capacity r → inject_Z (2 ^ 31) * fval r <= fval p →
  is_nan (p / r)%f64 = false ∧ signbit (p / r)%f64 = false ∧
  (∀ z, ftruncZ (math_Ceil (p / r)%f64) = Some z → ¬ in_i32 z).
Proof.
  intros Hp Hr Hbig. pose proof (proj2 Hr) as Hr0.
  assert (0 < inject_Z (2 ^ 31)) as H31 by reflexivity.
  destruct (quotient_cases p r Hp Hr) as [[_ Hz]|[Hpos Hq]]; [nra|].
  pose proof (rounds_signbit _ _ _ Hq) as Hs. pose proof (rounds_valid _ _ _ Hq) as Hv.
  assert (inject_Z (2 ^ 31) <= fval p / fval r) as Hge by by apply Qle_shift_div_l.
  destruct (is_finite (p / r)%f64) eqn:Hf.
  - split_and!; [by apply finite_not_nan|done|].
    intros z. rewrite math_Ceil_spec by done. intros [= <-].
    assert (2 ^ 31 <= Qceiling (fval (p / r)%f64))%Z; [|int_lia].
    apply Qceiling_ge. rewrite fval_fmag by done.
    eapply rounds_ge; [exact Hq|by apply representable_Z|done|done].
  - destruct Hq as (k & e' & _ & Hpk).
    destruct (p / r)%f64 as [| | |]; simpl in *; try done; by destruct Hpk.
Qed.

Lemma ComputeUnboundedRecommended_oor `{GoPlatform} p r :
  load p → capacity r → inject_Z (2 ^ 31) * fval r <= fval p →
  ∃ x, is_nan x = false ∧ signbit x = false ∧
    ComputeUnboundedRecommended p r = f64_oor_i32 x.
Proof.
  intros Hp Hr Hbig. destruct (quotient_out_of_range p r Hp Hr Hbig) as (Hn & Hs & Hz).
  exists (math_Ceil (p / r)%f64). unfold ComputeUnboundedRecommended, f64_to_i32.
  rewrite capacity_positive by done. split_and!.
  - destruct (p / r)%f64 as [| | |s m e]; simpl in *; try done.
    case_decide; [done|]. by rewrite f64_integral_not_nan.
  - destruct (p / r)%f64 as [| | |s m e]; simpl in *; try done. subst s.
    case_decide; [done|]. apply f64_integral_signbit. unfold fceilZ. rewrite decide_False by done.
    simpl. assert (- Zpos m / 2 ^ (- e) < 0)%Z; [|lia].
    apply Z.div_lt_upper_bound; pose proof (Z.pow_pos_nonneg 2 (- e)); lia.
  - destruct (ftruncZ (math_Ceil (p / r)%f64)) as [z|]; [|done].
    by rewrite decide_False by auto.
Qed.

(** A forecast too large for the [int32] conversion is decided by the
    machine, not by the program. With a demand of at least [2^31] pods the same
    forecast, capacity and bounds pin the workload to [maxReplicas] on arm64, whose
    conversion saturates, and to [minReplicas] on amd64, whose conversion yields
    the most negative integer. *)
Theorem huge_forecast_scales_to_min_on_amd64 p r mn mx :
  load p → capacity r → inject_Z (2 ^ 31) * fval r <= fval p →
  (MinInt32 < mn)%Z → (mn <= mx)%Z → (mx < MaxInt32)%Z →
  ClampRecommended (@ComputeUnboundedRecommended arm64 p r) mn mx = (mx, MaxReplicasBinding) ∧
  ClampRecommended (@ComputeUnboundedRecommended amd64 p r) mn mx = (mn, MinReplicasBinding).
Proof.
  intros Hp Hr Hbig Hmn Hmm Hmx. split.
  - destruct (@ComputeUnboundedRecommended_oor arm64 p r Hp Hr Hbig) as (x & Hn & Hs & ->).
    simpl. rewrite Hn, Hs. unfold ClampRecommended. by rewrite decide_True by lia.
  - destruct (@ComputeUnboundedRecommended_oor amd64 p r Hp Hr Hbig) as (x & _ & _ & ->).
    simpl. unfold ClampRecommended. by rewrite decide_False, decide_True by lia.
Qed.

Lemma huge_forecast_scales_to_min_on_amd64_witness :
  let p := f64_of_Z (2 ^ 52) in
  let r := f64_of_Z 50 in
  load p ∧ capacity r ∧
  ClampRecommended (@ComputeUnboundedRecommended amd64 p r) 2 10 = (2%Z, MinReplicasBinding).
Proof.
  intros p r.
  assert (load p) as Hp by (split; [split; vm_compute; reflexivity|vm_compute; congruence]).
  assert (capacity r) as Hr by (apply capacity_of_i32; split; vm_compute; congruence).
  split; [exact Hp|]. split; [exact Hr|].
  apply (huge_forecast_scales_to_min_on_amd64 p r 2 10 Hp Hr);
    [vm_compute; congruence|vm_compute; reflexivity|lia|vm_compute; reflexivity].
Defined.

(** ** The calibration gate and its clamp *)

(** An observation enters the window exactly when the rate is positive and
    at the noise floor or above, at least one replica served it, and two reconcile
    intervals have passed since the last scale event. *)
Theorem calibration_gate cur n last now interval floor :
  finite_valid cur → finite_valid floor → (0 <= 2 * interval <= MaxInt64)%Z →
  ShouldUpdateRpsPerPodWithFloor cur n last now interval floor = true ↔
  0 < fval cur ∧ fval floor <= fval cur ∧ (1 <= n)%Z ∧ (2 * interval <= now - last)%Z.
Proof.
  intros Hc Hf Hi. unfold ShouldUpdateRpsPerPodWithFloor.
  pose proof (fle_fval cur f0 Hc (f64_of_Z_finite_valid 0 ltac:(done))) as H0.
  pose proof (flt_fval cur floor Hc Hf) as H1. change (fval f0) with 0 in H0.
  rewrite wrap64_id by int_lia.
  pose proof (time_Sub_ge now last (2 * interval) ltac:(int_lia)) as H2.
  destruct (cur <=? f0)%f64; simpl.
  { split; [done|]. intros (Hp & _). apply proj1 in H0. specialize (H0 eq_refl). lra. }
  assert (0 < fval cur) as Hpos by (apply Qnot_le_lt; intros ?%H0; done).
  case_bool_decide; simpl; [split; [done|]; intros (_ & _ & ? & _); lia|].
  destruct (cur <? floor)%f64.
  - split; [done|]. intros (_ & Hfl & _). apply proj1 in H1. specialize (H1 eq_refl). lra.
  - rewrite bool_decide_eq_true, H2. split; [|naive_solver].
    intros. split_and!; [done| |lia|done]. apply Qnot_lt_le. intros ?%H1. done.
Qed.

Lemma calibration_gate_witness :
  finite_valid (f64_of_Z 40) ∧ finite_valid (f64_of_Z 10) ∧
  ShouldUpdateRpsPerPodWithFloor (f64_of_Z 40) 2 0 (120 * Second) (60 * Second)
    (f64_of_Z 10) = true.
Proof.
  assert (finite_valid (f64_of_Z 40)) as H1 by (split; vm_compute; reflexivity).
  assert (finite_valid (f64_of_Z 10)) as H2 by (split; vm_compute; reflexivity).
  split; [exact H1|]. split; [exact H2|].
  apply (calibration_gate (f64_of_Z 40) 2 0 (120 * Second) (60 * Second) (f64_of_Z 10) H1 H2).
  - vm_compute. split; congruence.
  - split_and!; vm_compute; congruence.
Defined.

(** A NaN rate passes the gate whatever the noise floor, and no clamp stops
    it: the per-pod capacity derived from it stays NaN. *)
Theorem NaN_passes_gate_and_clamp n last now interval floor mn mx :
  (1 <= n)%Z → (0 <= 2 * interval <= MaxInt64)%Z → (2 * interval <= now - last)%Z →
  ShouldUpdateRpsPerPodWithFloor S754_nan n last now interval floor = true ∧
  Median (mkRB [(S754_nan / f64_of_Z n)%f64] 10) = S754_nan ∧
  ClampRpsPerPod S754_nan mn mx = S754_nan.
Proof.
  intros Hn Hi Hd. split_and!.
  - unfold ShouldUpdateRpsPerPodWithFloor. rewrite wrap64_id by int_lia.
    rewrite bool_decide_eq_false_2 by lia. destruct floor; simpl;
      (apply bool_decide_eq_true, time_Sub_ge; [int_lia|done]).
  - by destruct (f64_of_Z n).
  - unfold ClampRpsPerPod. by destruct (f64_of_Z mn), (f64_of_Z mx).
Qed.

Lemma NaN_passes_gate_and_clamp_witness :
  (1 <= 3)%Z ∧
  ShouldUpdateRpsPerPodWithFloor S754_nan 3 0 (120 * Second) (60 * Second) (f64_of_Z 10) = true.
Proof.
  split; [lia|].
  apply (NaN_passes_gate_and_clamp 3 0 (120 * Second) (60 * Second) (f64_of_Z 10) 50 500);
    vm_compute; (congruence || (split; congruence)).
Defined.

(** Clamped between positive CRD bounds, any estimate other than NaN becomes
    a usable capacity between them, and an estimate already between them is kept. *)
Theorem ClampRpsPerPod_spec v mn mx :
  is_nan v = false → valid_binary 53 1024 v = true → (0 < mn <= mx)%Z → (mx <= MaxInt32)%Z →
  let c := ClampRpsPerPod v mn mx in
  capacity c ∧ inject_Z mn <= fval c <= inject_Z mx ∧
  (is_finite v = true → inject_Z mn <= fval v <= inject_Z mx → c = v).
Proof.
  intros Hn Hv Hb Hm. cbn zeta.
  destruct (f64_of_i32 mn ltac:(int_lia)) as [Hmn Emn].
  destruct (f64_of_i32 mx ltac:(int_lia)) as [Hmx Emx].
  assert (inject_Z mn <= inject_Z mx) as Hle by (rewrite <- Zle_Qle; lia).
  assert (0 < inject_Z mn) as Hpos by (change 0 with (inject_Z 0); rewrite <- Zlt_Qlt; lia).
  unfold ClampRpsPerPod.
  destruct (is_finite v) eqn:Hf.
  - assert (finite_valid v) as Hfv by done.
    pose proof (flt_fval v _ Hfv Hmn) as H1. pose proof (flt_fval _ v Hmx Hfv) as H2.
    rewrite Emn in H1. rewrite Emx in H2.
    destruct (v <? f64_of_Z mn)%f64.
    { pose proof (proj1 H1 eq_refl). unfold capacity. rewrite Emn.
      split_and!; [done|done|lra|done|intros; lra]. }
    destruct (f64_of_Z mx <? v)%f64.
    { pose proof (proj1 H2 eq_refl). unfold capacity. rewrite Emx.
      split_and!; [done|lra|done|lra|intros; lra]. }
    assert (inject_Z mn <= fval v) by (apply Qnot_lt_le; intros ?%H1; done).
    assert (fval v <= inject_Z mx) by (apply Qnot_lt_le; intros ?%H2; done).
    unfold capacity. split_and!; [done|lra|done|done|done].
  - destruct Hmn as [Fmn Vmn], Hmx as [Fmx Vmx].
    destruct v as [s|s| |s m e]; try done. destruct s.
    + replace (S754_infinity true <? f64_of_Z mn)%f64 with true
        by (by destruct (f64_of_Z mn) as [|[]| |[]]).
      unfold capacity, finite_valid. rewrite Emn. split_and!; (done || lra).
    + replace (S754_infinity false <? f64_of_Z mn)%f64 with false
        by (by destruct (f64_of_Z mn) as [|[]| |[]]).
      replace (f64_of_Z mx <? S754_infinity false)%f64 with true
        by (by destruct (f64_of_Z mx) as [|[]| |[]]).
      unfold capacity, finite_valid. rewrite Emx. split_and!; (done || lra).
Qed.

Lemma ClampRpsPerPod_spec_witness :
  let c := ClampRpsPerPod (S754_infinity false) 50 500 in
  capacity c ∧ inject_Z 50 <= fval c <= inject_Z 500.
Proof.
  destruct (ClampRpsPerPod_spec (S754_infinity false) 50 500) as (H1 & H2 & _);
    [reflexivity|reflexivity|lia|vm_compute; congruence|].
  split; [exact H1|exact H2].
Defined.
