(* ===== verification/Config.v ===== *)
(** * internal/config/config.go: the controller configuration

    [LoadFromEnv] over an arbitrary environment.  [os.Getenv] is a function from
    names to strings (empty when unset); the accumulated [errs] slice is threaded
    by the state monad; a message is a constructor of [ConfigError] that carries
    what the message prints.  [strconv.ParseInt] is translated; [strconv.ParseFloat]
    is supplied by [GoStrconv], about which nothing is assumed. *)
From S2P Require Import Prelude Float64 FloatOrder.
From Stdlib Require Import SpecFloat Ascii.

Record Config := mkConfig {
  cfg_ForecastServiceURL : string;
  cfg_PrometheusURL : string;
  cfg_ReconcileInterval : Duration;
  cfg_HotPathHistory : Duration;
  cfg_HotPathMinPoints : Z;
  cfg_ForecastTimeout : Duration;
  cfg_ProphetMinPoints : Z;
  cfg_ClassifierInterval : Duration;
  cfg_ClassifierHistory : Duration;
  cfg_ClassifierMinPoints : Z;
  cfg_ClassifierHighConfidencePoints : Z;
  cfg_ClassifierDedup : Duration;
  cfg_ContextResolutionMinutes : Z;
  cfg_CVGuardMeanRPS : float64;
  cfg_RpsPerPodNoiseFloorRPS : Z;
  cfg_HourlyProfileMinHours : Z;
  cfg_DefaultScaleUpCooldown : Duration;
  cfg_DefaultScaleDownCooldown : Duration;
  cfg_DefaultMaxStepSize : Z;
  cfg_OllamaURL : string;
  cfg_OllamaModel : string;
  cfg_OllamaTimeout : Duration;
  cfg_OllamaMaxTokens : Z;
}.

(** ** [strconv] *)

(** [strconv.ParseFloat(s, 64)]. *)
Class GoStrconv := { ParseFloat : string → option float64 }.

Inductive NumError := ErrSyntax | ErrRange.

(** The value of a run of decimal digits, however large. *)
Fixpoint parse_digits (s : string) (acc : Z) : option Z :=
  match s with
  | EmptyString => Some acc
  | String c s =>
      let d := Z.of_nat (nat_of_ascii c) - 48 in
      if decide (0 <= d <= 9) then parse_digits s (10 * acc + d) else None
  end.

(** [strconv.ParseUint(s, 10, 32)]: the digits in order, up to the first character that is
    not one or the first digit with which the value leaves 32 bits. *)
Definition MaxUint32 : Z := 4294967295.
Fixpoint scan_digits (s : string) (acc : Z) : result NumError Z :=
  match s with
  | EmptyString => Ok acc
  | String c s =>
      let d := Z.of_nat (nat_of_ascii c) - 48 in
      if decide (0 <= d <= 9) then
        let acc := 10 * acc + d in
        if decide (acc > MaxUint32) then Err ErrRange else scan_digits s acc
      else Err ErrSyntax
  end.
Definition ParseUint32 (s : string) : result NumError Z :=
  if decide (s = EmptyString) then Err ErrSyntax else scan_digits s 0.

(** [strconv.ParseInt(s, 10, 32)]: an optional sign, decimal digits, [int32] range. *)
Definition ParseInt32 (s : string) : result NumError Z :=
  let '(neg, ds) :=
    match s with
    | String c s' =>
        if decide (c = "+"%char) then (false, s')
        else if decide (c = "-"%char) then (true, s') else (false, s)
    | EmptyString => (false, s)
    end in
  match ParseUint32 ds with
  | Err e => Err e
  | Ok n =>
      let v := if neg : bool then - n else n in
      if decide (in_i32 v) then Ok v else Err ErrRange
  end.

(** What stops the scan first decides the error. *)
Example ParseInt32_errors :
  ParseInt32 <$> ["2147483647"; "-2147483648"; "2147483648"; "+7"; "-"; "4294967296x"; "42x"; "1_0"] =
    [Ok 2147483647; Ok (-2147483648); Err ErrRange; Ok 7; Err ErrSyntax; Err ErrRange; Err ErrSyntax;
     Err ErrSyntax].
Proof. reflexivity. Qed.

(** ** Error messages *)
Inductive ConfigError :=
| MissingVar (name : string)
| IntParseError (name raw : string) (e : NumError)
| FloatParseError (name raw : string)
| ResolutionTooSmall (v : Z)
| MinPointsBelowFloor (v floor resolution : Z)
| ProfileHoursOutOfRange (v : Z)
| CVGuardNegative (v : float64)
| NoiseFloorNegative (v : Z)
| HighBelowMin (high min : Z)
| StepTooSmall (v : Z)
| HotPointsTooSmall (v : Z)
| UpCooldownNegative (seconds : Z)
| DownCooldownNegative (seconds : Z).

(** [*errs = append( *errs, e)] *)
Abbreviation Env := (string → string) (only parsing).
Abbreviation EM := (ST (list ConfigError)) (only parsing).
Definition append_err (e : ConfigError) : EM unit := st_modify (λ errs, errs ++ [e]).

Definition envIntOrDefault (env : Env) (name : string) (def : Z) : EM Z :=
  let raw := env name in
  if decide (raw = EmptyString) then mret def
  else match ParseInt32 raw with
       | Err e => append_err (IntParseError name raw e) ≫= λ _, mret def
       | Ok v => mret v
       end.

Definition envFloat64OrDefault `{GoStrconv} (env : Env) (name : string) (def : float64) :
    EM float64 :=
  let raw := env name in
  if decide (raw = EmptyString) then mret def
  else match ParseFloat raw with
       | None => append_err (FloatParseError name raw) ≫= λ _, mret def
       | Some v => mret v
       end.

(** Division of Durations truncates towards zero. *)
Definition durationAsInt32 (d unit : Duration) : Z := sat32 (Z.quot d unit).

Definition envSecondsOrDefault (env : Env) (name : string) (def : Duration) : EM Duration :=
  envIntOrDefault env name (durationAsInt32 def Second) ≫= λ v, mret (v *₆₄ Second).

Definition envMinutesOrDefault (env : Env) (name : string) (def : Duration) : EM Duration :=
  envIntOrDefault env name (durationAsInt32 def Minute) ≫= λ v, mret (v *₆₄ Minute).

Definition envHoursOrDefault (env : Env) (name : string) (def : Duration) : EM Duration :=
  envIntOrDefault env name (durationAsInt32 def Hour) ≫= λ v, mret (v *₆₄ Hour).

Definition envStringOrDefault (env : Env) (name def : string) : string :=
  if decide (env name = EmptyString) then def else env name.

(** One [if c { errs = append(errs, e) }]. *)
Definition check (c : Prop) `{Decision c} (e : ConfigError) : list ConfigError :=
  if decide c then [e] else [].

Definition validate (c : Config) : list ConfigError :=
  (if decide (cfg_ContextResolutionMinutes c < 1)
   then [ResolutionTooSmall (cfg_ContextResolutionMinutes c)]
   else
     let lag := Z.quot 60 (cfg_ContextResolutionMinutes c) in
     let floor := lag +₃₂ 10 in
     check (cfg_ClassifierMinPoints c < floor)
       (MinPointsBelowFloor (cfg_ClassifierMinPoints c) floor (cfg_ContextResolutionMinutes c))) ++
  check (cfg_HourlyProfileMinHours c < 1 ∨ cfg_HourlyProfileMinHours c > 24)
    (ProfileHoursOutOfRange (cfg_HourlyProfileMinHours c)) ++
  check ((cfg_CVGuardMeanRPS c <? f0)%f64 = true) (CVGuardNegative (cfg_CVGuardMeanRPS c)) ++
  check (cfg_RpsPerPodNoiseFloorRPS c < 0)
    (NoiseFloorNegative (cfg_RpsPerPodNoiseFloorRPS c)) ++
  check (cfg_ClassifierHighConfidencePoints c < cfg_ClassifierMinPoints c)
    (HighBelowMin (cfg_ClassifierHighConfidencePoints c) (cfg_ClassifierMinPoints c)) ++
  check (cfg_DefaultMaxStepSize c < 1) (StepTooSmall (cfg_DefaultMaxStepSize c)) ++
  check (cfg_HotPathMinPoints c < 1) (HotPointsTooSmall (cfg_HotPathMinPoints c)) ++
  check (cfg_DefaultScaleUpCooldown c < 0)
    (UpCooldownNegative (Z.quot (cfg_DefaultScaleUpCooldown c) Second)) ++
  check (cfg_DefaultScaleDownCooldown c < 0)
    (DownCooldownNegative (Z.quot (cfg_DefaultScaleDownCooldown c) Second)).

(** A required variable. *)
Definition env_required (env : Env) (name : string) : EM string :=
  (if decide (env name = EmptyString) then append_err (MissingVar name) else mret tt)
  ≫= λ _, mret (env name).

(** The body of [LoadFromEnv] up to the validation. *)
Definition read_env `{GoStrconv} (env : Env) : EM Config :=
  url ← env_required env "FORECAST_SERVICE_URL";
  prom ← env_required env "PROMETHEUS_URL";
  reconcile ← envSecondsOrDefault env "RECONCILE_INTERVAL_SECONDS" (60 * Second);
  hot_hist ← envMinutesOrDefault env "HOT_PATH_HISTORY_MINUTES" (60 * Minute);
  hot_min ← envIntOrDefault env "HOT_PATH_MIN_POINTS" 10;
  f_timeout ← envSecondsOrDefault env "FORECAST_TIMEOUT_SECONDS" (5 * Second);
  prophet ← envIntOrDefault env "PROPHET_MIN_POINTS" 30;
  c_int ← envMinutesOrDefault env "CLASSIFIER_INTERVAL_MINUTES" (30 * Minute);
  c_hist ← envHoursOrDefault env "CLASSIFIER_HISTORY_HOURS" (24 * Hour);
  c_min ← envIntOrDefault env "CLASSIFIER_MIN_POINTS" 72;
  c_high ← envIntOrDefault env "CLASSIFIER_HIGH_CONFIDENCE_POINTS" 240;
  c_dedup ← envSecondsOrDefault env "CLASSIFIER_DEDUP_SECONDS" (60 * Second);
  res ← envIntOrDefault env "CONTEXT_DOWNSAMPLE_RESOLUTION_MIN" 5;
  cv ← envFloat64OrDefault env "CV_GUARD_MEAN_RPS" f1;
  noise ← envIntOrDefault env "RPS_PER_POD_NOISE_FLOOR_RPS" 10;
  hours ← envIntOrDefault env "HOURLY_PROFILE_MIN_HOURS" 12;
  up ← envSecondsOrDefault env "DEFAULT_SCALE_UP_COOLDOWN_SECONDS" (60 * Second);
  down ← envSecondsOrDefault env "DEFAULT_SCALE_DOWN_COOLDOWN_SECONDS" (300 * Second);
  step ← envIntOrDefault env "DEFAULT_MAX_STEP_SIZE" 4;
  let ourl := envStringOrDefault env "OLLAMA_URL" "http://localhost:11434" in
  let omodel := envStringOrDefault env "OLLAMA_MODEL" "llama3.2" in
  o_timeout ← envSecondsOrDefault env "OLLAMA_TIMEOUT_SECONDS" (30 * Second);
  o_tokens ← envIntOrDefault env "OLLAMA_MAX_TOKENS" 150;
  mret (mkConfig url prom reconcile hot_hist hot_min f_timeout prophet c_int c_hist c_min
    c_high c_dedup res cv noise hours up down step ourl omodel o_timeout o_tokens).

Definition LoadFromEnv `{GoStrconv} (env : Env) : result (list ConfigError) Config :=
  let '(cfg, errs) := read_env env [] in
  let errs := errs ++ validate cfg in
  if decide (0 < Z.of_nat (length errs)) then Err errs else Ok cfg.

(** ** The rules a configuration obeys *)

(** The cross-field rules of [validate], as a predicate. *)
Record config_rules (c : Config) : Prop := {
  cr_resolution : 1 <= cfg_ContextResolutionMinutes c;
  cr_min_points : 60 / cfg_ContextResolutionMinutes c + 10 <= cfg_ClassifierMinPoints c;
  cr_high : cfg_ClassifierMinPoints c <= cfg_ClassifierHighConfidencePoints c;
  cr_hours : 1 <= cfg_HourlyProfileMinHours c <= 24;
  cr_guard : (cfg_CVGuardMeanRPS c <? f0)%f64 = false;
  cr_noise : 0 <= cfg_RpsPerPodNoiseFloorRPS c;
  cr_step : 1 <= cfg_DefaultMaxStepSize c;
  cr_hot : 1 <= cfg_HotPathMinPoints c;
  cr_up : 0 <= cfg_DefaultScaleUpCooldown c;
  cr_down : 0 <= cfg_DefaultScaleDownCooldown c;
}.

Lemma check_nil c `{Decision c} e : check c e = [] ↔ ¬ c.
Proof. unfold check. case_decide; naive_solver. Qed.

Lemma validate_nil c : validate c = [] ↔ config_rules c.
Proof.
  unfold validate. rewrite !app_nil_iff, !check_nil.
  assert ((if decide (cfg_ContextResolutionMinutes c < 1)
           then [ResolutionTooSmall (cfg_ContextResolutionMinutes c)]
           else check (cfg_ClassifierMinPoints c < Z.quot 60 (cfg_ContextResolutionMinutes c) +₃₂ 10)
                  (MinPointsBelowFloor (cfg_ClassifierMinPoints c)
                    (Z.quot 60 (cfg_ContextResolutionMinutes c) +₃₂ 10)
                    (cfg_ContextResolutionMinutes c))) = [] ↔
          1 <= cfg_ContextResolutionMinutes c ∧
          60 / cfg_ContextResolutionMinutes c + 10 <= cfg_ClassifierMinPoints c) as ->.
  { case_decide; [split; [done|lia]|]. rewrite check_nil, Z.quot_div_nonneg by lia.
    assert (0 <= 60 / cfg_ContextResolutionMinutes c <= 60).
    { split; [apply Z.div_pos; lia|]. apply Z.div_le_upper_bound; lia. }
    rewrite wrap32_id by int_lia. lia. }
  rewrite not_true_iff_false. split.
  - intros ([? ?]&?&?&?&?&?&?&?&?). split; (done || lia).
  - intros []. split_and!; (done || lia).
Qed.

(** The validator is sound and complete for the documented rules: it returns
    no problem exactly when every rule holds. *)
Theorem validate_iff_rules c : validate c = [] ↔ config_rules c.
Proof. intros; by apply validate_nil. Qed.

(** ** A logic for reading with accumulated errors *)

(** [m] only appends errors, and when it appends none its value satisfies [P]. *)
Definition reads {A} (m : EM A) (P : A → Prop) : Prop :=
  ∀ errs, ∃ a k, m errs = (a, errs ++ k) ∧ (k = [] → P a).

(** [m] appends the error [e], among others. *)
Definition reports {A} (m : EM A) (e : ConfigError) : Prop :=
  ∀ errs, e ∈ (m errs).2.

Section reading.
Context {A B : Type}.
Implicit Types (m : EM A) (f : A → EM B).

Lemma reads_ret (a : A) (P : A → Prop) : P a → reads (mret a) P.
Proof. intros HP errs. exists a, []. by rewrite app_nil_r. Qed.

Lemma reads_bind m f (P : A → Prop) (Q : B → Prop) :
  reads m P → (∀ a, reads (f a) (λ b, P a → Q b)) → reads (m ≫= f) Q.
Proof.
  intros Hm Hf errs. destruct (Hm errs) as (a & k & E & HP).
  destruct (Hf a (errs ++ k)) as (b & k' & E' & HQ).
  exists b, (k ++ k'). unfold mbind, st_bind. rewrite E, E', app_assoc. split; [done|].
  intros [-> ->]%app_eq_nil. auto.
Qed.

Lemma reads_mono m (P Q : A → Prop) : reads m P → (∀ a, P a → Q a) → reads m Q.
Proof. intros Hm HPQ errs. destruct (Hm errs) as (a & k & ? & ?). naive_solver. Qed.

(** Errors reported by the first part of a sequence survive the second. *)
Lemma reports_first m f e P : reports m e → (∀ a, reads (f a) P) → reports (m ≫= f) e.
Proof.
  intros Hm Hf errs. specialize (Hm errs). unfold mbind, st_bind.
  destruct (m errs) as [a errs']. destruct (Hf a errs') as (b & k & -> & _). simpl in *.
  set_solver.
Qed.

Lemma reports_then m f e : (∀ a, reports (f a) e) → reports (m ≫= f) e.
Proof. intros Hf errs. unfold mbind, st_bind. destruct (m errs). apply Hf. Qed.
End reading.

Lemma append_err_reads e P : reads (append_err e) P.
Proof. intros errs. exists tt, [e]. done. Qed.

(** The default after an error. *)
Lemma err_default_reads {A} e (def : A) P : reads (append_err e ≫= λ _, mret def) P.
Proof.
  apply (reads_bind _ _ (λ _, False)); [apply append_err_reads|]. intros _. by apply reads_ret.
Qed.

Section readers.
Context (env : Env) (name : string).

Lemma envInt_reads def : in_i32 def → reads (envIntOrDefault env name def) in_i32.
Proof.
  intros Hd. unfold envIntOrDefault. case_decide; [by apply reads_ret|].
  unfold ParseInt32. repeat case_match; simplify_eq; (by apply reads_ret) || apply err_default_reads.
Qed.

Lemma envDuration_reads (def unit : Duration) :
  reads (envIntOrDefault env name (durationAsInt32 def unit) ≫= λ v, mret (v *₆₄ unit))
    (λ d, ∃ v, in_i32 v ∧ d = v *₆₄ unit).
Proof.
  eapply reads_bind; [apply envInt_reads, sat32_range|]. intros v. apply reads_ret. eauto.
Qed.

Lemma envFloat_reads `{GoStrconv} def : reads (envFloat64OrDefault env name def) (λ _, True).
Proof.
  unfold envFloat64OrDefault. case_decide; [by apply reads_ret|].
  case_match; [by apply reads_ret|apply err_default_reads].
Qed.

Lemma env_required_reads :
  reads (env_required env name) (λ v, v = env name ∧ env name ≠ EmptyString).
Proof.
  unfold env_required. intros errs. case_decide.
  - exists (env name), [MissingVar name]. split; [done|]. done.
  - exists (env name), []. rewrite app_nil_r. done.
Qed.

(** A set but unparseable variable is reported, and reported only once it is set. *)
Lemma envInt_reports def e :
  ParseInt32 (env name) = Err e → env name ≠ EmptyString →
  reports (envIntOrDefault env name def) (IntParseError name (env name) e).
Proof.
  intros Hp Hne errs. unfold envIntOrDefault. rewrite decide_False, Hp by done. simpl.
  set_solver.
Qed.
End readers.
Create HintDb cfg discriminated.
#[export] Hint Resolve envInt_reads envDuration_reads envFloat_reads env_required_reads : cfg.

(** Every numeric field came from an [int32] number of units, and the required URLs
    are the environment's. *)
Record config_ranges (env : Env) (c : Config) : Prop := {
  cg_forecast : cfg_ForecastServiceURL c = env "FORECAST_SERVICE_URL" ∧
                cfg_ForecastServiceURL c ≠ EmptyString;
  cg_prom : cfg_PrometheusURL c = env "PROMETHEUS_URL" ∧ cfg_PrometheusURL c ≠ EmptyString;
  cg_hot : in_i32 (cfg_HotPathMinPoints c);
  cg_min : in_i32 (cfg_ClassifierMinPoints c);
  cg_high : in_i32 (cfg_ClassifierHighConfidencePoints c);
  cg_res : in_i32 (cfg_ContextResolutionMinutes c);
  cg_noise : in_i32 (cfg_RpsPerPodNoiseFloorRPS c);
  cg_step : in_i32 (cfg_DefaultMaxStepSize c);
  cg_interval : ∃ v, in_i32 v ∧ cfg_ReconcileInterval c = v * Second;
  cg_up : ∃ v, in_i32 v ∧ cfg_DefaultScaleUpCooldown c = v * Second;
  cg_down : ∃ v, in_i32 v ∧ cfg_DefaultScaleDownCooldown c = v * Second;
  cg_dedup : ∃ v, in_i32 v ∧ cfg_ClassifierDedup c = v * Second;
  cg_prophet : in_i32 (cfg_ProphetMinPoints c);
  cg_hours : in_i32 (cfg_HourlyProfileMinHours c);
  cg_tokens : in_i32 (cfg_OllamaMaxTokens c);
  cg_timeout : ∃ v, in_i32 v ∧ cfg_ForecastTimeout c = v * Second;
  cg_otimeout : ∃ v, in_i32 v ∧ cfg_OllamaTimeout c = v * Second;
  cg_durations : Forall in_i64 [cfg_HotPathHistory c; cfg_ClassifierInterval c; cfg_ClassifierHistory c];
  cg_ollama : cfg_OllamaURL c ≠ EmptyString ∧ cfg_OllamaModel c ≠ EmptyString;
}.

Lemma envString_nonempty env name def : def ≠ EmptyString → envStringOrDefault env name def ≠ EmptyString.
Proof. unfold envStringOrDefault. by case_decide. Qed.

Lemma seconds_exact d :
  (∃ v, in_i32 v ∧ d = v *₆₄ Second) → ∃ v, in_i32 v ∧ d = v * Second.
Proof. intros (v & Hv & ->). exists v. split; [done|by apply seconds_no_overflow]. Qed.

Lemma duration_range unit d : (∃ v, in_i32 v ∧ d = v *₆₄ unit) → in_i64 d.
Proof. intros (v & _ & ->). apply wrap64_range. Qed.

(** One read of the sequence, by the lemma of its reader. *)
Ltac read_next :=
  eapply reads_bind;
  [first [ apply envInt_reads; by vm_compute | apply envDuration_reads
         | apply envFloat_reads | apply env_required_reads ]
  | intros ?].

Lemma read_env_reads `{GoStrconv} env : reads (read_env env) (config_ranges env).
Proof.
  unfold read_env, envSecondsOrDefault, envMinutesOrDefault, envHoursOrDefault.
  repeat read_next. apply reads_ret. intros.
  repeat match goal with H : _ = _ ∧ _ ≠ _ |- _ => destruct H as [-> ?] end.
  split; simpl; (done || (by apply seconds_exact) || (by split; apply envString_nonempty) || idtac).
  rewrite !Forall_cons. split_and!; [by eapply duration_range..|by constructor].
Qed.

Lemma LoadFromEnv_loaded `{GoStrconv} env cfg :
  LoadFromEnv env = Ok cfg → config_rules cfg ∧ config_ranges env cfg.
Proof.
  unfold LoadFromEnv. destruct (read_env_reads env []) as (c & k & -> & Hc).
  case_decide as Hlen; [done|]. intros [= <-]. simpl in Hlen.
  assert (k = [] ∧ validate c = []) as [-> Hval].
  { apply app_nil_iff. destruct (k ++ validate c); [done|simpl in Hlen; lia]. }
  split; [by apply validate_nil|by apply Hc].
Qed.

(** Claim C27: a configuration that loads is usable: both URLs are the environment's and
    non-empty, every documented bound holds, and every duration counted in seconds is
    a whole [int32] number of seconds, so that none of them wrapped around. *)
Theorem LoadFromEnv_sound `{GoStrconv} env cfg :
  LoadFromEnv env = Ok cfg → config_rules cfg ∧ config_ranges env cfg.
Proof. apply LoadFromEnv_loaded. Qed.

(** The integer-valued variables. *)
Definition int_vars : list string :=
  ["RECONCILE_INTERVAL_SECONDS"; "HOT_PATH_HISTORY_MINUTES"; "HOT_PATH_MIN_POINTS";
   "FORECAST_TIMEOUT_SECONDS"; "PROPHET_MIN_POINTS"; "CLASSIFIER_INTERVAL_MINUTES";
   "CLASSIFIER_HISTORY_HOURS"; "CLASSIFIER_MIN_POINTS"; "CLASSIFIER_HIGH_CONFIDENCE_POINTS";
   "CLASSIFIER_DEDUP_SECONDS"; "CONTEXT_DOWNSAMPLE_RESOLUTION_MIN";
   "RPS_PER_POD_NOISE_FLOOR_RPS"; "HOURLY_PROFILE_MIN_HOURS";
   "DEFAULT_SCALE_UP_COOLDOWN_SECONDS"; "DEFAULT_SCALE_DOWN_COOLDOWN_SECONDS";
   "DEFAULT_MAX_STEP_SIZE"; "OLLAMA_TIMEOUT_SECONDS"; "OLLAMA_MAX_TOKENS"].

Lemma envDuration_reports env name def unit e :
  ParseInt32 (env name) = Err e → env name ≠ EmptyString →
  reports (envIntOrDefault env name (durationAsInt32 def unit) ≫= λ v, mret (v *₆₄ unit))
    (IntParseError name (env name) e).
Proof.
  intros. eapply (reports_first _ _ _ (λ _, True)); [by apply envInt_reports|].
  intros. by apply reads_ret.
Qed.

(** The rest of the sequence only appends. *)
Ltac rest_appends :=
  intros; eapply (reads_mono _ (λ _, True)); [|done]; repeat read_next; by apply reads_ret.
Ltac report_here :=
  eapply (reports_first _ _ _ (λ _, True));
  [first [ by apply envInt_reports | by apply envDuration_reports ] | rest_appends ].

Lemma read_env_reports `{GoStrconv} env name e :
  name ∈ int_vars → ParseInt32 (env name) = Err e → env name ≠ EmptyString →
  reports (read_env env) (IntParseError name (env name) e).
Proof.
  intros Hin Hp Hne. unfold read_env, envSecondsOrDefault, envMinutesOrDefault, envHoursOrDefault.
  unfold int_vars in Hin. rewrite !elem_of_cons, elem_of_nil in Hin.
  repeat match type of Hin with _ ∨ _ => destruct Hin as [->|Hin] end; [..|done];
    repeat first [report_here | apply reports_then; intros ?].
Qed.

(** No problem is hidden by another: every integer variable that is set and
    does not parse appears, with its text, in the error of the load. *)
Theorem LoadFromEnv_reports_every_bad_int `{GoStrconv} env name e :
  name ∈ int_vars → env name ≠ EmptyString → ParseInt32 (env name) = Err e →
  ∃ errs, LoadFromEnv env = Err errs ∧ IntParseError name (env name) e ∈ errs.
Proof.
  intros Hin Hne Hp. pose proof (read_env_reports env name e Hin Hp Hne []) as Hr.
  unfold LoadFromEnv. destruct (read_env env []) as [c errs]. simpl in Hr.
  exists (errs ++ validate c). split; [|set_solver].
  rewrite decide_True; [done|]. rewrite length_app. destruct errs; [set_solver|]. simpl. lia.
Qed.

(** ** Defaults *)

Lemma envInt_default env name def errs :
  env name = EmptyString → envIntOrDefault env name def errs = (def, errs).
Proof. intros E. unfold envIntOrDefault. by rewrite decide_True. Qed.

Lemma envFloat_default `{GoStrconv} env name def errs :
  env name = EmptyString → envFloat64OrDefault env name def errs = (def, errs).
Proof. intros E. unfold envFloat64OrDefault. by rewrite decide_True. Qed.

Definition default_config (forecast prom : string) : Config :=
  {| cfg_ForecastServiceURL := forecast; cfg_PrometheusURL := prom;
     cfg_ReconcileInterval := 60 * Second; cfg_HotPathHistory := 60 * Minute;
     cfg_HotPathMinPoints := 10; cfg_ForecastTimeout := 5 * Second;
     cfg_ProphetMinPoints := 30; cfg_ClassifierInterval := 30 * Minute;
     cfg_ClassifierHistory := 24 * Hour; cfg_ClassifierMinPoints := 72;
     cfg_ClassifierHighConfidencePoints := 240; cfg_ClassifierDedup := 60 * Second;
     cfg_ContextResolutionMinutes := 5; cfg_CVGuardMeanRPS := f1;
     cfg_RpsPerPodNoiseFloorRPS := 10; cfg_HourlyProfileMinHours := 12;
     cfg_DefaultScaleUpCooldown := 60 * Second; cfg_DefaultScaleDownCooldown := 300 * Second;
     cfg_DefaultMaxStepSize := 4; cfg_OllamaURL := "http://localhost:11434";
     cfg_OllamaModel := "llama3.2"; cfg_OllamaTimeout := 30 * Second;
     cfg_OllamaMaxTokens := 150 |}.

(** The documented defaults are what an environment with only the two required
    URLs loads to, and they satisfy every rule. *)
Theorem LoadFromEnv_defaults `{GoStrconv} env :
  env "FORECAST_SERVICE_URL" ≠ EmptyString → env "PROMETHEUS_URL" ≠ EmptyString →
  (∀ n, n ≠ "FORECAST_SERVICE_URL" → n ≠ "PROMETHEUS_URL" → env n = EmptyString) →
  LoadFromEnv env =
    Ok (default_config (env "FORECAST_SERVICE_URL") (env "PROMETHEUS_URL")).
Proof.
  intros Hf Hp Hrest. unfold LoadFromEnv, read_env, env_required, envStringOrDefault.
  unfold envSecondsOrDefault, envMinutesOrDefault, envHoursOrDefault.
  unfold mbind, st_bind, mret, st_ret.
  rewrite !decide_False by done.
  repeat first [ rewrite envInt_default by (by apply Hrest)
               | rewrite envFloat_default by (by apply Hrest) ].
  rewrite !(decide_True (P := _ = EmptyString)) by (by apply Hrest). reflexivity.
Qed.

(** ** What the rules let through *)

Definition env_of (l : list (string * string)) (n : string) : string :=
  deref_or ((list_to_map l : gmap string string) !! n) EmptyString.

Definition wrapped_env : Env :=
  env_of [("FORECAST_SERVICE_URL", "f"); ("PROMETHEUS_URL", "p");
          ("RECONCILE_INTERVAL_SECONDS", "0"); ("CLASSIFIER_INTERVAL_MINUTES", "0");
          ("CLASSIFIER_HISTORY_HOURS", "2562048"); ("CV_GUARD_MEAN_RPS", "NaN")].

(** The rules do not cover every field. An environment with a zero reconcile
    interval, a zero classifier interval, 2562048 hours of history and a NaN guard
    loads without an error, and the history has wrapped around to a negative one.
    The hypothesis is the documented result of parsing ["NaN"]. *)
Theorem LoadFromEnv_accepts_degenerate `{GoStrconv} :
  ParseFloat "NaN" = Some S754_nan →
  ∃ cfg, LoadFromEnv wrapped_env = Ok cfg ∧ cfg_ReconcileInterval cfg = 0 ∧
    cfg_ClassifierInterval cfg = 0 ∧ cfg_ClassifierHistory cfg < 0 ∧
    cfg_CVGuardMeanRPS cfg = S754_nan.
Proof.
  intros Hnan. eexists. split.
  - unfold LoadFromEnv, read_env, envFloat64OrDefault.
    change (wrapped_env "CV_GUARD_MEAN_RPS") with "NaN". rewrite Hnan. vm_compute. reflexivity.
  - split_and!; reflexivity.
Qed.

(** A reader of floating-point text that knows the one text used above. *)
Definition nan_strconv : GoStrconv :=
  {| ParseFloat := λ s, if decide (s = "NaN") then Some S754_nan else None |}.

Lemma LoadFromEnv_accepts_degenerate_witness :
  let _ := nan_strconv in
  ParseFloat "NaN" = Some S754_nan ∧ ∃ cfg, LoadFromEnv wrapped_env = Ok cfg ∧
    cfg_ReconcileInterval cfg = 0 ∧
    cfg_ClassifierInterval cfg = 0 ∧ cfg_ClassifierHistory cfg < 0 ∧
    cfg_CVGuardMeanRPS cfg = S754_nan.
Proof.
  split; [reflexivity|]. apply (@LoadFromEnv_accepts_degenerate nan_strconv). reflexivity.
Defined.

Definition urls_env : Env := env_of [("FORECAST_SERVICE_URL", "f"); ("PROMETHEUS_URL", "p")].

Lemma LoadFromEnv_defaults_witness :
  @LoadFromEnv nan_strconv urls_env = Ok (default_config "f" "p").
Proof.
  apply (@LoadFromEnv_defaults nan_strconv urls_env); [done|done|].
  intros n H1 H2. unfold urls_env, env_of. simpl. by rewrite !lookup_insert_ne, lookup_empty by done.
Defined.

Lemma LoadFromEnv_sound_witness :
  @LoadFromEnv nan_strconv urls_env = Ok (default_config "f" "p") ∧
  config_rules (default_config "f" "p").
Proof.
  assert (@LoadFromEnv nan_strconv urls_env = Ok (default_config "f" "p")) as H
    by (vm_compute; reflexivity).
  split; [exact H|]. exact (proj1 (@LoadFromEnv_sound nan_strconv urls_env _ H)).
Defined.

Definition bad_env : Env := env_of [("HOT_PATH_MIN_POINTS", "ten"); ("DEFAULT_MAX_STEP_SIZE", "9999999999")].

Lemma LoadFromEnv_reports_every_bad_int_witness :
  bad_env "DEFAULT_MAX_STEP_SIZE" ≠ EmptyString ∧
  ∃ errs, @LoadFromEnv nan_strconv bad_env = Err errs ∧
    IntParseError "DEFAULT_MAX_STEP_SIZE" "9999999999" ErrRange ∈ errs.
Proof.
  split; [by vm_compute|].
  apply (@LoadFromEnv_reports_every_bad_int nan_strconv bad_env "DEFAULT_MAX_STEP_SIZE" ErrRange);
    [unfold int_vars; set_solver|by vm_compute|by vm_compute].
Defined.
