(* ===== verification/Summary.v ===== *)
(** * internal/config/config.go: the start-up summary

    [Config.Summary] prints one [KEY=value] line per variable.  The theorem reads the
    text back as an environment: the printed lines are what has to be set to get the
    running configuration again. *)
From S2P Require Import Prelude Float64 Config.
From Stdlib Require Import Ascii.

(** [fmt.Sprintf("%g", f)] of [strconv]. *)
Class GoFormatG := { fmt_g : float64 → string }.

(** The keys and values of the text, in the order of the format string. *)
Definition settings `{GoFormatG} (c : Config) : list (string * string) :=
  [("FORECAST_SERVICE_URL", cfg_ForecastServiceURL c);
   ("PROMETHEUS_URL", cfg_PrometheusURL c);
   ("RECONCILE_INTERVAL_SECONDS", fmt_d (Z.quot (cfg_ReconcileInterval c) Second));
   ("HOT_PATH_HISTORY_MINUTES", fmt_d (Z.quot (cfg_HotPathHistory c) Minute));
   ("HOT_PATH_MIN_POINTS", fmt_d (cfg_HotPathMinPoints c));
   ("FORECAST_TIMEOUT_SECONDS", fmt_d (Z.quot (cfg_ForecastTimeout c) Second));
   ("PROPHET_MIN_POINTS", fmt_d (cfg_ProphetMinPoints c));
   ("CLASSIFIER_INTERVAL_MINUTES", fmt_d (Z.quot (cfg_ClassifierInterval c) Minute));
   ("CLASSIFIER_HISTORY_HOURS", fmt_d (Z.quot (cfg_ClassifierHistory c) Hour));
   ("CLASSIFIER_MIN_POINTS", fmt_d (cfg_ClassifierMinPoints c));
   ("CLASSIFIER_HIGH_CONFIDENCE_POINTS", fmt_d (cfg_ClassifierHighConfidencePoints c));
   ("CLASSIFIER_DEDUP_SECONDS", fmt_d (Z.quot (cfg_ClassifierDedup c) Second));
   ("CONTEXT_DOWNSAMPLE_RESOLUTION_MIN", fmt_d (cfg_ContextResolutionMinutes c));
   ("CV_GUARD_MEAN_RPS", fmt_g (cfg_CVGuardMeanRPS c));
   ("RPS_PER_POD_NOISE_FLOOR_RPS", fmt_d (cfg_RpsPerPodNoiseFloorRPS c));
   ("HOURLY_PROFILE_MIN_HOURS", fmt_d (cfg_HourlyProfileMinHours c));
   ("DEFAULT_SCALE_UP_COOLDOWN_SECONDS", fmt_d (Z.quot (cfg_DefaultScaleUpCooldown c) Second));
   ("DEFAULT_SCALE_DOWN_COOLDOWN_SECONDS", fmt_d (Z.quot (cfg_DefaultScaleDownCooldown c) Second));
   ("DEFAULT_MAX_STEP_SIZE", fmt_d (cfg_DefaultMaxStepSize c));
   ("OLLAMA_URL", cfg_OllamaURL c);
   ("OLLAMA_MODEL", cfg_OllamaModel c);
   ("OLLAMA_TIMEOUT_SECONDS", fmt_d (Z.quot (cfg_OllamaTimeout c) Second));
   ("OLLAMA_MAX_TOKENS", fmt_d (cfg_OllamaMaxTokens c))].

Definition setting_line (kv : string * string) : string := kv.1 +:+ "=" +:+ kv.2.

(** The lines of the text, with a newline between two of them. *)
Fixpoint join_lines (l : list string) : string :=
  match l with
  | [] => EmptyString
  | [s] => s
  | s :: l => s +:+ nl +:+ join_lines l
  end.

Definition Summary `{GoFormatG} (c : Config) : string := join_lines (setting_line <$> settings c).

(** ** Reading the text back *)

(** The text cut at each newline, and a line at its first equals sign. *)
Fixpoint split_lines (s : string) : list string :=
  match s with
  | EmptyString => [EmptyString]
  | String a s =>
      match split_lines s with
      | l :: ls => if decide (a = ascii_of_nat 10) then EmptyString :: l :: ls else String a l :: ls
      | [] => []
      end
  end.
Fixpoint key_value (s : string) : string * string :=
  match s with
  | EmptyString => (EmptyString, EmptyString)
  | String a s => if decide (a = "="%char) then (EmptyString, s) else let '(k, v) := key_value s in (String a k, v)
  end.
Fixpoint assoc (l : list (string * string)) (name : string) : string :=
  match l with
  | [] => EmptyString
  | (k, v) :: l => if decide (name = k) then v else assoc l name
  end.

(** The environment that a text of [KEY=value] lines describes. *)
Definition env_of_text (text : string) : string → string := assoc (key_value <$> split_lines text).

(** The text has no character [c]. *)
Fixpoint free_of (c : ascii) (s : string) : Prop :=
  match s with EmptyString => True | String a s => a ≠ c ∧ free_of c s end.
Abbreviation one_line := (free_of (ascii_of_nat 10)).

#[export] Instance free_of_dec c s : Decision (free_of c s).
Proof. induction s; simpl; apply _. Defined.

Lemma free_of_app c s t : free_of c (s +:+ t) ↔ free_of c s ∧ free_of c t.
Proof. induction s; simpl; tauto. Qed.

Lemma split_lines_ne s : split_lines s ≠ [].
Proof. induction s as [|a s IH]; simpl; [done|]. destruct (split_lines s); [done|]. by case_decide. Qed.

Lemma split_lines_one s : one_line s → split_lines s = [s].
Proof.
  induction s as [|a s IH]; simpl; [done|]. intros [Ha Hs]. rewrite IH by done. by rewrite decide_False.
Qed.

Lemma split_lines_app s t : one_line s → split_lines (s +:+ nl +:+ t) = s :: split_lines t.
Proof.
  intros Hs. induction s as [|a s IH].
  - simpl. change (EmptyString +:+ t) with t. pose proof (split_lines_ne t). by destruct (split_lines t).
  - destruct Hs as [Ha Hs]. change (String a s +:+ nl +:+ t) with (String a (s +:+ nl +:+ t)).
    simpl split_lines. rewrite IH by done. by rewrite decide_False.
Qed.

Lemma split_join l : l ≠ [] → Forall one_line l → split_lines (join_lines l) = l.
Proof.
  intros Hne Hl. induction Hl as [|s l Hs Hl IH]; [done|]. destruct l as [|s' l]; simpl join_lines.
  - by apply split_lines_one.
  - rewrite split_lines_app by done. f_equal. by apply IH.
Qed.

Lemma assoc_lookup l i k v : NoDup l.*1 → l !! i = Some (k, v) → assoc l k = v.
Proof.
  revert i. induction l as [|[k' v'] l IH]; intros i Hnd Hi; [done|]. simpl.
  apply NoDup_cons in Hnd as [Hk Hnd]. destruct i as [|i]; simplify_eq/=.
  - by rewrite decide_True.
  - rewrite decide_False; [by eapply IH|]. intros ->. apply Hk.
    apply list_elem_of_lookup_2 in Hi. by apply (list_elem_of_fmap_2 fst) in Hi.
Qed.

(** ** Decimal text *)

Lemma parse_digits_grows s acc n : 0 <= acc → parse_digits s acc = Some n → acc <= n.
Proof.
  revert acc. induction s as [|c s IH]; intros acc Ha Hp; simpl in Hp; [by simplify_eq|].
  case_decide; [|done]. apply IH in Hp; lia.
Qed.

(** Within 32 bits the scan of [ParseUint] reads it. *)
Lemma scan_digits_value s acc n :
  0 <= acc → parse_digits s acc = Some n → n <= MaxUint32 → scan_digits s acc = Ok n.
Proof.
  revert acc. induction s as [|c s IH]; intros acc Ha Hp Hn; simpl in *; [by simplify_eq|].
  set (d := Z.of_nat (nat_of_ascii c) - 48) in *. destruct (decide (0 <= d <= 9)) as [Hd|]; [|done].
  pose proof (parse_digits_grows s (10 * acc + d) n ltac:(lia) Hp). rewrite decide_False by lia. by apply IH; [lia|..].
Qed.

Lemma parse_pretty_go x s :
  parse_digits (pretty_N_go x s) 0 = parse_digits s (Z.of_N x).
Proof.
  revert s. induction (N.lt_wf_0 x) as [x _ IH]. intros s.
  destruct (decide (x = 0)%N) as [->|Hx]; [done|].
  rewrite pretty_N_go_step by lia. rewrite IH by (apply N.div_lt; lia).
  assert (∀ d, (d < 10)%N → Z.of_nat (nat_of_ascii (pretty_N_char d)) - 48 = Z.of_N d) as Hd.
  { intros d Hd. assert (d = 0 ∨ d = 1 ∨ d = 2 ∨ d = 3 ∨ d = 4 ∨ d = 5 ∨ d = 6 ∨ d = 7 ∨ d = 8 ∨ d = 9)%N
      as Hcase by lia. by repeat destruct Hcase as [->|Hcase]; subst. }
  assert (x mod 10 < 10)%N as Hr by (by apply N.mod_lt). pose proof (N.div_mod x 10 ltac:(done)) as Hx10.
  revert Hr Hx10. generalize (x mod 10)%N (x / 10)%N. intros r q Hr ->.
  simpl parse_digits. rewrite Hd by done. rewrite decide_True by lia. f_equal. lia.
Qed.

Lemma parse_pretty (x : N) : parse_digits (pretty x) 0 = Some (Z.of_N x).
Proof.
  unfold pretty, pretty_N. case_decide as Hx; [by subst|]. by rewrite parse_pretty_go.
Qed.

(** Text that parses starts with a digit, so the sign test leaves it alone. *)
Lemma ParseInt32_digits s n :
  parse_digits s 0 = Some n → s ≠ EmptyString → in_i32 n → ParseInt32 s = Ok n.
Proof.
  intros Hp Hne Hn. unfold ParseInt32. destruct s as [|a s]; [done|].
  rewrite (decide_False (P := a = "+"%char)), (decide_False (P := a = "-"%char)).
  - unfold ParseUint32. rewrite decide_False by done.
    rewrite (scan_digits_value _ _ n) by (done || int_lia || unfold MaxUint32; int_lia). by rewrite decide_True.
  - by intros ->.
  - by intros ->.
Qed.

Lemma pretty_N_nonempty (x : N) : pretty x ≠ EmptyString.
Proof.
  intros E. pose proof (parse_pretty x) as Hp. rewrite E in Hp. simplify_eq/=.
  assert (x = 0)%N as -> by lia. done.
Qed.

Lemma fmt_d_N (x : N) : fmt_d (Z.of_N x) = pretty x.
Proof. by destruct x. Qed.

(** What [%d] prints of an [int32], [ParseInt] reads back. *)
Lemma ParseInt32_fmt_d z : in_i32 z → ParseInt32 (fmt_d z) = Ok z.
Proof.
  intros Hz. destruct (decide (0 <= z)) as [Hpos|Hneg].
  - rewrite <- (Z2N.id z) at 1 by done. rewrite fmt_d_N. apply ParseInt32_digits; [|apply pretty_N_nonempty|done].
    by rewrite parse_pretty, Z2N.id.
  - destruct z as [|p|p]; [lia|lia|]. unfold ParseInt32.
    change (fmt_d (Z.neg p)) with (String "-" (pretty (N.pos p))). simpl.
    unfold ParseUint32. rewrite decide_False by apply pretty_N_nonempty.
    rewrite (scan_digits_value _ _ (Z.pos p)) by (apply parse_pretty || unfold MaxUint32; int_lia). simpl.
    by rewrite decide_True.
Qed.

Lemma fmt_d_nonempty z : fmt_d z ≠ EmptyString.
Proof. destruct z as [|p|p]; [done|apply (pretty_N_nonempty (N.pos p))|done]. Qed.

Lemma pretty_go_one_line x s : one_line s → one_line (pretty_N_go x s).
Proof.
  revert s. induction (N.lt_wf_0 x) as [x _ IH]. intros s Hs.
  destruct (decide (x = 0)%N) as [->|Hx]; [done|].
  rewrite pretty_N_go_step by lia. apply IH; [apply N.div_lt; lia|].
  split; [|done]. unfold pretty_N_char. by repeat case_match.
Qed.

Lemma fmt_d_one_line z : one_line (fmt_d z).
Proof.
  assert (∀ x : N, one_line (pretty x)) as Hx.
  { intros x. unfold pretty, pretty_N. case_decide; [by split|]. by apply pretty_go_one_line. }
  destruct z as [|p|p]; [by split|apply (Hx (N.pos p))|split; [done|apply (Hx (N.pos p))]].
Qed.

(** ** The variables of the text *)
Section roundtrip.
Context `{GoFormatG} `{GoStrconv}.

(** What prints on a line of its own: the URLs and the model hold no newline, and the
    number prints as text that parses to it, as [strconv] documents of [%g]. *)
Record printable (c : Config) : Prop := {
  pr_urls : Forall one_line [cfg_ForecastServiceURL c; cfg_PrometheusURL c; cfg_OllamaURL c; cfg_OllamaModel c];
  pr_line : one_line (fmt_g (cfg_CVGuardMeanRPS c));
  pr_text : fmt_g (cfg_CVGuardMeanRPS c) ≠ EmptyString;
  pr_back : ParseFloat (fmt_g (cfg_CVGuardMeanRPS c)) = Some (cfg_CVGuardMeanRPS c);
}.

Lemma settings_keys c :
  NoDup (settings c).*1 ∧ Forall one_line (settings c).*1.
Proof.
  set (keys := (settings c).*1). vm_compute in keys. subst keys.
  split_and!; (refine (bool_decide_unpack _ _); by vm_compute).
Qed.

Lemma env_of_summary c name : printable c → env_of_text (Summary c) name = assoc (settings c) name.
Proof.
  intros [Hurls Hline _ _]. destruct (settings_keys c) as [_ Hkeys].
  unfold env_of_text, Summary. rewrite split_join; [|done|].
  - done.
  - apply Forall_fmap, Forall_lookup. intros i [k v] Hi. unfold setting_line. simpl.
    rewrite !free_of_app. rewrite Forall_fmap, Forall_lookup in Hkeys.
    split_and!; [apply (Hkeys _ _ Hi)|done|].
    rewrite !Forall_cons in Hurls. destruct Hurls as (? & ? & ? & ? & _).
    assert (Forall one_line (settings c).*2) as Hv.
    { unfold settings. simpl. repeat constructor; (done || apply fmt_d_one_line). }
    rewrite Forall_fmap, Forall_lookup in Hv. apply (Hv _ _ Hi).
Qed.

Lemma setting_in c k v :
  (k, v) ∈ settings c → printable c → env_of_text (Summary c) k = v.
Proof.
  intros [i Hi]%list_elem_of_lookup Hp. rewrite env_of_summary by done.
  eapply assoc_lookup; [apply settings_keys|exact Hi].
Qed.

(** ** Reading a printed variable *)

(** [m] reads [v] and reports nothing. *)
Definition yields {A} (m : EM A) (v : A) : Prop := ∀ errs, m errs = (v, errs).

Lemma yields_ret {A} (v : A) : yields (mret v) v.
Proof. done. Qed.
Lemma yields_bind {A B} (m : EM A) (f : A → EM B) v w : yields m v → yields (f v) w → yields (m ≫= f) w.
Proof. intros Hm Hf errs. unfold mbind, st_bind. by rewrite Hm. Qed.

Lemma envInt_back env name v def :
  env name = fmt_d v → in_i32 v → yields (envIntOrDefault env name def) v.
Proof.
  intros E Hv errs. unfold envIntOrDefault. rewrite E, decide_False by apply fmt_d_nonempty.
  by rewrite ParseInt32_fmt_d.
Qed.

(** A duration in whole units that does not leave the width. *)
Definition exact (unit d : Duration) : Prop :=
  in_i32 (Z.quot d unit) ∧ Z.quot d unit *₆₄ unit = Z.quot d unit * unit.

Lemma envDuration_back env name d def unit :
  env name = fmt_d (Z.quot d unit) → exact unit d →
  yields (envIntOrDefault env name def ≫= λ v, mret (v *₆₄ unit)) (Z.quot d unit * unit).
Proof.
  intros E [Hv Hw]. eapply yields_bind; [by apply envInt_back|]. rewrite Hw. apply yields_ret.
Qed.

Lemma exact_seconds d : (∃ v, in_i32 v ∧ d = v * Second) → exact Second d ∧ Z.quot d Second * Second = d.
Proof.
  intros (v & Hv & ->). unfold exact. rewrite Z.quot_mul by done.
  split; [split; [done|by apply seconds_no_overflow]|done].
Qed.

Lemma exact_long unit d : Minute <= unit → in_i64 d → exact unit d.
Proof.
  intros Hu Hd. assert (0 < unit) as Hpos by (unfold Minute, Second in *; lia).
  assert (unit * Z.abs (Z.quot d unit) <= Z.abs d) as Hq.
  { rewrite <- Z.quot_abs, (Z.abs_eq unit) by lia. apply Z.mul_quot_le; lia. }
  assert (Minute * Z.abs (Z.quot d unit) <= unit * Z.abs (Z.quot d unit)) as Hm
    by (apply Z.mul_le_mono_nonneg_r; lia).
  unfold in_i64, MinInt64, MaxInt64 in Hd. split.
  - unfold in_i32, MinInt32, MaxInt32, Minute, Second in *. lia.
  - apply wrap64_id. unfold in_i64, MinInt64, MaxInt64. destruct (decide (0 <= d)).
    + pose proof (Z.quot_pos d unit). nia.
    + pose proof (Z.quot_pos (- d) unit) as Hq0. rewrite Z.quot_opp_l in Hq0 by lia. nia.
Qed.

(** The configuration with its minutes and hours cut to whole units. *)
Definition whole_units (c : Config) : Config :=
  {| cfg_ForecastServiceURL := cfg_ForecastServiceURL c; cfg_PrometheusURL := cfg_PrometheusURL c;
     cfg_ReconcileInterval := cfg_ReconcileInterval c;
     cfg_HotPathHistory := Z.quot (cfg_HotPathHistory c) Minute * Minute;
     cfg_HotPathMinPoints := cfg_HotPathMinPoints c; cfg_ForecastTimeout := cfg_ForecastTimeout c;
     cfg_ProphetMinPoints := cfg_ProphetMinPoints c;
     cfg_ClassifierInterval := Z.quot (cfg_ClassifierInterval c) Minute * Minute;
     cfg_ClassifierHistory := Z.quot (cfg_ClassifierHistory c) Hour * Hour;
     cfg_ClassifierMinPoints := cfg_ClassifierMinPoints c;
     cfg_ClassifierHighConfidencePoints := cfg_ClassifierHighConfidencePoints c;
     cfg_ClassifierDedup := cfg_ClassifierDedup c;
     cfg_ContextResolutionMinutes := cfg_ContextResolutionMinutes c;
     cfg_CVGuardMeanRPS := cfg_CVGuardMeanRPS c;
     cfg_RpsPerPodNoiseFloorRPS := cfg_RpsPerPodNoiseFloorRPS c;
     cfg_HourlyProfileMinHours := cfg_HourlyProfileMinHours c;
     cfg_DefaultScaleUpCooldown := cfg_DefaultScaleUpCooldown c;
     cfg_DefaultScaleDownCooldown := cfg_DefaultScaleDownCooldown c;
     cfg_DefaultMaxStepSize := cfg_DefaultMaxStepSize c; cfg_OllamaURL := cfg_OllamaURL c;
     cfg_OllamaModel := cfg_OllamaModel c; cfg_OllamaTimeout := cfg_OllamaTimeout c;
     cfg_OllamaMaxTokens := cfg_OllamaMaxTokens c |}.

Lemma whole_units_rules c : config_rules c → config_rules (whole_units c).
Proof. by intros []. Qed.

Lemma quot_whole unit d : unit ≠ 0 → Z.quot d unit * unit = d ↔ (unit | d).
Proof.
  intros Hu. split; [intros E; by exists (Z.quot d unit)|]. intros [q ->]. by rewrite Z.quot_mul.
Qed.

Lemma envSeconds_back env name d def :
  env name = fmt_d (Z.quot d Second) → (∃ v, in_i32 v ∧ d = v * Second) →
  yields (envSecondsOrDefault env name def) d.
Proof.
  intros E [He Hd]%exact_seconds. rewrite <- Hd. by apply envDuration_back.
Qed.

Lemma env_required_back env name v : env name = v → v ≠ EmptyString → yields (env_required env name) v.
Proof. intros <- Hv errs. unfold env_required. by rewrite decide_False. Qed.

Lemma envFloat_back env name v def :
  env name = fmt_g v → fmt_g v ≠ EmptyString → ParseFloat (fmt_g v) = Some v →
  yields (envFloat64OrDefault env name def) v.
Proof. intros E Hne Hv errs. unfold envFloat64OrDefault. by rewrite E, decide_False, Hv. Qed.

Lemma envString_back env name v def : env name = v → v ≠ EmptyString → envStringOrDefault env name def = v.
Proof. intros <- Hv. unfold envStringOrDefault. by rewrite decide_False. Qed.

(** The variable is one of the text. *)
Ltac setting := solve [apply setting_in; [|assumption]; unfold settings; repeat constructor].
Ltac back :=
  eapply yields_bind;
  [first [ eapply env_required_back; [setting|]
         | eapply envSeconds_back; [setting|]
         | eapply envDuration_back; [setting|apply exact_long]
         | eapply envFloat_back; [setting|..]
         | eapply envInt_back; [setting|] ] |].

Lemma read_env_summary env c :
  config_ranges env c → printable c → yields (read_env (env_of_text (Summary c))) (whole_units c).
Proof.
  intros [] []. assert (printable c) by done. rewrite !Forall_cons in *. unfold read_env. destruct_and!.
  rewrite (envString_back _ "OLLAMA_URL" (cfg_OllamaURL c)), (envString_back _ "OLLAMA_MODEL" (cfg_OllamaModel c))
    by (done || setting).
  unfold envMinutesOrDefault, envHoursOrDefault. repeat back;
    lazymatch goal with |- yields (mret _) _ => apply yields_ret | |- yields _ _ => fail | _ => done end.
Qed.

(** Claim C28: the summary that is logged at start-up is the configuration. Its lines, set
    as environment variables, load again, to the same configuration with the three
    durations that are counted in minutes and hours cut to whole units; so it is the
    same configuration exactly when these are whole, which fails only for a setting so
    large that the load wrapped it around. *)
Theorem Summary_roundtrip env c :
  LoadFromEnv env = Ok c → printable c →
  LoadFromEnv (env_of_text (Summary c)) = Ok (whole_units c) ∧
  (whole_units c = c ↔ (Minute | cfg_HotPathHistory c) ∧ (Minute | cfg_ClassifierInterval c) ∧
                       (Hour | cfg_ClassifierHistory c)).
Proof.
  intros [Hr Hc]%LoadFromEnv_loaded Hp. split.
  - unfold LoadFromEnv. rewrite (read_env_summary env c Hc Hp). simpl.
    by rewrite (proj2 (validate_nil (whole_units c)) (whole_units_rules c Hr)).
  - rewrite <- !quot_whole by done. destruct c; unfold whole_units; simpl. split.
    + by intros [= -> -> ->].
    + intros (E1 & E2 & E3). by f_equal.
Qed.
End roundtrip.

(** The printer of the default guard. *)
Definition one_g : GoFormatG := {| fmt_g := λ _, "1" |}.
Definition one_strconv : GoStrconv := {| ParseFloat := λ s, if decide (s = "1") then Some f1 else None |}.

Lemma Summary_roundtrip_witness :
  @LoadFromEnv one_strconv urls_env = Ok (default_config "f" "p") ∧
  @LoadFromEnv one_strconv (env_of_text (@Summary one_g (default_config "f" "p"))) = Ok (default_config "f" "p").
Proof.
  assert (@LoadFromEnv one_strconv urls_env = Ok (default_config "f" "p")) as H by (vm_compute; reflexivity).
  split; [exact H|].
  refine (eq_trans (proj1 (@Summary_roundtrip one_g one_strconv urls_env _ H _)) _); [|reflexivity].
  split; [repeat (constructor; [refine (bool_decide_unpack _ _); by vm_compute|]); constructor| | |].
  - refine (bool_decide_unpack _ _). by vm_compute.
  - done.
  - reflexivity.
Defined.
