(* ===== verification/Webhook.v ===== *)
(** * internal/webhook/v1alpha1: admission of the custom resource

    [ValidateSpec] collects one [Problem] per failed check, in the order of the
    source; a [Problem] carries the values its message prints.  The [int32]
    subtraction of the range size wraps around.  The custom validator answers
    create, update and delete requests with it. *)
From S2P Require Import Prelude Float64 Reasoning Api State Decision.

Inductive Problem :=
| MinReplicasTooSmall (v : Z)
| MaxNotAboveMin (mx mn : Z)
| RpsMinTooSmall (v : Z)
| RpsMinNotBelowMax (mn mx : Z)
| StepSizeTooSmall (v : Z)
| StepAboveRange (v range : Z)
| UpNegative (v : Z)
| DownNegative (v : Z)
| UnknownForecaster (v : string).

(** The accepted arm of the switch on [preferredForecaster]. *)
Definition accepted_forecaster (s : string) : bool :=
  bool_decide (s = "prophet") || bool_decide (s = "linear_extrap") ||
  bool_decide (s = "gbdt_quantile") || bool_decide (s = "auto").

(** The problems of an optional field, of a pair of optional fields. *)
Definition on1 (a : option Z) (f : Z → list Problem) : list Problem :=
  match a with Some a => f a | None => [] end.
Definition on2 (a b : option Z) (f : Z → Z → list Problem) : list Problem :=
  match a, b with Some a, Some b => f a b | _, _ => [] end.
Definition problem_if (c : Prop) `{Decision c} (p : Problem) : list Problem :=
  if decide c then [p] else [].

(** [ValidateSpec]: the problems found; the error is nil when there is none. *)
Definition ValidateSpec (spec : AgenticAutoscalerSpec) : list Problem :=
  on1 (spec_MinReplicas spec) (λ mn, problem_if (mn < 1) (MinReplicasTooSmall mn)) ++
  on2 (spec_MinReplicas spec) (spec_MaxReplicas spec)
    (λ mn mx, problem_if (mx <= mn) (MaxNotAboveMin mx mn)) ++
  on1 (spec_RpsPerPodMin spec) (λ v, problem_if (v < 1) (RpsMinTooSmall v)) ++
  on2 (spec_RpsPerPodMin spec) (spec_RpsPerPodMax spec)
    (λ mn mx, problem_if (mn >= mx) (RpsMinNotBelowMax mn mx)) ++
  on1 (spec_MaxStepSize spec) (λ step,
    problem_if (step < 1) (StepSizeTooSmall step) ++
    on2 (spec_MinReplicas spec) (spec_MaxReplicas spec) (λ mn mx,
      let rangeSize := mx -₃₂ mn in
      problem_if (step > rangeSize) (StepAboveRange step rangeSize))) ++
  on1 (spec_ScaleUpCooldownSeconds spec) (λ v, problem_if (v < 0) (UpNegative v)) ++
  on1 (spec_ScaleDownCooldownSeconds spec) (λ v, problem_if (v < 0) (DownNegative v)) ++
  match spec_PreferredForecaster spec with
  | Some s => if accepted_forecaster s then [] else [UnknownForecaster s]
  | None => []
  end.

(** [runtime.Object]: the custom resource or some other kind. *)
Inductive Object :=
| ObjAAS (aas : AgenticAutoscaler)
| ObjOther (kind : string).

Inductive AdmissionError :=
| WrongType (kind : string)
| ValidationFailed (problems : list Problem).

Definition spec_error (spec : AgenticAutoscalerSpec) : result AdmissionError () :=
  match ValidateSpec spec with [] => Ok () | ps => Err (ValidationFailed ps) end.

Definition ValidateCreate (obj : Object) : result AdmissionError () :=
  match obj with
  | ObjAAS aas => spec_error (aas_Spec aas)
  | ObjOther k => Err (WrongType k)
  end.

Definition ValidateUpdate (oldObj newObj : Object) : result AdmissionError () :=
  match newObj with
  | ObjAAS aas => spec_error (aas_Spec aas)
  | ObjOther k => Err (WrongType k)
  end.

Definition ValidateDelete (obj : Object) : result AdmissionError () := Ok ().

(** ** What is admitted *)

(** Every [int32] field holds an [int32]. *)
Definition spec_i32 (s : AgenticAutoscalerSpec) : Prop :=
  Forall (λ o, from_option in_i32 True o)
    [spec_MinReplicas s; spec_MaxReplicas s; spec_RpsPerPodMin s; spec_RpsPerPodMax s;
     spec_MaxStepSize s; spec_ScaleUpCooldownSeconds s; spec_ScaleDownCooldownSeconds s].

(** The bounds of the design, over unbounded integers. *)
Record spec_ok (s : AgenticAutoscalerSpec) : Prop := {
  so_min : ∀ mn, spec_MinReplicas s = Some mn → 1 <= mn;
  so_range : ∀ mn mx, spec_MinReplicas s = Some mn → spec_MaxReplicas s = Some mx → mn < mx;
  so_rps_min : ∀ v, spec_RpsPerPodMin s = Some v → 1 <= v;
  so_rps_range : ∀ mn mx, spec_RpsPerPodMin s = Some mn → spec_RpsPerPodMax s = Some mx → mn < mx;
  so_step : ∀ v, spec_MaxStepSize s = Some v → 1 <= v;
  so_step_range : ∀ v mn mx, spec_MaxStepSize s = Some v →
    spec_MinReplicas s = Some mn → spec_MaxReplicas s = Some mx → v <= mx - mn;
  so_up : ∀ v, spec_ScaleUpCooldownSeconds s = Some v → 0 <= v;
  so_down : ∀ v, spec_ScaleDownCooldownSeconds s = Some v → 0 <= v;
  so_forecaster : ∀ f, spec_PreferredForecaster s = Some f →
    f ∈ ["prophet"; "linear_extrap"; "gbdt_quantile"; "auto"];
}.

Lemma accepted_forecaster_spec s :
  accepted_forecaster s = true ↔ s ∈ ["prophet"; "linear_extrap"; "gbdt_quantile"; "auto"].
Proof.
  unfold accepted_forecaster. rewrite !orb_true_iff, !bool_decide_eq_true. set_solver.
Qed.

Lemma problem_if_nil c `{Decision c} p : problem_if c p = [] ↔ ¬ c.
Proof. unfold problem_if. case_decide; naive_solver. Qed.

Lemma on1_nil a f : on1 a f = [] ↔ ∀ v, a = Some v → f v = [].
Proof. destruct a; naive_solver. Qed.

Lemma on2_nil a b f : on2 a b f = [] ↔ ∀ v w, a = Some v → b = Some w → f v w = [].
Proof. destruct a, b; naive_solver. Qed.

(** The wrapped range size misjudges a step only where another check already fails. *)
Lemma range_size_exact mn mx step :
  in_i32 mn → in_i32 mx → 1 <= mn → mn < mx → step > mx -₃₂ mn ↔ mx - mn < step.
Proof. intros. rewrite wrap32_id by int_lia. lia. Qed.

Lemma ValidateSpec_nil s : spec_i32 s → ValidateSpec s = [] ↔ spec_ok s.
Proof.
  intros Hi. unfold spec_i32 in Hi. rewrite !Forall_cons in Hi.
  destruct Hi as (Hmn & Hmx & _ & _ & _).
  unfold ValidateSpec. rewrite !app_nil_iff, !on1_nil, !on2_nil.
  setoid_rewrite app_nil_iff. setoid_rewrite on2_nil. setoid_rewrite problem_if_nil.
  pose proof accepted_forecaster_spec as Hf.
  assert (∀ mn mx, 1 <= mn → mn < mx → spec_MinReplicas s = Some mn →
    spec_MaxReplicas s = Some mx → ∀ v, v > mx -₃₂ mn ↔ mx - mn < v) as Hr.
  { intros mn mx ? ? E1 E2 v. rewrite E1 in Hmn. rewrite E2 in Hmx. by apply range_size_exact. }
  split.
  - intros (H1&H2&H3&H4&H5&H6&H7&H8). split; intros.
    + specialize (H1 mn ltac:(done)). lia.
    + specialize (H2 mn mx ltac:(done) ltac:(done)). lia.
    + specialize (H3 v ltac:(done)). lia.
    + specialize (H4 mn mx ltac:(done) ltac:(done)). lia.
    + destruct (H5 v ltac:(done)). lia.
    + destruct (H5 v ltac:(done)) as [_ H5']. specialize (H5' mn mx ltac:(done) ltac:(done)).
      specialize (H1 mn ltac:(done)). specialize (H2 mn mx ltac:(done) ltac:(done)).
      rewrite (Hr mn mx) in H5' by (done || lia). lia.
    + specialize (H6 v ltac:(done)). lia.
    + specialize (H7 v ltac:(done)). lia.
    + rewrite H in H8. destruct (accepted_forecaster f) eqn:E; [|done]. by apply Hf.
  - intros []. split_and!; [intros v E; specialize (so_min0 _ E); lia| | | | | | |].
    + intros v w E1 E2. specialize (so_range0 _ _ E1 E2). lia.
    + intros v E. specialize (so_rps_min0 _ E). lia.
    + intros v w E1 E2. specialize (so_rps_range0 _ _ E1 E2). lia.
    + intros v E. split; [specialize (so_step0 _ E); lia|]. intros mn mx E1 E2.
      rewrite (Hr mn mx) by (done || by apply so_min0 || by apply so_range0). specialize (so_step_range0 _ _ _ E E1 E2). lia.
    + intros v E. specialize (so_up0 _ E). lia.
    + intros v E. specialize (so_down0 _ E). lia.
    + destruct (spec_PreferredForecaster s) as [f|] eqn:E; [|done].
      rewrite (proj2 (Hf f)); [done|]. by apply so_forecaster0.
Qed.

(** Claim C25: admission enforces exactly the documented bounds: a spec of [int32]
    fields has no problem if and only if every bound holds over the unbounded
    integers, in spite of the wrap-around in the step check. *)
Theorem ValidateSpec_iff_ok s : spec_i32 s → ValidateSpec s = [] ↔ spec_ok s.
Proof. intros; by apply ValidateSpec_nil. Qed.

Definition deployment_ref (name : string) : CrossVersionObjectReference :=
  mkRef "apps/v1" "Deployment" name.

(** The API server materialises the CRD defaults, so an admitted CR has its bounds. *)
Definition spec_of (mn mx rmin rmax : Z) (step : option Z) (f : option string) :
    AgenticAutoscalerSpec :=
  mkSpec (deployment_ref "app") (Some mn) (Some mx) (Some rmin) (Some rmax) step None None f.

Lemma ValidateSpec_iff_ok_witness :
  let s := spec_of 2 10 50 500 (Some 4) (Some "prophet") in
  spec_i32 s ∧ spec_ok s.
Proof.
  intros s. assert (spec_i32 s) as H by (repeat constructor; vm_compute; congruence).
  split; [exact H|]. apply (ValidateSpec_iff_ok s H). vm_compute. reflexivity.
Defined.

(** An update can never bring a CR into a state that creation would refuse,
    and nothing but an AgenticAutoscaler passes either; deletion is always allowed. *)
Theorem admission_guards_updates old obj :
  ValidateUpdate old obj = ValidateCreate obj ∧ ValidateDelete obj = Ok () ∧
  (ValidateCreate obj = Ok () ↔
   ∃ aas, obj = ObjAAS aas ∧ ValidateSpec (aas_Spec aas) = []).
Proof.
  split_and!; [by destruct obj|done|]. destruct obj as [aas|k]; simpl; [|naive_solver].
  unfold spec_error. destruct (ValidateSpec (aas_Spec aas)) eqn:E;
    (split; [intros ?; exists aas; by simplify_eq|intros (? & [= <-] & ?); congruence]).
Qed.

(** Below a billion replicas admission makes the step arithmetic safe: for an
    admitted spec with explicit bounds and step, and a replica count up to the maximum,
    neither end of the step interval leaves [int32]. *)
Theorem admitted_step_cannot_overflow s mn mx step cur :
  spec_i32 s → ValidateSpec s = [] →
  spec_MinReplicas s = Some mn → spec_MaxReplicas s = Some mx →
  spec_MaxStepSize s = Some step → mx <= 1073741823 → 0 <= cur <= mx →
  0 <= step ∧ in_i32 (cur + step) ∧ in_i32 (cur - step).
Proof.
  intros Hi Hv Emn Emx Es Hmx Hc. apply ValidateSpec_nil in Hv; [|done].
  pose proof (so_min _ Hv _ Emn). pose proof (so_step _ Hv _ Es).
  pose proof (so_step_range _ Hv _ _ _ Es Emn Emx). split; [lia|]. int_lia.
Qed.

Lemma admitted_step_cannot_overflow_witness :
  let s := spec_of 2 10 50 500 (Some 4) None in
  spec_i32 s ∧ ValidateSpec s = [] ∧ in_i32 (9 + 4) ∧ in_i32 (9 - 4).
Proof.
  intros s. assert (spec_i32 s) as H by (repeat constructor; vm_compute; congruence).
  split; [exact H|]. split; [vm_compute; reflexivity|].
  apply (admitted_step_cannot_overflow s 2 10 4 9 H);
    [vm_compute; reflexivity|reflexivity|reflexivity|reflexivity|lia|lia].
Defined.

(** The stage's input for a CR of the given spec, at the given count and demand. *)
Definition cap_input (step recommended cur : Z) (now : Time) : CapInput :=
  mkCapInput recommended cur step 0 0 0 0 now EmptyString.

(** Without that bound it is not safe. The spec with minReplicas 1,
    maxReplicas 2147483647 and maxStepSize 2147483646 is admitted, and a demand for
    six replicas instead of five then orders a patch to a negative count. *)
Theorem admitted_step_can_overflow :
  ValidateSpec (spec_of 1 MaxInt32 50 500 (Some (MaxInt32 - 1)) None) = [] ∧
  ApplyCapAndCooldown (cap_input (MaxInt32 - 1) 6 5 Second) =
    {| co_Target := -2147483645; co_Reason := StepCappedUp; co_ShouldPatch := true |}.
Proof. split; vm_compute; reflexivity. Qed.

(** The validator compares the bounds only when both are present. A spec with
    minReplicas 20 and no maxReplicas is admitted, although the reconciler resolves the
    missing maximum to 10; the clamp then never lands inside the bounds. *)
Theorem absent_max_admits_inverted_bounds u :
  let s := mkSpec (deployment_ref "app") (Some 20) None None None None None None None in
  ValidateSpec s = [] ∧
  ¬ deref_or (spec_MinReplicas s) 2 <= deref_or (spec_MaxReplicas s) 10 ∧
  let '(r, reason) := ClampRecommended u (deref_or (spec_MinReplicas s) 2)
                        (deref_or (spec_MaxReplicas s) 10) in
  (r = 10 ∧ reason = MaxReplicasBinding) ∨ (r = 20 ∧ reason = MinReplicasBinding).
Proof.
  intros s. split; [reflexivity|]. split; [simpl; lia|]. simpl. unfold ClampRecommended.
  repeat case_decide; auto. lia.
Qed.
