(* ===== verification/Features.v ===== *)
(** * internal/classifier/features.go: statistics of a traffic history

    The four features of a series and the fields of the cold-path context block,
    with every loop of the source as a fold over the samples in order, so that the
    floating-point operations happen in the order of the source. *)
From S2P Require Import Prelude Float64 FloatOrder FloatRound State.
From Stdlib Require Import SpecFloat.

Definition TodLag : Z := 60.
Definition MinTodOverlap : Z := 10.
Definition CVGuardMeanRPS : float64 := f1.

Definition flen (s : list float64) : Z := Z.of_nat (length s).

(** Go's integer division truncates. *)
Definition HourlyAutocorrLag (resolutionMin : Z) : Z :=
  if decide (resolutionMin <= 0) then 0 else Z.quot 60 resolutionMin.

Record Features := mkFeatures {
  ft_CV : float64;
  ft_PeakToTrough : float64;
  ft_HourlyAutocorr : float64;
  ft_TrendSlope : float64;
}.

Definition mean (s : list float64) : float64 :=
  (fold_left fadd s f0 / f64_of_Z (flen s))%f64.

Definition stddev (s : list float64) (m : float64) : float64 :=
  let sum := fold_left (λ sum v, let d := v - m in sum + d * d)%f64 s f0 in
  fsqrt (sum / f64_of_Z (flen s))%f64.

Definition percentile_index `{GoPlatform} (n : Z) (p : float64) : Z :=
  let idx := f64_to_i64 (math_Ceil (p * f64_of_Z n)%f64) - 1 in
  let idx := if decide (idx < 0) then 0 else idx in
  if decide (idx >= n) then n - 1 else idx.

Definition percentile `{GoPlatform} (s : list float64) (p : float64) : float64 :=
  if decide (flen s = 0) then f0
  else
    let sorted := sort_Float64s s in
    f64_at sorted (Z.to_nat (percentile_index (flen sorted) p)).

Definition median (s : list float64) : float64 :=
  if decide (length s = 0%nat) then f0
  else
    let sorted := sort_Float64s s in
    let n := length sorted in
    if decide (n `mod` 2 = 0)%nat
    then ((f64_at sorted (n / 2 - 1) + f64_at sorted (n / 2)) / f2)%f64
    else f64_at sorted (n / 2).

(** The samples with their indices as doubles. *)
Definition indexed (s : list float64) : list (float64 * float64) :=
  imap (λ i v, (f64_of_Z (Z.of_nat i), v)) s.

Definition detrend (series : list float64) (slope : float64) : list float64 :=
  let n := flen series in
  if decide (n = 0) then series
  else
    let mx := (f64_of_Z (n - 1) / f2)%f64 in
    let my := mean series in
    let intercept := (my - slope * mx)%f64 in
    (λ '(i, v), v - (intercept + slope * i))%f64 <$> indexed series.

Definition trendSlope (series : list float64) : float64 :=
  let n := flen series in
  if decide (n < 2) then f0
  else
    let mx := (f64_of_Z (n - 1) / f2)%f64 in
    let my := mean series in
    let '(num, den) :=
      fold_left (λ '(num, den) '(i, v),
        let dx := (i - mx)%f64 in (num + dx * (v - my), den + dx * dx)%f64)
        (indexed series) (f0, f0) in
    if (den =? f0)%f64 then f0 else (num / den)%f64.

Definition TrendSlopeRpsPerMin (series : list float64) (resolutionMin : Z) : float64 :=
  let raw := trendSlope series in
  if decide (resolutionMin <= 0) then raw else (raw / f64_of_Z resolutionMin)%f64.

Definition hourlyAutocorr (series : list float64) (lag minOverlap : Z) : float64 :=
  let n := flen series in
  if decide (n < lag + minOverlap) then f0
  else
    let x := take (Z.to_nat (n - lag)) series in
    let y := drop (Z.to_nat lag) series in
    let mx := mean x in
    let my := mean y in
    let '(num, sx, sy) :=
      fold_left (λ '(num, sx, sy) '(xi, yi),
        let dx := (xi - mx)%f64 in
        let dy := (yi - my)%f64 in
        (num + dx * dy, sx + dx * dx, sy + dy * dy)%f64)
        (zip x y) (f0, f0, f0) in
    if (sx =? f0)%f64 || (sy =? f0)%f64 then f0
    else (num / fsqrt (sx * sy))%f64.

(** [ExtractFeatures] (v1: 1-minute cadence). *)
Definition ExtractFeatures `{GoPlatform} (series : list float64) : Features :=
  if decide (flen series = 0) then mkFeatures f0 f0 f0 f0
  else
    let m := mean series in
    let sd := stddev series m in
    let cv := if (m >=? CVGuardMeanRPS)%f64 then (sd / m)%f64 else f0 in
    let p99 := percentile series (f64_frac 99 100) in
    let peakToTrough := (p99 / math_Max m CVGuardMeanRPS)%f64 in
    let slope := trendSlope series in
    mkFeatures cv peakToTrough (hourlyAutocorr (detrend series slope) TodLag MinTodOverlap) slope.

Definition ComputeBaselineRPS `{GoPlatform} (series : list float64) : Z :=
  f64_to_i32 (math_Round (median series)).

Definition ComputePeakP95RPS `{GoPlatform} (series : list float64) : Z :=
  f64_to_i32 (math_Round (percentile series (f64_frac 95 100))).

(** The hour bucket of sample [i]. *)
Definition bucket_hour (pointsPerHour startHourUTC i : Z) : Z :=
  (startHourUTC + i / pointsPerHour) mod 24.

Definition bucket (pointsPerHour startHourUTC : Z) (series : list float64) (h : Z) :
    list float64 :=
  snd <$> filter (λ p : Z * float64, bucket_hour pointsPerHour startHourUTC p.1 = h)
            (imap (λ i v, (Z.of_nat i, v)) series).

Definition points_per_hour (resolutionMin : Z) : Z :=
  let resolutionMin := if decide (resolutionMin < 1) then 60 else resolutionMin in
  let pointsPerHour := Z.quot 60 resolutionMin in
  if decide (pointsPerHour < 1) then 1 else pointsPerHour.

Definition ComputeHourlyProfile `{GoPlatform} (series : list float64)
    (resolutionMin startHourUTC minHours : Z) : list Z * bool :=
  if decide (flen series = 0) then (replicate 24 0, false)
  else
    let pointsPerHour := points_per_hour resolutionMin in
    let startHourUTC := if decide (startHourUTC < 0) then 0 else startHourUTC in
    let buckets := bucket pointsPerHour startHourUTC series <$> seqZ 0 24 in
    let profile :=
      (λ b, if decide (length b = 0%nat) then 0 else f64_to_i32 (math_Round (median b)))
        <$> buckets in
    let distinctHours :=
      Z.of_nat (length (filter (λ b : list float64, length b ≠ 0%nat) buckets)) in
    (profile, bool_decide (distinctHours >= minHours)).

(** ** Order statistics *)

(** The median of the context block is the median of the ring buffer. *)
Lemma median_is_Median s c : median s = Median (mkRB s c).
Proof.
  unfold median, Median. cbn [rb_data]. rewrite sort_Float64s_length.
  case_decide; [done|]. pose proof (Nat.mod_upper_bound (length s) 2 ltac:(lia)).
  repeat case_decide; (done || lia).
Qed.

Lemma percentile_index_range `{GoPlatform} n p : 0 < n → 0 <= percentile_index n p < n.
Proof. intros. unfold percentile_index. repeat case_decide; lia. Qed.

(** Splitting a sorted slice at a position puts the smaller values before it. *)
Lemma sorted_split l i x :
  sort_Float64s l !! i = Some x →
  l ≡ₚ take i (sort_Float64s l) ++ x :: drop (S i) (sort_Float64s l) ∧
  Forall (λ y, forder y x) (take i (sort_Float64s l)) ∧
  Forall (forder x) (drop (S i) (sort_Float64s l)).
Proof.
  intros Hi. split_and!.
  - by rewrite take_drop_middle, sort_Float64s_perm.
  - apply Forall_lookup. intros j y Hj. apply lookup_take_Some in Hj as [Hj ?].
    by eapply (sort_lookup_mono l j i); [lia|..].
  - apply Forall_lookup. intros j y Hj. rewrite lookup_drop in Hj.
    by eapply (sort_lookup_mono l i (S i + j)); [lia|..].
Qed.

(** A percentile is an order statistic of the samples: it is one of them, as
    many samples as its index are no larger, and all the others are no smaller. *)
Theorem percentile_order_statistic `{GoPlatform} s p :
  s ≠ [] →
  ∃ below above, s ≡ₚ below ++ percentile s p :: above ∧
    Z.of_nat (length below) = percentile_index (flen s) p ∧
    Forall (λ y, forder y (percentile s p)) below ∧ Forall (forder (percentile s p)) above.
Proof.
  intros Hs. assert (0 < flen s) as Hn.
  { unfold flen. destruct s; [done|simpl; lia]. }
  unfold percentile. rewrite decide_False by lia.
  assert (flen (sort_Float64s s) = flen s) as -> by (unfold flen; by rewrite sort_Float64s_length).
  pose proof (percentile_index_range (flen s) p Hn) as Hr.
  set (i := Z.to_nat (percentile_index (flen s) p)).
  assert (i < length (sort_Float64s s))%nat as Hi.
  { rewrite sort_Float64s_length. assert (flen s = Z.of_nat (length s)) by done. unfold i. lia. }
  pose proof (f64_at_lookup _ _ Hi) as Hat.
  destruct (sorted_split _ _ _ Hat) as (Hp & Hb & Ha).
  eexists _, _. split_and!; [exact Hp| |exact Hb|exact Ha].
  rewrite length_take_le by lia. unfold i. lia.
Qed.

Lemma percentile_order_statistic_witness :
  [f64_of_Z 3; f64_of_Z 1; f64_of_Z 2] ≠ [] ∧
  ∃ below above, [f64_of_Z 3; f64_of_Z 1; f64_of_Z 2] ≡ₚ below ++ f64_of_Z 3 :: above ∧
    Z.of_nat (length below) = 2.
Proof.
  assert ([f64_of_Z 3; f64_of_Z 1; f64_of_Z 2] ≠ []) as H by discriminate. split; [exact H|].
  destruct (@percentile_order_statistic amd64 _ (f64_frac 99 100) H)
    as (below & above & Hp & Hl & _).
  exists below, above. split; [exact Hp|exact Hl].
Defined.

(** ** The hourly profile *)

Lemma points_per_hour_pos r : 1 <= points_per_hour r.
Proof. unfold points_per_hour. repeat case_decide; lia. Qed.

Lemma bucket_hour_range pph s i : 0 <= bucket_hour pph s i < 24.
Proof. apply Z.mod_pos_bound. lia. Qed.

(** Hours by hours, the buckets hold the indexed samples. *)
Lemma elem_of_bucket pph s series h v :
  v ∈ bucket pph s series h ↔ ∃ i, series !! i = Some v ∧ bucket_hour pph s (Z.of_nat i) = h.
Proof.
  unfold bucket. rewrite list_elem_of_fmap. split.
  - intros ([i w] & -> & [Hh Hin]%list_elem_of_filter). simpl in *.
    apply elem_of_lookup_imap in Hin as (j & y & [= -> ->] & Hj). eauto.
  - intros (i & Hi & Hh). exists (Z.of_nat i, v). split; [done|].
    apply list_elem_of_filter. split; [done|]. apply elem_of_lookup_imap. eauto.
Qed.

Lemma bucket_nonempty pph s series h :
  length (bucket pph s series h) ≠ 0%nat ↔
  ∃ i, 0 <= i < flen series ∧ bucket_hour pph s i = h.
Proof.
  rewrite length_zero_iff_nil. split.
  - intros Hne. destruct (bucket pph s series h) as [|v l] eqn:E; [done|].
    assert (v ∈ bucket pph s series h) as Hin by (rewrite E; constructor).
    apply elem_of_bucket in Hin as (i & Hi%lookup_lt_Some & Hh).
    exists (Z.of_nat i). unfold flen. split; [lia|done].
  - intros (i & Hi & Hh) E. unfold flen in Hi.
    destruct (lookup_lt_is_Some_2 series (Z.to_nat i)) as [v Hv]; [lia|].
    assert (v ∈ bucket pph s series h) as Hin.
    { apply elem_of_bucket. exists (Z.to_nat i). by rewrite Z2Nat.id by lia. }
    rewrite E in Hin. by apply elem_of_nil in Hin.
Qed.

(** The number of whole or started hours the samples cover. *)
Definition hours_spanned (pph n : Z) : Z := (n - 1) / pph + 1.

(** An hour is populated iff it is within the span, counting from the start hour. *)
Lemma hour_populated pph s n h :
  1 <= pph → 0 < n → 0 <= h < 24 →
  (∃ i, 0 <= i < n ∧ bucket_hour pph s i = h) ↔ (h - s) mod 24 < hours_spanned pph n.
Proof.
  intros Hp Hn Hh. unfold bucket_hour, hours_spanned. split.
  - intros (i & Hi & Heq). assert (i / pph <= (n - 1) / pph) by (apply Z.div_le_mono; lia).
    assert (0 <= i / pph) by (apply Z.div_pos; lia).
    rewrite <- Heq, Zminus_mod_idemp_l. replace (s + i / pph - s) with (i / pph) by lia.
    pose proof (Z.mod_le (i / pph) 24 ltac:(done) ltac:(done)). lia.
  - intros Hlt. set (q := (h - s) mod 24) in *.
    assert (0 <= q < 24) by (by apply Z.mod_pos_bound).
    exists (q * pph). rewrite Z.div_mul by lia. split.
    + assert (q * pph <= (n - 1) / pph * pph) by (apply Z.mul_le_mono_nonneg_r; lia).
      pose proof (Z.mul_div_le (n - 1) pph ltac:(lia)). split; [|lia].
      apply Z.mul_nonneg_nonneg; lia.
    + unfold q. rewrite Zplus_mod_idemp_r. replace (s + (h - s)) with h by lia.
      apply Z.mod_small. lia.
Qed.

(** Exactly [min 24 m] hours of the day lie less than [m] hours after [s]. *)
Lemma count_hours s m :
  0 <= m →
  Z.of_nat (length (filter (λ h, (h - s) mod 24 < m) (seqZ 0 24))) = Z.min 24 m.
Proof.
  intros Hm.
  assert (∀ h, (h - s) mod 24 < m ↔ (h - s mod 24) mod 24 < Z.min 24 m) as Heq.
  { intros h. rewrite Zminus_mod_idemp_r.
    pose proof (Z.mod_pos_bound (h - s) 24 ltac:(done)). lia. }
  rewrite (list_filter_iff (λ h, (h - s) mod 24 < m)
    (λ h, (h - s mod 24) mod 24 < Z.min 24 m) (seqZ 0 24) Heq).
  pose proof (Z.mod_pos_bound s 24 ltac:(done)) as Hs.
  assert (Forall (λ r, Forall (λ k,
    Z.of_nat (length (filter (λ h, (h - r) mod 24 < k) (seqZ 0 24))) = k)
      (seqZ 0 25)) (seqZ 0 24)) as Hall.
  { apply (bool_decide_eq_true_1 _). vm_compute. reflexivity. }
  rewrite Forall_forall in Hall. specialize (Hall (s mod 24) ltac:(apply elem_of_seqZ; lia)).
  rewrite Forall_forall in Hall. apply Hall, elem_of_seqZ. lia.
Qed.

Lemma populated_count pph s series :
  1 <= pph → 0 < flen series →
  Z.of_nat (length (filter (λ b : list float64, length b ≠ 0%nat)
                      (bucket pph s series <$> seqZ 0 24))) =
  Z.min 24 (hours_spanned pph (flen series)).
Proof.
  intros Hp Hn.
  assert (0 <= hours_spanned pph (flen series)) as Hm.
  { unfold hours_spanned. pose proof (Z.div_pos (flen series - 1) pph). lia. }
  rewrite <- (count_hours s _ Hm). f_equal. apply count_fmap. intros h Hh%elem_of_seqZ.
  rewrite bucket_nonempty. apply hour_populated; lia.
Qed.

(** The validity flag of the hourly profile depends only on how long the
    history is: it is set exactly when the samples, taken as contiguous, span at least
    [minHours] hours of the day, the last one possibly with a single sample. *)
Theorem HourlyProfile_valid_iff `{GoPlatform} series r s minHours :
  0 < flen series → 0 <= s →
  (ComputeHourlyProfile series r s minHours).2 = true ↔
  minHours <= Z.min 24 (hours_spanned (points_per_hour r) (flen series)).
Proof.
  intros Hn Hs. unfold ComputeHourlyProfile. rewrite (decide_False (P := flen series = 0)) by lia.
  rewrite (decide_False (P := s < 0)) by lia. cbn zeta. cbn [snd].
  rewrite populated_count by (apply points_per_hour_pos || done).
  rewrite bool_decide_eq_true. lia.
Qed.

Lemma HourlyProfile_valid_iff_witness :
  0 < flen (replicate 133 f1) ∧
  (@ComputeHourlyProfile amd64 (replicate 133 f1) 5 7 12).2 = true.
Proof.
  split; [done|]. apply (@HourlyProfile_valid_iff amd64 (replicate 133 f1) 5 7 12);
    [vm_compute; reflexivity|lia|vm_compute; discriminate].
Defined.

Lemma profile_shape `{GoPlatform} series r s minHours :
  0 <= s →
  let profile := (ComputeHourlyProfile series r s minHours).1 in
  length profile = 24%nat ∧ Forall in_i32 profile ∧
  (∀ h, 0 <= h < 24 → profile !! Z.to_nat h =
     Some (let b := bucket (points_per_hour r) s series h in
           if decide (length b = 0%nat) then 0 else f64_to_i32 (math_Round (median b)))).
Proof.
  intros Hs. unfold ComputeHourlyProfile. rewrite (decide_False (P := s < 0)) by lia.
  assert (in_i32 0) by int_lia.
  case_decide as Hn; cbn [fst].
  - unfold flen in Hn. assert (series = []) as -> by (destruct series; [done|simpl in Hn; lia]).
    split_and!; [done|by apply Forall_replicate|]. intros h Hh.
    by apply lookup_replicate_2; lia.
  - split_and!.
    + by rewrite !length_fmap, length_seqZ.
    + apply Forall_fmap, Forall_true. intros b. simpl. case_decide; auto with goint.
    + intros h Hh. rewrite !list_lookup_fmap, lookup_seqZ_lt by lia. simpl.
      by replace (0 + Z.of_nat (Z.to_nat h)) with h by lia.
Qed.

(** Whatever the input, the profile has 24 [int32] entries, and the entry of an
    hour is the rounded median of exactly the samples that fall into it, or 0. *)
Theorem HourlyProfile_shape `{GoPlatform} series r s minHours :
  0 <= s →
  let profile := (ComputeHourlyProfile series r s minHours).1 in
  length profile = 24%nat ∧ Forall in_i32 profile ∧
  (∀ h, 0 <= h < 24 → profile !! Z.to_nat h =
     Some (let b := bucket (points_per_hour r) s series h in
           if decide (length b = 0%nat) then 0 else f64_to_i32 (math_Round (median b)))).
Proof. intros; by apply profile_shape. Qed.

Lemma HourlyProfile_shape_witness :
  let profile := (@ComputeHourlyProfile amd64 (f64_of_Z <$> [3; 9; 4]) 60 23 1).1 in
  length profile = 24%nat ∧ profile !! 23%nat = Some 3 ∧ profile !! 0%nat = Some 9.
Proof.
  destruct (@HourlyProfile_shape amd64 (f64_of_Z <$> [3; 9; 4]) 60 23 1 ltac:(lia)) as (H1 & _ & H3).
  split; [exact H1|]. split.
  - etransitivity; [exact (H3 23 ltac:(lia))|vm_compute; reflexivity].
  - etransitivity; [exact (H3 0 ltac:(lia))|vm_compute; reflexivity].
Defined.

(** The UTC hour of sample [i] of a query that starts at [start] (any minute). *)
Definition sample_hour (start : Time) (resolutionMin i : Z) : Z :=
  time_HourUTC (time_Add start (i * (resolutionMin * Minute))).

(** The profile buckets by sample count from the start hour, which agrees with
    the samples' own UTC hours exactly when the query starts within the first sampling
    step of an hour; from any later minute some sample of each hour is misfiled. *)
Theorem bucket_hour_is_utc_hour start r :
  1 <= r <= 60 → (60 mod r = 0) → 0 <= start →
  (∀ i, 0 <= i → bucket_hour (points_per_hour r) (time_HourUTC start) i = sample_hour start r i)
  ↔ start mod Hour < r * Minute.
Proof.
  intros Hr Hdiv Hs.
  assert (points_per_hour r = 60 / r) as ->.
  { unfold points_per_hour. rewrite (decide_False (P := r < 1)), Z.quot_div_nonneg by lia.
    rewrite decide_False; [done|]. pose proof (Z.div_le_lower_bound 60 r 1). lia. }
  assert (60 / r * r = 60) as Hrp.
  { pose proof (Z.div_mod 60 r ltac:(lia)). lia. }
  set (p := 60 / r) in *. assert (1 <= p) by nia.
  unfold sample_hour, bucket_hour, time_Add, time_HourUTC. setoid_rewrite Zplus_mod_idemp_l.
  assert (start = Hour * (start / Hour) + start mod Hour) as Hst by (apply Z.div_mod; done).
  assert (0 <= start mod Hour < Hour) as Hm by (by apply Z.mod_pos_bound).
  generalize dependent (start mod Hour). generalize dependent (start / Hour).
  unfold Hour, Minute in *. intros h m -> Hm. clear Hs. split.
  - intros Hall. specialize (Hall (p - 1) ltac:(lia)).
    rewrite Z.div_small, Z.add_0_r in Hall by lia.
    destruct (Z_lt_ge_dec m (r * 60000000000)) as [|Hge]; [done|exfalso].
    replace (3600000000000 * h + m + (p - 1) * (r * 60000000000))
      with ((h + 1) * 3600000000000 + (m - r * 60000000000)) in Hall by nia.
    rewrite Z.div_add_l, (Z.div_small (m - _)), Z.add_0_r in Hall by lia.
    rewrite (Zplus_mod h 1) in Hall. pose proof (Z.mod_pos_bound h 24 ltac:(done)).
    destruct (decide (h mod 24 = 23)) as [E|]; [by rewrite E in Hall|].
    rewrite (Z.mod_small (h mod 24 + _)) in Hall by (change (1 mod 24) with 1; lia).
    change (1 mod 24) with 1 in Hall. lia.
  - intros Hlt i Hi. f_equal.
    pose proof (Z.div_mod i p ltac:(lia)). pose proof (Z.mod_pos_bound i p ltac:(lia)).
    set (q := i / p) in *. set (t := i mod p) in *.
    replace (3600000000000 * h + m + i * (r * 60000000000))
      with ((h + q) * 3600000000000 + (m + t * r * 60000000000)) by nia.
    rewrite Z.div_add_l, Z.div_small; [lia| |lia]. nia.
Qed.

Lemma bucket_hour_is_utc_hour_witness :
  ¬ (∀ i, 0 <= i → bucket_hour (points_per_hour 5) (time_HourUTC (55 * Minute)) i =
                   sample_hour (55 * Minute) 5 i).
Proof.
  intros H. apply (bucket_hour_is_utc_hour (55 * Minute) 5) in H;
    [by vm_compute in H|lia|done|unfold Minute; lia].
Defined.
