(* ===== verification/Trend.v ===== *)
(** * The trend of a traffic history is a number

    The context block of a classification carries the least-squares slope as a JSON
    number. It is one whenever the samples are numbers of a physical size: no sum of
    [trendSlope] overflows, and its denominator is not small. *)
From S2P Require Import Prelude Float64 FloatOrder FloatRound FloatBound State Features.
From Stdlib Require Import SpecFloat QArith Lqa.
#[local] Open Scope Z_scope.

(** Fewer samples than [2^32], each finite and of at most [2^900]. *)
Definition measurable (series : list float64) : Prop :=
  flen series <= 2 ^ 32 ∧ Forall (mag 900) series.

Lemma fold_left_pair {A B T} (f : A → T → A) (g : B → T → B) l a b :
  fold_left (λ '(a, b) t, (f a t, g b t)) l (a, b) = (fold_left f l a, fold_left g l b).
Proof. revert a b. by induction l as [|t l IH]; intros a b; simpl. Qed.

Lemma length_indexed s : length (indexed s) = length s.
Proof. apply length_imap. Qed.

Lemma indexed_lookup s p :
  p ∈ indexed s → ∃ i, 0 <= i < flen s ∧ p.1 = f64_of_Z i ∧ p.2 ∈ s.
Proof.
  unfold indexed. intros (i & v & -> & Hv)%elem_of_lookup_imap. exists (Z.of_nat i). unfold flen.
  pose proof (lookup_lt_Some _ _ _ Hv). split; [lia|]. split; [done|]. by apply list_elem_of_lookup_2 in Hv.
Qed.

(** A quotient by an integer of at least one is no larger than the dividend. *)
Lemma div_by_count B x z :
  within B x → 1 <= z → representable B → (B < pow2 1024)%Q → within B (x / f64_of_Z z)%f64.
Proof.
  intros Hx Hz HB Hmax. pose proof (within_0_le _ _ Hx) as HB0.
  destruct (binary_normalize_rounds z 0 false) as [[-> _]|[_ Hr]]; [lia|]. fold (f64_of_Z z) in Hr.
  destruct (is_finite (f64_of_Z z)) eqn:Hf.
  - apply (fdiv_within B B 1); [done|split; [done|by eapply rounds_valid]|done| |lra|done|done].
    eapply (rounds_ge _ _ _ _ Hr (representable_Z 1 ltac:(lia))); [|done].
    rewrite pow2_0, Qmult_1_r. rewrite <- Zle_Qle. lia.
  - pose proof (rounds_not_nan _ _ _ Hr) as Hn. destruct Hx as [[Hfx _] _].
    destruct (f64_of_Z z) as [s|s| |s m e]; try done.
    destruct x as [s'|s'| |s' m' e']; try done; by apply zero_within.
Qed.

Section trend.
Context (series : list float64).
Hypothesis Hs : measurable series.
Hypothesis Hn : 2 <= flen series.

Lemma mean_mag : mag 900 (mean series).
Proof.
  destruct Hs as [Hlen Hall]. unfold mean.
  assert (within (inject_Z (flen series) * pow2 900) (fold_left fadd series f0)) as Hsum.
  { pose proof (fold_fadd_within id 900 series f0 0 Hall) as H. simpl in H. apply H; unfold flen in *; [|lia..].
    apply zero_within. change (inject_Z 0) with 0%Q. rewrite Qmult_0_l. apply Qle_refl. }
  destruct (f64_of_Z_exact (flen series) ltac:(lia)) as [Hf Hv].
  apply (fdiv_within (inject_Z (flen series) * pow2 900) (pow2 900) (inject_Z (flen series)));
    [done|apply f64_of_Z_finite_valid; lia| | | |apply representable_pow2; lia|apply pow2_lt; lia].
  - change 0%Q with (inject_Z 0). rewrite <- Zlt_Qlt. lia.
  - rewrite <- Hv. apply fval_le_mag.
  - rewrite Qmult_comm. apply Qle_refl.
Qed.

Definition middle : float64 := (f64_of_Z (flen series - 1) / f2)%f64.

Lemma middle_mag : mag 32 middle ∧ ((1 # 2) <= fmag middle)%Q.
Proof.
  destruct Hs as [Hlen _]. assert (mag 32 middle) as Hm.
  { apply (fdiv_mag 32 1); [apply f64_of_Z_mag; lia|by apply mag_b_ok|by vm_compute|lia]. }
  split; [done|]. apply fdiv_ge; [apply f64_of_Z_finite_valid; lia|by split|done|by vm_compute| | |apply Hm].
  - destruct (f64_of_Z_exact (flen series - 1) ltac:(lia)) as [Hf Hv].
    eapply Qle_trans; [|apply fval_le_mag]. rewrite Hv.
    apply (Qle_trans _ (inject_Z 1)); [by vm_compute|]. rewrite <- Zle_Qle. lia.
  - exists 1, (-1). by split_and!.
Qed.

Definition offset (i : float64) : float64 := (i - middle)%f64.

Lemma offset_mag p : p ∈ indexed series → mag 33 (offset p.1).
Proof.
  intros (i & Hi & -> & _)%indexed_lookup. destruct Hs as [Hlen _].
  apply (fsub_mag 32 32); [apply f64_of_Z_mag; lia|apply middle_mag|lia].
Qed.

Lemma square_sign x : finite_valid x → signbit (x * x)%f64 = false.
Proof.
  intros [Hf Hv]. destruct x as [[]|s| |s m e]; try done.
  erewrite rounds_signbit; [|by apply fmul_rounds]. by destruct s.
Qed.

(** The numerator: one product for each sample. *)
Definition term (p : float64 * float64) : float64 := (offset p.1 * (p.2 - mean series))%f64.
Definition square (p : float64 * float64) : float64 := (offset p.1 * offset p.1)%f64.

Lemma term_mag p : p ∈ indexed series → mag 934 (term p).
Proof.
  intros Hp. destruct (indexed_lookup _ _ Hp) as (_ & _ & _ & Hin). destruct Hs as [_ Hall].
  rewrite Forall_forall in Hall. apply (fmul_mag 33 901); [by apply offset_mag| |lia].
  apply (fsub_mag 900 900); [by apply Hall|apply mean_mag|lia].
Qed.

Lemma square_mag p : p ∈ indexed series → mag 66 (square p).
Proof. intros Hp. apply (fmul_mag 33 33); [by apply offset_mag..|lia]. Qed.

Definition numerator : float64 := fold_left (λ a p, a + term p)%f64 (indexed series) f0.
Definition denominator : float64 := fold_left (λ a p, a + square p)%f64 (indexed series) f0.

Lemma trendSlope_fraction :
  trendSlope series = if (denominator =? f0)%f64 then f0 else (numerator / denominator)%f64.
Proof.
  unfold trendSlope. rewrite decide_False by lia. cbn zeta. fold middle.
  assert (fold_left (λ '(num, den) '(i, v),
      (num + (i - middle) * (v - mean series), den + (i - middle) * (i - middle))%f64) (indexed series) (f0, f0) =
    (numerator, denominator)) as ->; [|done].
  unfold numerator, denominator. rewrite <- fold_left_pair. generalize (f0, f0).
  induction (indexed series) as [|[i v] l IH]; intros [a b]; [done|apply IH].
Qed.

Lemma sum_within g k :
  (∀ p, p ∈ indexed series → mag k (g p)) → 0 <= k < 939 →
  mag (32 + k) (fold_left (λ a p, a + g p)%f64 (indexed series) f0).
Proof.
  intros Hg Hk. destruct Hs as [Hlen _]. unfold flen in Hlen.
  pose proof (fold_fadd_within g k (indexed series) f0 0 ltac:(by apply Forall_forall)) as H.
  rewrite length_indexed in H. destruct H as [Hf Hm]; [|lia..|].
  - apply zero_within. change (inject_Z 0) with 0%Q. rewrite Qmult_0_l. apply Qle_refl.
  - split; [exact Hf|]. eapply Qle_trans; [exact Hm|]. apply multiple_le; lia.
Qed.

(** A sum of squares does not get smaller on the way. *)
Lemma squares_grow l acc c :
  (∀ p, p ∈ l → p ∈ indexed series) → within (inject_Z c * pow2 66) acc → signbit acc = false →
  0 <= c → c + Z.of_nat (length l) <= 2 ^ 53 →
  (fmag acc <= fmag (fold_left (λ a p, a + square p)%f64 l acc))%Q.
Proof.
  revert acc c. induction l as [|p l IH]; intros acc c Hl Hacc Hsg Hc Hlen; simpl; [apply Qle_refl|].
  simpl length in Hlen. pose proof (square_mag p (Hl p ltac:(left))) as Hsq.
  assert (within (inject_Z (c + 1) * pow2 66) (acc + square p)%f64) as Hnext.
  { apply (fadd_within (inject_Z c * pow2 66) (pow2 66)); [done|done| |apply representable_multiple; lia|].
    - rewrite inject_Z_plus. change (inject_Z 1) with 1%Q. lra.
    - eapply Qle_lt_trans; [apply (multiple_le _ _ 53); lia|apply pow2_lt; lia]. }
  destruct (fadd_grows acc (square p)) as [Hsg' Hle]; [apply Hacc|apply Hsq|done| |apply Hnext|].
  { apply square_sign. apply offset_mag, Hl. by left. }
  eapply Qle_trans; [exact Hle|]. apply (IH _ (c + 1)); [|done|done|lia|lia]. intros q Hq. apply Hl. by right.
Qed.

(** The first sample alone makes the denominator a quarter. *)
Lemma first_offset p : head (indexed series) = Some p → ((1 # 2) <= fmag (offset p.1))%Q.
Proof.
  intros Hp. rewrite head_lookup in Hp. unfold indexed in Hp. rewrite list_lookup_imap in Hp.
  destruct (series !! 0%nat); simplify_eq/=. destruct middle_mag as [[[Hf _] _] Hm].
  unfold offset. by destruct middle as [[]|?| |???].
Qed.

Lemma denominator_ge : ((1 # 4) <= fmag denominator)%Q.
Proof.
  destruct Hs as [Hlen _]. unfold denominator. pose proof (length_indexed series) as Hli. unfold flen in *.
  destruct (indexed series) as [|p l] eqn:E; [simpl in Hli; lia|]. simpl length in Hli.
  assert (p ∈ indexed series) as Hp by (rewrite E; left).
  pose proof (first_offset p ltac:(by rewrite E)) as Hoff. pose proof (square_mag p Hp) as Hsq.
  assert (finite_valid (offset p.1)) as Hfv by (by apply offset_mag).
  assert (((1 # 2) * (1 # 2) <= fmag (square p))%Q) as Hquarter.
  { apply fmul_ge; [done|done|done|done|done|done| |apply Hsq]. exists 1, (-2). split_and!; [lia..|reflexivity]. }
  apply (Qle_trans _ (fmag (square p))); [exact Hquarter|]. cbn [fold_left].
  assert ((f0 + square p)%f64 = square p) as ->.
  { destruct Hsq as [[Hf _] _]. destruct (square p) as [[]|[]| |s m e] eqn:Es; simpl in Hquarter; try done; lra. }
  apply (squares_grow l (square p) 1); [|split; [apply Hsq|]|by apply square_sign|lia|lia].
  - intros q Hq. rewrite E. by right.
  - change (inject_Z 1) with 1%Q. rewrite Qmult_1_l. apply Hsq.
Qed.

Lemma trendSlope_mag : mag 968 (trendSlope series).
Proof.
  rewrite trendSlope_fraction. destruct (denominator =? f0)%f64; [apply zero_mag|].
  pose proof (sum_within term 934 term_mag ltac:(lia)) as Hnum. fold numerator in Hnum.
  pose proof (sum_within square 66 square_mag ltac:(lia)) as Hden. fold denominator in Hden.
  apply (fdiv_within (pow2 966) (pow2 968) (1 # 4));
    [exact Hnum|apply Hden|done|apply denominator_ge| |apply representable_pow2; lia|apply pow2_lt; lia].
  replace 968 with (966 + 2) by lia. rewrite pow2_plus. change (pow2 2) with 4%Q. lra.
Qed.
End trend.

(** The slope per minute, for any resolution. *)
Theorem TrendSlopeRpsPerMin_finite series resolution :
  measurable series → is_finite (TrendSlopeRpsPerMin series resolution) = true.
Proof.
  intros Hs. assert (mag 968 (trendSlope series)) as Hm.
  { destruct (decide (flen series < 2)) as [Hn|Hn]; [|apply trendSlope_mag; [done|lia]].
    unfold trendSlope. rewrite decide_True by done. apply zero_mag. }
  unfold TrendSlopeRpsPerMin. case_decide; [by eapply mag_finite|].
  eapply (div_by_count (pow2 968)); [done|lia|apply representable_pow2; lia|apply pow2_lt; lia].
Qed.

(** One sample that is not a number makes the slope none. *)
Example NaN_sample_NaN_slope :
  TrendSlopeRpsPerMin (S754_nan :: replicate 95 (f64_of_Z 100)) 5 = S754_nan.
Proof. vm_compute. reflexivity. Qed.
