(* ===== verification/Classifier.v ===== *)
(** * internal/classifier: classify.go, confidence.go, params.go, pipeline.go

    Pattern rules in priority order, confidence label, parameter formulae and the
    two pipelines (v1 without, v2 with the context block). *)
From S2P Require Import Prelude Float64 FloatOrder FloatRound FloatBound Api State Features Trend Webhook.
From Stdlib Require Import SpecFloat.

Definition PatternFlat : string := "flat".
Definition PatternPeriodic : string := "periodic".
Definition PatternSpiky : string := "spiky".
Definition PatternGradualRamp : string := "gradual_ramp".
Definition PatternDefault : string := "default".

Definition cvFlatBelow : float64 := f64_frac 1 10.
Definition hourlyAutocorrAbove : float64 := f64_frac 7 10.
Definition cvSpikyAbove : float64 := f64_frac 1 2.
Definition peakToTroughSpikyAbove : float64 := f64_of_Z 5.
Definition GradualRampDailyDriftFrac : float64 := f64_frac 1 5.

Definition ClassifyWithMean (f : Features) (seriesMean : float64) : string :=
  let denom := math_Max seriesMean f1 in
  if (ft_CV f <? cvFlatBelow)%f64 then PatternFlat
  else if (ft_HourlyAutocorr f >? hourlyAutocorrAbove)%f64 then PatternPeriodic
  else if (ft_CV f >? cvSpikyAbove)%f64 && (ft_PeakToTrough f >? peakToTroughSpikyAbove)%f64
  then PatternSpiky
  else if (fabs (ft_TrendSlope f) * f64_of_Z 1440 / denom >? GradualRampDailyDriftFrac)%f64
  then PatternGradualRamp
  else PatternDefault.

Definition Classify (f : Features) : string := ClassifyWithMean f f1.

Definition ConfidenceHigh : string := "high".
Definition ConfidenceMedium : string := "medium".

Definition Confidence (historyPoints highThreshold minThreshold : Z) : string :=
  if decide (historyPoints >= highThreshold) then ConfidenceHigh
  else if decide (historyPoints >= minThreshold) then ConfidenceMedium
  else EmptyString.

Definition BaseScaleUpCooldown : float64 := f64_of_Z 120.
Definition KCVUp : float64 := f2.
Definition ScaleUpCooldownHardFloor : Z := 30.
Definition ScaleUpCooldownHardCeiling : Z := 180.
Definition BaseScaleDownCooldown : float64 := f64_of_Z 180.
Definition KCVDown : float64 := f64_frac 3 2.
Definition KPeriodicDown : float64 := f64_frac 1 2.
Definition ScaleDownCooldownHardFloor : Z := 60.
Definition ScaleDownCooldownHardCeiling : Z := 600.

Definition ForecasterLinearExtrap : string := "linear_extrap".
Definition ForecasterProphet : string := "prophet".
Definition ForecasterGBDTQuantile : string := "gbdt_quantile".

Record ClassifiedOutput := mkClassifiedOutput {
  out_ScaleUpCooldown : Z;
  out_ScaleDownCooldown : Z;
  out_MaxStep : Z;
  out_PreferredForecaster : string;
}.

Definition forecasterForPattern (pattern : string) : string :=
  if decide (pattern = PatternPeriodic) then ForecasterProphet
  else if decide (pattern = PatternSpiky) then ForecasterGBDTQuantile
  else ForecasterLinearExtrap.

Definition clampInt32 (v minVal maxVal : Z) : Z :=
  if decide (v < minVal) then minVal
  else if decide (v > maxVal) then maxVal else v.

Definition ComputeParams `{GoPlatform} (f : Features) (pattern : string)
    (minReplicas maxReplicas : Z) : ClassifiedOutput :=
  let rawUp := (BaseScaleUpCooldown / (f1 + KCVUp * ft_CV f))%f64 in
  let scaleUp := clampInt32 (f64_to_i32 (math_Round rawUp))
                   ScaleUpCooldownHardFloor ScaleUpCooldownHardCeiling in
  let hourlyFactor := math_Max f0 (ft_HourlyAutocorr f) in
  let rawDown := (BaseScaleDownCooldown * (f1 + KCVDown * ft_CV f) /
                  (f1 + KPeriodicDown * hourlyFactor))%f64 in
  let scaleDown := clampInt32 (f64_to_i32 (math_Round rawDown))
                     ScaleDownCooldownHardFloor ScaleDownCooldownHardCeiling in
  let maxStep := if (ft_PeakToTrough f <=? f1)%f64 then 1
                 else f64_to_i32 (math_Ceil (math_Log2 (ft_PeakToTrough f))) in
  let replicaRange := maxReplicas -₃₂ minReplicas in
  let replicaRange := if decide (replicaRange < 1) then 1 else replicaRange in
  let maxStep := clampInt32 maxStep 1 replicaRange in
  {| out_ScaleUpCooldown := scaleUp; out_ScaleDownCooldown := scaleDown;
     out_MaxStep := maxStep; out_PreferredForecaster := forecasterForPattern pattern |}.

(** ** The pipelines *)
Inductive PipelineError := ErrInsufficientPoints.

Record PipelineResult := mkPipelineResult {
  pr_Pattern : string;
  pr_Confidence : string;
  pr_Params : ClassifiedOutput;
  pr_HistoryPoints : Z;
  pr_Features : Features;
}.

Definition RunPipeline `{GoPlatform} (series : list float64)
    (highConfThreshold minThreshold minReplicas maxReplicas : Z) :
    result PipelineError PipelineResult :=
  if decide (flen series < minThreshold) then Err ErrInsufficientPoints
  else
    let f := ExtractFeatures series in
    let pattern := Classify f in
    let conf := Confidence (flen series) highConfThreshold minThreshold in
    let params := ComputeParams f pattern minReplicas maxReplicas in
    Ok (mkPipelineResult pattern conf params (flen series) f).

Record PipelineConfig := mkPipelineConfig {
  pcfg_ResolutionMin : Z;
  pcfg_HourlyProfileMinHours : Z;
  pcfg_CVGuardMeanRPS : float64;
  pcfg_StartHourUTC : Z;
}.

(** [ContextOutput] has the fields of the API's [ContextFields]. *)
Abbreviation ContextOutput := ContextFields (only parsing).

Record PipelineResultV2 := mkPipelineResultV2 {
  v2_PipelineResult : PipelineResult;
  v2_Context : option ContextOutput;
}.

Definition RunPipelineV2 `{GoPlatform} (series : list float64)
    (highConfThreshold minThreshold minReplicas maxReplicas : Z) (cfg : PipelineConfig) :
    result PipelineError PipelineResultV2 :=
  if decide (flen series < minThreshold) then Err ErrInsufficientPoints
  else
    let resolution := if decide (pcfg_ResolutionMin cfg < 1) then 1
                      else pcfg_ResolutionMin cfg in
    let guard := if (pcfg_CVGuardMeanRPS cfg <=? f0)%f64 then CVGuardMeanRPS
                 else pcfg_CVGuardMeanRPS cfg in
    let m := mean series in
    let sd := stddev series m in
    let cv := if (m >=? guard)%f64 then (sd / m)%f64 else f0 in
    let denom := math_Max m guard in
    let p99 := percentile series (f64_frac 99 100) in
    let peakToTrough := (p99 / denom)%f64 in
    let slopeRpsPerMin := TrendSlopeRpsPerMin series resolution in
    let lag := HourlyAutocorrLag resolution in
    let rawSlope := trendSlope series in
    let hourlyCorr := hourlyAutocorr (detrend series rawSlope) lag MinTodOverlap in
    let f := mkFeatures cv peakToTrough hourlyCorr slopeRpsPerMin in
    let pattern := ClassifyWithMean f m in
    let conf := Confidence (flen series) highConfThreshold minThreshold in
    let params := ComputeParams f pattern minReplicas maxReplicas in
    let '(profile, valid) :=
      ComputeHourlyProfile series resolution (pcfg_StartHourUTC cfg)
        (pcfg_HourlyProfileMinHours cfg) in
    let ctx := mkContextFields (ComputeBaselineRPS series) (ComputePeakP95RPS series)
                 slopeRpsPerMin profile valid in
    Ok (mkPipelineResultV2 (mkPipelineResult pattern conf params (flen series) f) (Some ctx)).

(** ** Pattern rules *)

(** The rules of the design as a table, highest priority first. *)
Definition pattern_rules (f : Features) (m : float64) : list (bool * string) :=
  [((ft_CV f <? cvFlatBelow)%f64, PatternFlat);
   ((ft_HourlyAutocorr f >? hourlyAutocorrAbove)%f64, PatternPeriodic);
   ((ft_CV f >? cvSpikyAbove)%f64 && (ft_PeakToTrough f >? peakToTroughSpikyAbove)%f64,
    PatternSpiky);
   ((fabs (ft_TrendSlope f) * f64_of_Z 1440 / math_Max m f1 >? GradualRampDailyDriftFrac)%f64,
    PatternGradualRamp)].

(** The five labels the CRD's enum accepts. *)
Definition crd_patterns : list string :=
  [PatternFlat; PatternPeriodic; PatternSpiky; PatternGradualRamp; PatternDefault].

Lemma ClassifyWithMean_crd f m : ClassifyWithMean f m ∈ crd_patterns.
Proof. unfold ClassifyWithMean, crd_patterns. repeat case_match; set_solver. Qed.

(** Classification is total and prioritised. The label is always one of the five
    of the CRD enum; a rule's label is returned exactly when its condition holds and no
    earlier rule's does, and [default] exactly when none holds. *)
Theorem ClassifyWithMean_first_match f m :
  ClassifyWithMean f m ∈ crd_patterns ∧
  (∀ i c lbl, pattern_rules f m !! i = Some (c, lbl) →
     ClassifyWithMean f m = lbl ↔
     c = true ∧ Forall (λ r, r.1 = false) (take i (pattern_rules f m))) ∧
  (ClassifyWithMean f m = PatternDefault ↔ Forall (λ r, r.1 = false) (pattern_rules f m)).
Proof.
  unfold ClassifyWithMean, pattern_rules, crd_patterns.
  generalize (ft_CV f <? cvFlatBelow)%f64 (ft_HourlyAutocorr f >? hourlyAutocorrAbove)%f64
    ((ft_CV f >? cvSpikyAbove)%f64 && (ft_PeakToTrough f >? peakToTroughSpikyAbove)%f64)
    (fabs (ft_TrendSlope f) * f64_of_Z 1440 / math_Max m f1 >? GradualRampDailyDriftFrac)%f64.
  unfold PatternFlat, PatternPeriodic, PatternSpiky, PatternGradualRamp, PatternDefault.
  intros c1 c2 c3 c4. rewrite !Forall_cons, Forall_nil. split_and!.
  - destruct c1, c2, c3, c4; set_solver.
  - intros i c lbl Hi. assert (i < 4)%nat as Hlt by (by apply lookup_lt_Some in Hi).
    destruct c1, c2, c3, c4, i as [|[|[|[|i]]]]; simplify_eq/=; try lia;
      rewrite ?Forall_cons, ?Forall_nil; naive_solver.
  - destruct c1, c2, c3, c4; naive_solver.
Qed.

(** The v1 entry point applies the drift rule as if every workload served one
    request per second. For the same features, a drift of 1.44 requests a day on a
    workload of 1000 requests per second is a gradual ramp to [Classify] and no
    pattern to [ClassifyWithMean]. *)
Theorem Classify_ignores_mean :
  let f := mkFeatures (f64_frac 3 10) f2 f0 (f64_frac 1 1000) in
  Classify f = PatternGradualRamp ∧ ClassifyWithMean f (f64_of_Z 1000) = PatternDefault.
Proof. split; vm_compute; reflexivity. Qed.

(** ** Parameters and the pipelines *)

Lemma clampInt32_range v lo hi : lo <= hi → lo <= clampInt32 v lo hi <= hi.
Proof. unfold clampInt32. repeat case_decide; lia. Qed.

Lemma clampInt32_id v lo hi : lo <= v <= hi → clampInt32 v lo hi = v.
Proof. unfold clampInt32. repeat case_decide; lia. Qed.

(** The forecasters the CRD's enum accepts in [classifiedParams]. *)
Definition crd_forecasters : list string :=
  [ForecasterProphet; ForecasterLinearExtrap; ForecasterGBDTQuantile].

Lemma forecasterForPattern_crd p : forecasterForPattern p ∈ crd_forecasters.
Proof. unfold forecasterForPattern, crd_forecasters. repeat case_decide; set_solver. Qed.

(** The replica range [ComputeParams] works with. *)
Definition replica_range (mn mx : Z) : Z := Z.max 1 (mx -₃₂ mn).

Lemma replica_range_admitted mn mx :
  in_i32 mn → in_i32 mx → 1 <= mn < mx → replica_range mn mx = mx - mn.
Proof. intros. unfold replica_range. rewrite wrap32_id by int_lia. lia. Qed.

(** What the classifier may write to the status. *)
Record params_ok (mn mx : Z) (o : ClassifiedOutput) : Prop := {
  po_up : 30 <= out_ScaleUpCooldown o <= 180;
  po_down : 60 <= out_ScaleDownCooldown o <= 600;
  po_step : 1 <= out_MaxStep o <= replica_range mn mx;
  po_forecaster : out_PreferredForecaster o ∈ crd_forecasters;
}.

Lemma ComputeParams_ok `{GoPlatform} f pattern mn mx :
  let o := ComputeParams f pattern mn mx in
  params_ok mn mx o ∧
  (out_PreferredForecaster o = ForecasterGBDTQuantile ↔ pattern = PatternSpiky) ∧
  (out_PreferredForecaster o = ForecasterProphet ↔ pattern = PatternPeriodic).
Proof.
  unfold ComputeParams. cbn zeta. simpl.
  split; [|unfold forecasterForPattern; repeat case_decide; naive_solver].
  split; simpl; [by apply clampInt32_range..| |apply forecasterForPattern_crd].
  unfold replica_range. case_decide.
  - rewrite Z.max_l by lia. by apply clampInt32_range.
  - rewrite Z.max_r by lia. apply clampInt32_range. lia.
Qed.

(** The parameter formulae are safe on every input. For all features, NaN and
    infinities included, and on every platform, the cooldowns stay in [30, 180] and
    [60, 600] seconds, the step in [1, max(1, maxReplicas - minReplicas)], and the
    forecaster is the pattern's: gbdt_quantile for spiky traffic alone. *)
Theorem ComputeParams_bounds `{GoPlatform} f pattern mn mx :
  let o := ComputeParams f pattern mn mx in
  params_ok mn mx o ∧
  (out_PreferredForecaster o = ForecasterGBDTQuantile ↔ pattern = PatternSpiky) ∧
  (out_PreferredForecaster o = ForecasterProphet ↔ pattern = PatternPeriodic).
Proof. intros; by apply ComputeParams_ok. Qed.

Lemma Confidence_labels n high min :
  min <= n → Confidence n high min ∈ [ConfidenceHigh; ConfidenceMedium].
Proof. intros. unfold Confidence. repeat case_decide; (lia || set_solver). Qed.

(** What both pipelines guarantee about a result. *)
Record result_ok (n high mn mx : Z) (r : PipelineResult) : Prop := {
  ro_pattern : pr_Pattern r ∈ crd_patterns;
  ro_confidence : pr_Confidence r = if decide (high <= n) then ConfidenceHigh
                                    else ConfidenceMedium;
  ro_points : pr_HistoryPoints r = n;
  ro_params : params_ok mn mx (pr_Params r);
  ro_forecaster : out_PreferredForecaster (pr_Params r) = forecasterForPattern (pr_Pattern r);
}.

Lemma pipeline_result_ok `{GoPlatform} n high min mn mx f m :
  min <= n →
  result_ok n high mn mx
    (mkPipelineResult (ClassifyWithMean f m) (Confidence n high min)
       (ComputeParams f (ClassifyWithMean f m) mn mx) n f).
Proof.
  intros Hn. split; simpl; [apply ClassifyWithMean_crd| |done| |done].
  - unfold Confidence. repeat case_decide; (done || lia).
  - apply ComputeParams_ok.
Qed.

(** A context block the schema of the CRD accepts: int32 numbers and a full profile ... *)
Record context_i32 (ctx : ContextFields) : Prop := {
  ci_profile : length (ctx_HourlyProfile ctx) = 24%nat;
  ci_entries : Forall in_i32 (ctx_HourlyProfile ctx);
  ci_baseline : in_i32 (ctx_BaselineRPS ctx);
  ci_peak : in_i32 (ctx_PeakP95RPS ctx);
}.

(** ... and a slope that is a number. *)
Definition context_admissible (ctx : ContextFields) : Prop :=
  context_i32 ctx ∧ is_finite (ctx_Trend24hSlope ctx) = true.

(** Every outcome of the v2 pipeline, with the context block it computes. *)
Lemma RunPipelineV2_result `{GoPlatform} series high min mn mx cfg :
  0 <= pcfg_StartHourUTC cfg →
  match RunPipelineV2 series high min mn mx cfg with
  | Err ErrInsufficientPoints => flen series < min
  | Ok r =>
      min <= flen series ∧ result_ok (flen series) high mn mx (v2_PipelineResult r) ∧
      ∃ ctx, v2_Context r = Some ctx ∧ context_i32 ctx ∧
        (measurable series → context_admissible ctx) ∧
        ctx_Trend24hSlope ctx = ft_TrendSlope (pr_Features (v2_PipelineResult r))
  end.
Proof.
  intros Hs. unfold RunPipelineV2. case_decide as Hn; [done|]. cbn zeta.
  match goal with |- context [ComputeHourlyProfile series ?r ?h ?k] =>
    pose proof (profile_shape series r h k Hs) as Hprof;
    destruct (ComputeHourlyProfile series r h k) as [profile valid] end.
  destruct Hprof as (Hlen & Hi32 & _). split; [lia|]. simpl.
  split; [apply pipeline_result_ok; lia|]. eexists. split; [done|]. simpl.
  match goal with |- ?C ∧ _ => assert C by (split; [done|done|apply f64_to_i32_range..]) end.
  split; [done|]. split; [|done]. intros Hm. split; [done|]. by apply TrendSlopeRpsPerMin_finite.
Qed.

(** Claim C30: the v2 pipeline fails exactly on a series shorter than the threshold;
    otherwise everything it produces is admissible for the CRD: labels from the enums,
    cooldowns and step within their bounds, the confidence the point count earns, and a
    complete context block of int32 numbers whose profile has 24 entries. Its slope, which
    the CRD requires to be a number, is one when the samples are measurable: at most
    [2^32] of them, each finite and of at most [2^900]. On other samples it may not be
    ([NaN_sample_is_classified]). *)
Theorem RunPipelineV2_spec `{GoPlatform} series high min mn mx cfg :
  0 <= pcfg_StartHourUTC cfg →
  match RunPipelineV2 series high min mn mx cfg with
  | Err ErrInsufficientPoints => flen series < min
  | Ok r =>
      min <= flen series ∧ result_ok (flen series) high mn mx (v2_PipelineResult r) ∧
      ∃ ctx, v2_Context r = Some ctx ∧
        length (ctx_HourlyProfile ctx) = 24%nat ∧ Forall in_i32 (ctx_HourlyProfile ctx) ∧
        in_i32 (ctx_BaselineRPS ctx) ∧ in_i32 (ctx_PeakP95RPS ctx) ∧
        (measurable series → is_finite (ctx_Trend24hSlope ctx) = true) ∧
        ctx_Trend24hSlope ctx = ft_TrendSlope (pr_Features (v2_PipelineResult r))
  end.
Proof.
  intros Hs. pose proof (RunPipelineV2_result series high min mn mx cfg Hs) as Hr.
  destruct (RunPipelineV2 series high min mn mx cfg) as [r|e]; [|done].
  destruct Hr as (Hn & Hok & ctx & Hctx & [] & Hm & Hsl). split_and!; [done..|]. exists ctx.
  split_and!; [done..| |done]. by intros []%Hm.
Qed.

(** A minute-cadence sawtooth with an hourly period, for the witnesses. *)
Definition sawtooth (n : Z) : list float64 :=
  (λ i, f64_of_Z (50 + 10 * (i mod 12))) <$> seqZ 0 n.

Lemma sawtooth_measurable n : 0 <= n <= 2 ^ 32 → measurable (sawtooth n).
Proof.
  intros Hn. split; [unfold flen, sawtooth; rewrite length_fmap, length_seqZ; lia|].
  apply Forall_fmap, Forall_forall. intros i _. simpl.
  apply (mag_mono 8); [|lia]. apply f64_of_Z_mag; [|lia].
  pose proof (Z.mod_pos_bound i 12). lia.
Qed.

Lemma RunPipelineV2_spec_witness :
  let cfg := mkPipelineConfig 5 12 f1 0 in
  0 <= pcfg_StartHourUTC cfg ∧
  match @RunPipelineV2 amd64 (sawtooth 96) 240 72 2 10 cfg with
  | Err _ => False
  | Ok r => pr_Pattern (v2_PipelineResult r) = PatternPeriodic ∧ 72 <= flen (sawtooth 96) ∧
      ∃ ctx, v2_Context r = Some ctx ∧ is_finite (ctx_Trend24hSlope ctx) = true
  end.
Proof.
  intros cfg. split; [unfold cfg; simpl; lia|].
  pose proof (@RunPipelineV2_spec amd64 (sawtooth 96) 240 72 2 10 cfg ltac:(simpl; lia)) as H.
  destruct (@RunPipelineV2 amd64 (sawtooth 96) 240 72 2 10 cfg) as [r|[]] eqn:E.
  - destruct H as (Hn & _ & ctx & Hctx & _ & _ & _ & _ & Hf & _).
    split; [vm_compute in E; injection E as <-; vm_compute; reflexivity|]. split; [exact Hn|].
    exists ctx. split; [exact Hctx|]. apply Hf, sawtooth_measurable. lia.
  - vm_compute in E. discriminate E.
Defined.

(** One sample that is not a number, and the pipeline succeeds with a slope that is none. *)
Lemma NaN_sample_is_classified :
  match @RunPipelineV2 amd64 (S754_nan :: replicate 95 (f64_of_Z 100)) 240 72 2 10
          (mkPipelineConfig 5 12 f1 0) with
  | Ok r => ctx_Trend24hSlope <$> v2_Context r = Some S754_nan
  | Err _ => False
  end.
Proof. vm_compute. reflexivity. Qed.

(** The v1 pipeline gives the same guarantees without the context. *)
Lemma RunPipeline_spec `{GoPlatform} series high min mn mx :
  match RunPipeline series high min mn mx with
  | Err ErrInsufficientPoints => flen series < min
  | Ok r => min <= flen series ∧ result_ok (flen series) high mn mx r
  end.
Proof.
  unfold RunPipeline. case_decide; [done|]. split; [lia|].
  apply (pipeline_result_ok _ _ _ _ _ _ f1). lia.
Qed.

(** For an admitted CR with explicit bounds the classifier's step obeys the rule
    admission imposes on an operator's step: at least one replica and at most the width
    of the replica range. *)
Theorem classifier_step_obeys_admission `{GoPlatform} s mn mx f pattern :
  spec_i32 s → ValidateSpec s = [] →
  spec_MinReplicas s = Some mn → spec_MaxReplicas s = Some mx →
  1 <= out_MaxStep (ComputeParams f pattern mn mx) <= mx - mn.
Proof.
  intros Hi Hv Emn Emx. apply ValidateSpec_nil in Hv; [|done].
  pose proof (so_min _ Hv _ Emn). pose proof (so_range _ Hv _ _ Emn Emx).
  unfold spec_i32 in Hi. rewrite Emn, Emx, !Forall_cons in Hi. destruct Hi as (Hmn & Hmx & _).
  simpl in Hmn, Hmx. rewrite <- (replica_range_admitted mn mx) by (done || lia).
  apply ComputeParams_ok.
Qed.

Lemma classifier_step_obeys_admission_witness :
  let s := spec_of 2 5 50 500 None None in
  let f := mkFeatures f1 (f64_of_Z 1000) f0 f0 in
  ValidateSpec s = [] ∧
  1 <= out_MaxStep (@ComputeParams amd64 f PatternSpiky 2 5) <= 5 - 2 ∧
  out_MaxStep (@ComputeParams amd64 f PatternSpiky 2 5) = 3.
Proof.
  intros s f. split; [reflexivity|]. split; [|vm_compute; reflexivity].
  apply (@classifier_step_obeys_admission amd64 s 2 5 f PatternSpiky);
    [repeat constructor; vm_compute; congruence|reflexivity..].
Defined.
