(* ===== verification/Channels.v ===== *)
(** * Capacity-one channels with drop-and-replace

    [dropAndPush] (internal/classifier/manager.go) and [ChannelNotifier.Notify]
    (internal/controller/interfaces.go) over Go channels of capacity one. Their bodies are
    sequences of [select] statements with a default branch, kept as data ([Code]) and run in
    two ways: as a function of the channel, for a caller that nobody interrupts, and as a
    step relation in which every [select] is one atomic step of its caller, callers
    interleave, and a receiver may take the value between any two steps. *)
From S2P Require Import Prelude.

(** A buffered channel of capacity one: what it holds. *)
Abbreviation chan A := (option A) (only parsing).

(** [select { case ch <- v: ... default: ... }] and its receiving counterpart: the
    channel afterwards, and whether the first case was taken. *)
Definition try_send {A} (ch : chan A) (v : A) : chan A * bool :=
  match ch with None => (Some v, true) | Some _ => (ch, false) end.
Definition try_recv {A} (ch : chan A) : chan A * bool :=
  match ch with None => (None, false) | Some _ => (None, true) end.

(** ** The code of the senders *)

(** The [select] statements: [case ch <- v: return], [case ch <- v:] and [case <-ch:], each
    with an empty [default]. *)
Inductive Select := SendReturn | Send | Drain.
Abbreviation Code := (list Select) (only parsing).

Definition dropAndPush_code : Code := [SendReturn; Drain; Send].
Definition Notify_code : Code := [Drain; Send].

(** One statement: the channel after it, and whether the call goes on. *)
Definition exec {A} (v : A) (st : Select) (ch : chan A) : chan A * bool :=
  match st with
  | SendReturn => let '(ch, sent) := try_send ch v in (ch, negb sent)
  | Send => let '(ch, _) := try_send ch v in (ch, true)
  | Drain => let '(ch, _) := try_recv ch in (ch, true)
  end.

(** A whole call without interruption. *)
Fixpoint call_chan {A} (v : A) (code : Code) (ch : chan A) : chan A :=
  match code with
  | [] => ch
  | st :: code => let '(ch, go_on) := exec v st ch in if go_on then call_chan v code ch else ch
  end.

Definition dropAndPush (ch : chan unit) : chan unit := call_chan () dropAndPush_code ch.
Definition Notify {A} (ch : chan A) (req : A) : chan A := call_chan req Notify_code ch.

(** Uninterrupted, both leave the new value in the channel. *)
Lemma dropAndPush_full ch : dropAndPush ch = Some ().
Proof. by destruct ch as [[]|]. Qed.

Lemma Notify_replaces {A} (ch : chan A) req : Notify ch req = Some req.
Proof. by destruct ch. Qed.

(** ** Interleavings *)
Section interleaving.
Context {A : Type}.

(** A caller: the rest of its code, and the value it sends. *)
Abbreviation caller := (Code * A)%type (only parsing).

Record Sys := mkSys {
  sys_ch : chan A;
  sys_callers : list caller;
  sys_received : list A;
}.

(** One step of a caller: its next [select], and the channel after it. *)
Definition caller_step (ch : chan A) (c : caller) : option (chan A * caller) :=
  match c.1 with
  | [] => None
  | st :: code => let '(ch, go_on) := exec c.2 st ch in Some (ch, (if go_on then code else [], c.2))
  end.

Inductive step : Sys → Sys → Prop :=
| step_caller ch cs rs i c ch' c' :
    cs !! i = Some c → caller_step ch c = Some (ch', c') →
    step (mkSys ch cs rs) (mkSys ch' (<[i := c']> cs) rs)
| step_receive v cs rs : step (mkSys (Some v) cs rs) (mkSys None cs (rs ++ [v])).

Definition all_done (s : Sys) : Prop := Forall (λ c, c.1 = []) (sys_callers s).

(** Alone, a caller's steps make up the call. *)
Lemma call_steps v code ch rs :
  rtc step (mkSys ch [(code, v)] rs) (mkSys (call_chan v code ch) [([], v)] rs).
Proof.
  revert ch. induction code as [|st code IH]; intros ch; [apply rtc_refl|]. simpl.
  destruct (exec v st ch) as [ch' go_on] eqn:E.
  eapply rtc_l; [eapply (step_caller _ _ _ 0%nat); [reflexivity|]|].
  - unfold caller_step. simpl. by rewrite E.
  - simpl. destruct go_on; [apply IH|apply rtc_refl].
Qed.

(** ** No caller blocks, no signal is lost *)

(** A caller that is not done can always move: its selects have a default branch. *)
Lemma caller_not_blocked ch (c : caller) : c.1 ≠ [] → is_Some (caller_step ch c).
Proof. unfold caller_step. destruct c as [[|st code] v]; [done|]. simpl. destruct (exec v st ch). eauto. Qed.

Lemma caller_step_shorter ch (c : caller) ch' c' :
  caller_step ch c = Some (ch', c') → (length c'.1 < length c.1)%nat ∧ c'.2 = c.2.
Proof.
  unfold caller_step. destruct c as [[|st code] v]; [done|]. simpl. destruct (exec v st ch) as [? []].
  all: intros; simplify_eq/=; (split; [lia|done]).
Qed.

Definition full (ch : chan A) : nat := match ch with Some _ => 1 | None => 0 end.

Definition statements_left (cs : list caller) : nat := sum_list (length ∘ fst <$> cs).

Lemma statements_left_insert cs i c c' :
  cs !! i = Some c → (statements_left (<[i := c']> cs) + length c.1 = statements_left cs + length c'.1)%nat.
Proof.
  unfold statements_left. revert i. induction cs as [|d cs IH]; intros [|i] Hi; simplify_eq/=; [lia|].
  specialize (IH i Hi). lia.
Qed.

(** Work left: what the callers have to do, and the value the receiver may take. *)
Definition measure (s : Sys) : nat := 2 * statements_left (sys_callers s) + full (sys_ch s).

Lemma step_measure s s' : step s s' → (measure s' < measure s)%nat.
Proof.
  intros [ch cs rs i c ch' c' Hi Hc|v cs rs]; unfold measure; simpl; [|lia].
  pose proof (statements_left_insert cs i c c' Hi). pose proof (caller_step_shorter _ _ _ _ Hc) as [? _].
  assert (full ch' <= 1)%nat by (destruct ch'; simpl; lia). lia.
Qed.

Lemma run_measure n s s' : nsteps step n s s' → (n + measure s' <= measure s)%nat.
Proof. induction 1 as [|n a b c Hab _ IH]; [lia|]. apply step_measure in Hab. lia. Qed.

(** Every run ends; a state without a next step has finished callers and an empty channel. *)
Lemma stuck_done s : (∀ s', ¬ step s s') → all_done s ∧ sys_ch s = None.
Proof.
  intros Hst. destruct s as [ch cs rs]. split.
  - apply Forall_lookup. intros i c Hi. simpl in Hi. destruct (decide (c.1 = [])) as [|Hn]; [done|].
    destruct (caller_not_blocked ch c Hn) as [[ch' c'] Hc]. destruct (Hst _ (step_caller _ _ _ _ _ _ _ Hi Hc)).
  - destruct ch as [v|]; [|done]. destruct (Hst _ (step_receive v cs rs)).
Qed.

(** Code whose last statement offers the value leaves the channel full. *)
Definition pushes (code : Code) : Prop := code = [] ∨ last code = Some Send.

Lemma exec_pushes (v : A) st code ch ch' go_on :
  pushes (st :: code) → exec v st ch = (ch', go_on) →
  pushes (if go_on then code else []) ∧ ((if go_on then code else []) = [] → ch' ≠ None).
Proof.
  intros [?|Hl] E; [done|]. destruct code as [|st' code]; simplify_eq/=.
  - destruct ch; simplify_eq/=; (split; [by left|done]).
  - split; [destruct go_on; [by right|by left]|]. intros Hd.
    destruct st, ch; simplify_eq/=; done.
Qed.

(** A signal is pending, delivered, or still being sent. *)
Definition signalled (s : Sys) : Prop :=
  Forall (λ c, pushes c.1) (sys_callers s) ∧ (¬ all_done s ∨ sys_ch s ≠ None ∨ sys_received s ≠ []).

Lemma step_signalled s s' : signalled s → step s s' → signalled s'.
Proof.
  intros [Hp Hs] Hst. destruct Hst as [ch cs rs i c ch' c' Hi Hc|v cs rs]; unfold signalled, all_done in *; simpl in *.
  - pose proof (Forall_lookup_1 _ _ _ _ Hp Hi) as Hpc. unfold caller_step in Hc.
    destruct c as [[|st code] v]; [done|]. simpl in *. destruct (exec v st ch) as [ch1 go_on] eqn:E.
    destruct (exec_pushes v st code ch ch1 go_on Hpc E) as [Hp' Hfull]. simplify_eq/=.
    split; [by apply Forall_insert|]. set (rest := if go_on then code else []) in *.
    destruct (decide (rest = [])) as [Hd|Hn]; [right; left; auto|]. left. intros Hall. apply Hn.
    eapply (Forall_lookup_1 _ _ i (rest, v) Hall), list_lookup_insert_eq. by eapply lookup_lt_Some.
  - split; [done|]. right; right. by destruct rs.
Qed.

Lemma run_signalled s s' : rtc step s s' → signalled s → signalled s'.
Proof. intros Hr Hs. exact (rtc_invariant step signalled s s' step_signalled Hs Hr). Qed.
End interleaving.
Arguments Sys : clear implicits.

(** [k] calls of [dropAndPush] that have just begun. *)
Definition signalling (k : nat) (ch : chan unit) : Sys unit :=
  mkSys ch (replicate k (dropAndPush_code, ())) [].

Lemma signalling_signalled k ch : (0 < k)%nat → signalled (signalling k ch).
Proof.
  intros Hk. split; simpl; [by apply Forall_replicate; right|]. left. unfold all_done. simpl.
  destruct k; [lia|]. by intros [Hd _]%Forall_cons.
Qed.

Lemma signalling_measure k ch : measure (signalling k ch) = (6 * k + full ch)%nat.
Proof.
  assert (statements_left (replicate k (dropAndPush_code, ())) = (3 * k)%nat) as E.
  { induction k as [|k IH]; [done|]. change (3 + statements_left (replicate k (dropAndPush_code, ())) = 3 * S k)%nat. lia. }
  unfold measure, signalling. cbn [sys_callers sys_ch]. rewrite E. lia.
Qed.

(** Claim C33: Signals are never lost, however many calls of [dropAndPush] and a receiver
    interleave, statement by statement: no execution has more than six steps per call (and
    one for what was in the channel), so that no caller blocks; at any moment at which all
    callers have returned, the channel holds a signal or the receiver has been given one
    since they began; and when nobody can move, they have returned and it has been given
    one. A call that nobody interrupts is the function [dropAndPush] of the manager. *)
Theorem signals_are_delivered n k ch (s : Sys unit) :
  (0 < k)%nat → nsteps step n (signalling k ch) s →
  (n <= 6 * k + full ch)%nat ∧
  (all_done s → sys_ch s ≠ None ∨ sys_received s ≠ []) ∧
  ((∀ s', ¬ step s s') → all_done s ∧ sys_received s ≠ []) ∧
  rtc step (signalling 1 ch) (mkSys (dropAndPush ch) [([], ())] []).
Proof.
  intros Hk Hr. pose proof (signalling_signalled k ch Hk) as Hs.
  apply (run_signalled _ s) in Hs as [_ Hs]; [|by eapply rtc_nsteps_2].
  apply run_measure in Hr. rewrite signalling_measure in Hr. split_and!; [lia|tauto| |apply call_steps].
  intros Hst. destruct (stuck_done s Hst) as [Hd Hc]. tauto.
Qed.

(** Two reclassify signals race on a full channel: both find it taken, both drain, one after
    the other, then the first sends and the second finds the channel full again. *)
Definition race : Sys unit := mkSys (Some ()) [([], ()); ([], ())] [].

Lemma signals_are_delivered_witness :
  nsteps step 6 (signalling 2 (Some ())) race ∧ (sys_ch race ≠ None ∨ sys_received race ≠ []).
Proof.
  assert (nsteps step 6 (signalling 2 (Some ())) race) as Hr.
  { do 2 (eapply nsteps_l; [eapply (step_caller _ _ _ 0%nat); reflexivity|];
          eapply nsteps_l; [eapply (step_caller _ _ _ 1%nat); reflexivity|]).
    eapply nsteps_l; [eapply (step_caller _ _ _ 0%nat); reflexivity|].
    eapply nsteps_l; [eapply (step_caller _ _ _ 1%nat); reflexivity|]. constructor. }
  split; [exact Hr|].
  destruct (signals_are_delivered 6 2 (Some ()) race ltac:(lia) Hr) as (_ & Hd & _).
  apply Hd. by repeat constructor.
Defined.

(** ** The newest explain request *)

(** With a single caller its request ends up in the channel or with the receiver. *)
Definition newest_kept {A} (v : A) (s : Sys A) : Prop :=
  ∃ code, sys_callers s = [(code, v)] ∧ code `suffix_of` Notify_code ∧
    (code = [Send] → sys_ch s = None) ∧
    (code = [] → sys_ch s = Some v ∨ v ∈ sys_received s).

Lemma step_newest_kept {A} (v : A) s s' : newest_kept v s → step s s' → newest_kept v s'.
Proof.
  intros (code & Hc & Hsuf & Hre & Hdone) Hst.
  assert (code = Notify_code ∨ code = [Send] ∨ code = []) as Hcase.
  { destruct Hsuf as [pre E]. unfold Notify_code in *. destruct pre as [|? [|? [|? pre]]]; simplify_eq/=; auto. }
  destruct Hst as [ch cs rs i c ch' c' Hi Hcs|w cs rs]; simpl in *; subst.
  - destruct i as [|i]; simplify_eq/=.
    destruct Hcase as [->|[->| ->]]; unfold caller_step in Hcs; simpl in Hcs; [..|done].
    + exists [Send]. destruct ch; simplify_eq/=; (split_and!; [done|by exists [Drain]|done|done]).
    + rewrite (Hre eq_refl) in Hcs. simplify_eq/=. exists []. split_and!; [done|by exists Notify_code|done|by left].
  - exists code. split_and!; [done|done|done|].
    intros Hd. right. destruct (Hdone Hd) as [[= ->]|]; set_solver.
Qed.

(** Claim C22: the newest explain request survives. One call of [Notify] at a time, as
    controller-runtime's single reconcile worker makes them, always returns (after two
    statements), and whatever the receiver does meanwhile, once it has returned its request
    is in the channel, where a stale one was replaced, or has been received. *)
Theorem Notify_keeps_newest {A} (v : A) n ch s' :
  nsteps step n (mkSys ch [(Notify_code, v)] []) s' →
  (n <= 4 + full ch)%nat ∧ (all_done s' → sys_ch s' = Some v ∨ v ∈ sys_received s') ∧
  ((∀ s'', ¬ step s' s'') → v ∈ sys_received s') ∧ Notify ch v = Some v.
Proof.
  intros Hr. pose proof (run_measure _ _ _ Hr) as Hm. unfold measure, statements_left in Hm. simpl in Hm.
  assert (newest_kept v s') as (code & Hc & _ & _ & Hk).
  { apply rtc_nsteps_2, (rtc_invariant step (newest_kept v) _ _ (step_newest_kept v)) in Hr; [done|].
    exists Notify_code. by split_and!; [done|exists []|..]. }
  assert (all_done s' → sys_ch s' = Some v ∨ v ∈ sys_received s') as Hd.
  { intros Hd. apply Hk. unfold all_done in Hd. rewrite Hc in Hd. by apply Forall_cons_1 in Hd as [Hd _]. }
  split_and!; [lia|done| |apply Notify_replaces].
  intros Hst. destruct (stuck_done s' Hst) as [Had Hn]. destruct (Hd Had) as [?|?]; [congruence|done].
Qed.

Lemma Notify_keeps_newest_witness :
  nsteps step 2 (mkSys (Some 1) [(Notify_code, 2)] []) (mkSys (Some 2) [([], 2)] []) ∧
  (Some 2 = Some 2 ∨ 2 ∈ ([] : list Z)).
Proof.
  assert (nsteps step 2 (mkSys (Some 1) [(Notify_code, 2)] []) (mkSys (Some 2) [([], 2)] [])) as Hr.
  { do 2 (eapply nsteps_l; [eapply (step_caller _ _ _ 0%nat); reflexivity|]). constructor. }
  split; [exact Hr|]. destruct (Notify_keeps_newest 2 2 (Some 1) _ Hr) as (_ & Hd & _). apply Hd.
  by repeat constructor.
Defined.

Lemma run_one {A} (ch : chan A) cs rs i c ch' c' s' :
  cs !! i = Some c → caller_step ch c = Some (ch', c') →
  rtc step (mkSys ch' (<[i := c']> cs) rs) s' → rtc step (mkSys ch cs rs) s'.
Proof. intros. eapply rtc_l; [by eapply step_caller|done]. Qed.

(** Two notifiers at once can lose it: when both drain before either sends, the
    one that sends last finds the channel taken and its request is dropped. *)
Theorem concurrent_Notify_drops_newest :
  rtc step (mkSys None [(Notify_code, 1); (Notify_code, 2)] [])
           (mkSys (Some 1) [([], 1); ([], 2)] []).
Proof.
  eapply (run_one _ _ _ 0%nat); [reflexivity|reflexivity|]. simpl.
  eapply (run_one _ _ _ 1%nat); [reflexivity|reflexivity|]. simpl.
  eapply (run_one _ _ _ 0%nat); [reflexivity|reflexivity|]. simpl.
  eapply (run_one _ _ _ 1%nat); [reflexivity|reflexivity|]. simpl. apply rtc_refl.
Qed.
