(* ===== verification/Adapters.v ===== *)
(** * internal/promql and internal/adapters: the clients of the outside world

    The query builder and the HTTP clients of Prometheus, the Forecast Service and
    Ollama.  The network is [HttpTransport]: for a request it yields an error, or a
    status with the decoded body ([None] when it does not decode); nothing is
    assumed of it beyond that a decoded number is a double.  Request bodies are
    JSON values; [json.Marshal] refuses NaN and infinities. *)
From S2P Require Import Prelude Float64 FloatOrder FloatRound Config Capacity.
From Stdlib Require Import SpecFloat QArith.
#[local] Open Scope Z_scope.
#[local] Set Warnings "-register-all".

(** ** internal/promql/builder.go *)
Definition InstantRPS (deploymentName : string) : string :=
  "sum(rate(http_requests_total{deployment=" +:+ dq +:+ deploymentName +:+ dq +:+ "}[2m]))".

Definition RangeRPS (deploymentName : string) : string := InstantRPS deploymentName.

(** ** HTTP and JSON *)
Inductive json :=
| JNum (f : float64)
| JInt (z : Z)
| JBool (b : bool)
| JStr (s : string)
| JArr (l : list json)
| JObj (fields : list (string * json)).

Inductive Method := GET | POST.

Record HttpRequest := mkHttpRequest {
  hr_method : Method;
  hr_url : string;
  hr_query : list (string * string);
  hr_body : option json;
}.

Inductive TransportError :=
| BuildError (msg : string)
| ConnRefused
| RequestError (msg : string).

(** A connection to a service that answers with bodies of type [R]. *)
Class HttpTransport (W R : Type) :=
  http_do : HttpRequest → ST W (result TransportError (Z * option R)).

(** The errors a client returns; [InvalidResponse] wraps [ErrInvalidResponse]. *)
Inductive ClientError :=
| MarshalFailed
| TransportFailed (e : TransportError)
| BadStatus (code : Z)
| DecodeFailed
| ReportedError (msg : string)
| ValueNotString
| TimestampNotNumber
| ValueParseError (raw : string)
| InvalidResponse (why : string)
| ErrModelNotFound
| ErrEmptyResponse.

Definition status_ok (code : Z) : bool := bool_decide (Z.quot code 100 = 2).

(** Send a request and insist on a 2xx answer that decodes. *)
Definition fetch {W R} `{HttpTransport W R} (req : HttpRequest) : ST W (result ClientError R) :=
  resp ← http_do req;
  mret match resp with
       | Err e => Err (TransportFailed e)
       | Ok (code, body) =>
           if status_ok code then
             match body with None => Err DecodeFailed | Some r => Ok r end
           else Err (BadStatus code)
       end.

(** ** internal/adapters/prometheus/client.go *)
Module Prometheus.

Record Sample := mkSample { Timestamp : Time; Value : float64 }.

(** An element of a [[2]any] pair. *)
Inductive any := ANum (f : float64) | AStr (s : string) | AOther.

(** The fields the client reads of Prometheus's instant and range answers. *)
Record instantResponse := mkInstant {
  i_Status : string;
  i_Error : string;
  i_Result : list (any * any);
}.

Record rangeResponse := mkRange {
  r_Status : string;
  r_Error : string;
  r_Result : list (list (any * any));
}.

Section client.
Context {W : Type} `{!HttpTransport W instantResponse} `{!HttpTransport W rangeResponse}.
Context `{GoStrconv} `{GoPlatform}.

Definition decode_instant (out : instantResponse) : result ClientError float64 :=
  if decide (i_Status out ≠ "success") then Err (ReportedError (i_Error out))
  else match i_Result out with
       | [] => Ok f0
       | (_, raw) :: _ =>
           match raw with
           | AStr raw => match ParseFloat raw with
                         | Some v => Ok v
                         | None => Err (ValueParseError raw)
                         end
           | _ => Err ValueNotString
           end
       end.

Definition InstantQuery (baseURL query : string) : ST W (result ClientError float64) :=
  r ← fetch (R := instantResponse)
        (mkHttpRequest GET (baseURL +:+ "/api/v1/query") [("query", query)] None);
  mret match r with Err e => Err e | Ok out => decode_instant out end.

(** One pair of the range loop. *)
Definition decode_pair (pair : any * any) : result ClientError Sample :=
  match pair.1 with
  | ANum ts =>
      match pair.2 with
      | AStr raw =>
          match ParseFloat raw with
          | Some v => Ok (mkSample (time_FromUnix (f64_to_i64 ts)) v)
          | None => Err (ValueParseError raw)
          end
      | _ => Err ValueNotString
      end
  | _ => Err TimestampNotNumber
  end.

Fixpoint decode_pairs (pairs : list (any * any)) (samples : list Sample) :
    result ClientError (list Sample) :=
  match pairs with
  | [] => Ok samples
  | p :: pairs =>
      match decode_pair p with
      | Err e => Err e
      | Ok s => decode_pairs pairs (samples ++ [s])
      end
  end.

Definition decode_range (out : rangeResponse) : result ClientError (list Sample) :=
  if decide (r_Status out ≠ "success") then Err (ReportedError (r_Error out))
  else match r_Result out with
       | [] => Ok []
       | first :: _ => decode_pairs first []
       end.

Definition RangeQuery (baseURL query : string) (start end_ : Time) (step : Duration) :
    ST W (result ClientError (list Sample)) :=
  let q := [("query", query); ("start", fmt_d (time_Unix start)); ("end", fmt_d (time_Unix end_));
            ("step", fmt_d (Z.quot step Second))] in
  r ← fetch (R := rangeResponse) (mkHttpRequest GET (baseURL +:+ "/api/v1/query_range") q None);
  mret match r with Err e => Err e | Ok out => decode_range out end.
End client.
End Prometheus.

(** ** internal/adapters/forecast *)
Module Forecast.

Record ContextPayload := mkPayload {
  BaselineRPS : Z;
  PeakP95RPS : Z;
  Trend24hSlope : float64;
  HourlyProfile : list Z;
  HourlyProfileValid : bool;
  CurrentHourUTC : Z;
  CurrentMinuteUTC : Z;
}.

Record RecommendRequest := mkRequest {
  RpsHistory : list float64;
  WorkloadID : string;
  PreferredModel : string;
  Context_ : option ContextPayload;
}.

Record RecommendResponse := mkResponse {
  PredictedRPS : float64;
  HorizonMinutes : Z;
  ModelUsed : string;
}.

(** [json.Marshal] of a number. *)
Definition marshal_float (f : float64) : option json :=
  if is_nan f || is_inf f then None else Some (JNum f).

(** An [omitempty] string field. *)
Definition omit_empty (name value : string) : list (string * json) :=
  if decide (value = EmptyString) then [] else [(name, JStr value)].

Definition marshal_context (c : ContextPayload) : option json :=
  slope ← marshal_float (Trend24hSlope c);
  Some (JObj [("baseline_rps", JInt (BaselineRPS c)); ("peak_p95_rps", JInt (PeakP95RPS c));
              ("trend_24h_slope", slope);
              ("hourly_profile", JArr (JInt <$> HourlyProfile c));
              ("hourly_profile_valid", JBool (HourlyProfileValid c));
              ("current_hour_utc", JInt (CurrentHourUTC c));
              ("current_minute_utc", JInt (CurrentMinuteUTC c))]).

Definition marshal_request (req : RecommendRequest) : option json :=
  history ← mapM marshal_float (RpsHistory req);
  context ← match Context_ req with
            | None => Some []
            | Some c => j ← marshal_context c; Some [("context", j)]
            end;
  Some (JObj ([("rps_history", JArr history)] ++ omit_empty "workload_id" (WorkloadID req) ++
              omit_empty "preferred_model" (PreferredModel req) ++ context)).

(** "auto" is normalised to the empty model before marshalling. *)
Definition normalise (req : RecommendRequest) : RecommendRequest :=
  if decide (PreferredModel req = "auto")
  then mkRequest (RpsHistory req) (WorkloadID req) EmptyString (Context_ req) else req.

(** The contract check on the decoded answer. *)
Definition check_response (out : RecommendResponse) : result ClientError RecommendResponse :=
  if is_nan (PredictedRPS out) || is_inf (PredictedRPS out) || (PredictedRPS out <? f0)%f64
  then Err (InvalidResponse "predicted_rps")
  else if decide (ModelUsed out = EmptyString) then Err (InvalidResponse "missing model_used")
  else Ok out.

Definition Recommend {W} `{!HttpTransport W RecommendResponse} (baseURL : string)
    (req : RecommendRequest) : ST W (result ClientError RecommendResponse) :=
  match marshal_request (normalise req) with
  | None => mret (Err MarshalFailed)
  | Some body =>
      r ← fetch (R := RecommendResponse)
            (mkHttpRequest POST (baseURL +:+ "/recommend") [] (Some body));
      mret match r with Err e => Err e | Ok out => check_response out end
  end.
End Forecast.

(** ** internal/adapters/ollama *)
Module Ollama.

Record ChatMessage := mkMessage { Role : string; Content : string }.

Record ChatRequest := mkChat {
  Model : string;
  Messages : list ChatMessage;
  MaxTokens : Z;
  Stream : bool;
}.

(** The contents of the choices' messages. *)
Record chatResponse := mkChatResponse { Choices : list string }.

Definition marshal_chat (req : ChatRequest) : json :=
  JObj [("model", JStr (Model req));
        ("messages", JArr ((λ m, JObj [("role", JStr (Role m)); ("content", JStr (Content m))])
                             <$> Messages req));
        ("max_tokens", JInt (MaxTokens req)); ("stream", JBool (Stream req))].

Definition Chat {W} `{!HttpTransport W chatResponse} (baseURL : string) (req : ChatRequest) :
    ST W (result ClientError string) :=
  let req := mkChat (Model req) (Messages req) (MaxTokens req) false in
  resp ← http_do (mkHttpRequest POST (baseURL +:+ "/v1/chat/completions") []
                    (Some (marshal_chat req)));
  mret match resp with
       | Err e => Err (TransportFailed e)
       | Ok (code, body) =>
           if decide (code = 404) then Err ErrModelNotFound
           else if status_ok code then
             match body with
             | None => Err DecodeFailed
             | Some out =>
                 match Choices out with
                 | [] => Err ErrEmptyResponse
                 | c :: _ => if decide (c = EmptyString) then Err ErrEmptyResponse else Ok c
                 end
             end
           else Err (BadStatus code)
       end.
End Ollama.

(** ** Query construction *)

Lemma append_inj_l s t1 t2 : s +:+ t1 = s +:+ t2 → t1 = t2.
Proof. induction s; simpl; intros; [done|]. simplify_eq. auto. Qed.

Lemma append_length s t : String.length (s +:+ t) = (String.length s + String.length t)%nat.
Proof. induction s as [|c s IH]; simpl; [done|]. by rewrite IH. Qed.

Lemma append_inj_r s1 s2 t : s1 +:+ t = s2 +:+ t → s1 = s2.
Proof.
  revert s2. induction s1 as [|c s1 IH]; intros [|c2 s2] H; simpl in H; [done| | |].
  - apply (f_equal String.length) in H. simpl in H. rewrite !append_length in H. simpl in H. lia.
  - apply (f_equal String.length) in H. simpl in H. rewrite !append_length in H. simpl in H. lia.
  - simplify_eq. f_equal. by apply IH.
Qed.

(** Two deployments never share a query. *)
Lemma InstantRPS_inj d1 d2 : InstantRPS d1 = InstantRPS d2 → d1 = d2.
Proof.
  unfold InstantRPS. intros H. apply append_inj_l, append_inj_l, append_inj_r in H. done.
Qed.

(** ** Prometheus answers *)
Section prometheus_spec.
Context `{GoStrconv} `{GoPlatform}.

(** The sample a well-formed pair stands for. *)
Definition pair_sample (pair : Prometheus.any * Prometheus.any) : option Prometheus.Sample :=
  match pair with
  | (Prometheus.ANum ts, Prometheus.AStr raw) =>
      Prometheus.mkSample (time_FromUnix (f64_to_i64 ts)) <$> ParseFloat raw
  | _ => None
  end.

Lemma decode_pair_spec pair :
  match Prometheus.decode_pair pair with
  | Ok s => pair_sample pair = Some s
  | Err _ => pair_sample pair = None
  end.
Proof.
  unfold Prometheus.decode_pair. destruct pair as [[ts|ts|] [v|raw|]]; simpl; try done.
  by destruct (ParseFloat raw).
Qed.

Lemma decode_pairs_spec pairs acc :
  match Prometheus.decode_pairs pairs acc with
  | Ok l => ∃ l', l = acc ++ l' ∧ mapM pair_sample pairs = Some l'
  | Err _ => mapM pair_sample pairs = None
  end.
Proof.
  revert acc. induction pairs as [|p pairs IH]; intros acc; simpl.
  - exists []. by rewrite app_nil_r.
  - pose proof (decode_pair_spec p) as Hp. destruct (Prometheus.decode_pair p) as [s|e].
    + rewrite Hp. simpl. specialize (IH (acc ++ [s])).
      destruct (Prometheus.decode_pairs pairs (acc ++ [s])) as [l|e].
      * destruct IH as (l' & -> & ->). exists (s :: l'). by rewrite <- app_assoc.
      * by rewrite IH.
    + by rewrite Hp.
Qed.

End prometheus_spec.

(** Claim C34: A range answer is decoded all or nothing: the samples are those of the
    first series, each pair a number and a parsable string, or there is an error; an
    answer without series gives no samples. *)
Theorem decode_range_all_or_nothing `{GoStrconv} `{GoPlatform} out :
  match Prometheus.decode_range out with
  | Ok samples =>
      Prometheus.r_Status out = "success" ∧
      mapM pair_sample (default [] (head (Prometheus.r_Result out))) = Some samples
  | Err _ =>
      Prometheus.r_Status out ≠ "success" ∨
      mapM pair_sample (default [] (head (Prometheus.r_Result out))) = None
  end.
Proof.
  unfold Prometheus.decode_range. case_decide as Hs; [by left|].
  destruct (Prometheus.r_Result out) as [|first rest]; simpl; [done|].
  pose proof (decode_pairs_spec first []) as Hd.
  destruct (Prometheus.decode_pairs first []); [|by right].
  destruct Hd as (l' & -> & ?). done.
Qed.

(** ** The forecast contract *)

(** What the transport may be relied on for: decoded numbers are doubles. *)
Class TransportLaws (W : Type) `{!HttpTransport W Forecast.RecommendResponse} :=
  http_do_valid : ∀ req w code r w',
    http_do req w = (Ok (code, Some r), w') →
    valid_binary 53 1024 (Forecast.PredictedRPS r) = true.

Section forecast_spec.
Context {W : Type} `{!HttpTransport W Forecast.RecommendResponse}.

Lemma check_response_Ok out r :
  Forecast.check_response out = Ok r → valid_binary 53 1024 (Forecast.PredictedRPS out) = true →
  r = out ∧ load (Forecast.PredictedRPS r) ∧ Forecast.ModelUsed r ≠ EmptyString.
Proof.
  unfold Forecast.check_response. destruct (_ || _) eqn:E; [done|]. case_decide; [done|].
  intros [= <-] Hv. split_and!; [done| |done].
  apply orb_false_iff in E as [[Hn Hi]%orb_false_iff Hlt].
  assert (finite_valid (Forecast.PredictedRPS out)) as Hf.
  { split; [|done]. by destruct (Forecast.PredictedRPS out). }
  split; [done|]. apply Qnot_lt_le. intros Hneg.
  apply (flt_fval _ f0 Hf (f64_of_Z_finite_valid 0 ltac:(done))) in Hneg. congruence.
Qed.

(** A [fetch] that succeeds decoded a body of its transport. *)
Lemma fetch_Ok {R} `{!HttpTransport W R} req w (r : R) w' :
  fetch req w = (Ok r, w') → ∃ code, http_do req w = (Ok (code, Some r), w').
Proof.
  unfold fetch, mbind, st_bind, mret, st_ret.
  destruct (http_do req w) as [[[code [b|]]|e] w1] eqn:E; intros; simplify_eq;
    case_match; simplify_eq; eauto.
Qed.

Lemma Recommend_Ok `{!TransportLaws W} base req w r w' :
  Forecast.Recommend base req w = (Ok r, w') →
  load (Forecast.PredictedRPS r) ∧ Forecast.ModelUsed r ≠ EmptyString.
Proof.
  unfold Forecast.Recommend. destruct (Forecast.marshal_request _) as [body|]; [|done].
  unfold mbind, st_bind, mret, st_ret. destruct (fetch _ w) as [[out|e] w1] eqn:E; [|done].
  intros [= Hc <-]. apply fetch_Ok in E as [code E]. apply http_do_valid in E.
  by apply check_response_Ok in Hc as (-> & ? & ?).
Qed.

(** The fields of a marshalled object. *)
Definition fields (j : json) : list string :=
  match j with JObj fs => fst <$> fs | _ => [] end.

(** The request with another preferred model. *)
Definition with_model (req : Forecast.RecommendRequest) (m : string) : Forecast.RecommendRequest :=
  Forecast.mkRequest (Forecast.RpsHistory req) (Forecast.WorkloadID req) m (Forecast.Context_ req).

Lemma marshal_request_model req body :
  Forecast.marshal_request req = Some body →
  "preferred_model" ∈ fields body ↔ Forecast.PreferredModel req ≠ EmptyString.
Proof.
  unfold Forecast.marshal_request, Forecast.omit_empty. destruct req as [h w m c]; simpl.
  destruct (mapM Forecast.marshal_float h) as [hist|]; [|done]. simpl.
  assert (∀ ctx, match c with
            | None => Some []
            | Some c => j ← Forecast.marshal_context c; Some [("context", j)]
            end = Some ctx → "preferred_model" ∉ (fst <$> ctx : list string)) as Hc.
  { intros ctx. destruct c as [c|]; [destruct (Forecast.marshal_context c)|];
      intros; simplify_eq/=; set_solver. }
  destruct (match c with Some _ => _ | None => _ end) as [ctx|]; [|done].
  specialize (Hc ctx eq_refl). intros [= <-]. simpl.
  repeat case_decide; subst; simpl; set_solver.
Qed.
End forecast_spec.

(** On the wire the models "auto" and none are the same request, without the
    field; any other name is sent. *)
Theorem auto_is_wire_equivalent_to_none {W} `{!HttpTransport W Forecast.RecommendResponse} base req :
  (∀ w, Forecast.Recommend base (with_model req "auto") w =
        Forecast.Recommend base (with_model req EmptyString) w) ∧
  (∀ m body, Forecast.marshal_request (Forecast.normalise (with_model req m)) = Some body →
     "preferred_model" ∈ fields body ↔ m ≠ "auto" ∧ m ≠ EmptyString).
Proof.
  split; [done|]. intros m body Hb. rewrite (marshal_request_model _ _ Hb).
  unfold Forecast.normalise. simpl. case_decide; simpl; naive_solver.
Qed.

(** A history with a NaN or infinite sample is refused before any request is
    sent: the call fails and the outside world is untouched. *)
Theorem non_finite_history_is_not_sent {W} `{!HttpTransport W Forecast.RecommendResponse} base req w x :
  x ∈ Forecast.RpsHistory req → is_nan x || is_inf x = true →
  Forecast.Recommend base req w = (Err MarshalFailed, w).
Proof.
  intros Hin Hx. unfold Forecast.Recommend.
  assert (Forecast.RpsHistory (Forecast.normalise req) = Forecast.RpsHistory req) as Hh.
  { unfold Forecast.normalise. by case_decide. }
  unfold Forecast.marshal_request. rewrite Hh.
  assert (mapM Forecast.marshal_float (Forecast.RpsHistory req) = None) as ->; [|done].
  apply mapM_None. apply list_elem_of_lookup in Hin as [i Hi].
  apply Exists_exists. exists x. split; [by eapply list_elem_of_lookup_2|].
  unfold Forecast.marshal_float. by rewrite Hx.
Qed.

(** ** Explanations *)

(** A chat that succeeds has content, and was asked for without streaming. *)
Lemma Chat_Ok {W} `{!HttpTransport W Ollama.chatResponse} base req w c w' :
  Ollama.Chat base req w = (Ok c, w') → c ≠ EmptyString.
Proof.
  unfold Ollama.Chat, mbind, st_bind, mret, st_ret.
  destruct (http_do _ w) as [r w1]. intros [= H _]. by repeat case_match; simplify_eq.
Qed.
