(* ===== verification/Wire.v ===== *)
(** * The wire format of the Forecast Service

    What a reader of the request body gets back: the decoding that the field tags of
    internal/adapters/forecast/types.go prescribe (a missing field has its zero value),
    and the theorem that it inverts the encoding. *)
From S2P Require Import Prelude Float64 Adapters.
From Stdlib Require Import SpecFloat.

(** ** Decoding by field tags *)
Definition field (j : json) (name : string) : option json :=
  match j with
  | JObj fields => snd <$> find (λ f, bool_decide (f.1 = name)) fields
  | _ => None
  end.

Definition as_num (j : json) : option float64 := match j with JNum f => Some f | _ => None end.
Definition as_int (j : json) : option Z := match j with JInt z => Some z | _ => None end.
Definition as_bool (j : json) : option bool := match j with JBool b => Some b | _ => None end.
Definition as_str (j : json) : option string := match j with JStr s => Some s | _ => None end.
Definition as_arr {A} (f : json → option A) (j : json) : option (list A) :=
  match j with JArr l => mapM f l | _ => None end.
Arguments as_arr : simpl never.

(** A field that [omitempty] may have dropped. *)
Definition or_zero {A} (zero : A) (decode : json → option A) (j : option json) : option A :=
  match j with None => Some zero | Some j => decode j end.

Definition unmarshal_context (j : json) : option Forecast.ContextPayload :=
  baseline ← field j "baseline_rps" ≫= as_int;
  peak ← field j "peak_p95_rps" ≫= as_int;
  slope ← field j "trend_24h_slope" ≫= as_num;
  profile ← field j "hourly_profile" ≫= as_arr as_int;
  valid ← field j "hourly_profile_valid" ≫= as_bool;
  hour ← field j "current_hour_utc" ≫= as_int;
  minute ← field j "current_minute_utc" ≫= as_int;
  Some (Forecast.mkPayload baseline peak slope profile valid hour minute).

Definition unmarshal_request (j : json) : option Forecast.RecommendRequest :=
  history ← field j "rps_history" ≫= as_arr as_num;
  workload ← or_zero EmptyString as_str (field j "workload_id");
  model ← or_zero EmptyString as_str (field j "preferred_model");
  context ← or_zero None (λ j, Some <$> unmarshal_context j) (field j "context");
  Some (Forecast.mkRequest history workload model context).

(** ** What can be encoded *)
Definition finite (f : float64) : Prop := is_nan f = false ∧ is_inf f = false.
Definition finite_request (req : Forecast.RecommendRequest) : Prop :=
  Forall finite (Forecast.RpsHistory req) ∧
  from_option (λ c, finite (Forecast.Trend24hSlope c)) True (Forecast.Context_ req).

Lemma marshal_float_spec f :
  match Forecast.marshal_float f with
  | Some j => finite f ∧ j = JNum f
  | None => ¬ finite f
  end.
Proof.
  unfold Forecast.marshal_float, finite. destruct (is_nan f), (is_inf f); simpl; naive_solver.
Qed.

Lemma marshal_history_spec l :
  match mapM Forecast.marshal_float l with
  | Some js => Forall finite l ∧ as_arr as_num (JArr js) = Some l
  | None => ¬ Forall finite l
  end.
Proof.
  unfold as_arr. induction l as [|f l IH]; simpl in *; [done|]. pose proof (marshal_float_spec f) as Hf.
  destruct (Forecast.marshal_float f) as [j|]; simpl; [|by rewrite Forall_cons; tauto].
  destruct Hf as [Hf ->]. destruct (mapM Forecast.marshal_float l) as [js|]; simpl;
    [|by rewrite Forall_cons; tauto].
  destruct IH as [Hl E]. split; [by constructor|]. by rewrite E.
Qed.

Lemma as_arr_ints l : as_arr as_int (JArr (JInt <$> l)) = Some l.
Proof.
  assert (mapM as_int (JInt <$> l) = Some l) as H; [|exact H].
  induction l as [|z l IH]; [done|]. rewrite fmap_cons. simpl in *. by rewrite IH.
Qed.

Lemma marshal_context_spec c :
  match Forecast.marshal_context c with
  | Some j => finite (Forecast.Trend24hSlope c) ∧ unmarshal_context j = Some c
  | None => ¬ finite (Forecast.Trend24hSlope c)
  end.
Proof.
  unfold Forecast.marshal_context. pose proof (marshal_float_spec (Forecast.Trend24hSlope c)) as Hf.
  destruct (Forecast.marshal_float _) as [j|]; simpl; [|done]. destruct Hf as [Hf ->].
  split; [done|]. unfold unmarshal_context. simpl. rewrite as_arr_ints. by destruct c.
Qed.

(** Claim C36: The request survives the wire. A request is encoded exactly when its
    numbers are finite, and then decoding the body by the field tags gives the request
    back, with the dropped empty fields and an absent context restored; so no two
    requests share a body. *)
Theorem wire_roundtrip req :
  match Forecast.marshal_request req with
  | Some j => finite_request req ∧ unmarshal_request j = Some req
  | None => ¬ finite_request req
  end.
Proof.
  destruct req as [hist wl pm ctx]. unfold Forecast.marshal_request, finite_request. simpl.
  pose proof (marshal_history_spec hist) as Hh.
  destruct (mapM Forecast.marshal_float hist) as [js|]; simpl; [|tauto]. destruct Hh as [Hh E].
  destruct ctx as [c|]; simpl.
  - pose proof (marshal_context_spec c) as Hc. destruct (Forecast.marshal_context c) as [jc|]; simpl; [|tauto].
    destruct Hc as [Hf Ec]. split; [done|]. unfold unmarshal_request, Forecast.omit_empty.
    repeat case_decide; subst; simpl; rewrite E; simpl; by rewrite Ec.
  - split; [done|]. unfold unmarshal_request, Forecast.omit_empty.
    repeat case_decide; subst; simpl; by rewrite E.
Qed.

(** "auto" and no preference are the same body, as the field's comment asks. *)
Lemma auto_is_absent hist wl ctx :
  Forecast.marshal_request (Forecast.normalise (Forecast.mkRequest hist wl "auto" ctx)) =
  Forecast.marshal_request (Forecast.normalise (Forecast.mkRequest hist wl EmptyString ctx)).
Proof. reflexivity. Qed.
