(* ===== verification/Interfaces.v ===== *)
(** * The interfaces between the controller and the outside world

    internal/controller/interfaces.go and the parts of the Kubernetes client the
    controller and the classifier worker use.  Each interface is a class over the
    type [W] of states of the outside world; an operation returns its result and the
    world after it.  The code's own implementations are instances; nothing is
    assumed of an interface beyond the laws named here. *)
From S2P Require Import Prelude Float64 FloatRound Config Capacity Api Adapters.

(** ** The Kubernetes client *)
Inductive ApiError :=
| NotFound (msg : string)
| OtherError (msg : string).

(** [client.IgnoreNotFound(err) == nil] for a non-nil [err]. *)
Definition IsNotFound (e : ApiError) : bool :=
  match e with NotFound _ => true | OtherError _ => false end.

(** What the controller reads of a Deployment and of an HPA. *)
Record Deployment := mkDeployment {
  dep_Namespace : string;
  dep_Name : string;
  dep_Annotations : gmap string string;
  dep_Replicas : option Z;
}.

Record HPA := mkHPA {
  hpa_Name : string;
  hpa_RefKind : string;
  hpa_RefName : string;
}.

Class ApiServer (W : Type) := {
  GetAAS : NamespacedName → ST W (result ApiError AgenticAutoscaler);
  UpdateAASStatus : AgenticAutoscaler → ST W (result ApiError ());
  UpdateAAS : AgenticAutoscaler → ST W (result ApiError ());
  GetDeployment : NamespacedName → ST W (result ApiError Deployment);
  ListHPA : string → ST W (result ApiError (list HPA));
  UpdateScale : NamespacedName → Z → ST W (result ApiError ());
}.

Class Clock (W : Type) := clock_now : ST W Time.

Inductive EventType := EventTypeNormal | EventTypeWarning.

(** ** internal/controller/interfaces.go *)
Class PromQuerier (W : Type) := {
  pq_InstantQuery : string → ST W (result ClientError float64);
  pq_RangeQuery : string → Time → Time → Duration → ST W (result ClientError (list Prometheus.Sample));
}.

Class Forecaster (W : Type) :=
  fc_Recommend : Forecast.RecommendRequest → ST W (result ClientError Forecast.RecommendResponse).

(** What the reconciler relies on: an answer without an error is a usable load. *)
Class ForecasterLaws (W : Type) `{!Forecaster W} :=
  recommend_sane : ∀ req w r w',
    fc_Recommend req w = (Ok r, w') →
    load (Forecast.PredictedRPS r) ∧ Forecast.ModelUsed r ≠ EmptyString.

Record ExplainRequest := mkExplainRequest {
  ex_Namespace : string;
  ex_Name : string;
  ex_Reason : string;
  ex_CurrentReplicas : Z;
  ex_RecommendedReplicas : Z;
  ex_TargetReplicas : Z;
  ex_CurrentRPS : float64;
  ex_PredictedRPS : float64;
  ex_HorizonMinutes : Z;
  ex_ModelUsed : string;
  ex_Pattern : string;
  ex_Confidence : string;
  ex_EffectiveCooldownUp : Z;
  ex_EffectiveCooldownDown : Z;
  ex_EffectiveMaxStep : Z;
  ex_UnboundedRecommended : Z;
  ex_MaxReplicas : Z;
  ex_MinReplicas : Z;
  ex_BaselineRPS : Z;
  ex_PeakP95RPS : Z;
  ex_HourlyProfileValid : bool;
}.

(** ** The adapters implement the interfaces *)
Section instances.
Context {W : Type} (prometheusURL forecastURL : string).
Context `{!HttpTransport W Prometheus.instantResponse} `{!HttpTransport W Prometheus.rangeResponse}.
Context `{!HttpTransport W Forecast.RecommendResponse} `{GoStrconv} `{GoPlatform}.

Definition prometheus_client : PromQuerier W := {|
  pq_InstantQuery := Prometheus.InstantQuery prometheusURL;
  pq_RangeQuery := Prometheus.RangeQuery prometheusURL;
|}.

Definition forecast_client : Forecaster W := Forecast.Recommend forecastURL.

End instances.

(** Claim C35: The HTTP client of the Forecast Service discharges the law its user
    relies on: over any transport that decodes numbers to doubles, an answer it
    returns is a finite, non-negative load with a model name, whatever the service
    sent. *)
Theorem forecast_client_lawful {W} `{!HttpTransport W Forecast.RecommendResponse}
    `{!TransportLaws W} (url : string) :
  @ForecasterLaws W (forecast_client url).
Proof. intros req w r w' Hr. by eapply Recommend_Ok. Qed.

(** A service that always predicts 600 requests per second. *)
#[local] Instance constant_service : HttpTransport unit Forecast.RecommendResponse :=
  λ _, mret (Ok (200, Some (Forecast.mkResponse (f64_of_Z 600) 5 "linear_extrap"))).

Lemma forecast_client_lawful_witness :
  load (f64_of_Z 600) ∧ "linear_extrap" ≠ EmptyString.
Proof.
  assert (TransportLaws unit) as Hl.
  { intros req w code r w' [= <- <- <-]. vm_compute. reflexivity. }
  exact (@forecast_client_lawful unit constant_service Hl "http://forecast"
    (Forecast.mkRequest [f64_of_Z 500] "ns/app" EmptyString None) tt
    (Forecast.mkResponse (f64_of_Z 600) 5 "linear_extrap") tt eq_refl).
Defined.
