(* ===== verification/Worker.v ===== *)
(** * internal/classifier/worker.go: the classification worker of one CR

    One worker's operations as computations over the outside world, the time of the
    last classification and the transcript of its calls with their answers.
    The loop of [runOnce] is the sequence of the triggers that woke it up, and the restart
    loop [Run] the sequence of its iterations. *)
From S2P Require Import Prelude Float64 FloatRound FloatBound Reasoning Config Api State Features Trend.
From S2P Require Import Webhook Classifier Adapters Interfaces.
From Stdlib Require Import SpecFloat.

Record WorkerConfig := mkWorkerConfig {
  wc_Interval : Duration;
  wc_HistoryHours : Duration;
  wc_MinPoints : Z;
  wc_HighConfPoints : Z;
  wc_DedupSeconds : Z;
  wc_ResolutionMin : Z;
  wc_HourlyProfileMinHours : Z;
  wc_CVGuardMeanRPS : float64;
}.

Record Worker := mkWorker {
  wk_Key : NamespacedName;
  wk_DeploymentName : string;
  wk_MinReplicas : Z;
  wk_MaxReplicas : Z;
  wk_Config : WorkerConfig;
  wk_EventRecorder : bool;   (* non-nil *)
}.

(** The transcript of a worker: its calls with their answers, and its events. *)
Inductive WorkerEffect :=
| WGet (key : NamespacedName) (r : result ApiError AgenticAutoscaler)
| WQuery (query : string) (start end_ : Time) (step : Duration)
    (r : result ClientError (list Prometheus.Sample))
| WStatusUpdate (aas : AgenticAutoscaler) (r : result ApiError ())
| WUpdate (aas : AgenticAutoscaler) (r : result ApiError ())
| WEvent (aas : AgenticAutoscaler) (type : EventType) (reason message : string).

Record WorkerState (W : Type) := mkWorkerState {
  ws_world : W;
  ws_lastClassifyAt : Time;
  ws_log : list WorkerEffect;
}.
Arguments mkWorkerState {W} _ _ _.
Arguments ws_world {W} _.
Arguments ws_lastClassifyAt {W} _.
Arguments ws_log {W} _.

(** [historyPointsAsInt32] *)
Definition historyPointsAsInt32 (v : Z) : Z := sat32 v.

(** [formatClassifiedMessage] *)
Definition formatClassifiedMessage (r : PipelineResult) : string :=
  "pattern=" +:+ pr_Pattern r +:+ " confidence=" +:+ pr_Confidence r +:+
  " historyPoints=" +:+ fmt_d (pr_HistoryPoints r) +:+
  " scaleUpCooldown=" +:+ fmt_d (out_ScaleUpCooldown (pr_Params r)) +:+
  "s scaleDownCooldown=" +:+ fmt_d (out_ScaleDownCooldown (pr_Params r)) +:+
  "s maxStep=" +:+ fmt_d (out_MaxStep (pr_Params r)) +:+
  " forecaster=" +:+ out_PreferredForecaster (pr_Params r).

(** The [ClassifiedParams] both status patches write, with their context block. *)
Definition classified_params (r : PipelineResult) (ctx : option ContextFields) (now : Time) :
    ApiClassifiedParams :=
  {| cp_Pattern := pr_Pattern r;
     cp_ScaleUpCooldownSeconds := out_ScaleUpCooldown (pr_Params r);
     cp_ScaleDownCooldownSeconds := out_ScaleDownCooldown (pr_Params r);
     cp_MaxStepSize := out_MaxStep (pr_Params r);
     cp_PreferredForecaster := out_PreferredForecaster (pr_Params r);
     cp_ClassifiedAt := now;
     cp_HistoryPoints := historyPointsAsInt32 (pr_HistoryPoints r);
     cp_Confidence := pr_Confidence r;
     cp_Context := ctx |}.

Section worker.
Context {W : Type} `{!ApiServer W} `{!PromQuerier W} `{!Clock W} `{GoPlatform}.
Context (w : Worker).

Abbreviation WS := (ST (WorkerState W)) (only parsing).

(** Run an operation of the outside world. *)
Definition wcall {A} (m : ST W A) : WS A :=
  λ s, let '(a, world) := m (ws_world s) in
       (a, mkWorkerState world (ws_lastClassifyAt s) (ws_log s)).
Definition wlog (e : WorkerEffect) : WS unit :=
  st_modify (λ s, mkWorkerState (ws_world s) (ws_lastClassifyAt s) (ws_log s ++ [e])).
(** A call whose answer goes to the log. *)
Definition wask {A} (m : ST W A) (e : A → WorkerEffect) : WS A :=
  a ← wcall m; _ ← wlog (e a); mret a.
Definition get_cr : WS (result ApiError AgenticAutoscaler) :=
  wask (GetAAS (wk_Key w)) (WGet (wk_Key w)).
Definition set_lastClassifyAt (t : Time) : WS unit :=
  st_modify (λ s, mkWorkerState (ws_world s) t (ws_log s)).

(** [Now] *)
Definition WNow : WS Time := wcall clock_now.

Definition ShouldRunOnGeneration : WS bool :=
  let dedup := wc_DedupSeconds (wk_Config w) *₆₄ Second in
  now ← WNow;
  s ← st_get;
  mret (bool_decide (time_Sub now (ws_lastClassifyAt s) > dedup)).

(** [patchStatus] and [patchStatusV2]: Get, replace [classifiedParams], Update. *)
Definition patch_classified (mk : Time → ApiClassifiedParams) : WS (result ApiError ()) :=
  r ← get_cr;
  match r with
  | Err e => mret (Err e)
  | Ok aas =>
      now ← WNow;
      let aas := set_status (set_classified (mk now) (aas_Status aas)) aas in
      wask (UpdateAASStatus aas) (WStatusUpdate aas)
  end.

Definition patchStatus (r : PipelineResult) : WS (result ApiError ()) :=
  patch_classified (classified_params r None).

Definition patchStatusV2 (r : PipelineResultV2) : WS (result ApiError ()) :=
  patch_classified (classified_params (v2_PipelineResult r) (v2_Context r)).

Definition emitEvent (reason message : string) : WS unit :=
  if wk_EventRecorder w then
    r ← get_cr;
    match r with
    | Err _ => mret ()
    | Ok aas => wlog (WEvent aas EventTypeNormal (PascalReason reason)
                        (reason +:+ " " +:+ message))
    end
  else mret ().

Definition insufficient_message (n : Z) : string :=
  "insufficient history: " +:+ fmt_d n +:+ " points (need " +:+
  fmt_d (wc_MinPoints (wk_Config w)) +:+ ")".

(** After a pipeline: event and outcome of the status patch. *)
Definition finish_classification (patched : WS (result ApiError ())) (r : PipelineResult) :
    WS bool :=
  p ← patched;
  match p with
  | Err _ => mret false
  | Ok _ =>
      now ← WNow;
      _ ← set_lastClassifyAt now;
      _ ← emitEvent PatternClassified (formatClassifiedMessage r);
      mret true
  end.

Definition query_step : Duration :=
  let step := wc_ResolutionMin (wk_Config w) *₆₄ Minute in
  if decide (step <= 0) then Minute else step.

Definition pipeline_config (start : Time) : PipelineConfig :=
  mkPipelineConfig (wc_ResolutionMin (wk_Config w)) (wc_HourlyProfileMinHours (wk_Config w))
    (wc_CVGuardMeanRPS (wk_Config w)) (time_HourUTC start).

(** The part of [runClassification] after the query. *)
Definition classify_series (start : Time) (series : list float64) : WS bool :=
  let c := wk_Config w in
  if decide (wc_ResolutionMin c > 0) then
    match RunPipelineV2 series (wc_HighConfPoints c) (wc_MinPoints c)
            (wk_MinReplicas w) (wk_MaxReplicas w) (pipeline_config start) with
    | Err _ => _ ← emitEvent PatternUnknown (insufficient_message (flen series)); mret false
    | Ok r => finish_classification (patchStatusV2 r) (v2_PipelineResult r)
    end
  else
    match RunPipeline series (wc_HighConfPoints c) (wc_MinPoints c)
            (wk_MinReplicas w) (wk_MaxReplicas w) with
    | Err _ => _ ← emitEvent PatternUnknown (insufficient_message (flen series)); mret false
    | Ok r => finish_classification (patchStatus r) r
    end.

Definition runClassification : WS bool :=
  end_ ← WNow;
  let start := time_Add end_ (wrap64 (- wc_HistoryHours (wk_Config w))) in
  r ← wask (pq_RangeQuery (RangeRPS (wk_DeploymentName w)) start end_ query_step)
        (WQuery (RangeRPS (wk_DeploymentName w)) start end_ query_step);
  match r with
  | Err _ => mret false
  | Ok samples => classify_series start (Prometheus.Value <$> samples)
  end.

Definition removeReclassifyAnnotation : WS unit :=
  r ← get_cr;
  match r with
  | Err _ => mret ()
  | Ok aas =>
      match aas_Annotations aas !! AnnotationReclassify with
      | None => mret ()
      | Some _ =>
          let aas := set_annotations (delete AnnotationReclassify (aas_Annotations aas)) aas in
          _ ← wask (UpdateAAS aas) (WUpdate aas);
          mret ()
      end
  end.

(** ** The loop *)

(** What wakes [runOnce] up between two rounds of its loop. *)
Inductive Trigger := TTimer | TReclassify | TGeneration.

Definition handle_trigger (t : Trigger) : WS unit :=
  match t with
  | TTimer => _ ← runClassification; mret ()
  | TReclassify =>
      ok ← runClassification;
      if ok : bool then removeReclassifyAnnotation else mret ()
  | TGeneration =>
      run ← ShouldRunOnGeneration;
      if run : bool then (_ ← runClassification; mret ()) else mret ()
  end.

(** The rounds of the loop for the given triggers. *)
Fixpoint run_loop (ts : list Trigger) : WS unit :=
  match ts with
  | [] => mret ()
  | t :: ts => _ ← handle_trigger t; run_loop ts
  end.

(** How one [runOnce] ends when its context is cancelled after the given triggers:
    [time.NewTicker] panics on a non-positive interval, which the recover turns into a
    back-off and another iteration; otherwise the cancellation ends the loop. *)
Inductive OnceResult := Stopped | PanickedAndBackedOff.

Definition runOnce (ts : list Trigger) : WS OnceResult :=
  _ ← runClassification;
  if decide (wc_Interval (wk_Config w) <= 0) then mret PanickedAndBackedOff
  else _ ← run_loop ts; mret Stopped.

(** [Run], for the triggers of each iteration: it ends when an iteration was cancelled,
    or, with no iteration left, by the cancellation seen at the top of the loop or during
    the back-off. *)
Fixpoint run_worker (iterations : list (list Trigger)) : WS unit :=
  match iterations with
  | [] => mret ()
  | ts :: iterations =>
      r ← runOnce ts;
      match r with Stopped => mret () | PanickedAndBackedOff => run_worker iterations end
  end.
End worker.

(** ** What a worker writes *)

(** A [classifiedParams] block whose labels and integers the CRD schema accepts ... *)
Record cp_bounded (mn mx : Z) (cp : ApiClassifiedParams) : Prop := {
  ca_pattern : cp_Pattern cp ∈ crd_patterns;
  ca_confidence : cp_Confidence cp ∈ [ConfidenceHigh; ConfidenceMedium];
  ca_up : 30 <= cp_ScaleUpCooldownSeconds cp <= 180;
  ca_down : 60 <= cp_ScaleDownCooldownSeconds cp <= 600;
  ca_step : 1 <= cp_MaxStepSize cp <= replica_range mn mx;
  ca_forecaster : cp_PreferredForecaster cp ∈ crd_forecasters;
  ca_points : in_i32 (cp_HistoryPoints cp);
  ca_context : ∀ ctx, cp_Context cp = Some ctx → context_i32 ctx;
}.

(** ... and one that it accepts altogether: the slope of the context is a number too. *)
Definition cp_admissible (mn mx : Z) (cp : ApiClassifiedParams) : Prop :=
  cp_bounded mn mx cp ∧ ∀ ctx, cp_Context cp = Some ctx → context_admissible ctx.

(** What a worker makes of the samples of its query. *)
Definition cp_computed (mn mx : Z) (series : list float64) (cp : ApiClassifiedParams) : Prop :=
  cp_bounded mn mx cp ∧ (measurable series → cp_admissible mn mx cp).

(** The transcripts of a worker. Every status it writes follows the answer to a query, with
    samples of which the block written satisfies [P], and a read of the worker's CR. The
    write changes, of the object just read, the [classifiedParams] block and nothing else;
    the only other write removes the reclassify annotation from the object just read. *)
Section transcripts.
Context {W : Type} `{!ApiServer W} (w : Worker) (P : list float64 → ApiClassifiedParams → Prop).

Definition own_query (end_ : Time) (r : result ClientError (list Prometheus.Sample)) : WorkerEffect :=
  WQuery (RangeRPS (wk_DeploymentName w))
    (time_Add end_ (wrap64 (- wc_HistoryHours (wk_Config w)))) end_ (query_step w) r.

Inductive worker_log : list WorkerEffect → Prop :=
| wl_nil : worker_log []
| wl_get r k : worker_log k → worker_log (WGet (wk_Key w) r :: k)
| wl_query end_ r k : worker_log k → worker_log (own_query end_ r :: k)
| wl_event aas type reason msg k : worker_log k → worker_log (WEvent aas type reason msg :: k)
| wl_patch end_ samples aas cp r k :
    answers (GetAAS (W := W) (wk_Key w)) (Ok aas) → P (Prometheus.Value <$> samples) cp →
    worker_log k →
    worker_log (own_query end_ (Ok samples) :: WGet (wk_Key w) (Ok aas) ::
      WStatusUpdate (set_status (set_classified cp (aas_Status aas)) aas) r :: k)
| wl_clear aas r k :
    answers (GetAAS (W := W) (wk_Key w)) (Ok aas) → worker_log k →
    worker_log (WGet (wk_Key w) (Ok aas) ::
      WUpdate (set_annotations (delete AnnotationReclassify (aas_Annotations aas)) aas) r :: k).

Lemma worker_log_app k1 k2 : worker_log k1 → worker_log k2 → worker_log (k1 ++ k2).
Proof. induction 1; intros; simpl; try (by constructor; auto); auto. Qed.
End transcripts.

Section wask_rules.
Context {W A B : Type}.
Implicit Types (m : ST W A) (e : A → WorkerEffect).

Lemma emits_wcall m (Q : A → list WorkerEffect → Prop) :
  (∀ a, Q a []) → emits ws_log (wcall m) Q.
Proof.
  apply emits_silent. intros s. unfold wcall. by destruct (m (ws_world s)).
Qed.

Lemma emits_wcall_bind m (f : A → ST (WorkerState W) B) Q :
  (∀ a, emits ws_log (f a) Q) → emits ws_log (wcall m ≫= f) Q.
Proof.
  intros Hf. eapply (emits_bind _ _ _ (λ _ k, k = [])); [by apply emits_wcall|by intros a k ->].
Qed.

Lemma emits_wask m e (Q : A → list WorkerEffect → Prop) :
  (∀ a, answers m a → Q a [e a]) → emits ws_log (wask m e) Q.
Proof.
  intros HQ s. unfold wask, wcall, wlog, st_modify, mret, st_ret, mbind, st_bind.
  destruct (m (ws_world s)) as [a w'] eqn:E. exists [e a]. split; [done|].
  apply HQ. by exists (ws_world s), w'.
Qed.

Lemma emits_wask_bind m e (f : A → ST (WorkerState W) B) Q :
  (∀ a, answers m a → emits ws_log (f a) (λ b k, Q b (e a :: k))) →
  emits ws_log (wask m e ≫= f) Q.
Proof.
  intros Hf. eapply (emits_bind _ _ _ (λ a k, k = [e a] ∧ answers m a)).
  - by apply emits_wask.
  - intros a k [-> Ha]. by apply Hf.
Qed.

Lemma emits_set_last t (f : unit → ST (WorkerState W) B) Q :
  emits ws_log (f ()) Q → emits ws_log (set_lastClassifyAt t ≫= f) Q.
Proof.
  intros Hf. eapply (emits_bind _ _ _ (λ _ k, k = [])); [by apply emits_silent|].
  by intros [] k ->.
Qed.

Lemma emits_get (f : WorkerState W → ST (WorkerState W) B) Q :
  (∀ s, emits ws_log (f s) Q) → emits ws_log (st_get ≫= f) Q.
Proof.
  intros Hf. eapply (emits_bind _ _ _ (λ _ k, k = [])); [by apply emits_silent|by intros s k ->].
Qed.
End wask_rules.

Section worker_writes.
Context {W : Type} `{!ApiServer W} `{!PromQuerier W} `{!Clock W} `{GoPlatform}.
Context (w : Worker) (P : list float64 → ApiClassifiedParams → Prop).

(** [m] leaves a transcript of the worker. *)
Definition logs {A} (m : ST (WorkerState W) A) : Prop :=
  emits ws_log m (λ _, worker_log (W := W) w P).

Lemma logs_ret {A} (a : A) : logs (mret a).
Proof. apply emits_ret. constructor. Qed.

Lemma logs_bind {A B} (m : ST (WorkerState W) A) (f : A → ST (WorkerState W) B) :
  logs m → (∀ a, logs (f a)) → logs (m ≫= f).
Proof. apply emits_bind_closed. apply worker_log_app. Qed.

Lemma logs_then {A B} (m : ST (WorkerState W) A) (b : B) : logs m → logs (_ ← m; mret b).
Proof. intros Hm. apply logs_bind; [done|]. intros. apply logs_ret. Qed.

(** The blocks the two pipelines produce. *)
Definition pipelines_produce : Prop :=
  (∀ start series r now,
     wc_ResolutionMin (wk_Config w) > 0 →
     RunPipelineV2 series (wc_HighConfPoints (wk_Config w)) (wc_MinPoints (wk_Config w))
       (wk_MinReplicas w) (wk_MaxReplicas w) (pipeline_config w start) = Ok r →
     P series (classified_params (v2_PipelineResult r) (v2_Context r) now)) ∧
  (∀ series r now,
     ¬ wc_ResolutionMin (wk_Config w) > 0 →
     RunPipeline series (wc_HighConfPoints (wk_Config w)) (wc_MinPoints (wk_Config w))
       (wk_MinReplicas w) (wk_MaxReplicas w) = Ok r →
     P series (classified_params r None now)).

(** [m] continues the transcript after the answer to a query. *)
Definition logs_after (e : WorkerEffect) {A} (m : ST (WorkerState W) A) : Prop :=
  emits ws_log m (λ _ k, worker_log (W := W) w P (e :: k)).

Lemma logs_answered end_ r {A} (m : ST (WorkerState W) A) : logs m → logs_after (own_query w end_ r) m.
Proof. intros Hm. eapply emits_mono; [exact Hm|]. intros a k Hk. by constructor. Qed.

Lemma patch_classified_logs end_ samples mk :
  (∀ now, P (Prometheus.Value <$> samples) (mk now)) →
  logs_after (own_query w end_ (Ok samples)) (patch_classified w mk).
Proof.
  intros Hmk. apply emits_wask_bind. intros [aas|e] Ha; [|apply emits_ret; by repeat constructor].
  apply emits_wcall_bind. intros now. apply emits_wask. intros r _. by apply wl_patch; [| |constructor].
Qed.

Lemma emitEvent_logs reason msg : logs (emitEvent w reason msg).
Proof.
  unfold emitEvent. destruct (wk_EventRecorder w); [|apply logs_ret].
  apply emits_wask_bind. intros [aas|e] _; [|apply emits_ret; by repeat constructor].
  intros s. eexists. split; [reflexivity|]. by repeat constructor.
Qed.

Lemma finish_logs e m r : logs_after e m → logs_after e (finish_classification w m r).
Proof.
  intros Hm. eapply emits_bind; [exact Hm|]. intros p k1 Hk1.
  assert (∀ m' : ST (WorkerState W) bool, logs m' →
    emits ws_log m' (λ _ k, worker_log (W := W) w P (e :: k1 ++ k))) as Hthen.
  { intros m' Hm'. eapply emits_mono; [exact Hm'|]. intros b k2 Hk2. by apply (worker_log_app _ _ (e :: k1)). }
  apply Hthen. destruct p as [[]|e']; [|apply logs_ret].
  apply emits_wcall_bind. intros now. apply emits_set_last. apply logs_then, emitEvent_logs.
Qed.

Lemma query_step_pos : 0 < query_step w.
Proof. unfold query_step. case_decide; [done|lia]. Qed.

Lemma classify_series_logs end_ start samples :
  pipelines_produce →
  logs_after (own_query w end_ (Ok samples)) (classify_series w start (Prometheus.Value <$> samples)).
Proof.
  intros [Hv2 Hv1]. unfold classify_series.
  repeat case_match; try apply logs_answered, logs_then, emitEvent_logs;
    apply finish_logs, patch_classified_logs; intros now; eauto.
Qed.

Lemma runClassification_logs : pipelines_produce → logs (runClassification w).
Proof.
  intros Hp. apply emits_wcall_bind. intros end_. apply emits_wask_bind. intros r _.
  destruct r; [by apply classify_series_logs|apply logs_answered, logs_ret].
Qed.

Lemma remove_logs : logs (removeReclassifyAnnotation w).
Proof.
  apply emits_wask_bind. intros [aas|e] Ha; [|apply emits_ret; by repeat constructor].
  destruct (aas_Annotations aas !! AnnotationReclassify); [|apply emits_ret; by repeat constructor].
  apply emits_wask_bind. intros r _. apply emits_ret. by apply wl_clear; [|constructor].
Qed.

Lemma generation_logs : logs (ShouldRunOnGeneration w).
Proof.
  apply emits_wcall_bind. intros now. apply emits_get. intros s. apply logs_ret.
Qed.

Lemma handle_trigger_logs t : pipelines_produce → logs (handle_trigger w t).
Proof.
  intros Hp. destruct t; simpl; [by apply logs_then, runClassification_logs|..].
  - apply logs_bind; [by apply runClassification_logs|]. intros []; [apply remove_logs|apply logs_ret].
  - apply logs_bind; [apply generation_logs|]. intros []; [|apply logs_ret].
    by apply logs_then, runClassification_logs.
Qed.

Lemma runOnce_logs ts : pipelines_produce → logs (runOnce w ts).
Proof.
  intros Hp. apply logs_bind; [by apply runClassification_logs|]. intros _.
  case_decide; [apply logs_ret|]. apply logs_then.
  induction ts as [|t ts IH]; simpl; [apply logs_ret|].
  apply logs_bind; [by apply handle_trigger_logs|done].
Qed.

Lemma run_worker_logs its : pipelines_produce → logs (run_worker w its).
Proof.
  intros Hp. induction its as [|ts its IH]; simpl; [apply logs_ret|].
  apply logs_bind; [by apply runOnce_logs|]. intros []; [apply logs_ret|done].
Qed.
End worker_writes.

Lemma confidence_admissible n high :
  (if decide (high <= n) then ConfidenceHigh else ConfidenceMedium) ∈ [ConfidenceHigh; ConfidenceMedium]
  ∧ in_i32 (historyPointsAsInt32 n).
Proof. split; [case_decide; set_solver|apply sat32_range]. Qed.

Lemma result_bounded `{GoPlatform} n high mn mx r ctx now :
  result_ok n high mn mx r → (∀ c, ctx = Some c → context_i32 c) →
  cp_bounded mn mx (classified_params r ctx now).
Proof.
  intros [Hpat Hconf Hpts [] Hfc] Hc. pose proof (confidence_admissible (pr_HistoryPoints r) high).
  split; simpl; try done; [rewrite Hconf, <- Hpts|]; tauto.
Qed.

Lemma pipelines_admissible `{GoPlatform} w :
  pipelines_produce w (cp_computed (wk_MinReplicas w) (wk_MaxReplicas w)).
Proof.
  split; intros * Hres Hr.
  - match type of Hr with RunPipelineV2 ?s ?h ?m ?mn ?mx ?c = _ =>
      pose proof (RunPipelineV2_result s h m mn mx c) as Hs end.
    rewrite Hr in Hs. destruct Hs as (_ & Hok & ctx & Hctx & Hi & Hm & _).
    { apply time_HourUTC_range. }
    assert (cp_bounded (wk_MinReplicas w) (wk_MaxReplicas w)
      (classified_params (v2_PipelineResult r) (v2_Context r) now)) as Hb.
    { eapply result_bounded; [done|]. intros c Hc. rewrite Hctx in Hc. by simplify_eq. }
    split; [done|]. intros Hs. split; [done|]. simpl. rewrite Hctx. intros c [= <-]. auto.
  - match type of Hr with RunPipeline ?s ?h ?m ?mn ?mx = _ =>
      pose proof (RunPipeline_spec s h m mn mx) as Hs end.
    rewrite Hr in Hs. destruct Hs as [_ Hok].
    assert (cp_bounded (wk_MinReplicas w) (wk_MaxReplicas w) (classified_params r None now)) as Hb
      by (by eapply result_bounded).
    by split.
Qed.

(** Claim C31: Whatever triggers wake a worker up, in however many iterations of its
    restart loop, and however the outside world answers, every status it writes comes
    behind the samples of a query of its own Deployment's rate over the configured history
    and is the status of its CR as read just before, with a [classifiedParams] block
    computed from those samples in place of the old one. The block has labels and integers
    the CRD schema admits, whatever the samples are; when they are measurable (at most
    [2^32], each finite and of at most [2^900]) the schema admits all of it, the slope of
    its context being a number. The only other thing the worker updates is the reclassify
    annotation of the CR just read, which it removes; and it queries nothing else. *)
Theorem worker_writes_admissible {W} `{!ApiServer W} `{!PromQuerier W} `{!Clock W} `{GoPlatform}
    w iterations :
  emits ws_log (run_worker (W := W) w iterations)
    (λ _, worker_log (W := W) w (λ series cp,
       cp_bounded (wk_MinReplicas w) (wk_MaxReplicas w) cp ∧
       (measurable series → cp_admissible (wk_MinReplicas w) (wk_MaxReplicas w) cp))).
Proof. exact (run_worker_logs w _ iterations (pipelines_admissible w)). Qed.

(** ** When a worker acts *)

(** A status update that succeeded; an update of the CR itself. *)
Definition patched_status_ok (e : WorkerEffect) : Prop :=
  match e with WStatusUpdate _ (Ok _) => True | _ => False end.
Definition is_update (e : WorkerEffect) : Prop :=
  match e with WUpdate _ _ => True | _ => False end.

(** A classification that reports success has patched the status; none of them
    updates the CR itself. *)
Definition quiet (k : list WorkerEffect) : Prop := Forall (λ e, ¬ is_update e) k.
Definition success_patched (ok : bool) (k : list WorkerEffect) : Prop :=
  (ok = true → Exists patched_status_ok k) ∧ quiet k.

Section worker_control.
Context {W : Type} `{!ApiServer W} `{!PromQuerier W} `{!Clock W} `{GoPlatform}.
Context (w : Worker).

Lemma quiet_nil : quiet [].
Proof. constructor. Qed.

Lemma success_nil : success_patched false [].
Proof. by split; [|constructor]. Qed.

Lemma success_cons ok e k : ¬ is_update e → success_patched ok k → success_patched ok (e :: k).
Proof. intros He [Hs Hq]. split; [|by constructor]. intros Hok. right. auto. Qed.

Lemma emitEvent_quiet reason msg : emits (@ws_log W) (emitEvent w reason msg) (λ _, quiet).
Proof.
  unfold emitEvent. destruct (wk_EventRecorder w); [|apply emits_ret, quiet_nil].
  apply emits_wask_bind. intros [aas|e] _; [|apply emits_ret; repeat constructor; by intros []].
  intros s. eexists. split; [reflexivity|]. repeat constructor; by intros [].
Qed.

(** A patch that succeeds was an update of the status. *)
Lemma patch_classified_patched mk :
  emits (@ws_log W) (patch_classified w mk)
    (λ r, success_patched (match r with Ok _ => true | Err _ => false end)).
Proof.
  apply emits_wask_bind.
  intros [aas|e] _; [|apply emits_ret, success_cons; [by intros []|apply success_nil]].
  apply emits_wcall_bind. intros now. apply emits_wask. intros r _. apply success_cons; [by intros []|].
  split; [|repeat constructor; by intros []]. destruct r; [by repeat constructor|done].
Qed.

Lemma finish_patched m r :
  emits (@ws_log W) m (λ r, success_patched (match r with Ok _ => true | Err _ => false end)) →
  emits (@ws_log W) (finish_classification w m r) success_patched.
Proof.
  intros Hm. eapply emits_bind; [exact Hm|].
  intros [[]|e] k [Hk1 Hk2]; [|apply emits_ret; by rewrite app_nil_r].
  apply emits_wcall_bind. intros now. apply emits_set_last.
  eapply emits_bind; [apply emitEvent_quiet|]. intros [] k' Hq. apply emits_ret.
  rewrite app_nil_r. split; [|by apply Forall_app].
  intros _. apply Exists_app. left. by apply Hk1.
Qed.

Lemma unknown_patched n :
  emits (@ws_log W) (_ ← emitEvent w PatternUnknown (insufficient_message w n); mret false)
    success_patched.
Proof.
  eapply emits_bind; [apply emitEvent_quiet|]. intros [] k Hq. apply emits_ret.
  by rewrite app_nil_r.
Qed.

Lemma runClassification_patched :
  emits (@ws_log W) (runClassification w) success_patched.
Proof.
  apply emits_wcall_bind. intros end_. apply emits_wask_bind. intros r _.
  eapply (emits_mono _ _ success_patched); [|intros; apply success_cons; [by intros []|done]].
  destruct r; [|apply emits_ret, success_nil].
  unfold classify_series. repeat case_match;
    try apply unknown_patched; apply finish_patched, patch_classified_patched.
Qed.
End worker_control.

(** In [k], an update of the CR comes only after a successful update of the status. *)
Definition clears_after_patch (k : list WorkerEffect) : Prop :=
  ∀ k1 e k2, k = k1 ++ e :: k2 → is_update e → Exists patched_status_ok k1.

Lemma quiet_clears k : quiet k → clears_after_patch k.
Proof. intros Hk k1 e k2 -> He. by apply Forall_app in Hk as [_ [? _]%Forall_cons]. Qed.

Lemma patched_clears k k' : success_patched true k → clears_after_patch (k ++ k').
Proof.
  intros [Hs Hq] k1 e k2 Heq He. specialize (Hs eq_refl).
  apply app_eq_inv in Heq as [(l & -> & Hk')|(l & -> & Hk')].
  - destruct l as [|e' l]; simpl in Hk'; simplify_eq; [by rewrite app_nil_r in Hs|].
    by apply Forall_app in Hq as [_ [? _]%Forall_cons].
  - apply Exists_app. by left.
Qed.

(** Claim C32: The reclassify annotation is a request that is not forgotten: the worker
    clears it only in a round in which it has already patched a fresh classification
    into the status, successfully; a failed query or patch leaves it in place for the next
    attempt. *)
Theorem annotation_cleared_only_after_success {W} `{!ApiServer W} `{!PromQuerier W} `{!Clock W}
    `{GoPlatform} w t :
  emits (@ws_log W) (handle_trigger w t) (λ _, clears_after_patch).
Proof.
  assert (emits (@ws_log W) (_ ← runClassification w; mret ()) (λ _, clears_after_patch)) as Hrun.
  { eapply emits_bind; [apply runClassification_patched|]. intros ok k [_ Hk].
    apply emits_ret. rewrite app_nil_r. by apply quiet_clears. }
  destruct t; simpl; [exact Hrun|..].
  - eapply emits_bind; [apply runClassification_patched|]. intros [] k Hk.
    + eapply (emits_mono _ _ (λ _ _, True)); [|intros [] k' _; by apply patched_clears].
      eapply emits_mono; [apply (remove_logs w (λ _ _, True))|done].
    + apply emits_ret. rewrite app_nil_r. apply quiet_clears, Hk.
  - apply emits_assoc, emits_wcall_bind. intros now. apply emits_assoc, emits_get. intros s.
    simpl. eapply (emits_bind _ _ _ (λ _ k, k = [])); [by apply emits_ret|]. intros run k ->.
    destruct run; [exact Hrun|]. apply emits_ret, quiet_clears, quiet_nil.
Qed.

(** A rollout signal inside the dedup window does nothing: neither a query nor a
    write, whatever the world looks like. *)
Theorem generation_signal_deduped {W} `{!ApiServer W} `{!PromQuerier W} `{!Clock W} `{GoPlatform}
    w (s : WorkerState W) :
  (clock_now (ws_world s)).1 - ws_lastClassifyAt s <= wc_DedupSeconds (wk_Config w) * Second →
  in_i32 (wc_DedupSeconds (wk_Config w)) →
  handle_trigger w TGeneration s =
    ((), mkWorkerState (clock_now (ws_world s)).2 (ws_lastClassifyAt s) (ws_log s)).
Proof.
  intros Hle Hi. unfold handle_trigger, ShouldRunOnGeneration, WNow, wcall, st_get.
  unfold mbind, st_bind, mret, st_ret. destruct (clock_now (ws_world s)) as [now world]. simpl in *.
  rewrite bool_decide_eq_false_2; [done|].
  rewrite seconds_no_overflow by done. intros Hgt.
  assert (wc_DedupSeconds (wk_Config w) * Second + 1 <= time_Sub now (ws_lastClassifyAt s)) as Hge by lia.
  apply time_Sub_ge in Hge; [lia|]. unfold Second. int_lia.
Qed.

(** A world without a cluster, at a fixed time. *)
Definition offline : ApiServer unit := {|
  GetAAS := λ _, mret (Err (NotFound "gone"));
  UpdateAASStatus := λ _, mret (Ok ());
  UpdateAAS := λ _, mret (Ok ());
  GetDeployment := λ _, mret (Err (NotFound "gone"));
  ListHPA := λ _, mret (Ok []);
  UpdateScale := λ _ _, mret (Ok ());
|}.
Definition no_metrics : PromQuerier unit := {|
  pq_InstantQuery := λ _, mret (Err (TransportFailed ConnRefused));
  pq_RangeQuery := λ _ _ _ _, mret (Err (TransportFailed ConnRefused));
|}.
Definition clock_at (t : Time) : Clock unit := mret t.

Lemma generation_signal_deduped_witness :
  let w := mkWorker (mkNN "ns" "app") "app" 2 10
             (mkWorkerConfig (30 * Minute) (24 * Hour) 72 240 60 5 12 f1) true in
  let s := mkWorkerState () (100 * Second) [] in
  @handle_trigger unit offline no_metrics (clock_at (160 * Second)) amd64 w TGeneration s = ((), s).
Proof.
  intros w s.
  apply (@generation_signal_deduped unit offline no_metrics (clock_at (160 * Second)) amd64 w s);
    vm_compute; [discriminate|split; discriminate].
Defined.

(** A world with a CR and a Prometheus that answers with five-minute samples. *)
Definition holding (aas : AgenticAutoscaler) : ApiServer unit := {|
  GetAAS := λ _, mret (Ok aas);
  UpdateAASStatus := λ _, mret (Ok ());
  UpdateAAS := λ _, mret (Ok ());
  GetDeployment := λ _, mret (Err (NotFound "gone"));
  ListHPA := λ _, mret (Ok []);
  UpdateScale := λ _ _, mret (Ok ());
|}.
Definition sampled (series : list float64) : PromQuerier unit := {|
  pq_InstantQuery := λ _, mret (Err (TransportFailed ConnRefused));
  pq_RangeQuery := λ _ _ _ _, mret (Ok (Prometheus.mkSample 0 <$> series));
|}.

(** The slopes that a transcript writes. *)
Definition written_slopes (k : list WorkerEffect) : list float64 :=
  omap (λ e, match e with
             | WStatusUpdate aas _ =>
                 cp ← st_ClassifiedParams (aas_Status aas); ctx ← cp_Context cp; Some (ctx_Trend24hSlope ctx)
             | _ => None
             end) k.

Definition worked_cr : AgenticAutoscaler :=
  mkAAS "ns" "app" "1" ∅ None (spec_of 2 10 50 500 None None)
    (mkStatus EmptyString EmptyString 0 0 0 0 0 None None).
Definition v2_worker : Worker :=
  mkWorker (mkNN "ns" "app") "app" 2 10 (mkWorkerConfig (30 * Minute) (24 * Hour) 72 240 60 5 12 f1) true.
Definition worked (series : list float64) : list WorkerEffect :=
  ws_log (@run_worker unit (holding worked_cr) (sampled series) (clock_at 0) amd64 v2_worker [[]]
            (mkWorkerState () 0 [])).2.

Lemma worker_writes_admissible_witness :
  let k := worked (sawtooth 96) in
  @worker_log unit (holding worked_cr) v2_worker
    (λ series cp, cp_bounded 2 10 cp ∧ (measurable series → cp_admissible 2 10 cp)) k ∧
  length (written_slopes k) = 1%nat ∧ Forall (λ x, is_finite x = true) (written_slopes k).
Proof.
  intros k. split; [|split; [vm_compute; reflexivity|vm_compute; repeat constructor]].
  destruct (@worker_writes_admissible unit (holding worked_cr) (sampled (sawtooth 96)) (clock_at 0) amd64
    v2_worker [[]] (mkWorkerState () 0 [])) as (k' & Hk & Hl).
  unfold k, worked. rewrite Hk. exact Hl.
Defined.

(** One sample that is not a number, and the worker asks the API server to store a slope
    that is none, which JSON cannot carry and the schema does not admit. *)
Lemma NaN_sample_is_written :
  written_slopes (worked (S754_nan :: replicate 95 (f64_of_Z 100))) = [S754_nan].
Proof. vm_compute. reflexivity. Qed.
