(* ===== verification/Manager.v ===== *)
(** * internal/classifier/manager.go: one classification worker per CR

    The manager's map of handles with its operations, each a function of the state
    because each holds the mutex.  A handle's channels are shared with its worker,
    which may take their value between two calls ([take_reclassify],
    [take_generation]).  [mg_started] and [mg_cancelled] record, in order, the
    goroutines started and the contexts cancelled. *)
From S2P Require Import Prelude Api Reasoning Channels Worker.

Record workerHandle := mkHandle {
  wh_reclassifyCh : option unit;
  wh_generationCh : option unit;
  wh_lastDeploymentRevision : string;
  wh_revisionInitialized : bool;
}.

Record Manager := mkManager {
  mg_config : WorkerConfig;
  mg_workers : gmap NamespacedName workerHandle;
  mg_started : list Worker;
  mg_cancelled : list NamespacedName;
}.

Definition NewManager (cfg : WorkerConfig) : Manager := mkManager cfg ∅ [] [].

Definition set_workers (ws : gmap NamespacedName workerHandle) (m : Manager) : Manager :=
  mkManager (mg_config m) ws (mg_started m) (mg_cancelled m).

Definition new_worker (m : Manager) (cr : AgenticAutoscaler) : Worker :=
  let minRep := match spec_MinReplicas (aas_Spec cr) with Some v => v | None => 2 end in
  let maxRep := match spec_MaxReplicas (aas_Spec cr) with Some v => v | None => 10 end in
  mkWorker (aas_key cr) (ref_Name (spec_TargetRef (aas_Spec cr))) minRep maxRep (mg_config m) true.

Definition Ensure (m : Manager) (cr : AgenticAutoscaler) : Manager :=
  let key := aas_key cr in
  match mg_workers m !! key with
  | Some _ => m
  | None =>
      mkManager (mg_config m) (<[key := mkHandle None None EmptyString false]> (mg_workers m))
        (mg_started m ++ [new_worker m cr]) (mg_cancelled m)
  end.

Definition Stop (m : Manager) (key : NamespacedName) : Manager :=
  match mg_workers m !! key with
  | None => m
  | Some _ =>
      mkManager (mg_config m) (delete key (mg_workers m)) (mg_started m)
        (mg_cancelled m ++ [key])
  end.

Definition SignalReclassify (m : Manager) (key : NamespacedName) : Manager :=
  match mg_workers m !! key with
  | None => m
  | Some h =>
      set_workers (<[key := mkHandle (dropAndPush (wh_reclassifyCh h)) (wh_generationCh h)
        (wh_lastDeploymentRevision h) (wh_revisionInitialized h)]> (mg_workers m)) m
  end.

Definition ObserveDeploymentRevision (m : Manager) (key : NamespacedName) (revision : string) :
    bool * Manager :=
  match mg_workers m !! key with
  | None => (false, m)
  | Some h =>
      if negb (wh_revisionInitialized h) then
        (false, set_workers (<[key := mkHandle (wh_reclassifyCh h) (wh_generationCh h)
                   revision true]> (mg_workers m)) m)
      else if decide (wh_lastDeploymentRevision h = revision) then (false, m)
      else (true, set_workers (<[key := mkHandle (wh_reclassifyCh h)
                   (dropAndPush (wh_generationCh h)) revision true]> (mg_workers m)) m)
  end.

Definition LastDeploymentRevision (m : Manager) (key : NamespacedName) : string :=
  match mg_workers m !! key with
  | None => EmptyString
  | Some h => wh_lastDeploymentRevision h
  end.

Definition HasWorker (m : Manager) (key : NamespacedName) : bool :=
  bool_decide (is_Some (mg_workers m !! key)).

(** The worker's receives. *)
Definition take_reclassify (m : Manager) (key : NamespacedName) : Manager :=
  match mg_workers m !! key with
  | None => m
  | Some h => set_workers (<[key := mkHandle None (wh_generationCh h)
                (wh_lastDeploymentRevision h) (wh_revisionInitialized h)]> (mg_workers m)) m
  end.
Definition take_generation (m : Manager) (key : NamespacedName) : Manager :=
  match mg_workers m !! key with
  | None => m
  | Some h => set_workers (<[key := mkHandle (wh_reclassifyCh h) None
                (wh_lastDeploymentRevision h) (wh_revisionInitialized h)]> (mg_workers m)) m
  end.

(** ** Life cycle *)
Inductive ManagerOp :=
| MEnsure (cr : AgenticAutoscaler)
| MStop (key : NamespacedName)
| MSignal (key : NamespacedName)
| MObserve (key : NamespacedName) (revision : string)
| MTakeReclassify (key : NamespacedName)
| MTakeGeneration (key : NamespacedName).

Definition run_manager_op (m : Manager) (op : ManagerOp) : Manager :=
  match op with
  | MEnsure cr => Ensure m cr
  | MStop key => Stop m key
  | MSignal key => SignalReclassify m key
  | MObserve key rev => (ObserveDeploymentRevision m key rev).2
  | MTakeReclassify key => take_reclassify m key
  | MTakeGeneration key => take_generation m key
  end.

(** How many workers were started, and stopped, for a key. *)
Definition starts (m : Manager) (key : NamespacedName) : nat :=
  length (filter (λ w, wk_Key w = key) (mg_started m)).
Definition stops (m : Manager) (key : NamespacedName) : nat :=
  length (filter (λ k, k = key) (mg_cancelled m)).

(** One running worker per handle: starts exceed stops by one exactly for the keys
    in the map. *)
Definition one_worker (m : Manager) : Prop :=
  ∀ key, starts m key = (stops m key + if HasWorker m key then 1 else 0)%nat.

Lemma HasWorker_insert m key h k :
  HasWorker (set_workers (<[key := h]> (mg_workers m)) m) k =
  bool_decide (k = key) || HasWorker m k.
Proof.
  unfold HasWorker, set_workers. simpl. destruct (decide (k = key)) as [->|Hk].
  - rewrite lookup_insert_eq. by rewrite !bool_decide_eq_true_2 by eauto.
  - rewrite lookup_insert_ne by done. by rewrite (bool_decide_eq_false_2 (k = key)).
Qed.

(** Updating a handle in place keeps the set of running workers. *)
Lemma one_worker_update m key h h' :
  mg_workers m !! key = Some h → one_worker m →
  one_worker (set_workers (<[key := h']> (mg_workers m)) m).
Proof.
  intros Hh Hm k. rewrite HasWorker_insert.
  change (starts (set_workers _ m) k) with (starts m k).
  change (stops (set_workers _ m) k) with (stops m k). rewrite (Hm k). f_equal.
  case_bool_decide as Hk; [|done]. subst. unfold HasWorker.
  by rewrite bool_decide_eq_true_2 by (rewrite Hh; eauto).
Qed.

Lemma Ensure_one_worker m cr : one_worker m → one_worker (Ensure m cr).
Proof.
  intros Hm. unfold Ensure. destruct (mg_workers m !! aas_key cr) eqn:E; [done|]. intros k.
  specialize (Hm k). unfold starts, stops, HasWorker in *. simpl.
  rewrite filter_app, length_app, Hm. change (wk_Key (new_worker m cr)) with (aas_key cr).
  destruct (decide (k = aas_key cr)) as [->|Hk].
  - rewrite E, lookup_insert_eq, filter_cons_True by done.
    rewrite (bool_decide_eq_true_2 (is_Some (Some _))) by eauto.
    rewrite bool_decide_eq_false_2 by (by intros [? ?]). simpl. lia.
  - rewrite lookup_insert_ne, filter_cons_False by done. simpl. lia.
Qed.

Lemma Stop_one_worker m key : one_worker m → one_worker (Stop m key).
Proof.
  intros Hm. unfold Stop. destruct (mg_workers m !! key) as [h|] eqn:E; [|done]. intros k.
  specialize (Hm k). unfold starts, stops, HasWorker in *. simpl.
  rewrite filter_app, length_app, Hm.
  destruct (decide (k = key)) as [->|Hk].
  - rewrite E, lookup_delete_eq, filter_cons_True by done.
    rewrite (bool_decide_eq_true_2 (is_Some (Some _))) by eauto.
    rewrite bool_decide_eq_false_2 by (by intros [? ?]). simpl. lia.
  - rewrite lookup_delete_ne, filter_cons_False by done. simpl. lia.
Qed.

Lemma run_manager_op_one_worker m op : one_worker m → one_worker (run_manager_op m op).
Proof.
  intros Hm. destruct op; simpl; [by apply Ensure_one_worker|by apply Stop_one_worker|..];
    unfold SignalReclassify, ObserveDeploymentRevision, take_reclassify, take_generation;
    repeat case_match; simplify_eq/=; try done; by eapply one_worker_update.
Qed.

(** Exactly one worker per CR: after any sequence of reconciles, deletions,
    signals and worker receives, the goroutines started for a key exceed the contexts
    cancelled for it by one if the manager holds a handle, and equal them if not; so no
    worker is leaked and none runs twice. *)
Theorem Manager_one_worker_per_CR cfg ops key :
  let m := fold_left run_manager_op ops (NewManager cfg) in
  starts m key = (stops m key + if HasWorker m key then 1 else 0)%nat.
Proof.
  cbn zeta. revert key. change (one_worker (fold_left run_manager_op ops (NewManager cfg))).
  assert (one_worker (NewManager cfg)) as H0.
  { intros key. unfold HasWorker, NewManager. simpl. by rewrite lookup_empty. }
  revert H0. generalize (NewManager cfg).
  induction ops as [|op ops IH]; intros m Hm; simpl; [done|]. by apply IH, run_manager_op_one_worker.
Qed.

(** ** Rollouts *)

(** Observe a sequence of revisions; the answers in order. *)
Fixpoint observe_all (m : Manager) (key : NamespacedName) (revs : list string) : list bool :=
  match revs with
  | [] => []
  | r :: revs =>
      let '(b, m) := ObserveDeploymentRevision m key r in b :: observe_all m key revs
  end.

(** Whether each revision differs from the one before it. *)
Fixpoint changes (prev : string) (revs : list string) : list bool :=
  match revs with
  | [] => []
  | r :: revs => bool_decide (r ≠ prev) :: changes r revs
  end.

Lemma observe_all_initialized m key h revs :
  mg_workers m !! key = Some h → wh_revisionInitialized h = true →
  observe_all m key revs = changes (wh_lastDeploymentRevision h) revs.
Proof.
  revert m h. induction revs as [|r revs IH]; intros m h Hh Hi; [done|]. simpl.
  unfold ObserveDeploymentRevision. rewrite Hh, Hi. simpl. case_decide as Hr.
  - subst r. rewrite bool_decide_eq_false_2 by naive_solver. f_equal. by apply IH.
  - rewrite bool_decide_eq_true_2 by done. f_equal.
    set (h' := mkHandle _ _ _ _).
    apply (IH _ h'); [unfold set_workers; simpl; by rewrite lookup_insert_eq|done].
Qed.

(** A rollout signal fires exactly on changes: the first revision a new worker
    observes never fires, whatever it is, and from then on an observation fires if and
    only if it differs from the previous one. *)
Theorem revision_signals_are_changes m cr r revs :
  mg_workers m !! aas_key cr = None →
  observe_all (Ensure m cr) (aas_key cr) (r :: revs) = false :: changes r revs.
Proof.
  intros Hn. unfold Ensure. rewrite Hn. simpl.
  unfold ObserveDeploymentRevision. simpl. rewrite lookup_insert_eq. simpl. f_equal.
  set (h' := mkHandle _ _ r _). apply (observe_all_initialized _ _ h'); [|done].
  unfold set_workers. simpl. by rewrite lookup_insert_eq.
Qed.

Definition sample_cr : AgenticAutoscaler :=
  mkAAS "ns" "app" "1" ∅ None
    (mkSpec (mkRef "apps/v1" "Deployment" "app") (Some 2) (Some 10) (Some 50) (Some 500)
       None None None None)
    (mkStatus EmptyString EmptyString 0 0 0 0 0 None None).

Lemma revision_signals_are_changes_witness :
  let m := NewManager (mkWorkerConfig (30 * Minute) (24 * Hour) 72 240 60 0 0 Float64.f0) in
  mg_workers m !! aas_key sample_cr = None ∧
  observe_all (Ensure m sample_cr) (aas_key sample_cr) [EmptyString; "1"; "1"; "2"] =
    [false; true; false; true].
Proof.
  intros m. assert (mg_workers m !! aas_key sample_cr = None) as H by reflexivity.
  split; [exact H|]. rewrite (revision_signals_are_changes m sample_cr _ _ H). reflexivity.
Defined.

(** An existing worker keeps the bounds and the target it was started with. *)
Lemma Ensure_idempotent m cr1 cr2 :
  aas_key cr1 = aas_key cr2 → Ensure (Ensure m cr1) cr2 = Ensure m cr1.
Proof.
  intros Hk. unfold Ensure at 1. rewrite <- Hk.
  assert (is_Some (mg_workers (Ensure m cr1) !! aas_key cr1)) as [h ->]; [|done].
  unfold Ensure. destruct (mg_workers m !! aas_key cr1) eqn:E; [rewrite E; eauto|].
  simpl. rewrite lookup_insert_eq. eauto.
Qed.
