(* ===== verification/Metrics.v ===== *)
(** * internal/controller/metrics.go: the controller's Prometheus metrics

    A gauge vector is a map from (namespace, name) to its last value, a counter
    vector a map to its count; [WithLabelValues] creates a missing child at 0. *)
From S2P Require Import Prelude Float64 Classifier.

Record Metrics := mkMetrics {
  mPredictedRPS : gmap NamespacedName float64;
  mCurrentRPS : gmap NamespacedName float64;
  mRpsPerPod : gmap NamespacedName float64;
  mScaleEventsTotal : gmap (NamespacedName * string) Z;
  mClassifiedPattern : gmap NamespacedName float64;
  mClassifiedConfidence : gmap NamespacedName float64;
  mForecastFailuresTotal : gmap NamespacedName Z;
  mMetricsUnavailableTotal : gmap NamespacedName Z;
}.

Definition no_samples : Metrics := mkMetrics ∅ ∅ ∅ ∅ ∅ ∅ ∅ ∅.

(** [Inc] of a child. *)
Definition inc `{Countable K} (k : K) (m : gmap K Z) : gmap K Z :=
  <[k := deref_or (m !! k) 0 + 1]> m.

Definition patternEnum : list (string * Z) :=
  [(EmptyString, 0); (PatternDefault, 0); (PatternFlat, 1); (PatternPeriodic, 2);
   (PatternSpiky, 3); (PatternGradualRamp, 4)].

Definition confidenceEnum : list (string * Z) := [("low", 0); ("medium", 1); ("high", 2)].

Definition enum_value (l : list (string * Z)) (s : string) : option float64 :=
  f64_of_Z <$> (list_to_map l : gmap string Z) !! s.

(** [Set] when the enum knows the label. *)
Definition set_enum (l : list (string * Z)) (label : string) (k : NamespacedName)
    (m : gmap NamespacedName float64) : gmap NamespacedName float64 :=
  match enum_value l label with Some v => <[k := v]> m | None => m end.

Definition observeReconcile (k : NamespacedName) (reason : string)
    (currentRpsVal predictedRpsVal rpsPerPodVal : float64) (m : Metrics) : Metrics :=
  {| mPredictedRPS := <[k := predictedRpsVal]> (mPredictedRPS m);
     mCurrentRPS := <[k := currentRpsVal]> (mCurrentRPS m);
     mRpsPerPod := <[k := rpsPerPodVal]> (mRpsPerPod m);
     mScaleEventsTotal := inc (k, reason) (mScaleEventsTotal m);
     mClassifiedPattern := mClassifiedPattern m;
     mClassifiedConfidence := mClassifiedConfidence m;
     mForecastFailuresTotal := mForecastFailuresTotal m;
     mMetricsUnavailableTotal := mMetricsUnavailableTotal m |}.

Definition observeClassification (k : NamespacedName) (pattern confidence : string)
    (m : Metrics) : Metrics :=
  {| mPredictedRPS := mPredictedRPS m;
     mCurrentRPS := mCurrentRPS m;
     mRpsPerPod := mRpsPerPod m;
     mScaleEventsTotal := mScaleEventsTotal m;
     mClassifiedPattern := set_enum patternEnum pattern k (mClassifiedPattern m);
     mClassifiedConfidence := set_enum confidenceEnum confidence k (mClassifiedConfidence m);
     mForecastFailuresTotal := mForecastFailuresTotal m;
     mMetricsUnavailableTotal := mMetricsUnavailableTotal m |}.

Definition observeForecastFailure (k : NamespacedName) (m : Metrics) : Metrics :=
  {| mPredictedRPS := mPredictedRPS m;
     mCurrentRPS := mCurrentRPS m;
     mRpsPerPod := mRpsPerPod m;
     mScaleEventsTotal := mScaleEventsTotal m;
     mClassifiedPattern := mClassifiedPattern m;
     mClassifiedConfidence := mClassifiedConfidence m;
     mForecastFailuresTotal := inc k (mForecastFailuresTotal m);
     mMetricsUnavailableTotal := mMetricsUnavailableTotal m |}.

Definition observeMetricsUnavailable (k : NamespacedName) (m : Metrics) : Metrics :=
  {| mPredictedRPS := mPredictedRPS m;
     mCurrentRPS := mCurrentRPS m;
     mRpsPerPod := mRpsPerPod m;
     mScaleEventsTotal := mScaleEventsTotal m;
     mClassifiedPattern := mClassifiedPattern m;
     mClassifiedConfidence := mClassifiedConfidence m;
     mForecastFailuresTotal := mForecastFailuresTotal m;
     mMetricsUnavailableTotal := inc k (mMetricsUnavailableTotal m) |}.

(** Every label the classifier can produce has its own gauge value. *)
Lemma patternEnum_total p : p ∈ crd_patterns → is_Some (enum_value patternEnum p).
Proof.
  unfold crd_patterns. rewrite !elem_of_cons, elem_of_nil.
  intros [->|[->|[->|[->|[->|[]]]]]]; vm_compute; eauto.
Qed.

Lemma patternEnum_inj p q v :
  p ∈ crd_patterns → q ∈ crd_patterns →
  enum_value patternEnum p = Some v → enum_value patternEnum q = Some v → p = q.
Proof.
  unfold crd_patterns. rewrite !elem_of_cons, !elem_of_nil.
  intros [->|[->|[->|[->|[->|[]]]]]] [->|[->|[->|[->|[->|[]]]]]] Hp Hq;
    try reflexivity; vm_compute in Hp, Hq; congruence.
Qed.
