(* ===== verification/Controller.v ===== *)
(** * internal/controller/agenticautoscaler_controller.go: the reconcile loop

    [Reconcile] as a computation over the controller's state: the outside world
    behind the interfaces, the state store, the classifier manager, the metrics, the
    explain channel, and the transcript of its calls with their answers.  The steps of the
    source are separate definitions composed in its order; an early return of the
    source is a computation that ends with the same outcome. *)
From S2P Require Import Prelude Float64 FloatOrder FloatRound Reasoning Config Api State.
From S2P Require Import Decision Capacity Webhook Features Classifier Channels Adapters.
From S2P Require Import Interfaces Worker Manager Metrics.
From Stdlib Require Import SpecFloat.

Definition ringBufferCapacity : Z := 10.

Definition AnnotationSkipContext : string := "autoscaling.agentic.io/skip-context".

(** The text of an Event: a formatted text, or a token with an error's text. *)
Inductive EventMessage :=
| MsgText (s : string)
| MsgError (token : string) (e : ClientError).

(** A patch of a scale subresource: for which CR, on which Deployment, from the count
    read to the count written, decided at which time, and whether it succeeded. *)
Record ScalePatch := mkScalePatch {
  pa_cr : NamespacedName;
  pa_deployment : NamespacedName;
  pa_current : Z;
  pa_target : Z;
  pa_now : Time;
  pa_ok : bool;
}.

(** The transcript of a reconcile: each call of an interface with its answer, each
    reading of the clock, each event and each request to the explainer. *)
Inductive Effect :=
| EGetAAS (key : NamespacedName) (r : result ApiError AgenticAutoscaler)
| EListHPA (namespace : string) (r : result ApiError (list HPA))
| EInstantQuery (query : string) (r : result ClientError float64)
| ERangeQuery (query : string) (start end_ : Time) (step : Duration)
    (r : result ClientError (list Prometheus.Sample))
| ERecommend (req : Forecast.RecommendRequest) (r : result ClientError Forecast.RecommendResponse)
| EGetDeployment (key : NamespacedName) (r : result ApiError Deployment)
| ENow (t : Time)
| EScale (p : ScalePatch)
| EStatus (aas : AgenticAutoscaler) (r : result ApiError ())
| EEvent (aas : AgenticAutoscaler) (type : EventType) (reason : string) (msg : EventMessage)
| ENotify (req : ExplainRequest).

Record CtlState (W : Type) := mkCtl {
  cs_world : W;
  cs_store : StateStore;
  cs_classifier : option Manager;
  cs_metrics : Metrics;
  cs_explain : option ExplainRequest;
  cs_log : list Effect;
}.
Arguments mkCtl {W} _ _ _ _ _ _.
Arguments cs_world {W} _.
Arguments cs_store {W} _.
Arguments cs_classifier {W} _.
Arguments cs_metrics {W} _.
Arguments cs_explain {W} _.
Arguments cs_log {W} _.

(** What [Reconcile] returns: a requeue delay and an error, or a panic. *)
Inductive Outcome :=
| Finished (requeueAfter : Duration) (err : option ApiError)
| Panicked.

(** ** Pure helpers *)

Definition laterOf (a b : Time) : Time := if time_After a b then a else b.

Definition durationSecondsAsInt32 (d : Duration) : Z := sat32 (Z.quot d Second).

Definition classifiedPattern (aas : AgenticAutoscaler) : string :=
  match st_ClassifiedParams (aas_Status aas) with None => EmptyString | Some cp => cp_Pattern cp end.

Definition classifiedConfidence (aas : AgenticAutoscaler) : string :=
  match st_ClassifiedParams (aas_Status aas) with
  | None => EmptyString | Some cp => cp_Confidence cp end.

(** The context block, when there is one. *)
Definition classified_context (aas : AgenticAutoscaler) : option ContextFields :=
  st_ClassifiedParams (aas_Status aas) ≫= cp_Context.

Definition classifiedBaselineRPS (aas : AgenticAutoscaler) : Z :=
  match classified_context aas with None => 0 | Some c => ctx_BaselineRPS c end.

Definition classifiedPeakP95RPS (aas : AgenticAutoscaler) : Z :=
  match classified_context aas with None => 0 | Some c => ctx_PeakP95RPS c end.

Definition classifiedHourlyProfileValid (aas : AgenticAutoscaler) : bool :=
  match classified_context aas with None => false | Some c => ctx_HourlyProfileValid c end.

Definition buildParamSources (cfg : Config) (aas : AgenticAutoscaler) : ParamSources :=
  let spec := aas_Spec aas in
  {| ps_Spec :=
       {| sp_ScaleUpCooldown := spec_ScaleUpCooldownSeconds spec;
          sp_ScaleDownCooldown := spec_ScaleDownCooldownSeconds spec;
          sp_MaxStepSize := spec_MaxStepSize spec;
          sp_PreferredForecaster := spec_PreferredForecaster spec |};
     ps_Classified :=
       match st_ClassifiedParams (aas_Status aas) with
       | None => None
       | Some cp => Some (mkClassifiedParams (cp_ScaleUpCooldownSeconds cp)
                            (cp_ScaleDownCooldownSeconds cp) (cp_MaxStepSize cp)
                            (cp_PreferredForecaster cp))
       end;
     ps_Defaults :=
       {| dp_ScaleUpCooldown := durationSecondsAsInt32 (cfg_DefaultScaleUpCooldown cfg);
          dp_ScaleDownCooldown := durationSecondsAsInt32 (cfg_DefaultScaleDownCooldown cfg);
          dp_MaxStepSize := cfg_DefaultMaxStepSize cfg |} |}.

Definition buildStatusSeed (aas : AgenticAutoscaler) : StatusSeed :=
  let min := deref_or (spec_RpsPerPodMin (aas_Spec aas)) 50 in
  let max := deref_or (spec_RpsPerPodMax (aas_Spec aas)) 500 in
  let current := f64_of_Z (st_RpsPerPodCurrent (aas_Status aas)) in
  let inBounds := (current >=? f64_of_Z min)%f64 && (current <=? f64_of_Z max)%f64 in
  {| seed_RpsPerPodCurrent := current;
     seed_InBounds := inBounds;
     seed_Midpoint := (f64_of_Z (min +₃₂ max) / f2)%f64;
     seed_LastScaleTime := deref_or (st_LastScaleTime (aas_Status aas)) 0 |}.

(** Step 5, first part: fold the observation into the window when the gate is open;
    [None] is the panic of a push into a buffer without capacity. *)
Definition observe_rps (cfg : Config) (st : PerCRState) (currentRPS : float64)
    (currentReplicas : Z) (now : Time) : option PerCRState :=
  let lastScale := laterOf (pc_LastScaleUpTime st) (pc_LastScaleDownTime st) in
  if ShouldUpdateRpsPerPodWithFloor currentRPS currentReplicas lastScale now
       (cfg_ReconcileInterval cfg) (f64_of_Z (cfg_RpsPerPodNoiseFloorRPS cfg))
  then
    obs ← Push (pc_Observations st) (currentRPS / f64_of_Z currentReplicas)%f64;
    Some (mkPerCRState obs (Median obs) (pc_LastScaleUpTime st) (pc_LastScaleDownTime st)
            (pc_Initialized st))
  else Some st.

(** What steps 5 to 8 decide. *)
Record ScaleDecision := mkScaleDecision {
  sd_RpsPerPod : float64;
  sd_MinReplicas : Z;
  sd_MaxReplicas : Z;
  sd_Unbounded : Z;
  sd_Recommended : Z;
  sd_Cap : CapOutput;
}.

(** Step 5, second part, and steps 6 to 8, on the state after the observation. *)
Definition decide_scale `{GoPlatform} (aas : AgenticAutoscaler) (effective : EffectiveParams)
    (st : PerCRState) (predictedRPS : float64) (currentReplicas : Z) (now : Time) :
    ScaleDecision :=
  let rpsPerPodMin := deref_or (spec_RpsPerPodMin (aas_Spec aas)) 50 in
  let rpsPerPodMax := deref_or (spec_RpsPerPodMax (aas_Spec aas)) 500 in
  let rpsPerPod := ClampRpsPerPod (pc_RpsPerPod st) rpsPerPodMin rpsPerPodMax in
  let minReplicas := deref_or (spec_MinReplicas (aas_Spec aas)) 2 in
  let maxReplicas := deref_or (spec_MaxReplicas (aas_Spec aas)) 10 in
  let unbounded := ComputeUnboundedRecommended predictedRPS rpsPerPod in
  let '(recommended, bindingReason) := ClampRecommended unbounded minReplicas maxReplicas in
  let capOut := ApplyCapAndCooldown
    {| ci_Recommended := recommended; ci_Current := currentReplicas;
       ci_MaxStep := ep_MaxStep effective; ci_CooldownUp := ep_CooldownUp effective;
       ci_CooldownDown := ep_CooldownDown effective;
       ci_LastScaleUp := pc_LastScaleUpTime st; ci_LastScaleDown := pc_LastScaleDownTime st;
       ci_Now := now; ci_BindingReason := bindingReason |} in
  mkScaleDecision rpsPerPod minReplicas maxReplicas unbounded recommended capOut.

(** The clock of the direction that was just patched. *)
Definition record_scale (st : PerCRState) (target currentReplicas : Z) (now : Time) : PerCRState :=
  if decide (target > currentReplicas)
  then mkPerCRState (pc_Observations st) (pc_RpsPerPod st) now (pc_LastScaleDownTime st)
         (pc_Initialized st)
  else mkPerCRState (pc_Observations st) (pc_RpsPerPod st) (pc_LastScaleUpTime st) now
         (pc_Initialized st).

(** The event text of step 10. *)
Definition decision_message (d : ScaleDecision) (currentRPS : float64) (currentReplicas : Z)
    (resp : Forecast.RecommendResponse) : string :=
  co_Reason (sd_Cap d) +:+ " current_rps=" +:+ fmt_f1 currentRPS +:+
  " predicted_rps=" +:+ fmt_f1 (Forecast.PredictedRPS resp) +:+
  " current=" +:+ fmt_d currentReplicas +:+ " target=" +:+ fmt_d (co_Target (sd_Cap d)) +:+
  (if decide (sd_Unbounded d ≠ sd_Recommended d)
   then " recommended=" +:+ fmt_d (sd_Recommended d) +:+
        " unboundedRecommended=" +:+ fmt_d (sd_Unbounded d)
   else EmptyString) +:+
  " model=" +:+ Forecast.ModelUsed resp.

Definition explain_request (aas : AgenticAutoscaler) (effective : EffectiveParams)
    (d : ScaleDecision) (currentRPS : float64) (currentReplicas : Z)
    (resp : Forecast.RecommendResponse) : ExplainRequest :=
  {| ex_Namespace := aas_Namespace aas;
     ex_Name := aas_Name aas;
     ex_Reason := co_Reason (sd_Cap d);
     ex_CurrentReplicas := currentReplicas;
     ex_RecommendedReplicas := sd_Recommended d;
     ex_TargetReplicas := co_Target (sd_Cap d);
     ex_CurrentRPS := currentRPS;
     ex_PredictedRPS := Forecast.PredictedRPS resp;
     ex_HorizonMinutes := Forecast.HorizonMinutes resp;
     ex_ModelUsed := Forecast.ModelUsed resp;
     ex_Pattern := classifiedPattern aas;
     ex_Confidence := classifiedConfidence aas;
     ex_EffectiveCooldownUp := ep_CooldownUp effective;
     ex_EffectiveCooldownDown := ep_CooldownDown effective;
     ex_EffectiveMaxStep := ep_MaxStep effective;
     ex_UnboundedRecommended := sd_Unbounded d;
     ex_MaxReplicas := sd_MaxReplicas d;
     ex_MinReplicas := sd_MinReplicas d;
     ex_BaselineRPS := classifiedBaselineRPS aas;
     ex_PeakP95RPS := classifiedPeakP95RPS aas;
     ex_HourlyProfileValid := classifiedHourlyProfileValid aas |}.

(** Step 11: the status written after a decision. *)
Definition final_status `{GoPlatform} (aas : AgenticAutoscaler) (d : ScaleDecision)
    (resp : Forecast.RecommendResponse) (now : Time) : AgenticAutoscalerStatus :=
  {| st_Phase := PhaseReady;
     st_ConflictReason := EmptyString;
     st_CurrentReplicas := co_Target (sd_Cap d);
     st_RecommendedReplicas := sd_Recommended d;
     st_UnboundedRecommended := sd_Unbounded d;
     st_PredictedRPS := f64_to_i32 (Forecast.PredictedRPS resp);
     st_RpsPerPodCurrent := f64_to_i32 (sd_RpsPerPod d);
     st_LastScaleTime :=
       if co_ShouldPatch (sd_Cap d) then Some now else st_LastScaleTime (aas_Status aas);
     st_ClassifiedParams := st_ClassifiedParams (aas_Status aas) |}.

(** [fmt.Sprintf("HPA %q already manages this Deployment", name)]: quoting an object
    name, a DNS-1123 subdomain, only adds the quotes. *)
Definition conflict_reason (hpaName : string) : string :=
  "HPA " +:+ dq +:+ hpaName +:+ dq +:+ " already manages this Deployment".

(** The context block as the Forecast Service gets it. *)
Definition context_payload (c : ContextFields) (now : Time) : Forecast.ContextPayload :=
  {| Forecast.BaselineRPS := ctx_BaselineRPS c;
     Forecast.PeakP95RPS := ctx_PeakP95RPS c;
     Forecast.Trend24hSlope := ctx_Trend24hSlope c;
     Forecast.HourlyProfile := ctx_HourlyProfile c;
     Forecast.HourlyProfileValid := ctx_HourlyProfileValid c;
     Forecast.CurrentHourUTC := time_HourUTC now;
     Forecast.CurrentMinuteUTC := time_MinuteUTC now |}.

(** The model asked for: "auto" leaves the choice to the Forecast Service. *)
Definition preferred_model (effective : EffectiveParams) : string :=
  if decide (ep_Forecaster effective = "auto") then EmptyString else ep_Forecaster effective.

(** [!aas.DeletionTimestamp.IsZero()] *)
Definition deletion_pending (aas : AgenticAutoscaler) : bool :=
  match aas_DeletionTimestamp aas with Some t => negb (time_IsZero t) | None => false end.

Definition conflicting (aas : AgenticAutoscaler) (h : HPA) : bool :=
  bool_decide (hpa_RefKind h = ref_Kind (spec_TargetRef (aas_Spec aas))) &&
  bool_decide (hpa_RefName h = ref_Name (spec_TargetRef (aas_Spec aas))).

(** ** The reconciler *)
Section reconciler.
Context {W : Type} `{!ApiServer W} `{!PromQuerier W} `{!Forecaster W} `{!Clock W} `{GoPlatform}.
Context (cfg : Config).

Abbreviation CT := (ST (CtlState W)) (only parsing).

(** An operation of the outside world; an entry of the log; an update of one part. *)
Definition call {A} (m : ST W A) : CT A :=
  λ s, let '(a, world) := m (cs_world s) in
       (a, mkCtl world (cs_store s) (cs_classifier s) (cs_metrics s) (cs_explain s) (cs_log s)).
Definition log_effect (e : Effect) : CT unit :=
  st_modify (λ s, mkCtl (cs_world s) (cs_store s) (cs_classifier s) (cs_metrics s)
                    (cs_explain s) (cs_log s ++ [e])).
(** A call whose answer goes to the log. *)
Definition ask {A} (m : ST W A) (e : A → Effect) : CT A :=
  a ← call m; _ ← log_effect (e a); mret a.
Definition with_store {A} (f : StateStore → A * StateStore) : CT A :=
  λ s, let '(a, store) := f (cs_store s) in
       (a, mkCtl (cs_world s) store (cs_classifier s) (cs_metrics s) (cs_explain s) (cs_log s)).
Definition with_classifier (f : Manager → Manager) : CT unit :=
  st_modify (λ s, mkCtl (cs_world s) (cs_store s) (f <$> cs_classifier s) (cs_metrics s)
                    (cs_explain s) (cs_log s)).
Definition with_metrics (f : Metrics → Metrics) : CT unit :=
  st_modify (λ s, mkCtl (cs_world s) (cs_store s) (cs_classifier s) (f (cs_metrics s))
                    (cs_explain s) (cs_log s)).
Definition with_explain (f : option ExplainRequest → option ExplainRequest) : CT unit :=
  st_modify (λ s, mkCtl (cs_world s) (cs_store s) (cs_classifier s) (cs_metrics s)
                    (f (cs_explain s)) (cs_log s)).

Definition rnow : CT Time := ask clock_now ENow.
Definition requeueInterval : Duration := cfg_ReconcileInterval cfg.
Definition requeue : CT Outcome := mret (Finished requeueInterval None).

Definition event (aas : AgenticAutoscaler) (type : EventType) (token : string)
    (msg : EventMessage) : CT unit :=
  log_effect (EEvent aas type (PascalReason token) msg).

(** [r.Status().Update] *)
Definition update_status (aas : AgenticAutoscaler) : CT (result ApiError ()) :=
  ask (UpdateAASStatus aas) (EStatus aas).

(** [r.SubResource("scale").Update] *)
Definition update_scale (cr deployment : NamespacedName) (current target : Z) (now : Time) :
    CT (result ApiError ()) :=
  ask (UpdateScale deployment target)
    (λ r, EScale (mkScalePatch cr deployment current target now
                    (match r with Ok _ => true | Err _ => false end))).

Definition handleKillSwitch (aas : AgenticAutoscaler) : CT Outcome :=
  if decide (st_Phase (aas_Status aas) ≠ PhaseDisabled) then
    let aas := set_status (set_phase PhaseDisabled (aas_Status aas)) aas in
    r ← update_status aas;
    match r with
    | Err e => mret (Finished 0 (Some e))
    | Ok _ =>
        _ ← event aas EventTypeWarning KillSwitched
              (MsgText (KillSwitched +:+ ": kill-switch annotation present; controller paused"));
        requeue
    end
  else requeue.

Definition findConflictingHPA (aas : AgenticAutoscaler) :
    CT (result ApiError (option string)) :=
  r ← ask (ListHPA (aas_Namespace aas)) (EListHPA (aas_Namespace aas));
  mret match r with
       | Err e => Err e
       | Ok hpas => Ok (hpa_Name <$> (list_find (λ h, conflicting aas h = true) hpas ≫= λ p, Some p.2))
       end.

Definition handleConflict (aas : AgenticAutoscaler) (hpaName : string) : CT Outcome :=
  let reason := conflict_reason hpaName in
  if decide (st_Phase (aas_Status aas) ≠ PhaseConflict ∨
             st_ConflictReason (aas_Status aas) ≠ reason) then
    let aas := set_status (set_phase_reason PhaseConflict reason (aas_Status aas)) aas in
    r ← update_status aas;
    match r with
    | Err e => mret (Finished 0 (Some e))
    | Ok _ =>
        _ ← event aas EventTypeWarning ConflictDetected
              (MsgText (ConflictDetected +:+ ": " +:+ reason));
        requeue
    end
  else requeue.

Definition buildForecastContext (aas : AgenticAutoscaler) : CT (option Forecast.ContextPayload) :=
  if decide (annotation aas AnnotationSkipContext = "true") then mret None
  else
    match classified_context aas with
    | None => mret None
    | Some c => now ← rnow; mret (Some (context_payload c now))
    end.

(** The early returns for missing metrics. *)
Definition metrics_unavailable (aas : AgenticAutoscaler) (msg : EventMessage) : CT Outcome :=
  _ ← event aas EventTypeWarning MetricsUnavailable msg;
  _ ← with_metrics (observeMetricsUnavailable (aas_key aas));
  requeue.

(** Steps 10 and 11. *)
Definition finish (aas : AgenticAutoscaler) (effective : EffectiveParams) (d : ScaleDecision)
    (currentRPS : float64) (currentReplicas : Z) (resp : Forecast.RecommendResponse)
    (now : Time) : CT Outcome :=
  _ ← event aas EventTypeNormal (co_Reason (sd_Cap d))
        (MsgText (decision_message d currentRPS currentReplicas resp));
  _ ← with_metrics (observeReconcile (aas_key aas) (co_Reason (sd_Cap d)) currentRPS
        (Forecast.PredictedRPS resp) (sd_RpsPerPod d));
  _ ← with_metrics (observeClassification (aas_key aas) (classifiedPattern aas)
        (classifiedConfidence aas));
  _ ← (if co_ShouldPatch (sd_Cap d) then
         let req := explain_request aas effective d currentRPS currentReplicas resp in
         _ ← log_effect (ENotify req);
         with_explain (λ ch, Notify ch req)
       else mret ());
  let aas := set_status (final_status aas d resp now) aas in
  r ← update_status aas;
  match r with
  | Err e => mret (Finished 0 (Some e))
  | Ok _ => requeue
  end.

(** Step 9: patch the scale subresource and start the cooldown of its direction. *)
Definition patch_scale (key : NamespacedName) (p : loc) (st : PerCRState) (deploy : Deployment) (d : ScaleDecision)
    (currentReplicas : Z) (now : Time) (continue_ : CT Outcome) : CT Outcome :=
  if co_ShouldPatch (sd_Cap d) then
    r ← update_scale key (mkNN (dep_Namespace deploy) (dep_Name deploy)) currentReplicas
          (co_Target (sd_Cap d)) now;
    match r with
    | Err _ => requeue
    | Ok _ =>
        _ ← with_store (λ s, ((), assign s p
              (record_scale st (co_Target (sd_Cap d)) currentReplicas now)));
        continue_
    end
  else continue_.

(** Steps 5 to 11, on the CR's state behind the pointer [p]. *)
Definition decide_and_act (key : NamespacedName) (p : loc) (st : PerCRState) (aas : AgenticAutoscaler)
    (effective : EffectiveParams) (currentRPS : float64) (resp : Forecast.RecommendResponse)
    (deploy : Deployment) : CT Outcome :=
  let currentReplicas := deref_or (dep_Replicas deploy) 1 in
  now ← rnow;
  match observe_rps cfg st currentRPS currentReplicas now with
  | None => mret Panicked
  | Some st =>
      _ ← with_store (λ s, ((), assign s p st));
      let d := decide_scale aas effective st (Forecast.PredictedRPS resp) currentReplicas now in
      patch_scale key p st deploy d currentReplicas now
        (finish aas effective d currentRPS currentReplicas resp now)
  end.

(** The CR's state: looked up or created, and seeded from the status the first time. *)
Definition load_state (key : NamespacedName) (aas : AgenticAutoscaler) :
    CT (option (loc * PerCRState)) :=
  with_store (λ s,
    let '(p, s) := GetOrCreate s key ringBufferCapacity in
    match deref s p with
    | None => (None, s)
    | Some st =>
        if pc_Initialized st then (Some (p, st), s)
        else let st := InitializeFromStatus st (buildStatusSeed aas) in
             (Some (p, st), assign s p st)
    end).

(** The rest of the hot path once the forecast is in. *)
Definition with_forecast (key : NamespacedName) (aas : AgenticAutoscaler)
    (effective : EffectiveParams) (currentRPS : float64) (resp : Forecast.RecommendResponse) :
    CT Outcome :=
  let target := mkNN (aas_Namespace aas) (ref_Name (spec_TargetRef (aas_Spec aas))) in
  r ← ask (GetDeployment target) (EGetDeployment target);
  match r with
  | Err _ => requeue
  | Ok deploy =>
      let revision := deref_or (dep_Annotations deploy !! "deployment.kubernetes.io/revision")
                        EmptyString in
      _ ← with_classifier (λ m, (ObserveDeploymentRevision m key revision).2);
      s ← load_state key aas;
      match s with
      | None => mret Panicked
      | Some (p, st) => decide_and_act key p st aas effective currentRPS resp deploy
      end
  end.

(** Steps 3 and 4: the forecast call. *)
Definition call_forecast (key : NamespacedName) (aas : AgenticAutoscaler) (currentRPS : float64)
    (rpsHistory : list float64) : CT Outcome :=
  let effective := ResolveEffectiveParams (buildParamSources cfg aas) in
  context ← buildForecastContext aas;
  let req := Forecast.mkRequest rpsHistory (nn_String key) (preferred_model effective) context in
  r ← ask (fc_Recommend req) (ERecommend req);
  match r with
  | Err e =>
      _ ← event aas EventTypeWarning ForecastUnavailable (MsgError ForecastUnavailable e);
      _ ← with_metrics (observeForecastFailure (aas_key aas));
      requeue
  | Ok resp => with_forecast key aas effective currentRPS resp
  end.

(** Step 2: the two Prometheus queries. *)
Definition hot_path (key : NamespacedName) (aas : AgenticAutoscaler) : CT Outcome :=
  let deployName := ref_Name (spec_TargetRef (aas_Spec aas)) in
  r ← ask (pq_InstantQuery (InstantRPS deployName)) (EInstantQuery (InstantRPS deployName));
  match r with
  | Err e => metrics_unavailable aas (MsgError MetricsUnavailable e)
  | Ok currentRPS =>
      historyEnd ← rnow;
      let historyStart := time_Add historyEnd (wrap64 (- cfg_HotPathHistory cfg)) in
      r ← ask (pq_RangeQuery (RangeRPS deployName) historyStart historyEnd Minute)
            (ERangeQuery (RangeRPS deployName) historyStart historyEnd Minute);
      match r with
      | Err e => metrics_unavailable aas (MsgError MetricsUnavailable e)
      | Ok samples =>
          let n := Z.of_nat (length samples) in
          if decide (n < cfg_HotPathMinPoints cfg) then
            metrics_unavailable aas (MsgText (MetricsUnavailable +:+ ": only " +:+ fmt_d n +:+
              " range samples (need " +:+ fmt_d (cfg_HotPathMinPoints cfg) +:+ ")"))
          else call_forecast key aas currentRPS (Prometheus.Value <$> samples)
      end
  end.

(** The pre-checks. *)
Definition pre_checks (key : NamespacedName) (aas : AgenticAutoscaler) : CT Outcome :=
  if decide (annotation aas AnnotationKillSwitch = "true") then handleKillSwitch aas
  else if deletion_pending aas then mret (Finished 0 None)
  else
    r ← findConflictingHPA aas;
    match r with
    | Err e => mret (Finished 0 (Some e))
    | Ok (Some hpaName) => handleConflict aas hpaName
    | Ok None => hot_path key aas
    end.

(** The cold path's life cycle: make sure of a worker, pass a reclassify request on. *)
Definition ensure_worker (key : NamespacedName) (aas : AgenticAutoscaler) : CT unit :=
  with_classifier (λ m,
    let m := Ensure m aas in
    if decide (annotation aas AnnotationReclassify = "true") then SignalReclassify m key else m).

Definition Reconcile (key : NamespacedName) : CT Outcome :=
  r ← ask (GetAAS key) (EGetAAS key);
  match r with
  | Err e =>
      if IsNotFound e then
        _ ← with_store (λ s, ((), Delete s key));
        _ ← with_classifier (λ m, Stop m key);
        mret (Finished 0 None)
      else mret (Finished 0 (Some e))
  | Ok aas =>
      _ ← ensure_worker key aas;
      pre_checks key aas
  end.
End reconciler.
