(* ===== verification/ReconcileCases.v ===== *)
(** * What one reconcile can do

    A program logic for the computations of the reconciler, and the classification of
    the runs of [Reconcile]: how a reconcile can end, what it does outside, and what it
    leaves in the state store.  The safety theorems are read off this classification. *)
From S2P Require Import Prelude Float64 FloatOrder FloatRound Reasoning Config Api State.
From S2P Require Import Decision Capacity Webhook Channels Adapters Interfaces Worker.
From S2P Require Import Manager Metrics Controller.
From Stdlib Require Import SpecFloat.

(** ** States *)

(** A window of the controller's capacity that never overflows. *)
Definition window_ok (st : PerCRState) : Prop :=
  rb_cap (pc_Observations st) = ringBufferCapacity ∧ rb_wf (pc_Observations st).

Definition states_ok (σ : StateStore) : Prop :=
  store_wf σ ∧ ∀ k st, view σ k = Some st → window_ok st.

(** The state a reconcile of [key] starts from. *)
Definition loaded (σ : StateStore) (key : NamespacedName) (aas : AgenticAutoscaler) : PerCRState :=
  let st := deref_or (view σ key) (mkPerCRState (mkRB [] ringBufferCapacity) f0 0 0 false) in
  if pc_Initialized st then st else InitializeFromStatus st (buildStatusSeed aas).

(** The store after [key]'s state became [st]. *)
Definition stored (σ σ' : StateStore) (key : NamespacedName) (st : PerCRState) : Prop :=
  store_wf σ' ∧ view σ' key = Some st ∧ ∀ k, k ≠ key → view σ' k = view σ k.

Lemma states_ok_new : states_ok NewStateStore.
Proof.
  split; [apply NewStateStore_wf|]. intros k st. unfold view, Get. simpl. by rewrite lookup_empty.
Qed.

Lemma states_ok_stored σ σ' key st :
  states_ok σ → stored σ σ' key st → window_ok st → states_ok σ'.
Proof.
  intros [_ Hσ] (Hwf & Hv & Ho) Hst. split; [done|]. intros k st' Hk.
  destruct (decide (k = key)) as [->|Hne]; [by simplify_eq|]. rewrite Ho in Hk by done. eauto.
Qed.

Lemma states_ok_Delete σ key : states_ok σ → states_ok (Delete σ key).
Proof.
  intros [Hwf Hσ]. destruct (Delete_spec σ key Hwf) as (Hwf' & Hn & Ho). split; [done|].
  intros k st Hk. destruct (decide (k = key)) as [->|Hne]; [congruence|].
  rewrite Ho in Hk by done. eauto.
Qed.

Lemma SeedN_wf rb v n : rb_wf rb → rb_wf (SeedN rb v n) ∧ rb_cap (SeedN rb v n) = rb_cap rb.
Proof.
  intros [Hc Hl]. unfold SeedN, rb_wf, rb_len. simpl. rewrite length_replicate.
  split; [|done]. split; [lia|]. repeat case_decide; lia.
Qed.

Lemma InitializeFromStatus_window st seed : window_ok st → window_ok (InitializeFromStatus st seed).
Proof.
  intros [Hc Hw]. unfold InitializeFromStatus, window_ok.
  destruct (SeedN_wf (pc_Observations st) (seed_RpsPerPodCurrent seed) RestartSeedCopies Hw).
  destruct (seed_InBounds seed && _), (time_IsZero _); simpl; split; congruence || done.
Qed.

Lemma loaded_window σ key aas : states_ok σ → window_ok (loaded σ key aas).
Proof.
  intros [_ Hσ]. unfold loaded.
  assert (window_ok (deref_or (view σ key) (mkPerCRState (mkRB [] ringBufferCapacity) f0 0 0 false)))
    as Hd by (destruct (view σ key) eqn:E; simpl; [eauto|done]).
  case_match; [done|by apply InitializeFromStatus_window].
Qed.

Lemma loaded_initialized σ key aas : pc_Initialized (loaded σ key aas) = true.
Proof.
  unfold loaded. set (st := deref_or _ _). destruct (pc_Initialized st) eqn:E; [done|].
  unfold InitializeFromStatus.
  by destruct (seed_InBounds (buildStatusSeed aas) && _), (time_IsZero _).
Qed.

(** Observing cannot panic, and it only touches the window and the estimate. *)
Lemma observe_rps_spec cfg st rps n now :
  window_ok st →
  ∃ st', observe_rps cfg st rps n now = Some st' ∧ window_ok st' ∧
    pc_LastScaleUpTime st' = pc_LastScaleUpTime st ∧
    pc_LastScaleDownTime st' = pc_LastScaleDownTime st ∧
    pc_Initialized st' = pc_Initialized st.
Proof.
  intros [Hc Hw]. unfold observe_rps. case_match; [|by exists st].
  destruct (Push_spec (pc_Observations st) (rps / f64_of_Z n)%f64 Hw) as (rb & -> & Hw' & Hc' & _).
  eexists. split; [reflexivity|]. split_and!; try done. split; [simpl; congruence|done].
Qed.

Lemma record_scale_window st t n now : window_ok st → window_ok (record_scale st t n now).
Proof. unfold record_scale. by case_decide. Qed.

(** An entry of the log whose answer came from its interface. *)
Definition honest {W} `{!ApiServer W} `{!PromQuerier W} `{!Forecaster W} (e : Effect) : Prop :=
  match e with
  | EGetAAS key r => answers (GetAAS key) r
  | EListHPA namespace r => answers (ListHPA namespace) r
  | EInstantQuery query r => answers (pq_InstantQuery query) r
  | ERangeQuery query start end_ step r => answers (pq_RangeQuery query start end_ step) r
  | ERecommend req r => answers (fc_Recommend req) r
  | EGetDeployment key r => answers (GetDeployment key) r
  | EStatus aas r => answers (UpdateAASStatus aas) r
  | _ => True
  end.

(** The errors a reconcile passes on. *)
Definition fatal (e : Effect) : option ApiError :=
  match e with
  | EListHPA _ (Err e) | EStatus _ (Err e) => Some e
  | _ => None
  end.

(** ** The logic *)
Section logic.
Context {W : Type}.
Abbreviation CT := (ST (CtlState W)) (only parsing).

(** From a store [σ], [m] appends some [k] to the log and ends in a store [σ'], and
    its answer, [k] and [σ'] satisfy [Q]; whatever the rest of the state is. *)
Definition run {A} (m : CT A) (σ : StateStore) (Q : A → list Effect → StateStore → Prop) : Prop :=
  ∀ s, cs_store s = σ → ∃ k, cs_log (m s).2 = cs_log s ++ k ∧ Q (m s).1 k (cs_store (m s).2).

Context {A B : Type}.
Implicit Types (Q : B → list Effect → StateStore → Prop) (f : A → CT B).

Lemma run_ret (b : B) σ Q : Q b [] σ → run (mret b) σ Q.
Proof. intros HQ s <-. exists []. by rewrite app_nil_r. Qed.

Lemma run_mono (m : CT B) σ Q Q' :
  run m σ Q → (∀ b k σ', Q b k σ' → Q' b k σ') → run m σ Q'.
Proof. intros Hm HQ s Hs. destruct (Hm s Hs) as (k & ? & ?). eauto. Qed.

Lemma run_bind (m : CT A) f σ Q (Q1 : A → list Effect → StateStore → Prop) :
  run m σ Q1 → (∀ a k σ1, Q1 a k σ1 → run (f a) σ1 (λ b k2 σ2, Q b (k ++ k2) σ2)) →
  run (m ≫= f) σ Q.
Proof.
  intros Hm Hf s Hs. unfold mbind, st_bind. destruct (Hm s Hs) as (k1 & E1 & H1).
  destruct (m s) as [a s1]. simpl in *. destruct (Hf a k1 _ H1 s1 eq_refl) as (k2 & E2 & H2).
  exists (k1 ++ k2). by rewrite E2, E1, app_assoc.
Qed.

Lemma run_ask (m : ST W A) (e : A → Effect) f σ Q :
  (∀ a, answers m a → run (f a) σ (λ b k, Q b (e a :: k))) → run (ask m e ≫= f) σ Q.
Proof.
  intros Hf s Hs. unfold ask, call, log_effect, st_modify, mret, st_ret, mbind, st_bind.
  destruct (m (cs_world s)) as [a w'] eqn:E.
  destruct (Hf a (ex_intro _ _ (ex_intro _ _ E))
    (mkCtl w' (cs_store s) (cs_classifier s) (cs_metrics s) (cs_explain s)
       (cs_log s ++ [e a])) Hs) as (k & Ek & HQ).
  exists (e a :: k). simpl in *. by rewrite Ek, <- app_assoc.
Qed.

Lemma run_log e (f : unit → CT B) σ Q :
  run (f ()) σ (λ b k, Q b (e :: k)) → run (log_effect e ≫= f) σ Q.
Proof.
  intros Hf s Hs. unfold log_effect, st_modify, mbind, st_bind.
  destruct (Hf (mkCtl (cs_world s) (cs_store s) (cs_classifier s) (cs_metrics s) (cs_explain s)
    (cs_log s ++ [e])) Hs) as (k & E & HQ).
  exists (e :: k). simpl in *. by rewrite E, <- app_assoc.
Qed.

Lemma run_store (g : StateStore → A * StateStore) f σ Q :
  run (f (g σ).1) (g σ).2 Q → run (with_store g ≫= f) σ Q.
Proof.
  intros Hf s Hs. unfold with_store, mbind, st_bind. subst σ. destruct (g (cs_store s)) as [a σ'].
  by apply (Hf (mkCtl _ σ' _ _ _ _)).
Qed.

(** The updates of the other parts. *)
Lemma run_classifier g (f : unit → CT B) σ Q :
  run (f ()) σ Q → run (with_classifier g ≫= f) σ Q.
Proof. intros Hf s Hs. by apply (Hf (mkCtl _ (cs_store s) _ _ _ _)). Qed.

Lemma run_metrics g (f : unit → CT B) σ Q :
  run (f ()) σ Q → run (with_metrics g ≫= f) σ Q.
Proof. intros Hf s Hs. by apply (Hf (mkCtl _ (cs_store s) _ _ _ _)). Qed.

Lemma run_explain g σ (Q : unit → list Effect → StateStore → Prop) :
  Q () [] σ → run (with_explain g) σ Q.
Proof. intros HQ s <-. exists []. by rewrite app_nil_r. Qed.
End logic.

Definition succeeded {E A} (r : result E A) : bool :=
  match r with Ok _ => true | Err _ => false end.

(** One step of the code. *)
Ltac run_step :=
  match goal with
  | |- run (mret _) _ _ => apply run_ret
  | |- run (requeue _) _ _ => apply run_ret
  | |- run (log_effect _ ≫= _) _ _ => apply run_log
  | |- run (event _ _ _ _ ≫= _) _ _ => apply run_log
  | |- run (with_metrics _ ≫= _) _ _ => apply run_metrics
  | |- run (with_classifier _ ≫= _) _ _ => apply run_classifier
  | |- run (update_status _ ≫= _) _ _ => apply run_ask; intros ? ?
  | |- run (update_scale _ _ _ _ _ ≫= _) _ _ => apply run_ask; intros ? ?
  | |- run (ask _ _ ≫= _) _ _ => apply run_ask; intros ? ?
  | |- run (rnow ≫= _) _ _ => apply run_ask; intros ? ?
  end.

(** ** Outcomes *)
Section outcomes.
Context {W : Type} `{!ApiServer W} `{!PromQuerier W} `{!Forecaster W} `{!Clock W} `{GoPlatform}.
Context (cfg : Config) (key : NamespacedName) (aas : AgenticAutoscaler).

Definition effective : EffectiveParams := ResolveEffectiveParams (buildParamSources cfg aas).
Definition deploy_name : string := ref_Name (spec_TargetRef (aas_Spec aas)).

(** One decision: what was answered on the way to it, and the CR's state after the
    observation. *)
Record Decided := mkDecided {
  de_hpas : list HPA;
  de_rps : float64;
  de_end : Time;                          (* the end of the history *)
  de_samples : list Prometheus.Sample;
  de_context_now : option Time;           (* the hour in the context, if there is one *)
  de_resp : Forecast.RecommendResponse;
  de_deploy : Deployment;
  de_now : Time;
  de_st : PerCRState;
}.

Definition de_current (x : Decided) : Z := deref_or (dep_Replicas (de_deploy x)) 1.
Definition de_decision (x : Decided) : ScaleDecision :=
  decide_scale aas effective (de_st x) (Forecast.PredictedRPS (de_resp x)) (de_current x) (de_now x).
Definition de_patch (x : Decided) (ok : bool) : ScalePatch :=
  mkScalePatch key (mkNN (dep_Namespace (de_deploy x)) (dep_Name (de_deploy x)))
    (de_current x) (co_Target (sd_Cap (de_decision x))) (de_now x) ok.
Definition de_request (x : Decided) : ExplainRequest :=
  explain_request aas effective (de_decision x) (de_rps x) (de_current x) (de_resp x).
Definition de_status (x : Decided) : AgenticAutoscaler :=
  set_status (final_status aas (de_decision x) (de_resp x) (de_now x)) aas.

(** The forecast asked for: exactly the samples received, for this CR. *)
Definition de_context (t : option Time) : option Forecast.ContextPayload :=
  t ≫= λ now, (λ c, context_payload c now) <$> classified_context aas.
Definition forecast_request (samples : list Prometheus.Sample) (t : option Time) :
    Forecast.RecommendRequest :=
  Forecast.mkRequest (Prometheus.Value <$> samples) (nn_String key) (preferred_model effective)
    (de_context t).

(** The transcript up to a decision, from the first answer to the last. *)
Definition history_start (end_ : Time) : Time := time_Add end_ (wrap64 (- cfg_HotPathHistory cfg)).
Definition queried (x : Decided) : list Effect :=
  [EListHPA (aas_Namespace aas) (Ok (de_hpas x));
   EInstantQuery (InstantRPS deploy_name) (Ok (de_rps x));
   ENow (de_end x);
   ERangeQuery (RangeRPS deploy_name) (history_start (de_end x)) (de_end x) Minute
     (Ok (de_samples x))].
Definition clock_entries (t : option Time) : list Effect := option_list (ENow <$> t).
Definition transcript (x : Decided) : list Effect :=
  queried x ++ clock_entries (de_context_now x) ++
  [ERecommend (forecast_request (de_samples x) (de_context_now x)) (Ok (de_resp x));
   EGetDeployment (mkNN (aas_Namespace aas) deploy_name) (Ok (de_deploy x));
   ENow (de_now x)].

(** No pre-check stops the reconcile. *)
Record active (hpas : list HPA) : Prop := {
  ac_switch : annotation aas AnnotationKillSwitch ≠ "true";
  ac_alive : deletion_pending aas = false;
  ac_alone : Forall (λ h, conflicting aas h = false) hpas;
}.

(** No context is sent: the CR opts out, or the classifier stored none. *)
Definition no_context : Prop :=
  annotation aas AnnotationSkipContext = "true" ∨ classified_context aas = None.

(** The answers allow a decision. *)
Record justified (x : Decided) : Prop := {
  ju_active : active (de_hpas x);
  ju_points : cfg_HotPathMinPoints cfg <= Z.of_nat (length (de_samples x));
  ju_context : de_context_now x = None ↔ no_context;
}.

(** A decision of a reconcile that starts from [σ]. *)
Record deciding (σ : StateStore) (x : Decided) : Prop := {
  dc_answered : Forall (honest (W := W)) (transcript x);
  dc_justified : justified x;
  dc_observed : observe_rps cfg (loaded σ key aas) (de_rps x) (de_current x) (de_now x) =
    Some (de_st x);
}.

(** The entries of steps 10 and 11. *)
Definition closing (x : Decided) (r : result ApiError ()) : list Effect :=
  EEvent aas EventTypeNormal (PascalReason (co_Reason (sd_Cap (de_decision x))))
    (MsgText (decision_message (de_decision x) (de_rps x) (de_current x) (de_resp x))) ::
  (if co_ShouldPatch (sd_Cap (de_decision x)) then [ENotify (de_request x)] else []) ++
  [EStatus (de_status x) r].

(** Steps 9 to 11, on the state after the observation. *)
Inductive acted (σ : StateStore) (x : Decided) : list Effect → StateStore → Prop :=
| ac_held r σ' :
    co_ShouldPatch (sd_Cap (de_decision x)) = false →
    stored σ σ' key (de_st x) → acted σ x (closing x r) σ'
| ac_patch_failed σ' :
    co_ShouldPatch (sd_Cap (de_decision x)) = true → stored σ σ' key (de_st x) →
    acted σ x [EScale (de_patch x false)] σ'
| ac_patched r σ' :
    co_ShouldPatch (sd_Cap (de_decision x)) = true →
    stored σ σ' key (record_scale (de_st x) (co_Target (sd_Cap (de_decision x)))
                       (de_current x) (de_now x)) →
    acted σ x (EScale (de_patch x true) :: closing x r) σ'.

(** What a paused reconcile does: it may look for HPAs, and at most change the phase. *)
Definition pause_effect (e : Effect) : Prop :=
  match e with
  | EListHPA namespace _ => namespace = aas_Namespace aas
  | EStatus aas' _ => ∃ p r, p ∈ [PhaseDisabled; PhaseConflict] ∧
      aas' = set_status (set_phase_reason p r (aas_Status aas)) aas
  | EEvent _ EventTypeWarning _ _ => True
  | _ => False
  end.

(** Why it is paused. *)
Definition pause_cause (k : list Effect) : Prop :=
  annotation aas AnnotationKillSwitch = "true" ∨ deletion_pending aas = true ∨
  (∃ e, EListHPA (aas_Namespace aas) (Err e) ∈ k) ∨
  ∃ hpas, EListHPA (aas_Namespace aas) (Ok hpas) ∈ k ∧ Exists (λ h, conflicting aas h = true) hpas.

(** The questions of a reconcile, answered or not. *)
Definition query_effect (e : Effect) : Prop :=
  match e with
  | EInstantQuery query _ => query = InstantRPS deploy_name
  | ERangeQuery query start end_ step _ =>
      query = RangeRPS deploy_name ∧ step = Minute ∧ start = history_start end_
  | ERecommend req _ =>
      ∃ samples t, req = forecast_request samples t ∧ (t = None ↔ no_context)
  | EGetDeployment target _ => target = mkNN (aas_Namespace aas) deploy_name
  | ENow _ => True
  | _ => False
  end.

(** What a reconcile without data does: ask, and report that it got none. *)
Definition probe_effect (e : Effect) : Prop :=
  match e with
  | EEvent _ EventTypeWarning reason _ =>
      reason ∈ [PascalReason MetricsUnavailable; PascalReason ForecastUnavailable]
  | _ => query_effect e
  end.

(** The answer that was missing. *)
Definition shortfall (e : Effect) : Prop :=
  match e with
  | EInstantQuery _ (Err _) | ERangeQuery _ _ _ _ (Err _) | ERecommend _ (Err _)
  | EGetDeployment _ (Err _) => True
  | ERangeQuery _ _ _ _ (Ok samples) => Z.of_nat (length samples) < cfg_HotPathMinPoints cfg
  | _ => False
  end.

(** How a reconcile of a CR ends: held up by a pre-check, without data, or with a
    decision. *)
Inductive reconciled (σ : StateStore) : list Effect → StateStore → Prop :=
| rc_paused k :
    pause_cause k → Forall pause_effect k → reconciled σ k σ
| rc_no_data hpas k :
    active hpas → Forall probe_effect k → Exists shortfall k →
    reconciled σ (EListHPA (aas_Namespace aas) (Ok hpas) :: k) σ
| rc_decided x k σ' :
    deciding σ x → acted σ x k σ' → reconciled σ (transcript x ++ k) σ'.

(** What [Reconcile] returns for a CR it read, as a function of the transcript. *)
Definition outcome_of (k : list Effect) : Outcome :=
  match omap fatal k with
  | e :: _ => Finished 0 (Some e)
  | [] => if bool_decide (annotation aas AnnotationKillSwitch ≠ "true") && deletion_pending aas
          then Finished 0 None else Finished (cfg_ReconcileInterval cfg) None
  end.
End outcomes.

(** ** Every run is one of these *)
Section cases.
Context {W : Type} `{!ApiServer W} `{!PromQuerier W} `{!Forecaster W} `{!Clock W} `{GoPlatform}.
Context (cfg : Config) (key : NamespacedName) (aas : AgenticAutoscaler).

(** What the transcript [pre] and the rest of the reconcile amount to. *)
Definition ends (σ : StateStore) (pre : list Effect) (o : Outcome) (k : list Effect)
    (σ' : StateStore) : Prop :=
  o = outcome_of cfg aas (pre ++ k) ∧ reconciled (W := W) cfg key aas σ (pre ++ k) σ'.

(** The outcome of a reconcile that no pre-check stops is decided by its failed writes. *)
Lemma outcome_active hpas k :
  active aas hpas →
  outcome_of cfg aas k =
    match omap fatal k with
    | e :: _ => Finished 0 (Some e)
    | [] => Finished (cfg_ReconcileInterval cfg) None
    end.
Proof. intros [_ Hd _]. unfold outcome_of. by rewrite Hd, andb_false_r. Qed.

Lemma fatal_cons e k : fatal e = None → omap fatal (e :: k) = omap fatal k.
Proof. intros He. cbn. by rewrite He. Qed.

Lemma closing_fatal x r :
  omap fatal (closing cfg aas x r) = match r with Ok _ => [] | Err e => [e] end.
Proof. unfold closing. by destruct (co_ShouldPatch _), r. Qed.

Lemma query_not_fatal pre : Forall (query_effect cfg key aas) pre → omap fatal pre = [].
Proof. apply omap_none. by intros []. Qed.

Lemma probe_not_fatal k : Forall (probe_effect cfg key aas) k → omap fatal k = [].
Proof. apply omap_none. by intros []. Qed.

Lemma transcript_fatal x : omap fatal (transcript cfg key aas x) = [].
Proof. unfold transcript. by destruct (de_context_now x). Qed.

Lemma run_finish x σ :
  run (W := W) (finish cfg aas (effective cfg aas) (de_decision cfg aas x) (de_rps x) (de_current x)
         (de_resp x) (de_now x)) σ
    (λ o k σ', σ' = σ ∧ ∃ r, k = closing cfg aas x r ∧
       o = match r with Ok _ => Finished (cfg_ReconcileInterval cfg) None
                      | Err e => Finished 0 (Some e) end).
Proof.
  unfold finish. do 3 run_step.
  eapply (run_bind _ _ _ _ (λ _ k σ', σ' = σ ∧
    k = if co_ShouldPatch (sd_Cap (de_decision cfg aas x)) then [ENotify (de_request cfg aas x)] else [])).
  - destruct (co_ShouldPatch _); [run_step; by apply run_explain|by run_step].
  - intros [] k σ1 [-> ->]. run_step.
    match goal with r : result ApiError () |- _ =>
      destruct r as [[]|e]; run_step; (split; [done|]);
        [by exists (Ok tt)|by exists (Err e)]
    end.
Qed.

Lemma stored_assign σ σ1 p st st' :
  Get σ1 key = Some p → stored σ σ1 key st →
  stored σ (assign σ1 p st') key st' ∧ Get (assign σ1 p st') key = Some p.
Proof.
  intros Hp (Hwf & Hv & Ho). destruct (assign_spec σ1 key p st' Hwf Hp) as (Hwf' & Hp' & Hv' & Ho').
  split; [|done]. split_and!; [done..|]. intros k Hk. by rewrite Ho', Ho.
Qed.

Lemma run_load_state {B} σ (f : option (loc * PerCRState) → ST (CtlState W) B) Q :
  states_ok σ →
  (∀ p σ1, Get σ1 key = Some p → stored σ σ1 key (loaded σ key aas) →
     run (f (Some (p, loaded σ key aas))) σ1 Q) →
  run (load_state key aas ≫= f) σ Q.
Proof.
  intros [Hwf _] Hf. apply run_store.
  pose proof (GetOrCreate_spec σ key ringBufferCapacity Hwf) as HG.
  destruct (GetOrCreate σ key ringBufferCapacity) as [p σ1].
  destruct HG as (Hwf1 & Hp & Hv & Ho).
  assert (deref σ1 p = view σ1 key) as -> by (unfold view; by rewrite Hp). rewrite Hv.
  specialize (Hf p). unfold loaded in Hf. set (st := deref_or (view σ key) _) in *.
  assert (stored σ σ1 key st) as Hst by done.
  destruct (pc_Initialized st); [by apply Hf|].
  destruct (stored_assign σ σ1 p st (InitializeFromStatus st (buildStatusSeed aas)) Hp Hst).
  by apply Hf.
Qed.

(** Steps 9 to 11 of a decision, whose CR's state is behind [p]. *)
Lemma run_patch_scale x σ σ1 p :
  Get σ1 key = Some p → stored σ σ1 key (de_st x) → active aas (de_hpas x) →
  run (W := W) (patch_scale cfg key p (de_st x) (de_deploy x) (de_decision cfg aas x) (de_current x)
         (de_now x) (finish cfg aas (effective cfg aas) (de_decision cfg aas x) (de_rps x)
                       (de_current x) (de_resp x) (de_now x))) σ1
    (λ o k σ', acted cfg key aas σ x k σ' ∧ o = outcome_of cfg aas k).
Proof.
  intros Hp Hst Hact. unfold patch_scale. destruct (co_ShouldPatch _) eqn:Hsp.
  - run_step. match goal with r : result ApiError () |- _ => destruct r as [[]|e] end.
    + apply run_store. simpl.
      destruct (stored_assign σ σ1 p _ (record_scale (de_st x)
        (co_Target (sd_Cap (de_decision cfg aas x))) (de_current x) (de_now x)) Hp Hst) as [Hst' _].
      eapply run_mono; [apply (run_finish x)|]. intros o k σ' [-> (r & -> & ->)].
      split; [by apply (ac_patched cfg key aas σ x)|].
      rewrite (outcome_active _ _ Hact), fatal_cons, closing_fatal by done. by destruct r.
    + run_step. split; [by apply (ac_patch_failed cfg key aas σ x)|].
      by rewrite (outcome_active _ _ Hact).
  - eapply run_mono; [apply (run_finish x)|]. intros o k σ' [-> (r & -> & ->)].
    split; [by apply (ac_held cfg key aas σ x)|].
    rewrite (outcome_active _ _ Hact), closing_fatal. by destruct r.
Qed.

(** From the last reading of the clock on; [x] is the decision but for that reading and
    the state after the observation. *)
Lemma run_decide_and_act x σ σ1 p :
  states_ok σ → Get σ1 key = Some p → stored σ σ1 key (loaded σ key aas) →
  active aas (de_hpas x) →
  run (W := W) (decide_and_act cfg key p (loaded σ key aas) aas (effective cfg aas) (de_rps x)
         (de_resp x) (de_deploy x)) σ1
    (λ o k σ', ∃ now st k', k = ENow now :: k' ∧ answers clock_now now ∧
       let x' := mkDecided (de_hpas x) (de_rps x) (de_end x) (de_samples x) (de_context_now x)
                   (de_resp x) (de_deploy x) now st in
       observe_rps cfg (loaded σ key aas) (de_rps x) (de_current x) now = Some st ∧
       acted cfg key aas σ x' k' σ' ∧ o = outcome_of cfg aas k').
Proof.
  intros Hok Hp Hst Hact. unfold decide_and_act. run_step.
  match goal with t : Time |- _ => rename t into now end.
  destruct (observe_rps_spec cfg (loaded σ key aas) (de_rps x) (de_current x) now)
    as (st & Hobs & _); [by apply loaded_window|]. fold (de_current x).
  rewrite Hobs. apply run_store. simpl.
  destruct (stored_assign σ σ1 p _ st Hp Hst) as [Hst1 Hp1].
  set (x' := mkDecided (de_hpas x) (de_rps x) (de_end x) (de_samples x) (de_context_now x)
               (de_resp x) (de_deploy x) now st).
  eapply run_mono; [by apply (run_patch_scale x' σ _ p)|].
  intros o k σ' [Ha Ho]. by exists now, st, k.
Qed.

Lemma run_buildForecastContext σ :
  run (W := W) (buildForecastContext aas) σ (λ ctx k σ', ∃ t, k = clock_entries t ∧ σ' = σ ∧
    ctx = de_context aas t ∧ (t = None ↔ no_context aas)).
Proof.
  unfold buildForecastContext, no_context, de_context.
  case_decide; [run_step; exists None; naive_solver|].
  destruct (classified_context aas); [|run_step; exists None; naive_solver].
  run_step. run_step. eexists (Some _). naive_solver.
Qed.

Lemma no_data hpas σ pre k :
  active aas hpas → Forall (query_effect cfg key aas) pre → Forall (probe_effect cfg key aas) k →
  Exists (shortfall cfg) (pre ++ k) →
  ends σ (EListHPA (aas_Namespace aas) (Ok hpas) :: pre)
    (Finished (cfg_ReconcileInterval cfg) None) k σ.
Proof.
  intros Ha Hpre Hk Hs. split.
  - rewrite (outcome_active _ _ Ha).
    rewrite omap_app, (probe_not_fatal _ Hk), app_nil_r.
    by rewrite fatal_cons, (query_not_fatal _ Hpre).
  - apply rc_no_data; [done| |done]. apply Forall_app. split; [|done].
    eapply Forall_impl; [exact Hpre|]. by intros [].
Qed.

(** The decided case of a transcript that is complete but for the clock. *)
Lemma decided_after x now st σ k σ' :
  let x' := mkDecided (de_hpas x) (de_rps x) (de_end x) (de_samples x) (de_context_now x)
              (de_resp x) (de_deploy x) now st in
  Forall (honest (W := W)) (transcript cfg key aas x') → justified cfg aas x →
  observe_rps cfg (loaded σ key aas) (de_rps x) (de_current x) now = Some st →
  acted cfg key aas σ x' k σ' →
  reconciled (W := W) cfg key aas σ (transcript cfg key aas x' ++ k) σ' ∧
  outcome_of cfg aas k = outcome_of cfg aas (transcript cfg key aas x' ++ k).
Proof.
  intros x' Hh Hj Hobs Ha. split.
  - apply rc_decided; [|done]. split; [done| |done]. by destruct Hj.
  - rewrite !(outcome_active _ _ (ju_active _ _ _ Hj)), omap_app. by rewrite transcript_fatal.
Qed.

(** From the two answers of Prometheus on. *)
Lemma run_call_forecast σ hpas rps end_ samples :
  states_ok σ → active aas hpas →
  let pre := [EListHPA (aas_Namespace aas) (Ok hpas);
              EInstantQuery (InstantRPS (deploy_name aas)) (Ok rps); ENow end_;
              ERangeQuery (RangeRPS (deploy_name aas)) (history_start cfg end_) end_ Minute
                (Ok samples)] in
  Forall (honest (W := W)) pre →
  cfg_HotPathMinPoints cfg <= Z.of_nat (length samples) →
  run (W := W) (call_forecast cfg key aas rps (Prometheus.Value <$> samples)) σ (ends σ pre).
Proof.
  intros Hok Hact pre Hpre Hlen. unfold call_forecast.
  eapply run_bind; [apply run_buildForecastContext|].
  intros ctx k σ1 (t & -> & -> & -> & Ht).
  fold (effective cfg aas). fold (forecast_request cfg key aas samples t).
  set (req := forecast_request cfg key aas samples t).
  assert (∀ r, query_effect cfg key aas (ERecommend req r)) as Hreq by (intros; by exists samples, t).
  assert (Forall (query_effect cfg key aas) (tail pre ++ clock_entries t)) as Hq.
  { apply Forall_app. split; [by repeat constructor|]. destruct t; by repeat constructor. }
  set (tl := tail pre ++ clock_entries t) in *.
  assert (∀ k, pre ++ clock_entries t ++ k =
    EListHPA (aas_Namespace aas) (Ok hpas) :: tl ++ k) as Etl
    by (intros k; unfold tl; simpl; by rewrite ?app_assoc).
  assert (∀ k, Forall (probe_effect cfg key aas) k → Exists (shortfall cfg) k →
    ends σ pre (Finished (cfg_ReconcileInterval cfg) None) (clock_entries t ++ k) σ) as Hno.
  { intros k Hk Hs. destruct (no_data hpas σ tl k Hact Hq Hk) as [Ho Hr]; [apply Exists_app; by right|].
    split; rewrite Etl; done. }
  run_step. match goal with r : result ClientError _ |- _ => destruct r as [resp|e] end.
  2:{ do 3 run_step. apply Hno; [|by constructor].
      constructor; [apply Hreq|]. constructor; [simpl; set_solver|constructor]. }
  unfold with_forecast. fold (deploy_name aas). run_step.
  match goal with r : result ApiError _ |- _ => destruct r as [deploy|e] end.
  2:{ run_step. apply Hno; [constructor; [apply Hreq|by repeat constructor]|].
      by right; left. }
  run_step. apply run_load_state; [done|]. intros p σ1 Hp Hst.
  set (x := mkDecided hpas rps end_ samples t resp deploy 0 (loaded σ key aas)).
  eapply run_mono; [by apply (run_decide_and_act x σ)|].
  intros o k σ' (now & st & k' & -> & Hnow & Hobs & Hacted & ->).
  destruct (decided_after x now st σ k' σ') as [Hr Ho]; try done.
  { apply Forall_app. split; [done|]. apply Forall_app. split; [by destruct t; repeat constructor|].
    by repeat constructor. }
  unfold ends. rewrite Ho. subst x.
  cbn [de_hpas de_rps de_end de_samples de_context_now de_resp de_deploy] in *.
  assert (pre ++ clock_entries t ++ [ERecommend req (Ok resp);
      EGetDeployment (mkNN (aas_Namespace aas) (deploy_name aas)) (Ok deploy)] ++ ENow now :: k' =
    transcript cfg key aas (mkDecided hpas rps end_ samples t resp deploy now st) ++ k') as E.
  { unfold transcript. simpl. by rewrite <- app_assoc. }
  rewrite <- E in *. split; [reflexivity|exact Hr].
Qed.

Lemma run_metrics_unavailable hpas σ pre msg :
  active aas hpas → Forall (query_effect cfg key aas) pre → Exists (shortfall cfg) pre →
  run (W := W) (metrics_unavailable cfg aas msg) σ
    (ends σ (EListHPA (aas_Namespace aas) (Ok hpas) :: pre)).
Proof.
  intros Ha Hpre Hs. unfold metrics_unavailable. do 3 run_step.
  apply no_data; [done..| |apply Exists_app; by left].
  by repeat (constructor; simpl; try set_solver).
Qed.

Lemma run_ends {A} (m : ST W A) (e : A → Effect) f σ pre :
  (∀ a, answers m a → run (f a) σ (ends σ (pre ++ [e a]))) →
  run (ask m e ≫= f) σ (ends σ pre).
Proof.
  intros Hf. apply run_ask. intros a Ha. eapply run_mono; [by apply Hf|].
  intros o k σ'. unfold ends. by rewrite <- app_assoc.
Qed.

Lemma run_hot_path hpas σ :
  states_ok σ → active aas hpas → answers (ListHPA (aas_Namespace aas)) (Ok hpas) →
  run (W := W) (hot_path cfg key aas) σ (ends σ [EListHPA (aas_Namespace aas) (Ok hpas)]).
Proof.
  intros Hok Ha Hh. unfold hot_path. fold (deploy_name aas).
  apply run_ends. intros [rps|e] Hrps; cbn [app].
  2:{ apply run_metrics_unavailable; [done|by repeat constructor|by repeat constructor]. }
  apply run_ends. intros end_ _. apply run_ends. intros [samples|e] Hrange; cbn [app].
  2:{ apply run_metrics_unavailable; [done|by repeat constructor|]. by do 3 constructor. }
  case_decide.
  - apply run_metrics_unavailable; [done|by repeat constructor|]. by do 3 constructor.
  - apply run_call_forecast; [done..|by repeat constructor|lia].
Qed.

Lemma paused pre o k σ :
  o = outcome_of cfg aas (pre ++ k) → pause_cause aas (pre ++ k) →
  Forall (pause_effect aas) (pre ++ k) → ends σ pre o k σ.
Proof. intros -> ? ?. split; [done|]. by apply rc_paused. Qed.

Lemma run_handleKillSwitch σ :
  annotation aas AnnotationKillSwitch = "true" →
  run (W := W) (handleKillSwitch cfg aas) σ (ends σ []).
Proof.
  intros Hk. unfold handleKillSwitch.
  assert (∀ k, omap fatal k = [] →
    outcome_of cfg aas k = Finished (cfg_ReconcileInterval cfg) None) as Ho.
  { intros k Hf. unfold outcome_of. rewrite Hf. by rewrite bool_decide_eq_false_2 by naive_solver. }
  case_decide; [|run_step; apply paused; [by rewrite Ho|by left|constructor]].
  run_step. match goal with r : result ApiError () |- _ => destruct r end; repeat run_step;
    (apply paused; [first [by rewrite Ho|done]|by left|]; repeat constructor);
    exists PhaseDisabled, (st_ConflictReason (aas_Status aas)); by split; [left|].
Qed.

Lemma run_handleConflict hpas hpaName σ :
  deletion_pending aas = false → Exists (λ h, conflicting aas h = true) hpas →
  run (W := W) (handleConflict cfg aas hpaName) σ (ends σ [EListHPA (aas_Namespace aas) (Ok hpas)]).
Proof.
  intros Hd Hex.
  assert (∀ k, pause_cause aas ([EListHPA (aas_Namespace aas) (Ok hpas)] ++ k)) as Hc
    by (intros k; do 3 right; exists hpas; split; [set_solver|done]).
  unfold handleConflict. case_decide.
  2:{ run_step. apply paused; [|by apply Hc|by repeat constructor].
      unfold outcome_of. by rewrite Hd, andb_false_r. }
  run_step. match goal with r : result ApiError () |- _ => destruct r end; repeat run_step;
    (apply paused; [|by apply Hc|]); repeat constructor;
    try (by eexists PhaseConflict, _; split; [right; left|]). all: unfold outcome_of; by rewrite Hd, andb_false_r.
Qed.

Lemma run_pre_checks σ :
  states_ok σ → run (W := W) (pre_checks cfg key aas) σ (ends σ []).
Proof.
  intros Hok. unfold pre_checks. case_decide as Hk; [by apply run_handleKillSwitch|].
  destruct (deletion_pending aas) eqn:Hd.
  { run_step. apply paused; [|by right; left|constructor]. unfold outcome_of.
    by rewrite Hd, bool_decide_eq_true_2. }
  eapply (run_bind _ _ _ _ (λ r k σ', σ' = σ ∧ match r with
    | Ok found => ∃ hpas, k = [EListHPA (aas_Namespace aas) (Ok hpas)] ∧
        answers (ListHPA (aas_Namespace aas)) (Ok hpas) ∧
        found = hpa_Name <$> (list_find (λ h, conflicting aas h = true) hpas ≫= λ p, Some p.2)
    | Err e => k = [EListHPA (aas_Namespace aas) (Err e)] end)).
  - unfold findConflictingHPA. run_step.
    match goal with r : result ApiError _ |- _ => destruct r as [hpas|e] end; run_step;
      (split; [done|]); [by exists hpas|done].
  - intros r k σ1 (-> & Hr). destruct r as [found|e].
    + destruct Hr as (hpas & -> & Hh & ->).
      destruct (list_find _ hpas) as [[i h]|] eqn:Hf; simpl.
      * apply list_find_Some in Hf as (Hi & Hc & _). apply run_handleConflict; [done|].
        apply Exists_exists. exists h. split; [by eapply list_elem_of_lookup_2|done].
      * apply list_find_None in Hf. apply run_hot_path; [done| |done]. split; [done..|].
        eapply Forall_impl; [exact Hf|]. intros h' Hh'. by apply not_true_is_false.
    + rewrite Hr. run_step. apply paused; [done|do 2 right; left; exists e; set_solver|].
      by repeat constructor.
Qed.
End cases.

(** The first call of [Reconcile] and the rest. *)
Lemma Reconcile_unfold {W} `{!ApiServer W} `{!PromQuerier W} `{!Forecaster W} `{!Clock W}
    `{GoPlatform} cfg key (s : CtlState W) :
  Reconcile cfg key s =
  let '(r, w') := GetAAS key (cs_world s) in
  let s1 := mkCtl w' (cs_store s) (cs_classifier s) (cs_metrics s) (cs_explain s)
              (cs_log s ++ [EGetAAS key r]) in
  match r with
  | Ok aas => (_ ← ensure_worker key aas; pre_checks cfg key aas) s1
  | Err e =>
      if IsNotFound e
      then (Finished 0 None,
            mkCtl w' (Delete (cs_store s) key) ((λ m, Stop m key) <$> cs_classifier s)
              (cs_metrics s) (cs_explain s) (cs_log s ++ [EGetAAS key r]))
      else (Finished 0 (Some e), s1)
  end.
Proof.
  unfold Reconcile, ask, log_effect, st_modify, call, mret, st_ret, mbind, st_bind.
  destruct (GetAAS key (cs_world s)) as [[aas|e] w']; [done|]. by destruct (IsNotFound e).
Qed.

(** What [Reconcile] does, from any state whose windows are well formed: the CR is read
    first; a CR that is gone loses its state and its worker, a failed read changes
    nothing, and otherwise the reconcile ends in one of the ways above. *)
Lemma Reconcile_cases {W} `{!ApiServer W} `{!PromQuerier W} `{!Forecaster W} `{!Clock W}
    `{GoPlatform} cfg key (s : CtlState W) :
  states_ok (cs_store s) →
  let o := (Reconcile cfg key s).1 in
  let s' := (Reconcile cfg key s).2 in
  ∃ k, cs_log s' = cs_log s ++ EGetAAS key (GetAAS key (cs_world s)).1 :: k ∧
  match (GetAAS key (cs_world s)).1 with
  | Ok aas => o = outcome_of cfg aas k ∧ reconciled (W := W) cfg key aas (cs_store s) k (cs_store s')
  | Err e =>
      k = [] ∧
      if IsNotFound e
      then o = Finished 0 None ∧ cs_store s' = Delete (cs_store s) key ∧
           cs_classifier s' = (λ m, Stop m key) <$> cs_classifier s
      else o = Finished 0 (Some e) ∧ cs_store s' = cs_store s
  end.
Proof.
  intros Hok. cbn zeta. rewrite Reconcile_unfold.
  destruct (GetAAS key (cs_world s)) as [[aas|e] w']; simpl.
  - assert (run (W := W) (_ ← ensure_worker key aas; pre_checks cfg key aas) (cs_store s)
      (ends cfg key aas (cs_store s) [])) as Hr by (by apply run_classifier, run_pre_checks).
    destruct (Hr (mkCtl w' (cs_store s) (cs_classifier s) (cs_metrics s) (cs_explain s)
      (cs_log s ++ [EGetAAS key (Ok aas)])) eq_refl) as (k & Hk & He).
    exists k. simpl in Hk. rewrite Hk, <- app_assoc. split; [done|exact He].
  - exists []. by destruct (IsNotFound e).
Qed.

(** The same, for a given extension of the log. *)
Lemma Reconcile_log {W} `{!ApiServer W} `{!PromQuerier W} `{!Forecaster W} `{!Clock W}
    `{GoPlatform} cfg key (s : CtlState W) k :
  states_ok (cs_store s) → cs_log (Reconcile cfg key s).2 = cs_log s ++ k →
  ∃ k', k = EGetAAS key (GetAAS key (cs_world s)).1 :: k' ∧
  match (GetAAS key (cs_world s)).1 with
  | Ok aas => (Reconcile cfg key s).1 = outcome_of cfg aas k' ∧
      reconciled (W := W) cfg key aas (cs_store s) k' (cs_store (Reconcile cfg key s).2)
  | Err e => k' = []
  end.
Proof.
  intros Hok Hk. destruct (Reconcile_cases cfg key s Hok) as (k' & Hk' & Hc). cbn zeta in *.
  rewrite Hk in Hk'. apply app_inv_head in Hk'. exists k'. split; [done|].
  destruct (GetAAS key (cs_world s)).1; [done|]. apply Hc.
Qed.

(** A reconcile that read its CR. *)
Lemma Reconcile_read {W} `{!ApiServer W} `{!PromQuerier W} `{!Forecaster W} `{!Clock W}
    `{GoPlatform} cfg key (s : CtlState W) aas k :
  states_ok (cs_store s) →
  cs_log (Reconcile cfg key s).2 = cs_log s ++ EGetAAS key (Ok aas) :: k →
  answers (GetAAS (W := W) key) (Ok aas) ∧ (Reconcile cfg key s).1 = outcome_of cfg aas k ∧
  reconciled (W := W) cfg key aas (cs_store s) k (cs_store (Reconcile cfg key s).2).
Proof.
  intros Hok Hk. destruct (Reconcile_log cfg key s _ Hok Hk) as (k' & [= E <-] & Hc).
  rewrite <- E in Hc. split; [|done]. exists (cs_world s). destruct (GetAAS key (cs_world s)) as [r w'].
  exists w'. simpl in E. by rewrite E.
Qed.

(** To show something of every entry a reconcile makes after the read. *)
Lemma reconciled_Forall {W} `{!ApiServer W} `{!PromQuerier W} `{!Forecaster W} `{GoPlatform}
    cfg key aas σ (P : Effect → Prop) k σ' :
  (∀ e, pause_effect aas e → P e) → (∀ e, probe_effect cfg key aas e → P e) →
  (∀ r, P (EListHPA (aas_Namespace aas) r)) →
  (∀ x k σ', deciding (W := W) cfg key aas σ x → acted cfg key aas σ x k σ' →
     Forall P (transcript cfg key aas x ++ k)) →
  reconciled (W := W) cfg key aas σ k σ' → Forall P k.
Proof.
  intros Hp Hq Hl Hd. destruct 1 as [k _ Hk|hpas k _ Hk _|x k σ' Hx Ha].
  - by eapply Forall_impl.
  - constructor; [done|]. by eapply Forall_impl.
  - by eapply Hd.
Qed.
