(* ===== verification/Scaling.v ===== *)
(** * The scale patches of the reconciler

    What holds of every patch of a scale subresource: it follows from answers received
    in the same reconcile, it respects the CRD bounds, the step and the cooldowns, also
    across reconciles and a restart of the controller.  The section hypotheses on the
    cluster are the class [ClusterLaws]: the admission webhook and the validated
    configuration establish its first law, Kubernetes the second. *)
From S2P Require Import Prelude Float64 FloatOrder FloatRound Reasoning Config Api State.
From S2P Require Import Decision Capacity Webhook Features Classifier Channels Adapters.
From S2P Require Import Interfaces Worker Manager Metrics Controller ReconcileCases.
From Stdlib Require Import SpecFloat.

(** ** Well-configured resources *)
Definition min_replicas (aas : AgenticAutoscaler) : Z := deref_or (spec_MinReplicas (aas_Spec aas)) 2.
Definition max_replicas (aas : AgenticAutoscaler) : Z := deref_or (spec_MaxReplicas (aas_Spec aas)) 10.

(** Replica counts and steps up to this bound add up inside [int32]. *)
Definition max_count : Z := 1073741823.

Record well_configured (cfg : Config) (aas : AgenticAutoscaler) : Prop := {
  wc_step : 1 <= ep_MaxStep (effective cfg aas) <= max_count;
  wc_up : 0 <= ep_CooldownUp (effective cfg aas) ∧ in_i32 (ep_CooldownUp (effective cfg aas));
  wc_down : 0 <= ep_CooldownDown (effective cfg aas) ∧ in_i32 (ep_CooldownDown (effective cfg aas));
  wc_bounds : 1 <= min_replicas aas <= max_replicas aas;
}.

(** A classification the decision can use. *)
Record cp_usable (cp : ApiClassifiedParams) : Prop := {
  cu_up : 0 <= cp_ScaleUpCooldownSeconds cp ∧ in_i32 (cp_ScaleUpCooldownSeconds cp);
  cu_down : 0 <= cp_ScaleDownCooldownSeconds cp ∧ in_i32 (cp_ScaleDownCooldownSeconds cp);
  cu_step : 1 <= cp_MaxStepSize cp <= max_count;
}.

(** What the admission webhook and the CRD schema (whose defaults fill in the bounds)
    establish of a spec, the classification workers of the status, and the start-up
    validation of the configuration; and bounds on the size of [maxReplicas] and of the
    configured step that nothing in the program checks. That the program's own writes keep
    it is [System.writes_keep_admitted]. *)
Record admitted (cfg : Config) (aas : AgenticAutoscaler) : Prop := {
  ad_ints : spec_i32 (aas_Spec aas);
  ad_webhook : ValidateSpec (aas_Spec aas) = [];
  ad_defaults : is_Some (spec_MinReplicas (aas_Spec aas)) ∧ is_Some (spec_MaxReplicas (aas_Spec aas));
  ad_rps : is_Some (spec_RpsPerPodMin (aas_Spec aas)) ∧ is_Some (spec_RpsPerPodMax (aas_Spec aas));
  ad_size : max_replicas aas <= max_count;
  ad_classified : ∀ cp, st_ClassifiedParams (aas_Status aas) = Some cp → cp_usable cp;
  ad_config : config_rules cfg;
  ad_step : cfg_DefaultMaxStepSize cfg <= max_count;
}.

Lemma coalesce32_ind (P : Z → Prop) spec classified def :
  (∀ v, spec = Some v → P v) → (∀ v, classified = Some v → P v) → P def →
  P (coalesce32 spec classified def).
Proof. destruct spec, classified; simpl; auto. Qed.

Lemma durationSecondsAsInt32_pos d :
  0 <= d → 0 <= durationSecondsAsInt32 d ∧ in_i32 (durationSecondsAsInt32 d).
Proof.
  intros Hd. split; [|apply sat32_range]. unfold durationSecondsAsInt32, sat32.
  pose proof (Z.quot_pos d Second Hd ltac:(done)). repeat case_decide; unfold MaxInt32 in *; lia.
Qed.

Lemma admitted_ok cfg aas : admitted cfg aas → spec_ok (aas_Spec aas).
Proof. intros []. by apply ValidateSpec_nil. Qed.

Lemma admitted_bounds cfg aas : admitted cfg aas → 1 <= min_replicas aas < max_replicas aas.
Proof.
  intros Ha. pose proof (admitted_ok _ _ Ha) as Hok. destruct (ad_defaults _ _ Ha) as [[mn Hmn] [mx Hmx]].
  unfold min_replicas, max_replicas. rewrite Hmn, Hmx. simpl.
  pose proof (so_min _ Hok _ Hmn). pose proof (so_range _ Hok _ _ Hmn Hmx). lia.
Qed.

(** What the effective parameters of an admitted CR are drawn from. *)
Lemma effective_field (P : Z → Prop) cfg aas (spec : option Z) (f : ClassifiedParams → Z) def :
  (∀ v, spec = Some v → P v) →
  (∀ cp, st_ClassifiedParams (aas_Status aas) = Some cp →
     P (f (mkClassifiedParams (cp_ScaleUpCooldownSeconds cp) (cp_ScaleDownCooldownSeconds cp)
             (cp_MaxStepSize cp) (cp_PreferredForecaster cp)))) →
  P def → P (coalesce32 spec (classifiedField32 (ps_Classified (buildParamSources cfg aas)) f) def).
Proof.
  intros Hs Hc Hd. apply coalesce32_ind; [done| |done]. intros v. simpl.
  destruct (st_ClassifiedParams (aas_Status aas)) as [cp|]; simpl; [|done]. intros [= <-]. by apply Hc.
Qed.

Lemma admitted_well_configured cfg aas : admitted cfg aas → well_configured cfg aas.
Proof.
  intros Ha. pose proof (admitted_ok _ _ Ha) as Hok. pose proof (admitted_bounds _ _ Ha) as Hb.
  pose proof (ad_config _ _ Ha) as Hcfg. pose proof (ad_ints _ _ Ha) as Hi.
  pose proof (ad_size _ _ Ha). pose proof (ad_step _ _ Ha).
  unfold spec_i32 in Hi. rewrite !Forall_cons in Hi. destruct Hi as (_&_&_&_&_&Hup&Hdn&_).
  destruct (ad_defaults _ _ Ha) as [[mn Hmn] [mx Hmx]].
  split; [| | |lia]; unfold effective, ResolveEffectiveParams; simpl ep_MaxStep; simpl ep_CooldownUp;
    simpl ep_CooldownDown.
  - apply (effective_field (λ v, 1 <= v <= max_count) cfg aas);
      [|intros cp Hcp; apply (ad_classified _ _ Ha cp Hcp)|pose proof (cr_step _ Hcfg); simpl; lia].
    simpl. intros v Hv. pose proof (so_step _ Hok _ Hv). pose proof (so_step_range _ Hok _ _ _ Hv Hmn Hmx).
    unfold max_replicas in *. rewrite Hmx in *. pose proof (so_min _ Hok _ Hmn). simpl in *. lia.
  - apply (effective_field (λ v, 0 <= v ∧ in_i32 v) cfg aas);
      [| |apply durationSecondsAsInt32_pos, (cr_up _ Hcfg)]; simpl.
    + intros v Hv. rewrite Hv in Hup. split; [by eapply so_up|done].
    + intros cp Hcp. apply (ad_classified _ _ Ha cp Hcp).
  - apply (effective_field (λ v, 0 <= v ∧ in_i32 v) cfg aas);
      [| |apply durationSecondsAsInt32_pos, (cr_down _ Hcfg)]; simpl.
    + intros v Hv. rewrite Hv in Hdn. split; [by eapply so_down|done].
    + intros cp Hcp. apply (ad_classified _ _ Ha cp Hcp).
Qed.

(** The cluster the controller runs in. *)
Class ClusterLaws (W : Type) `{!ApiServer W} (cfg : Config) := {
  cl_admitted : ∀ key aas, answers (GetAAS key) (Ok aas) → admitted cfg aas;
  cl_replicas : ∀ key d, answers (GetDeployment key) (Ok d) →
    0 <= deref_or (dep_Replicas d) 1 <= max_count;
}.

(** ** One decision *)

(** The direction of a patch, and what it selects. *)
Definition upward (p : ScalePatch) : bool := bool_decide (pa_current p < pa_target p).
Definition last_scale (up : bool) (st : PerCRState) : Time :=
  if up then pc_LastScaleUpTime st else pc_LastScaleDownTime st.
Definition cooldown (up : bool) (e : EffectiveParams) : Z :=
  if up then ep_CooldownUp e else ep_CooldownDown e.

(** A patch within the bounds of its CR. *)
Record patch_ok (cfg : Config) (aas : AgenticAutoscaler) (p : ScalePatch) : Prop := {
  pk_moves : pa_target p ≠ pa_current p;
  pk_step : Z.abs (pa_target p - pa_current p) <= ep_MaxStep (effective cfg aas);
  pk_inside : min_replicas aas <= pa_current p <= max_replicas aas →
    min_replicas aas <= pa_target p <= max_replicas aas;
  pk_below : pa_current p < min_replicas aas → pa_current p < pa_target p <= max_replicas aas;
  pk_above : max_replicas aas < pa_current p → min_replicas aas <= pa_target p < pa_current p;
}.

Section decisions.
Context `{GoPlatform} (cfg : Config) (aas : AgenticAutoscaler) (x : Decided).

(** The stage's input: the recommendation is the clamped one. *)
Lemma decision_input :
  ∃ i, sd_Cap (de_decision cfg aas x) = ApplyCapAndCooldown i ∧
    ClampRecommended (sd_Unbounded (de_decision cfg aas x)) (min_replicas aas) (max_replicas aas) =
      (ci_Recommended i, ci_BindingReason i) ∧
    sd_Recommended (de_decision cfg aas x) = ci_Recommended i ∧
    i = mkCapInput (ci_Recommended i) (de_current x) (ep_MaxStep (effective cfg aas))
          (ep_CooldownUp (effective cfg aas)) (ep_CooldownDown (effective cfg aas))
          (last_scale true (de_st x)) (last_scale false (de_st x)) (de_now x) (ci_BindingReason i).
Proof.
  unfold de_decision, decide_scale. fold (min_replicas aas) (max_replicas aas).
  destruct (ClampRecommended _ _ _) as [r b] eqn:E. simpl. eexists. split; [reflexivity|].
  by rewrite E.
Qed.

Hypothesis Hwc : well_configured cfg aas.
Hypothesis Hcur : 0 <= de_current x <= max_count.

Lemma decision_cap_ok i :
  i = mkCapInput (ci_Recommended i) (de_current x) (ep_MaxStep (effective cfg aas))
        (ep_CooldownUp (effective cfg aas)) (ep_CooldownDown (effective cfg aas))
        (last_scale true (de_st x)) (last_scale false (de_st x)) (de_now x) (ci_BindingReason i) →
  cap_ok i.
Proof.
  intros ->. destruct Hwc as [Hst [_ Hu] [_ Hd] _]. revert Hst Hu Hd.
  generalize (effective cfg aas). intros e Hst Hu Hd. unfold max_count in *.
  split; simpl; lia || done || int_lia.
Qed.

Lemma decision_patch_ok key ok :
  co_ShouldPatch (sd_Cap (de_decision cfg aas x)) = true →
  let p := de_patch cfg key aas x ok in
  patch_ok cfg aas p ∧
  cooldown (upward p) (effective cfg aas) * Second <= de_now x - last_scale (upward p) (de_st x).
Proof.
  unfold de_patch. destruct decision_input as (i & -> & Hcl & _ & Hi).
  pose proof (decision_cap_ok i Hi) as Hok. pose proof (wc_bounds _ _ Hwc) as Hb.
  rewrite (cap_follows_design _ Hok). intros Hsp.
  destruct (cap_design_toward i (ck_step _ Hok)) as (Ht & Hs & Hne).
  destruct (cap_design_patch_cooldown i (ck_step _ Hok) Hsp) as [Hup Hdn].
  apply Hne in Hsp. apply ClampRecommended_range in Hcl; [|lia].
  revert Ht Hs Hsp Hup Hdn. generalize (co_Target (cap_design i)) as t.
  rewrite Hi. cbn [ci_Recommended ci_Current ci_MaxStep ci_CooldownUp ci_CooldownDown
    ci_LastScaleUp ci_LastScaleDown ci_Now]. intros t Ht Hs Hsp Hup Hdn.
  split; [split; cbn [pa_target pa_current]; lia|]. unfold upward. cbn [pa_target pa_current].
  case_bool_decide; [by apply Hup|]. apply Hdn. lia.
Qed.
End decisions.

(** ** One reconcile *)

(** The scale patches among some entries of the log, in order. *)
Definition scales (k : list Effect) : list ScalePatch :=
  omap (λ e, match e with EScale p => Some p | _ => None end) k.

Lemma scales_app k1 k2 : scales (k1 ++ k2) = scales k1 ++ scales k2.
Proof. apply omap_app. Qed.

Lemma scales_cons p k : scales (EScale p :: k) = p :: scales k.
Proof. done. Qed.

Lemma scales_none (P : Effect → Prop) k :
  (∀ p, ¬ P (EScale p)) → Forall P k → scales k = [].
Proof.
  intros HP. induction 1 as [|e k He _ IH]; [done|]. unfold scales in *. simpl.
  destruct e; (done || by destruct (HP p)).
Qed.

Section one_reconcile.
Context {W : Type} `{!ApiServer W} `{!PromQuerier W} `{!Forecaster W} `{!Clock W} `{GoPlatform}.
Context (cfg : Config) (key : NamespacedName).

(** The patches of a reconcile and the store it leaves. *)
Inductive patched (aas : AgenticAutoscaler) (σ σ' : StateStore) : list ScalePatch → Prop :=
| pt_untouched : σ' = σ → patched aas σ σ' []
| pt_held x :
    deciding (W := W) cfg key aas σ x → stored σ σ' key (de_st x) → patched aas σ σ' []
| pt_patch x (ok : bool) :
    deciding (W := W) cfg key aas σ x →
    co_ShouldPatch (sd_Cap (de_decision cfg aas x)) = true →
    stored σ σ' key
      (if ok then record_scale (de_st x) (co_Target (sd_Cap (de_decision cfg aas x)))
                    (de_current x) (de_now x)
       else de_st x) →
    patched aas σ σ' [de_patch cfg key aas x ok].

Lemma transcript_scales aas x : scales (transcript cfg key aas x) = [].
Proof. unfold transcript. by destruct (de_context_now x). Qed.

Lemma closing_scales aas x r : scales (closing cfg aas x r) = [].
Proof. unfold closing. by destruct (co_ShouldPatch _). Qed.

Lemma reconciled_patched aas σ k σ' :
  reconciled (W := W) cfg key aas σ k σ' → patched aas σ σ' (scales k).
Proof.
  destruct 1 as [k _ Hk|hpas k _ Hk _|x k σ' Hd Ha].
  - rewrite (scales_none _ k (λ _ h, h) Hk). by constructor.
  - change (scales (_ :: k)) with (scales k). rewrite (scales_none _ k (λ _ h, h) Hk).
    by constructor.
  - rewrite scales_app, transcript_scales. simpl.
    destruct Ha as [r σ' Hsp Hst|σ' Hsp Hst|r σ' Hsp Hst].
    + rewrite closing_scales. by apply (pt_held aas σ σ' x).
    + by apply (pt_patch aas σ σ' x false).
    + rewrite scales_cons, closing_scales. by apply (pt_patch aas σ σ' x true).
Qed.

(** The transcript around a patch: a failed one is the last thing a reconcile does. *)
Lemma reconciled_scale aas σ k σ' p :
  reconciled (W := W) cfg key aas σ k σ' → EScale p ∈ k →
  ∃ x l, deciding (W := W) cfg key aas σ x ∧
    co_ShouldPatch (sd_Cap (de_decision cfg aas x)) = true ∧
    p = de_patch cfg key aas x (pa_ok p) ∧ k = transcript cfg key aas x ++ EScale p :: l ∧
    if pa_ok p then ∃ r, l = closing cfg aas x r else l = [].
Proof.
  assert (∀ l, scales l = [] → EScale p ∉ l) as Hno.
  { intros l Hl Hin. assert (p ∈ scales l) as Hp by (apply list_elem_of_omap; eauto).
    rewrite Hl in Hp. by apply not_elem_of_nil in Hp. }
  destruct 1 as [k _ Hk|hpas k _ Hk _|x k σ' Hd Ha]; intros Hp.
  - destruct (Hno k); [|done]. by apply (scales_none _ k (λ _ h, h) Hk).
  - apply elem_of_cons in Hp as [Hp|Hp]; [done|].
    destruct (Hno k); [|done]. by apply (scales_none _ k (λ _ h, h) Hk).
  - apply elem_of_app in Hp as [Hp|Hp]; [by destruct (Hno _ (transcript_scales aas x))|].
    exists x. destruct Ha as [r σ' Hsp Hst|σ' Hsp Hst|r σ' Hsp Hst].
    + by destruct (Hno _ (closing_scales aas x r)).
    + apply list_elem_of_singleton in Hp as [= ->]. exists []. by split_and!.
    + apply elem_of_cons in Hp as [[= ->]|Hp]; [|by destruct (Hno _ (closing_scales aas x r))].
      exists (closing cfg aas x r). split_and!; [done..|by exists r].
Qed.

Lemma transcript_status aas x aas' r : EStatus aas' r ∉ transcript cfg key aas x.
Proof. unfold transcript. destruct (de_context_now x); set_solver. Qed.

Lemma transcript_notify aas x req : ENotify req ∉ transcript cfg key aas x.
Proof. unfold transcript. destruct (de_context_now x); set_solver. Qed.

(** What one reconcile appends to the patches of the log. *)
Lemma Reconcile_patched_at (s : CtlState W) aas :
  states_ok (cs_store s) → (GetAAS key (cs_world s)).1 = Ok aas →
  let s' := (Reconcile cfg key s).2 in
  ∃ k, cs_log s' = cs_log s ++ EGetAAS key (Ok aas) :: k ∧
    patched aas (cs_store s) (cs_store s') (scales k).
Proof.
  intros Hok Eg. cbn zeta. destruct (Reconcile_cases cfg key s Hok) as (k & Hlog & Hk).
  cbn zeta in *. rewrite Eg in Hk, Hlog. exists k. split; [done|].
  by destruct Hk as [_ Hk%reconciled_patched].
Qed.

Lemma Reconcile_patched (s : CtlState W) :
  states_ok (cs_store s) →
  let s' := (Reconcile cfg key s).2 in
  ∃ ps, scales (cs_log s') = scales (cs_log s) ++ ps ∧
    ((∃ aas, (GetAAS key (cs_world s)).1 = Ok aas ∧ patched aas (cs_store s) (cs_store s') ps) ∨
     ps = [] ∧ ∃ e, (GetAAS key (cs_world s)).1 = Err e ∧
       cs_store s' = if IsNotFound e then Delete (cs_store s) key else cs_store s).
Proof.
  intros Hok. cbn zeta. destruct (GetAAS key (cs_world s)).1 as [aas|e] eqn:Eg.
  - destruct (Reconcile_patched_at s aas Hok Eg) as (k & Hlog & Hp).
    exists (scales k). rewrite Hlog, scales_app. split; [done|]. left. by exists aas.
  - exists []. destruct (Reconcile_cases cfg key s Hok) as (k & Hlog & Hk). cbn zeta in *.
    rewrite Eg in Hk, Hlog. destruct Hk as [-> Hk]. rewrite Hlog, scales_app. split; [done|].
    right. split; [done|]. exists e. split; [done|]. destruct (IsNotFound e); apply Hk.
Qed.

Lemma Reconcile_states_ok (s : CtlState W) :
  states_ok (cs_store s) → states_ok (cs_store (Reconcile cfg key s).2).
Proof.
  intros Hok. destruct (Reconcile_patched s Hok) as (ps & _ & [(aas & _ & Hp)|(_ & e & _ & ->)]).
  - destruct (loaded_window (cs_store s) key aas Hok) as [Hc Hw].
    inv Hp as [Hs|x [_ _ Hobs] Hst|x ok [_ _ Hobs] Hsp Hst]; [by rewrite Hs|..];
      (destruct (observe_rps_spec cfg (loaded (cs_store s) key aas) (de_rps x) (de_current x) (de_now x)
        (conj Hc Hw)) as (st & Ho & Hwin & _); rewrite Ho in Hobs; injection Hobs as ->).
    + by eapply states_ok_stored.
    + eapply states_ok_stored; [done..|]. destruct ok; [by apply record_scale_window|done].
  - destruct (IsNotFound e); [by apply states_ok_Delete|done].
Qed.
End one_reconcile.

(** ** Sequences of reconciles *)
Section runs.
Context {W : Type} `{!ApiServer W} `{!PromQuerier W} `{!Forecaster W} `{!Clock W} `{GoPlatform}.
Context (cfg : Config).

(** Between two reconciles the environment may change anything but the controller's own
    state store: the cluster, the clock, the classifier's workers, the channels. *)
Inductive step : CtlState W → CtlState W → Prop :=
| step_reconcile s key : step s (Reconcile cfg key s).2
| step_environment s w m me ex :
    step s (mkCtl w (cs_store s) m me ex (cs_log s)).

(** The controller just after its start. *)
Definition started (s : CtlState W) : Prop := cs_store s = NewStateStore ∧ cs_log s = [].

Lemma step_states_ok s s' : states_ok (cs_store s) → step s s' → states_ok (cs_store s').
Proof. intros Hok Hs. destruct Hs; [by apply Reconcile_states_ok|done]. Qed.

Lemma reachable_states_ok s0 s : started s0 → rtc step s0 s → states_ok (cs_store s).
Proof.
  intros [Hs _]. apply (rtc_invariant step (λ s, states_ok (cs_store s))); [apply step_states_ok|].
  rewrite Hs. apply states_ok_new.
Qed.

(** Logs only grow. *)
Lemma step_grows s s' : states_ok (cs_store s) → step s s' → cs_log s `prefix_of` cs_log s'.
Proof.
  intros Hok Hs. destruct Hs as [s key|]; [|done].
  destruct (Reconcile_cases cfg key s Hok) as (k & Hk & _). cbn zeta in Hk. rewrite Hk.
  by apply prefix_app_r.
Qed.

Lemma rtc_grows s0 s s' :
  started s0 → rtc step s0 s → rtc step s s' → cs_log s `prefix_of` cs_log s'.
Proof.
  intros Hs0 Hr Hr'. pose proof (reachable_states_ok s0 s Hs0 Hr) as Hok. clear Hr.
  induction Hr' as [s|s s1 s' Hst _ IH]; [done|].
  etransitivity; [by apply step_grows|]. apply IH. by eapply step_states_ok.
Qed.

(** ** Where a patch comes from *)

(** The reconcile from [s1] that made the patch [p] of a run from [s0] to [s]: its CR, its
    decision, and the rest [l] of its transcript after the patch. *)
Record origin (s0 s : CtlState W) (p : ScalePatch) (s1 : CtlState W) (aas : AgenticAutoscaler)
    (x : Decided) (l : list Effect) : Prop := {
  or_before : rtc step s0 s1;
  or_after : rtc step (Reconcile cfg (pa_cr p) s1).2 s;
  or_log : cs_log (Reconcile cfg (pa_cr p) s1).2 =
    cs_log s1 ++ EGetAAS (pa_cr p) (Ok aas) :: transcript cfg (pa_cr p) aas x ++ EScale p :: l;
  or_cr : answers (GetAAS (W := W) (pa_cr p)) (Ok aas);
  or_deciding : deciding (W := W) cfg (pa_cr p) aas (cs_store s1) x;
  or_moves : co_ShouldPatch (sd_Cap (de_decision cfg aas x)) = true;
  or_patch : p = de_patch cfg (pa_cr p) aas x (pa_ok p);
}.

Lemma Reconcile_origin key (s1 : CtlState W) k p :
  states_ok (cs_store s1) → cs_log (Reconcile cfg key s1).2 = cs_log s1 ++ k → EScale p ∈ k →
  ∃ aas x l, origin s1 (Reconcile cfg key s1).2 p s1 aas x l.
Proof.
  intros Hok Hk Hp. destruct (Reconcile_cases cfg key s1 Hok) as (k' & Hk' & Hc). cbn zeta in *.
  pose proof Hk' as Hlog. rewrite Hk in Hk'. apply app_inv_head in Hk' as ->.
  pose proof (answers_now (GetAAS key) (cs_world s1)) as Ha.
  destruct (GetAAS key (cs_world s1)).1 as [aas|e]; [|by destruct Hc as [-> _]; set_solver].
  apply elem_of_cons in Hp as [Hp|Hp]; [done|]. destruct Hc as [_ Hc].
  destruct (reconciled_scale _ _ _ _ _ _ _ Hc Hp) as (x & l & Hd & Hsp & Ep & -> & _).
  assert (pa_cr p = key) as Ekey by (by rewrite Ep). subst key.
  exists aas, x, l. split; [apply rtc_refl|apply rtc_refl|exact Hlog|exact Ha|exact Hd|exact Hsp|exact Ep].
Qed.

Lemma patch_origin s0 s p :
  started s0 → rtc step s0 s → EScale p ∈ cs_log s → ∃ s1 aas x l, origin s0 s p s1 aas x l.
Proof.
  intros Hs0 Hreach. revert s Hreach.
  refine (rtc_ind_r (λ s, EScale p ∈ cs_log s → ∃ s1 aas x l, origin s0 s p s1 aas x l) s0 _ _);
    [|intros s s' Hr Hst IH]; intros Hp.
  { destruct Hs0 as [_ Hl]. rewrite Hl in Hp. by apply not_elem_of_nil in Hp. }
  pose proof (reachable_states_ok s0 s Hs0 Hr) as Hok.
  assert (EScale p ∈ cs_log s → ∃ s1 aas x l, origin s0 s' p s1 aas x l) as Hold.
  { intros (s1 & aas & x & l & [])%IH. exists s1, aas, x, l. split; try done. by eapply rtc_r. }
  destruct Hst as [s key|s w m me ex]; [|by apply Hold].
  destruct (step_grows s _ Hok (step_reconcile s key)) as [k Hk].
  pose proof Hp as Hp'. rewrite Hk in Hp'. apply elem_of_app in Hp' as [Hp'|Hp']; [by apply Hold|].
  destruct (Reconcile_origin key s k p Hok Hk Hp') as (aas & x & l & []).
  exists s, aas, x, l. by split.
Qed.
End runs.

(** The replica count a decision starts from is one the cluster reports. *)
Lemma deciding_current {W} `{!ApiServer W} `{!PromQuerier W} `{!Forecaster W} `{GoPlatform} cfg
    `{!ClusterLaws W cfg} key aas σ x :
  deciding (W := W) cfg key aas σ x → 0 <= de_current x <= max_count.
Proof.
  intros [Hh _ _]. rewrite Forall_forall in Hh.
  assert (honest (W := W) (EGetDeployment (mkNN (aas_Namespace aas) (deploy_name aas)) (Ok (de_deploy x))))
    as Hd by (apply Hh; unfold transcript; set_solver).
  by apply cl_replicas in Hd.
Qed.

(** A log of decisions within their assumptions: the CRs read were admitted, the counts
    scaled from of the size allowed. *)
Definition fits (cfg : Config) (e : Effect) : Prop :=
  match e with
  | EGetAAS _ (Ok aas) => admitted cfg aas
  | EScale p => 0 <= pa_current p <= max_count
  | _ => True
  end.

(** A reconcile reads its CR once. *)
Lemma reconciled_reads {W} `{!ApiServer W} `{!PromQuerier W} `{!Forecaster W} `{GoPlatform}
    cfg key aas σ k σ' key' r :
  reconciled (W := W) cfg key aas σ k σ' → EGetAAS key' r ∉ k.
Proof.
  intros Hr Hin. revert Hr Hin. intros Hr%(reconciled_Forall cfg key aas σ (λ e, e ≠ EGetAAS key' r)).
  - rewrite Forall_forall in Hr. intros Hin. by apply (Hr _ Hin).
  - by intros [].
  - by intros [].
  - done.
  - intros x k1 σ1 _ Ha. unfold transcript, closing in *. destruct (de_context_now x); destruct Ha;
      unfold closing; repeat case_match; by repeat constructor.
Qed.

(** The runs of a lawful cluster fit. *)
Lemma run_fits {W} `{!ApiServer W} `{!PromQuerier W} `{!Forecaster W} `{!Clock W} `{GoPlatform} cfg
    `{!ClusterLaws W cfg} (s0 s : CtlState W) :
  started s0 → rtc (step cfg) s0 s → Forall (fits cfg) (cs_log s).
Proof.
  intros Hs0 Hreach.
  assert (∀ k aas, EGetAAS k (Ok aas) ∈ cs_log s → admitted cfg aas) as Hread.
  { revert s Hreach. refine (rtc_ind_r (λ s, ∀ k aas, EGetAAS k (Ok aas) ∈ cs_log s → admitted cfg aas) s0 _ _);
      [|intros s s' Hr Hst IH k aas Hin].
    - destruct Hs0 as [_ ->]. by intros k aas ?%not_elem_of_nil.
    - destruct Hst as [s key|]; [|by eapply IH].
      destruct (Reconcile_cases cfg key s (reachable_states_ok cfg s0 s Hs0 Hr)) as (l & Hl & Hc). cbn zeta in *.
      rewrite Hl in Hin. apply elem_of_app in Hin as [Hin|Hin]; [by eapply IH|].
      pose proof (answers_now (GetAAS key) (cs_world s)) as Ha.
      apply elem_of_cons in Hin as [[= -> E]|Hin]; [rewrite <- E in Ha; by eapply cl_admitted|].
      destruct (GetAAS key (cs_world s)).1; [|destruct Hc as [-> _]; by apply not_elem_of_nil in Hin].
      destruct Hc as [_ Hc]. by destruct (reconciled_reads _ _ _ _ _ _ _ _ Hc Hin). }
  apply Forall_forall. intros [k [aas|]| | | | | | |p| | |] Hin; try done; [by eapply Hread|].
  destruct (patch_origin cfg s0 s p Hs0 Hreach Hin) as (s1 & aas & x & l & Ho). simpl.
  rewrite (or_patch _ _ _ _ _ _ _ _ Ho). by eapply deciding_current, or_deciding.
Qed.

Section cooldowns.
Context {W : Type} `{!ApiServer W} `{!PromQuerier W} `{!Forecaster W} `{!Clock W} `{GoPlatform}.
Context (cfg : Config) (key : NamespacedName) (c : bool → Z).

(** The CR's effective cooldowns are at least [c]. *)
Definition cools (aas : AgenticAutoscaler) : Prop :=
  ∀ up, 0 <= c up <= cooldown up (effective cfg aas).

(** Whenever the CR was read, it was there, and its effective cooldowns at least [c]. *)
Definition lasting (e : Effect) : Prop :=
  match e with
  | EGetAAS k (Ok aas) => k = key → cools aas
  | EGetAAS k (Err e) => k = key → IsNotFound e = false
  | _ => True
  end.

(** A patch that succeeded keeps its direction closed for the cooldown. *)
Definition spaced (p q : ScalePatch) : Prop :=
  pa_cr p = key → pa_cr q = key → pa_ok p = true → upward p = upward q →
  c (upward p) * Second <= pa_now q - pa_now p.

(** The clocks of the CR's state remember every successful patch. *)
Definition remembered (ps : list ScalePatch) (st : PerCRState) : Prop :=
  pc_Initialized st = true ∧
  ∀ p, p ∈ ps → pa_cr p = key → pa_ok p = true → pa_now p <= last_scale (upward p) st.

Definition clocks_ok (ps : list ScalePatch) (σ : StateStore) : Prop :=
  StronglySorted spaced ps ∧
  ((∃ st, view σ key = Some st ∧ remembered ps st) ∨ ∀ p, p ∈ ps → pa_cr p = key → pa_ok p = false).

Lemma remembered_loaded ps σ aas : clocks_ok ps σ → remembered ps (loaded σ key aas).
Proof.
  intros [_ [(st & Hv & Hi & Hr)|Hno]].
  - unfold loaded. rewrite Hv. simpl. by rewrite Hi.
  - split; [apply loaded_initialized|]. intros p Hp Hk Hok. specialize (Hno p Hp Hk). congruence.
Qed.

Lemma remembered_observed ps st rps n now st' :
  window_ok st → observe_rps cfg st rps n now = Some st' → remembered ps st → remembered ps st'.
Proof.
  intros Hw Hobs [Hi Hr]. destruct (observe_rps_spec cfg st rps n now Hw) as (st1 & E & _ & Hu & Hd & Hi1).
  rewrite Hobs in E. injection E as <-. split; [congruence|]. intros p Hp Hk Hok.
  specialize (Hr p Hp Hk Hok). unfold last_scale in *. by destruct (upward p); rewrite ?Hu, ?Hd.
Qed.

(** A new patch keeps its distance from all earlier ones. *)
Lemma spaced_new ps x aas ok :
  admitted cfg aas → cools aas → 0 <= de_current x <= max_count →
  co_ShouldPatch (sd_Cap (de_decision cfg aas x)) = true → remembered ps (de_st x) →
  ∀ p, p ∈ ps → spaced p (de_patch cfg key aas x ok).
Proof.
  intros Ha Hc Hcur Hsp [_ Hr] p Hp Hk _ Hok Hdir. specialize (Hr p Hp Hk Hok).
  destruct (decision_patch_ok cfg aas x) with key ok as [_ Hcd];
    [by apply admitted_well_configured|done..|].
  rewrite <- Hdir in Hcd. destruct (Hc (upward p)) as [H0 Hle]. simpl pa_now. unfold Second in *. lia.
Qed.

Lemma last_scale_record st x aas ok up :
  let p := de_patch cfg key aas x ok in
  last_scale up (record_scale st (co_Target (sd_Cap (de_decision cfg aas x))) (de_current x) (de_now x)) =
  if bool_decide (up = upward p) then de_now x else last_scale up st.
Proof.
  unfold record_scale, upward. cbn [de_patch pa_target pa_current].
  case_decide; [rewrite (bool_decide_eq_true_2 (_ < _)) by lia|
    rewrite (bool_decide_eq_false_2 (_ < _)) by lia]; by destruct up.
Qed.

Lemma remembered_record ps x aas :
  admitted cfg aas → cools aas → 0 <= de_current x <= max_count →
  co_ShouldPatch (sd_Cap (de_decision cfg aas x)) = true → remembered ps (de_st x) →
  remembered (ps ++ [de_patch cfg key aas x true])
    (record_scale (de_st x) (co_Target (sd_Cap (de_decision cfg aas x))) (de_current x) (de_now x)).
Proof.
  intros Ha Hc Hd Hsp Hr. pose proof (spaced_new ps x aas true Ha Hc Hd Hsp Hr) as Hs.
  split; [unfold record_scale; case_decide; apply Hr|].
  intros p Hp Hk Hok. rewrite (last_scale_record _ x aas true). apply elem_of_app in Hp as [Hp|Hp].
  - case_bool_decide as Hdir; [|by apply Hr].
    specialize (Hs p Hp Hk eq_refl Hok Hdir). simpl pa_now in Hs.
    destruct (Hc (upward p)). unfold Second in *. lia.
  - apply list_elem_of_singleton in Hp as ->. by rewrite bool_decide_eq_true_2.
Qed.

Lemma clocks_ok_app_other ps qs σ σ' :
  (∀ q, q ∈ qs → pa_cr q ≠ key) → view σ' key = view σ key →
  clocks_ok ps σ → clocks_ok (ps ++ qs) σ'.
Proof.
  intros Hqs Hv [Hs Hm]. split.
  - apply StronglySorted_app. split_and!; [|done|].
    + intros p q _ Hq _ Hk. by destruct (Hqs q Hq).
    + clear -Hqs. induction qs as [|q qs IH]; constructor; [apply IH; set_solver|].
      apply Forall_forall. intros q' Hq' Hk. destruct (Hqs q); [set_solver|done].
  - rewrite Hv. destruct Hm as [(st & Hst & Hi & Hr)|Hno]; [left; exists st; split; [done|]; split; [done|]|right];
      intros p [Hp|Hp]%elem_of_app Hk; try (by eauto); by destruct (Hqs p Hp).
Qed.

Lemma patched_clocks aas σ σ' ps qs :
  states_ok σ → admitted cfg aas → cools aas → clocks_ok ps σ →
  patched (W := W) cfg key aas σ σ' qs → (∀ q, q ∈ qs → 0 <= pa_current q <= max_count) →
  clocks_ok (ps ++ qs) σ'.
Proof.
  intros Hok Ha Hc Hcl Hp Hqs.
  assert (∀ x, deciding (W := W) cfg key aas σ x → remembered ps (de_st x)) as Hr.
  { intros x [_ _ Hobs].
    eapply remembered_observed; [by apply loaded_window|exact Hobs|by apply remembered_loaded]. }
  destruct Hp as [->|x Hd (_ & Hv & _)|x ok Hd Hsp (_ & Hv & _)].
  - by rewrite app_nil_r.
  - rewrite app_nil_r. split; [apply Hcl|]. left. exists (de_st x). split; [done|]. by apply Hr.
  - specialize (Hr x Hd).
    assert (0 <= de_current x <= max_count) as Hcur by (apply (Hqs _ (list_elem_of_here _ _))).
    split; [apply StronglySorted_snoc; [apply Hcl|]; by apply (spaced_new ps x aas ok)|].
    left. eexists. split; [exact Hv|]. destruct ok; [by apply remembered_record|].
    split; [apply Hr|]. intros p Hp Hk Hpok. apply elem_of_app in Hp as [Hp|Hp]; [by apply Hr|].
    by apply list_elem_of_singleton in Hp as ->.
Qed.

Lemma patched_keys key' aas σ σ' qs q :
  patched (W := W) cfg key' aas σ σ' qs → q ∈ qs → pa_cr q = key'.
Proof. destruct 1; [by intros ?%not_elem_of_nil..|]. by intros ->%list_elem_of_singleton. Qed.

Lemma patched_isolated key' aas σ σ' qs :
  patched (W := W) cfg key' aas σ σ' qs → key ≠ key' → view σ' key = view σ key.
Proof. destruct 1 as [->|x _ (_ & _ & Ho)|x ok _ _ (_ & _ & Ho)]; [done|auto..]. Qed.

Lemma step_clocks s s' :
  step cfg s s' → Forall lasting (cs_log s') → Forall (fits cfg) (cs_log s') →
  states_ok (cs_store s) → clocks_ok (scales (cs_log s)) (cs_store s) →
  clocks_ok (scales (cs_log s')) (cs_store s').
Proof.
  intros Hs Hl Hf Hok Hcl. destruct Hs as [s key'|]; [|done].
  rewrite Forall_forall in Hl, Hf.
  assert (EGetAAS key' (GetAAS key' (cs_world s)).1 ∈ cs_log (Reconcile cfg key' s).2) as Hin.
  { destruct (Reconcile_cases cfg key' s Hok) as (k & Hk & _). cbn zeta in Hk. rewrite Hk. set_solver. }
  assert (∀ q, q ∈ scales (cs_log (Reconcile cfg key' s).2) → 0 <= pa_current q <= max_count) as Hcnt.
  { intros q (e & He & Eq)%list_elem_of_omap. destruct e; simplify_eq. exact (Hf _ He). }
  pose proof (Hl _ Hin) as Hread. pose proof (Hf _ Hin) as Hfit.
  destruct (Reconcile_patched cfg key' s Hok) as (qs & Eqs & [(aas & E & Hp)|(-> & e & E & ->)]);
    rewrite Eqs in Hcnt |- *; rewrite E in Hread, Hfit; simpl in Hread, Hfit.
  - destruct (decide (key = key')) as [<-|Hne].
    { eapply patched_clocks; [done|exact Hfit|auto|done|exact Hp|]. intros q Hq. apply Hcnt. set_solver. }
    eapply clocks_ok_app_other; [|by eapply patched_isolated|done].
    intros q Hq <-. by destruct (patched_keys _ _ _ _ _ _ Hp Hq).
  - rewrite app_nil_r. destruct (IsNotFound e) eqn:En; [|done].
    destruct (decide (key = key')) as [<-|Hne]; [by specialize (Hread eq_refl)|].
    rewrite <- (app_nil_r (scales _)). eapply clocks_ok_app_other; [by intros ? ?%not_elem_of_nil| |done].
    by apply (Delete_spec (cs_store s) key' (proj1 Hok)).
Qed.

Lemma reachable_clocks s0 s :
  started s0 → rtc (step cfg) s0 s → Forall lasting (cs_log s) → Forall (fits cfg) (cs_log s) →
  clocks_ok (scales (cs_log s)) (cs_store s).
Proof.
  intros Hs0 Hreach. revert s Hreach.
  refine (rtc_ind_r (λ s, Forall lasting (cs_log s) → Forall (fits cfg) (cs_log s) →
    clocks_ok (scales (cs_log s)) (cs_store s)) s0 _ _); [|intros s s' Hr Hst IH]; intros Hl Hf.
  - destruct Hs0 as [_ ->]. split; [constructor|]. right. intros p Hp. by apply not_elem_of_nil in Hp.
  - pose proof (reachable_states_ok cfg s0 s Hs0 Hr) as Hok.
    apply (step_clocks s); [done..|]. destruct (step_grows cfg s s' Hok Hst) as [k Hk].
    rewrite Hk in Hl, Hf. apply Forall_app in Hl as [? _], Hf as [? _]. by apply IH.
Qed.
End cooldowns.
