(* ===== verification/Loop.v ===== *)
(** * The scaling loop by itself

    What repeated decisions make of a replica count when all their recommendations lie in
    one band: the count moves into the band, at most a step at a time and no faster than
    the cooldowns allow, and never leaves it again, however many decisions are taken and
    whenever, if only they keep coming.  Reconciles of a live cluster make such a loop
    (Live.v). *)
From S2P Require Import Prelude Float64 Reasoning Config Api State Decision Webhook.
From S2P Require Import Classifier Channels Adapters Interfaces Worker Manager Metrics.
From S2P Require Import Controller ReconcileCases Scaling.

(** The replica count, the clocks of the two directions, and the time. *)
Record LoopState := mkLoop {
  ls_Current : Z;
  ls_LastUp : Time;
  ls_LastDown : Time;
  ls_Now : Time;
}.

(** The state's clocks after a decision taken at [now]. *)
Definition loop_after (l : LoopState) (o : CapOutput) (now now' : Time) : LoopState :=
  if co_ShouldPatch o then
    if decide (co_Target o > ls_Current l)
    then mkLoop (co_Target o) now (ls_LastDown l) now'
    else mkLoop (co_Target o) (ls_LastUp l) now now'
  else mkLoop (ls_Current l) (ls_LastUp l) (ls_LastDown l) now'.

Section loop.
Context (lo hi step cup cdown : Z).

Definition loop_input (l : LoopState) (rec : Z) (reason : string) (now : Time) : CapInput :=
  mkCapInput rec (ls_Current l) step cup cdown (ls_LastUp l) (ls_LastDown l) now reason.

(** One decision on a recommendation in the band. *)
Definition loop_next (l l' : LoopState) : Prop :=
  ∃ rec reason now now', lo <= rec <= hi ∧ ls_Now l <= now <= now' ∧
    l' = loop_after l (ApplyCapAndCooldown (loop_input l rec reason now)) now now'.

(** A pause of [d] at least. *)
Definition loop_waits (d : Duration) (l l' : LoopState) : Prop :=
  ls_Now l + d <= ls_Now l' ∧
  l' = mkLoop (ls_Current l) (ls_LastUp l) (ls_LastDown l) (ls_Now l').

(** Decisions and pauses in any order, the pauses [d] together. *)
Inductive loop_run : Duration → LoopState → LoopState → Prop :=
| lr_nil l : loop_run 0 l l
| lr_decides d l l1 l2 : loop_run d l l1 → loop_next l1 l2 → loop_run d l l2
| lr_waits d e l l1 l2 : loop_run d l l1 → 0 <= e → loop_waits e l1 l2 → loop_run (d + e) l l2.

(** A decision and what follows it, for [dt] at least. *)
Definition loop_round (dt : Duration) (l l' : LoopState) : Prop :=
  ∃ d l1, loop_next l l1 ∧ loop_run d l1 l' ∧ dt <= d.

Record loop_ok (l : LoopState) : Prop := {
  lk_count : 0 <= ls_Current l <= max_count;
  lk_up : ls_LastUp l <= ls_Now l;
  lk_down : ls_LastDown l <= ls_Now l;
}.

(** How far the count is from the band, and how long the move towards it may have to wait. *)
Definition gap (l : LoopState) : Z := Z.max 0 (Z.max (lo - ls_Current l) (ls_Current l - hi)).
Definition waited (l : LoopState) : Duration :=
  if decide (ls_Current l < lo) then ls_Now l - ls_LastUp l - cup * Second
  else ls_Now l - ls_LastDown l - cdown * Second.

Hypothesis Hband : 0 <= lo <= hi ∧ hi <= max_count.
Hypothesis Hstep : 1 <= step <= max_count.
Hypothesis Hcup : 0 <= cup ∧ in_i32 cup.
Hypothesis Hcdown : 0 <= cdown ∧ in_i32 cdown.

Lemma loop_input_ok l rec reason now : loop_ok l → cap_ok (loop_input l rec reason now).
Proof. intros [Hc _ _]. unfold max_count in *. split; simpl; int_lia. Qed.

Lemma gap_cases l :
  ls_Current l < lo ∧ gap l = lo - ls_Current l ∨
  lo <= ls_Current l <= hi ∧ gap l = 0 ∨ hi < ls_Current l ∧ gap l = ls_Current l - hi.
Proof. unfold gap. lia. Qed.

Lemma loop_next_progress l l' :
  loop_ok l → loop_next l l' →
  loop_ok l' ∧
  (gap l = 0 → gap l' = 0) ∧
  (0 < gap l →
     (gap l' = Z.max 0 (gap l - step) ∧ (0 < gap l' → - (Z.max cup cdown * Second) <= waited l')) ∨
     (gap l' = gap l ∧ waited l < 0 ∧ waited l <= waited l')).
Proof.
  intros Hok (rec & reason & now & now' & Hrec & Hnow & ->).
  pose proof (loop_input_ok l rec reason now Hok) as Hcap.
  rewrite (cap_follows_design _ Hcap). destruct Hok as [Hc Hu Hd]. clear Hcap.
  unfold loop_after, cap_design, CapOutput_keep, loop_input; simpl.
  destruct (Z.sgn_spec (rec - ls_Current l)) as [[? ->]|[[? ->]|[? ->]]]; split_decisions; simpl in *;
    match goal with |- loop_ok ?l' ∧ _ => pose proof (gap_cases l') as Hg'; set (g' := gap l') in * end;
    (destruct (gap_cases l) as [[? ->]|[[? ->]|[? ->]]]; [..|]);
    (destruct Hg' as [[? E]|[[? E]|[? E]]]); clearbody g'; simpl in *; subst g'; unfold waited; simpl;
    split_and!; try split; simpl; split_decisions; unfold Second, max_count in *; lia.
Qed.

Lemma loop_waits_progress d l l' :
  0 <= d → loop_ok l → loop_waits d l l' → loop_ok l' ∧ gap l' = gap l ∧ waited l + d <= waited l'.
Proof.
  intros Hd [Hc Hu Hdn] [Hnow ->]. simpl in *. split; [split; simpl; lia|]. split; [done|].
  unfold waited. simpl. case_decide; lia.
Qed.

Lemma loop_run_ok d l l' : loop_run d l l' → loop_ok l → loop_ok l' ∧ 0 <= d.
Proof.
  induction 1 as [l|d l l1 l2 _ IH Hl|d e l l1 l2 _ IH He Hl]; intros Hok; [done| |];
    destruct (IH Hok) as [Hok1 Hd]; (split; [|lia]).
  - exact (proj1 (loop_next_progress _ _ Hok1 Hl)).
  - exact (proj1 (loop_waits_progress _ _ _ He Hok1 Hl)).
Qed.

Lemma loop_run_stays d l l' : loop_run d l l' → loop_ok l → gap l = 0 → gap l' = 0.
Proof.
  induction 1 as [l|d l l1 l2 H1 IH Hl|d e l l1 l2 H1 IH He Hl]; intros Hok Hg; [done| |];
    destruct (loop_run_ok _ _ _ H1 Hok) as [Hok2 _]; specialize (IH Hok Hg).
  - by apply (loop_next_progress l1 l2 Hok2 Hl).
  - by destruct (loop_waits_progress e l1 l2 He Hok2 Hl) as (_ & -> & _).
Qed.

Lemma loop_round_stays dt l l' :
  loop_ok l → loop_round dt l l' → loop_ok l' ∧ (gap l = 0 → gap l' = 0).
Proof.
  intros Hok (d & l1 & Hl & Hrun & _). destruct (loop_next_progress l l1 Hok Hl) as (Hok1 & H0 & _).
  destruct (loop_run_ok _ _ _ Hrun Hok1) as [Hok' _]. split; [done|].
  intros Hg%H0. by eapply loop_run_stays.
Qed.

Section potential.
Context (dt : Duration) (q : nat).
Hypothesis Hdt : 0 <= dt.
Hypothesis Hq : Z.max cup cdown * Second <= Z.of_nat q * dt.
Hypothesis Hq1 : (1 <= q)%nat.

(** A potential: [k] steps away from the band, each worth [q] rounds, and [r] more until the
    next move is due. *)
Definition within_reach (k r : nat) (l : LoopState) : Prop :=
  gap l <= Z.of_nat k * step ∧ (0 < gap l → - (Z.of_nat r * dt) <= waited l) ∧ (r <= q)%nat.

(** In the middle of a round, [e] after its first decision: waiting for the next move, or
    one move further, or two. *)
Definition midway (k r : nat) (e : Duration) (l : LoopState) : Prop :=
  gap l = 0 ∨
  (1 <= r)%nat ∧ gap l <= Z.of_nat k * step ∧ e - Z.of_nat r * dt <= waited l ∨
  gap l <= (Z.of_nat k - 1) * step ∧ (if decide (r = 0%nat) then e else 0) - Z.of_nat q * dt <= waited l ∨
  gap l <= (Z.of_nat k - 2) * step ∧ - (Z.of_nat q * dt) <= waited l.

Lemma midway_first k r l l' :
  loop_ok l → within_reach k r l → loop_next l l' → midway k r 0 l'.
Proof.
  intros Hok (Hk & Hr & Hrq) Hl. destruct (loop_next_progress l l' Hok Hl) as (_ & H0 & Hp).
  assert (0 <= gap l ∧ 0 <= gap l') as [Hg Hg'] by (unfold gap; lia). unfold midway.
  destruct (decide (gap l' = 0)) as [|Hne]; [by left|right]. specialize (Hp ltac:(lia)). specialize (Hr ltac:(lia)).
  destruct Hp as [[Hgap Hw]|(Hgap & Hneg & Hw)].
  - right; left. specialize (Hw ltac:(lia)). case_decide; split; nia.
  - left. split_and!; [nia|lia|nia].
Qed.

Lemma midway_decides k r e l l' :
  loop_ok l → 0 <= e → midway k r e l → loop_next l l' → midway k r e l'.
Proof.
  intros Hok He Hm Hl. destruct (loop_next_progress l l' Hok Hl) as (_ & H0 & Hp).
  assert (0 <= gap l ∧ 0 <= gap l') as [Hg Hg'] by (unfold gap; lia). unfold midway in *.
  destruct (decide (gap l' = 0)) as [|Hne]; [by left|right]. specialize (Hp ltac:(lia)).
  destruct Hp as [[Hgap Hw]|(Hgap & Hneg & Hw)].
  - specialize (Hw ltac:(lia)). destruct Hm as [?|[(Hr & Hk & _)|[[Hk _]|[Hk _]]]]; [lia| | |].
    + right; left. rewrite decide_False by lia. split; nia.
    + right; right. split; nia.
    + right; right. split; nia.
  - destruct Hm as [?|[(Hr & Hk & Hm)|[[Hk Hm]|[Hk Hm]]]]; [lia| | |];
      [left|right; left|right; right]; split_and?; lia.
Qed.

Lemma midway_waits k r e d l l' :
  loop_ok l → 0 <= d → midway k r e l → loop_waits d l l' → midway k r (e + d) l'.
Proof.
  intros Hok Hd Hm Hl. destruct (loop_waits_progress d l l' Hd Hok Hl) as (_ & Hg & Hw).
  unfold midway in *. rewrite Hg. case_decide; lia.
Qed.

Lemma midway_run k r d l l' : loop_run d l l' → loop_ok l → midway k r 0 l → midway k r d l'.
Proof.
  induction 1 as [l|d l l1 l2 H1 IH Hl|d e l l1 l2 H1 IH He Hl]; intros Hok Hm; [done| |];
    destruct (loop_run_ok _ _ _ H1 Hok) as [Hok1 Hd].
  - eapply midway_decides; eauto.
  - eapply midway_waits; eauto.
Qed.

(** A round uses up some of the potential. *)
Lemma loop_round_reach k r l l' :
  loop_ok l → within_reach k r l → loop_round dt l l' →
  gap l' = 0 ∨ ∃ k' r', within_reach k' r' l' ∧ (k' * q + r' < k * q + r)%nat.
Proof.
  intros Hok Hr (d & l1 & Hl & Hrun & Hd). pose proof (midway_first k r l l1 Hok Hr Hl) as Hm.
  destruct Hr as (_ & _ & Hrq). destruct (loop_next_progress l l1 Hok Hl) as (Hok1 & _ & _).
  apply (midway_run k r d l1 l' Hrun Hok1) in Hm. assert (0 <= gap l') as Hg by (unfold gap; lia).
  destruct (decide (gap l' = 0)) as [|Hne]; [by left|right].
  destruct Hm as [?|[(Hr & Hk & Hm)|[[Hk Hm]|[Hk Hm]]]]; [lia| | |].
  - exists k, (pred r). split; [|lia]. split_and!; [lia|intros _; nia|lia].
  - assert (2 <= k)%nat by nia. case_decide as E.
    + exists (pred k), (pred q). split; [|nia]. split_and!; [nia|intros _; nia|lia].
    + exists (pred k), q. split; [|nia]. split_and!; [nia|intros _; nia|lia].
  - assert (3 <= k)%nat by nia. exists (k - 2)%nat, q. split; [|nia]. split_and!; [nia|intros _; nia|lia].
Qed.

(** Into the band after [k * q + 1] rounds. *)
Lemma loop_reaches_band k n l l' :
  loop_ok l → gap l <= Z.of_nat k * step → (k * q < n)%nat → nsteps (loop_round dt) n l l' →
  loop_ok l' ∧ lo <= ls_Current l' <= hi.
Proof.
  intros Hok Hk Hn Hs.
  assert (∀ n m r l, loop_ok l → nsteps (loop_round dt) n l l' → gap l = 0 ∨ within_reach m r l →
    (m * q + r < n + q)%nat → loop_ok l' ∧ gap l' = 0) as Hind.
  { clear - Hq Hq1 Hband Hstep Hcup Hcdown Hdt.
    induction n as [|n IH]; intros m r l Hok Hs Hm Hlt; inversion Hs as [|? ? l1 ? Hl Hs']; subst.
    - split; [done|]. destruct Hm as [|(Hg & _ & _)]; [done|].
      assert (m = 0%nat) as -> by nia. unfold gap in *. lia.
    - destruct (loop_round_stays dt l l1 Hok Hl) as (Hok1 & H0).
      destruct Hm as [Hz|Hm]; [by apply (IH 0%nat 0%nat l1); [..|left; auto|lia]|].
      destruct (loop_round_reach m r l l1 Hok Hm Hl) as [Hz|(m' & r' & Hm' & Hlt')].
      + by apply (IH 0%nat 0%nat l1); [..|left|lia].
      + by apply (IH m' r' l1); [..|right|lia]. }
  destruct (Hind n k q l Hok Hs) as [Hok' Hg].
  - right. split_and!; [done| |lia]. intros _. unfold waited. destruct Hok.
    case_decide; unfold Second in *; lia.
  - lia.
  - split; [done|]. unfold gap in Hg. lia.
Qed.

(** And there it stays, however the loop goes on. *)
Lemma loop_stays_in_band k n l l1 l' d :
  loop_ok l → gap l <= Z.of_nat k * step → (k * q < n)%nat → nsteps (loop_round dt) n l l1 →
  loop_run d l1 l' → lo <= ls_Current l' <= hi.
Proof.
  intros Hok Hk Hn Hs Hrun. destruct (loop_reaches_band k n l l1 Hok Hk Hn Hs) as [Hok1 Hin].
  assert (gap l' = 0) as Hg; [|unfold gap in Hg; lia].
  eapply loop_run_stays; [exact Hrun|exact Hok1|]. unfold gap. lia.
Qed.
End potential.
End loop.
