(* ===== verification/Demo.v ===== *)
(** * A concrete cluster

    One CR, its Deployment, a constant load and a clock that advances by five minutes
    with every reading: an instance of every interface on which the theorems about the
    reconciler are exercised. *)
From S2P Require Import Prelude Float64 FloatOrder FloatRound Reasoning Config Capacity.
From S2P Require Import Api State Decision Webhook Adapters Interfaces Manager Metrics.
From S2P Require Import Controller ReconcileCases Scaling.
From Stdlib Require Import SpecFloat.

Record Demo := mkDemo {
  dm_replicas : Z;
  dm_clock : Time;
  dm_lastScale : option Time;
  dm_forecast : Z;
  dm_paused : bool;
}.

Definition demo_key : NamespacedName := mkNN "ns" "app".

(** The CR the cluster holds. *)
Definition demo_cr (w : Demo) : AgenticAutoscaler :=
  let cr := set_status (mkStatus PhaseReady EmptyString 0 0 0 0 0 (dm_lastScale w) None) sample_cr in
  if dm_paused w then set_annotations {[ AnnotationKillSwitch := "true" ]} cr else cr.

#[export] Instance demo_api : ApiServer Demo := {|
  GetAAS key := λ w, (if decide (key = demo_key) then Ok (demo_cr w) else Err (NotFound "gone"), w);
  UpdateAASStatus aas := λ w,
    (Ok (), mkDemo (dm_replicas w) (dm_clock w) (st_LastScaleTime (aas_Status aas)) (dm_forecast w)
              (dm_paused w));
  UpdateAAS _ := mret (Ok ());
  GetDeployment key := λ w,
    (Ok (mkDeployment (nn_Namespace key) (nn_Name key) ∅
           (Some (Z.max 0 (Z.min max_count (dm_replicas w))))), w);
  ListHPA _ := mret (Ok [mkHPA "other" "Deployment" "elsewhere"]);
  UpdateScale _ n := λ w,
    (Ok (), mkDemo n (dm_clock w) (dm_lastScale w) (dm_forecast w) (dm_paused w));
|}.

#[export] Instance demo_clock : Clock Demo :=
  λ w, (dm_clock w, mkDemo (dm_replicas w) (dm_clock w + 300 * Second) (dm_lastScale w)
                      (dm_forecast w) (dm_paused w)).

#[export] Instance demo_metrics : PromQuerier Demo := {|
  pq_InstantQuery _ := mret (Ok (f64_of_Z 1200));
  pq_RangeQuery _ _ _ _ := mret (Ok (replicate 12 (Prometheus.mkSample 0 (f64_of_Z 1200))));
|}.

#[export] Instance demo_forecaster : Forecaster Demo :=
  λ _ w, (Ok (Forecast.mkResponse (f64_of_Z (Z.max 0 (Z.min 1000000 (dm_forecast w)))) 10
                "linear_extrap"), w).


Definition demo_config : Config := default_config "f" "p".

Definition demo_state (w : Demo) : CtlState Demo :=
  mkCtl w NewStateStore None no_samples None [].

Lemma demo_admitted w : admitted demo_config (demo_cr w).
Proof.
  assert (aas_Spec (demo_cr w) = aas_Spec sample_cr) as Hs by (unfold demo_cr; by destruct (dm_paused w)).
  assert (st_ClassifiedParams (aas_Status (demo_cr w)) = None) as Hc
    by (unfold demo_cr; by destruct (dm_paused w)).
  split; unfold min_replicas, max_replicas; rewrite ?Hs, ?Hc; try done.
  repeat constructor; vm_compute; congruence.
Qed.

#[export] Instance demo_cluster : ClusterLaws Demo demo_config.
Proof.
  split.
  - intros key aas (w & w' & E). simpl in E. case_decide; [|done]. simplify_eq. apply demo_admitted.
  - intros key d (w & w' & E). simpl in E. simplify_eq. simpl. unfold max_count. lia.
Qed.

(** Two reconciles under a forecast far above the capacity scale up by a step each. *)
Definition demo_start : Demo := mkDemo 2 (1000000 * Second) None 6000 false.
Definition demo_once : CtlState Demo := (@Reconcile Demo _ _ _ _ amd64 demo_config demo_key (demo_state demo_start)).2.
Definition demo_twice : CtlState Demo := (@Reconcile Demo _ _ _ _ amd64 demo_config demo_key demo_once).2.

Example demo_scales :
  (λ p, (pa_current p, pa_target p, pa_now p)) <$> scales (cs_log demo_twice) =
    [(2, 6, 1000300 * Second); (6, 10, 1000900 * Second)].
Proof. vm_compute. reflexivity. Qed.

(** The transcript of the first reconcile, evaluated. *)
Definition demo_log : list Effect := Eval vm_compute in cs_log demo_once.

Lemma demo_log_eq : cs_log demo_once = demo_log.
Proof. vm_compute. reflexivity. Qed.
