(* ===== verification/Guarantees.v ===== *)
(** * The guarantees of the reconcile loop

    The theorems about [Reconcile], read off the classification of its runs: the bounds,
    the justification and the spacing of the scale patches over any sequence of
    reconciles and environment steps, the restart, the pre-checks, the error paths, the
    isolation of CRs from each other, and what is told to the explainer. *)
From S2P Require Import Prelude Float64 FloatOrder FloatRound Reasoning Config Capacity.
From S2P Require Import Api State Decision Webhook Channels Adapters Interfaces Worker.
From S2P Require Import Manager Metrics Controller ReconcileCases Scaling Demo.
From Stdlib Require Import SpecFloat.

(** Claim C3: no data, no scaling. In every run of the controller, whatever the cluster,
    Prometheus and the Forecast Service do between and during the reconciles, each patch
    of a scale subresource stands in the log directly behind the transcript of its
    reconcile: the CR was read, the HPAs were listed and none manages the Deployment, the
    kill switch is off and no deletion pending, both Prometheus queries were answered, the
    second with enough samples, the Forecast Service answered for exactly these samples,
    the Deployment was read; and the patch is the one decided from these answers and from
    the state the CR had in the store. *)
Theorem every_patch_is_justified {W} `{!ApiServer W} `{!PromQuerier W} `{!Forecaster W}
    `{!Clock W} `{GoPlatform} cfg (s0 s : CtlState W) p :
  started s0 → rtc (step cfg) s0 s → EScale p ∈ cs_log s →
  ∃ s1 aas x l1 l2,
    cs_log s = l1 ++ EGetAAS (pa_cr p) (Ok aas) :: transcript cfg (pa_cr p) aas x ++ EScale p :: l2 ∧
    rtc (step cfg) s0 s1 ∧ deciding (W := W) cfg (pa_cr p) aas (cs_store s1) x ∧
    co_ShouldPatch (sd_Cap (de_decision cfg aas x)) = true ∧
    p = de_patch cfg (pa_cr p) aas x (pa_ok p).
Proof.
  intros Hs0 Hr Hp. destruct (patch_origin cfg s0 s p Hs0 Hr Hp) as (s1 & aas & x & l & []).
  destruct (rtc_grows cfg s0 (Reconcile cfg (pa_cr p) s1).2 s Hs0) as [l' Hl']; [by eapply rtc_r, step_reconcile|done|].
  exists s1, aas, x, (cs_log s1), (l ++ l'). split_and!; try done.
  rewrite Hl', or_log, <- app_assoc. simpl. by rewrite <- app_assoc.
Qed.

Lemma demo_started : started (demo_state demo_start).
Proof. done. Qed.

Lemma demo_runs : rtc (step (H := amd64) demo_config) (demo_state demo_start) demo_twice.
Proof. do 2 (eapply rtc_l; [apply step_reconcile|]). apply rtc_refl. Qed.

Lemma in_log {W} (s : CtlState W) n e : cs_log s !! n = Some e → e ∈ cs_log s.
Proof. apply list_elem_of_lookup_2. Qed.

(** The patches of the demonstration. *)
Definition demo_patch (cur target : Z) (now : Time) : ScalePatch :=
  mkScalePatch demo_key (mkNN "ns" "app") cur target now true.

Lemma demo_patched : EScale (demo_patch 2 6 (1000300 * Second)) ∈ cs_log demo_twice.
Proof. apply (in_log _ 8). vm_compute. reflexivity. Qed.

Lemma demo_patched_again : EScale (demo_patch 6 10 (1000900 * Second)) ∈ cs_log demo_twice.
Proof. apply (in_log _ 20). vm_compute. reflexivity. Qed.

Lemma every_patch_is_justified_witness :
  started (demo_state demo_start) ∧
  ∃ aas, EGetAAS demo_key (Ok aas) ∈ cs_log demo_twice ∧ annotation aas AnnotationKillSwitch ≠ "true".
Proof.
  split; [exact demo_started|].
  destruct (@every_patch_is_justified Demo _ _ _ _ amd64 demo_config _ _
    (demo_patch 2 6 (1000300 * Second)) demo_started demo_runs demo_patched)
    as (s1 & aas & x & l1 & l2 & El & _ & Hd & _).
  exists aas. split; [|apply Hd]. rewrite El. apply elem_of_app. right. left.
Defined.

(** Claim C1: patches respect their CR. In a cluster whose CRs are admitted, each patch in
    any run changes the replica count by at most the effective step of the CR that its
    reconcile read, keeps a count that is inside [minReplicas, maxReplicas] inside, moves
    a count outside of it towards it, and never asks for less than one replica. *)
Theorem every_patch_is_within_bounds {W} `{!ApiServer W} `{!PromQuerier W} `{!Forecaster W}
    `{!Clock W} `{GoPlatform} cfg `{!ClusterLaws W cfg} (s0 s : CtlState W) p :
  started s0 → rtc (step cfg) s0 s → EScale p ∈ cs_log s →
  ∃ s1 aas x l, origin cfg s0 s p s1 aas x l ∧ patch_ok cfg aas p ∧ 1 <= pa_target p.
Proof.
  intros Hs0 Hr Hp. destruct (patch_origin cfg s0 s p Hs0 Hr Hp) as (s1 & aas & x & l & Ho).
  exists s1, aas, x, l. split; [done|]. destruct Ho.
  pose proof (admitted_well_configured _ _ (cl_admitted _ _ or_cr)) as Hwc.
  pose proof (deciding_current _ _ _ _ _ or_deciding) as Hcur.
  destruct (decision_patch_ok cfg aas x Hwc Hcur (pa_cr p) (pa_ok p) or_moves) as [Hok _].
  rewrite <- or_patch in Hok. split; [done|].
  assert (pa_current p = de_current x) as Ec by (by rewrite or_patch).
  pose proof (wc_bounds _ _ Hwc). destruct Hok. lia.
Qed.

Lemma every_patch_is_within_bounds_witness :
  started (demo_state demo_start) ∧ 1 <= 10 ∧
  ∃ aas, answers (GetAAS (W := Demo) demo_key) (Ok aas) ∧
    patch_ok demo_config aas (demo_patch 6 10 (1000900 * Second)).
Proof.
  split; [exact demo_started|]. split; [lia|].
  destruct (@every_patch_is_within_bounds Demo _ _ _ _ amd64 demo_config _ _ _
    (demo_patch 6 10 (1000900 * Second)) demo_started demo_runs demo_patched_again)
    as (s1 & aas & x & l & Ho & Hok & _).
  exists aas. split; [exact (or_cr _ _ _ _ _ _ _ _ Ho)|exact Hok].
Defined.

(** Claim C2: cooldowns hold across reconciles. In any run in which the CR was there
    whenever it was read, with effective cooldowns of at least [c] seconds, a successful
    patch of the CR and any later attempt in the same direction are at least [c] seconds
    apart; other CRs, failed patches, failed status updates and environment steps in
    between make no difference. *)
Theorem patches_are_spaced {W} `{!ApiServer W} `{!PromQuerier W} `{!Forecaster W}
    `{!Clock W} `{GoPlatform} cfg `{!ClusterLaws W cfg} key (c : bool → Z) (s0 s : CtlState W)
    i j p q :
  started s0 → rtc (step cfg) s0 s → Forall (lasting cfg key c) (cs_log s) →
  scales (cs_log s) !! i = Some p → scales (cs_log s) !! j = Some q → (i < j)%nat →
  pa_cr p = key → pa_cr q = key → pa_ok p = true → upward p = upward q →
  c (upward p) * Second <= pa_now q - pa_now p.
Proof.
  intros Hs0 Hr Hl Hp Hq Hij.
  destruct (reachable_clocks cfg key c s0 s Hs0 Hr Hl (run_fits cfg s0 s Hs0 Hr)) as [Hss _].
  exact (StronglySorted_lookup_lt _ _ _ _ _ _ Hss Hij Hp Hq).
Qed.

Lemma patches_are_spaced_witness :
  started (demo_state demo_start) ∧ 60 * Second <= 1000900 * Second - 1000300 * Second.
Proof.
  split; [exact demo_started|].
  apply (@patches_are_spaced Demo _ _ _ _ amd64 demo_config _ demo_key (λ up, if up then 60 else 300)
    (demo_state demo_start) demo_twice 0 1 (demo_patch 2 6 (1000300 * Second)) (demo_patch 6 10 (1000900 * Second)));
    [exact demo_started|exact demo_runs| |vm_compute; reflexivity|vm_compute; reflexivity|lia|
     reflexivity..].
  let l := eval vm_compute in (cs_log demo_twice) in change (cs_log demo_twice) with l.
  repeat (constructor; [first [exact I|intros _ []; vm_compute; split; congruence]|]). constructor.
Defined.

(** ** Restarts *)

(** A CR whose state was lost starts with the clocks of its status. *)
Lemma loaded_fresh σ key aas t up :
  view σ key = None → st_LastScaleTime (aas_Status aas) = Some t → t ≠ 0 →
  last_scale up (loaded σ key aas) = t.
Proof.
  intros Hv Ht Hne. unfold loaded. rewrite Hv. simpl. unfold InitializeFromStatus, buildStatusSeed.
  rewrite Ht. cbn [seed_LastScaleTime deref_or]. unfold time_IsZero.
  rewrite bool_decide_eq_false_2 by done. destruct (_ && _); by destruct up.
Qed.

(** [metav1.Time] is stored as RFC 3339, to the second. *)
Definition stored_time (t : Time) : Time := t / Second * Second.

Section restart.
Context {W : Type} `{!ApiServer W} `{!PromQuerier W} `{!Forecaster W} `{!Clock W} `{GoPlatform}.
Context (cfg : Config) (key : NamespacedName).

Lemma fresh_patch_cooldown `{!ClusterLaws W cfg} aas σ x t ok :
  states_ok σ → answers (GetAAS (W := W) key) (Ok aas) → deciding (W := W) cfg key aas σ x →
  co_ShouldPatch (sd_Cap (de_decision cfg aas x)) = true →
  view σ key = None → st_LastScaleTime (aas_Status aas) = Some t → t ≠ 0 →
  let q := de_patch cfg key aas x ok in
  cooldown (upward q) (effective cfg aas) * Second <= pa_now q - t.
Proof.
  intros Hok Ha Hdec Hsp Hv Ht Hne. cbn zeta.
  pose proof (admitted_well_configured _ _ (cl_admitted _ _ Ha)) as Hwc.
  pose proof (deciding_current _ _ _ _ _ Hdec) as Hcur.
  destruct (decision_patch_ok cfg aas x Hwc Hcur key ok Hsp) as [_ Hcd].
  destruct (observe_rps_spec cfg (loaded σ key aas) (de_rps x) (de_current x) (de_now x))
    as (st & E & _ & Hu & Hd & _); [by apply loaded_window|].
  rewrite (dc_observed _ _ _ _ _ Hdec) in E. injection E as <-.
  rewrite <- (loaded_fresh σ key aas t (upward (de_patch cfg key aas x ok))) by done.
  unfold last_scale in *. destruct (upward _); rewrite <- ?Hu, <- ?Hd; exact Hcd.
Qed.

(** A reconcile that patched records the time in the status it writes. *)
Lemma patched_status aas σ k σ' p aas' r :
  reconciled (W := W) cfg key aas σ k σ' → EScale p ∈ k → EStatus aas' r ∈ k →
  ∃ x, p = de_patch cfg key aas x true ∧ aas' = de_status cfg aas x ∧
    st_LastScaleTime (aas_Status aas') = Some (pa_now p).
Proof.
  intros Hr Hp Hs. destruct (reconciled_scale _ _ _ _ _ _ _ Hr Hp) as (x & l & _ & Hsp & Ep & -> & Hl).
  apply elem_of_app in Hs as [Hs|Hs]; [by apply transcript_status in Hs|].
  apply elem_of_cons in Hs as [Hs|Hs]; [done|].
  destruct (pa_ok p); [|by rewrite Hl in Hs; inversion Hs]. destruct Hl as [r' ->].
  exists x. unfold closing in Hs. rewrite Hsp in Hs.
  assert (aas' = de_status cfg aas x) as -> by set_solver. rewrite Ep. split_and!; [done..|].
  unfold de_status, final_status. simpl. by rewrite Hsp.
Qed.
End restart.

(** Claim C4: cooldowns survive a restart. Let a reconcile patch the scale subresource and
    write its status, and let the controller be restarted. When a reconcile of the new
    process, which starts without any state for the CR, reads that status back (times are
    stored to the second), then every patch it makes, in either direction, keeps the
    effective cooldown of its direction from the patch of the old process, up to less
    than that second. *)
Theorem cooldown_survives_restart {W} `{!ApiServer W} `{!PromQuerier W} `{!Forecaster W}
    `{!Clock W} `{GoPlatform} cfg `{!ClusterLaws W cfg} key (s1 s2 : CtlState W)
    k1 k2 p q aas' aas2 :
  states_ok (cs_store s1) → cs_log (Reconcile cfg key s1).2 = cs_log s1 ++ k1 →
  EScale p ∈ k1 → EStatus aas' (Ok ()) ∈ k1 → Second <= pa_now p →
  states_ok (cs_store s2) → view (cs_store s2) key = None →
  cs_log (Reconcile cfg key s2).2 = cs_log s2 ++ EGetAAS key (Ok aas2) :: k2 →
  st_LastScaleTime (aas_Status aas2) = stored_time <$> st_LastScaleTime (aas_Status aas') →
  EScale q ∈ k2 →
  cooldown (upward q) (effective cfg aas2) * Second - Second < pa_now q - pa_now p.
Proof.
  intros Hok1 Hl1 Hp Hs Hsec Hok2 Hv Hl2 Hlast Hq.
  destruct (Reconcile_log cfg key s1 k1 Hok1 Hl1) as (k & -> & Hc).
  apply elem_of_cons in Hp as [?|Hp]; [done|]. apply elem_of_cons in Hs as [?|Hs]; [done|].
  destruct (GetAAS key (cs_world s1)).1 as [aas1|e]; [|rewrite Hc in Hp; by inversion Hp].
  destruct (patched_status _ _ _ _ _ _ _ _ _ (proj2 Hc) Hp Hs) as (_ & _ & _ & Hnow).
  rewrite Hnow in Hlast. simpl in Hlast.
  destruct (Reconcile_read cfg key s2 aas2 k2 Hok2 Hl2) as (Ha & _ & Hr2).
  destruct (reconciled_scale _ _ _ _ _ _ _ Hr2 Hq) as (x & l & Hd & Hsp & Eq & _).
  assert (pa_now p - Second < stored_time (pa_now p) <= pa_now p ∧ 0 < stored_time (pa_now p)) as [Hst Hpos].
  { unfold stored_time, Second in *. pose proof (Z.div_mod (pa_now p) 1000000000 ltac:(lia)).
    pose proof (Z.mod_pos_bound (pa_now p) 1000000000 ltac:(lia)). lia. }
  assert (stored_time (pa_now p) ≠ 0) as Hne by lia.
  pose proof (fresh_patch_cooldown cfg key aas2 _ x _ (pa_ok q) Hok2 Ha Hd Hsp Hv Hlast Hne) as Hcd.
  cbn zeta in Hcd. rewrite <- Eq in Hcd. lia.
Qed.

(** The second process of the demonstration. *)
Definition demo_restarted : CtlState Demo := demo_state (cs_world demo_once).
Definition demo_again : CtlState Demo :=
  (@Reconcile Demo _ _ _ _ amd64 demo_config demo_key demo_restarted).2.

Lemma cooldown_survives_restart_witness :
  st_LastScaleTime (aas_Status (demo_cr (cs_world demo_restarted))) = Some (1000300 * Second) ∧
  60 * Second - Second < 1000900 * Second - 1000300 * Second.
Proof.
  split; [vm_compute; reflexivity|].
  assert (∃ a, cs_log demo_once !! 11%nat = Some (EStatus a (Ok ())) ∧
    st_LastScaleTime (aas_Status a) = Some (1000300 * Second)) as (a & Ha & Ht)
    by (eexists; split; vm_compute; reflexivity).
  apply (@cooldown_survives_restart Demo _ _ _ _ amd64 demo_config _ demo_key (demo_state demo_start)
    demo_restarted (cs_log demo_once) (tail (cs_log demo_again)) (demo_patch 2 6 (1000300 * Second))
    (demo_patch 6 10 (1000900 * Second)) a (demo_cr (cs_world demo_restarted))).
  - apply states_ok_new.
  - vm_compute. reflexivity.
  - apply (in_log _ 8). vm_compute. reflexivity.
  - exact (in_log _ 11 _ Ha).
  - vm_compute. discriminate.
  - apply states_ok_new.
  - vm_compute. reflexivity.
  - vm_compute. reflexivity.
  - rewrite Ht. vm_compute. reflexivity.
  - apply (list_elem_of_lookup_2 _ 7). vm_compute. reflexivity.
Defined.

(** ** Errors and pauses *)

(** A CR that no pre-check stops shows no cause for a pause. *)
Lemma active_not_paused aas hpas k :
  active aas hpas → (∀ r, EListHPA (aas_Namespace aas) r ∉ k) →
  ¬ pause_cause aas (EListHPA (aas_Namespace aas) (Ok hpas) :: k).
Proof.
  intros [Hs Hd Hc] Hk [?|[?|[[e He]|(hpas' & He & Hex)]]]; [done|congruence|..].
  - apply elem_of_cons in He as [?|He]; [done|]. by apply Hk in He.
  - apply elem_of_cons in He as [[= ->]|He]; [|by apply Hk in He].
    rewrite Exists_exists in Hex. destruct Hex as (h & Hh & Ht). rewrite Forall_forall in Hc.
    by rewrite Hc in Ht.
Qed.

Lemma probe_not_list cfg key aas k r :
  Forall (probe_effect cfg key aas) k → EListHPA (aas_Namespace aas) r ∉ k.
Proof. rewrite Forall_forall. intros Hk Hr. by apply Hk in Hr. Qed.

Lemma acted_not_list `{GoPlatform} cfg key aas σ x k σ' r :
  acted cfg key aas σ x k σ' → EListHPA (aas_Namespace aas) r ∉ k.
Proof. destruct 1; unfold closing; try destruct (co_ShouldPatch _); set_solver. Qed.

(** What a reconcile with the transcript [k] returns. *)
Definition result_of (cfg : Config) (k : list Effect) : Outcome :=
  match k with
  | EGetAAS _ (Ok aas) :: k => outcome_of cfg aas k
  | EGetAAS _ (Err e) :: _ => Finished 0 (if IsNotFound e then None else Some e)
  | _ => Panicked
  end.

(** Claim C14: outages requeue. From any reachable state a reconcile never panics, and what
    it returns is read off its transcript: the error of the CR's read, unless the CR is
    gone, which ends without a requeue; else the error of the HPA list or of a status
    update, if one failed; else nothing for a CR that is being deleted without a kill
    switch; else a requeue after the interval. Every failure of Prometheus, of the
    Forecast Service, of the Deployment read or of the scale patch is among the last. *)
Theorem Reconcile_outcomes {W} `{!ApiServer W} `{!PromQuerier W} `{!Forecaster W}
    `{!Clock W} `{GoPlatform} cfg key (s0 s : CtlState W) :
  started s0 → rtc (step cfg) s0 s →
  ∃ k, cs_log (Reconcile cfg key s).2 = cs_log s ++ k ∧
    (Reconcile cfg key s).1 = result_of cfg k ∧ (Reconcile cfg key s).1 ≠ Panicked.
Proof.
  intros Hs0 Hr. destruct (Reconcile_cases cfg key s (reachable_states_ok cfg s0 s Hs0 Hr))
    as (k & Hk & Hc). cbn zeta in *. eexists. split; [exact Hk|].
  destruct (GetAAS key (cs_world s)).1 as [aas|e]; simpl.
  - destruct Hc as [-> _]. split; [done|]. unfold outcome_of. by repeat case_match.
  - destruct Hc as [_ Hc]. destruct (IsNotFound e); destruct Hc as [-> _]; by split.
Qed.

Lemma Reconcile_outcomes_witness :
  started (demo_state demo_start) ∧
  (@Reconcile Demo _ _ _ _ amd64 demo_config demo_key demo_twice).1 ≠ Panicked.
Proof.
  split; [exact demo_started|].
  destruct (@Reconcile_outcomes Demo _ _ _ _ amd64 demo_config demo_key _ _ demo_started demo_runs)
    as (k & _ & _ & Hp). exact Hp.
Defined.

(** Claim C16: a paused CR is left alone. A reconcile that reads a CR with the kill switch
    or with a pending deletion, or that finds an HPA managing the CR's Deployment or gets
    no answer about HPAs, queries neither Prometheus nor the Forecast Service, reads no
    Deployment, patches and explains nothing, and leaves the state of every CR as it was;
    all it may do is write a status that differs in the phase and its reason, and emit a
    warning. *)
Theorem paused_reconcile_is_inert {W} `{!ApiServer W} `{!PromQuerier W} `{!Forecaster W}
    `{!Clock W} `{GoPlatform} cfg key (s : CtlState W) aas k :
  states_ok (cs_store s) →
  cs_log (Reconcile cfg key s).2 = cs_log s ++ EGetAAS key (Ok aas) :: k →
  pause_cause aas k →
  Forall (pause_effect aas) k ∧ cs_store (Reconcile cfg key s).2 = cs_store s.
Proof.
  intros Hok Hk Hp. destruct (Reconcile_read cfg key s aas k Hok Hk) as (_ & _ & Hr).
  inv Hr as [? _ Hq|hpas k0 Ha Hq _|x k0 σ1 [_ [Ha _ _] _] Hact]; [done|exfalso..].
  - revert Hp. apply (active_not_paused aas hpas k0 Ha). intros r. by eapply probe_not_list.
  - revert Hp. apply (active_not_paused aas (de_hpas x) (tail (transcript cfg key aas x) ++ k0) Ha).
    intros r Hr. apply elem_of_app in Hr as [Hr|Hr].
    + unfold transcript in Hr. simpl in Hr. destruct (de_context_now x); set_solver.
    + by apply (acted_not_list _ _ _ _ _ _ _ _ Hact) in Hr.
Qed.

Definition demo_paused : CtlState Demo := demo_state (mkDemo 2 (1000000 * Second) None 6000 true).

Lemma paused_reconcile_is_inert_witness :
  annotation (demo_cr (cs_world demo_paused)) AnnotationKillSwitch = "true" ∧
  let s' := (@Reconcile Demo _ _ _ _ amd64 demo_config demo_key demo_paused).2 in
  Forall (pause_effect (demo_cr (cs_world demo_paused))) (tail (cs_log s')) ∧
  tail (cs_log s') ≠ [] ∧ cs_store s' = NewStateStore.
Proof.
  assert (annotation (demo_cr (cs_world demo_paused)) AnnotationKillSwitch = "true") as Hk
    by (vm_compute; reflexivity).
  split; [exact Hk|]. cbn zeta.
  destruct (@paused_reconcile_is_inert Demo _ _ _ _ amd64 demo_config demo_key demo_paused
    (demo_cr (cs_world demo_paused))
    (tail (cs_log (@Reconcile Demo _ _ _ _ amd64 demo_config demo_key demo_paused).2))) as [H1 H2].
  - apply states_ok_new.
  - vm_compute. reflexivity.
  - left. exact Hk.
  - split; [exact H1|]. split; [vm_compute; discriminate|exact H2].
Defined.

(** ** Isolation and ownership *)

Lemma Reconcile_view {W} `{!ApiServer W} `{!PromQuerier W} `{!Forecaster W} `{!Clock W} `{GoPlatform}
    cfg key (s : CtlState W) k :
  states_ok (cs_store s) → k ≠ key → view (cs_store (Reconcile cfg key s).2) k = view (cs_store s) k.
Proof.
  intros Hok Hk. destruct (Reconcile_patched cfg key s Hok) as (ps & _ & [(aas & _ & Hp)|(_ & e & _ & ->)]).
  - by eapply patched_isolated.
  - destruct (IsNotFound e); [|done]. by apply (Delete_spec (cs_store s) key (proj1 Hok)).
Qed.

(** Claim C17: reconciles are isolated. A reconcile makes at most one scale patch, of its
    own CR, leaves the in-memory state of every other CR exactly as it was, and keeps
    every window within its capacity. *)
Theorem Reconcile_isolated {W} `{!ApiServer W} `{!PromQuerier W} `{!Forecaster W}
    `{!Clock W} `{GoPlatform} cfg key (s : CtlState W) :
  states_ok (cs_store s) →
  let s' := (Reconcile cfg key s).2 in
  (∃ ps, scales (cs_log s') = scales (cs_log s) ++ ps ∧ (length ps <= 1)%nat ∧
     Forall (λ p, pa_cr p = key) ps) ∧
  (∀ k, k ≠ key → view (cs_store s') k = view (cs_store s) k) ∧
  states_ok (cs_store s').
Proof.
  intros Hok. cbn zeta. split_and!; [|intros k Hk|by apply Reconcile_states_ok].
  - destruct (Reconcile_patched cfg key s Hok) as (ps & Hps & Hc). exists ps. split; [done|].
    destruct Hc as [(aas & _ & Hp)|(-> & _)]; [|by repeat constructor].
    inv Hp; by repeat constructor.
  - by apply Reconcile_view.
Qed.

Lemma Reconcile_isolated_witness :
  let s' := (@Reconcile Demo _ _ _ _ amd64 demo_config demo_key (demo_state demo_start)).2 in
  view (cs_store s') (mkNN "ns" "other") = None ∧ is_Some (view (cs_store s') demo_key).
Proof.
  cbn zeta. split; [|eexists; vm_compute; reflexivity].
  destruct (@Reconcile_isolated Demo _ _ _ _ amd64 demo_config demo_key (demo_state demo_start)
    states_ok_new) as (_ & H & _).
  exact (H (mkNN "ns" "other") ltac:(discriminate)).
Defined.

(** The entries a reconcile of [aas] makes: a status it writes differs from the one read
    in nothing but the fields the reconciler owns. *)
Definition owned_status (aas : AgenticAutoscaler) (e : Effect) : Prop :=
  match e with
  | EStatus aas' _ =>
      ∃ st, aas' = set_status st aas ∧ st_ClassifiedParams st = st_ClassifiedParams (aas_Status aas)
  | _ => True
  end.

Lemma reconciled_owned {W} `{!ApiServer W} `{!PromQuerier W} `{!Forecaster W} `{!Clock W}
    `{GoPlatform} cfg key aas σ k σ' :
  reconciled (W := W) cfg key aas σ k σ' → Forall (owned_status aas) k.
Proof.
  assert (∀ x r, Forall (owned_status aas) (closing cfg aas x r)) as Hcl.
  { intros x r. unfold closing. destruct (co_ShouldPatch _); repeat constructor; by eexists. }
  apply reconciled_Forall.
  - intros []; try done. intros (p & r0 & _ & ->). by eexists.
  - by intros [].
  - done.
  - intros x k' σ1 _ Ha. apply Forall_app. split.
    + unfold transcript. destruct (de_context_now x); by repeat constructor.
    + destruct Ha; [apply Hcl|by repeat constructor|by constructor; [|apply Hcl]].
Qed.

(** The reconciler never writes the classifier's part. Every status a reconcile
    writes is that of the CR it read, with the same metadata, the same spec and the same
    [classifiedParams] block. *)
Theorem Reconcile_keeps_classification {W} `{!ApiServer W} `{!PromQuerier W} `{!Forecaster W}
    `{!Clock W} `{GoPlatform} cfg key (s : CtlState W) k aas' r :
  states_ok (cs_store s) → cs_log (Reconcile cfg key s).2 = cs_log s ++ k →
  EStatus aas' r ∈ k →
  ∃ aas, head k = Some (EGetAAS key (Ok aas)) ∧ aas' = set_status (aas_Status aas') aas ∧
    st_ClassifiedParams (aas_Status aas') = st_ClassifiedParams (aas_Status aas).
Proof.
  intros Hok Hk He. destruct (Reconcile_log cfg key s k Hok Hk) as (k' & -> & Hc).
  apply elem_of_cons in He as [?|He]; [done|].
  destruct (GetAAS key (cs_world s)).1 as [aas|e]; [|rewrite Hc in He; by inversion He].
  destruct Hc as [_ Hc%reconciled_owned]. rewrite Forall_forall in Hc.
  destruct (Hc _ He) as (st & -> & Hst). by exists aas.
Qed.

Lemma Reconcile_keeps_classification_witness :
  ∃ a, EStatus a (Ok ()) ∈ cs_log demo_once ∧
    st_ClassifiedParams (aas_Status a) = st_ClassifiedParams (aas_Status (demo_cr demo_start)).
Proof.
  assert (∃ a, cs_log demo_once !! 11%nat = Some (EStatus a (Ok ()))) as (a & Ha)
    by (eexists; vm_compute; reflexivity).
  exists a. split; [exact (in_log _ 11 _ Ha)|].
  destruct (@Reconcile_keeps_classification Demo _ _ _ _ amd64 demo_config demo_key
    (demo_state demo_start) (cs_log demo_once) a (Ok ()) states_ok_new eq_refl (in_log _ 11 _ Ha))
    as (aas & E & _ & Hc).
  assert (head (cs_log demo_once) = Some (EGetAAS demo_key (Ok (demo_cr demo_start)))) as E'
    by (vm_compute; reflexivity).
  rewrite E' in E. injection E as <-. exact Hc.
Defined.

(** Claim C20: nothing outlives its CR. When the API server reports a CR as not found, the
    reconcile drops its in-memory state, stops its classification worker if there is one,
    touches no other CR's state or worker, does nothing further outside, and asks for no
    requeue. *)
Theorem gone_CR_is_forgotten {W} `{!ApiServer W} `{!PromQuerier W} `{!Forecaster W}
    `{!Clock W} `{GoPlatform} cfg key (s : CtlState W) e w' m :
  states_ok (cs_store s) → GetAAS key (cs_world s) = (Err e, w') → IsNotFound e = true →
  cs_classifier s = Some m →
  let s' := (Reconcile cfg key s).2 in
  (Reconcile cfg key s).1 = Finished 0 None ∧ cs_log s' = cs_log s ++ [EGetAAS key (Err e)] ∧
  (∀ k, view (cs_store s') k = if decide (k = key) then None else view (cs_store s) k) ∧
  ∃ m', cs_classifier s' = Some m' ∧
    ∀ k, mg_workers m' !! k = if decide (k = key) then None else mg_workers m !! k.
Proof.
  intros Hok Eg He Hm. cbn zeta. rewrite Reconcile_unfold, Eg, He. cbn [fst snd].
  split_and!; [done|done| |].
  - intros k. destruct (Delete_spec (cs_store s) key (proj1 Hok)) as (_ & Hn & Ho).
    case_decide as Hk; [by subst|]. by apply Ho.
  - exists (Stop m key). simpl. rewrite Hm. split; [done|]. intros k. unfold Stop.
    destruct (mg_workers m !! key) as [h|] eqn:Eh; simpl; case_decide as Hk; subst; try done.
    + apply lookup_delete_eq.
    + by rewrite lookup_delete_ne.
Qed.

Definition demo_manager : Manager :=
  Ensure (NewManager (mkWorkerConfig (30 * Minute) (24 * Hour) 72 240 60 0 0 f0)) sample_cr.
Definition ghost : NamespacedName := mkNN "ns" "ghost".

Lemma gone_CR_is_forgotten_witness :
  let s := mkCtl demo_start NewStateStore (Some demo_manager) no_samples None [] in
  let s' := (@Reconcile Demo _ _ _ _ amd64 demo_config ghost s).2 in
  view (cs_store s') ghost = None ∧
  ∃ m', cs_classifier s' = Some m' ∧ mg_workers m' !! demo_key = mg_workers demo_manager !! demo_key.
Proof.
  intros s. destruct (@gone_CR_is_forgotten Demo demo_api demo_metrics demo_forecaster demo_clock amd64 demo_config ghost s (NotFound "gone")
    demo_start demo_manager states_ok_new ltac:(vm_compute; reflexivity) eq_refl eq_refl) as (_ & _ & Hv & m' & Hm & Hw).
  split; [exact (Hv ghost)|]. exists m'. split; [exact Hm|exact (Hw demo_key)].
Defined.

(** ** Queries *)

(** What a reconcile asks. *)
Definition asks (cfg : Config) (key : NamespacedName) (aas : AgenticAutoscaler) (e : Effect) : Prop :=
  match e with
  | EInstantQuery _ _ | ERangeQuery _ _ _ _ _ | ERecommend _ _ | EGetDeployment _ _ =>
      query_effect cfg key aas e
  | _ => True
  end.

Lemma reconciled_asks {W} `{!ApiServer W} `{!PromQuerier W} `{!Forecaster W} `{!Clock W}
    `{GoPlatform} cfg key aas σ k σ' :
  reconciled (W := W) cfg key aas σ k σ' → Forall (asks cfg key aas) k.
Proof.
  apply reconciled_Forall.
  - by intros [].
  - by intros [].
  - done.
  - intros x k' σ1 [_ [_ _ Hx] _] Ha. apply Forall_app. split.
    + unfold transcript, queried. rewrite !Forall_app, !Forall_cons. split_and!; try done.
      * by destruct (de_context_now x); repeat constructor.
      * by exists (de_samples x), (de_context_now x).
    + destruct Ha; unfold closing; destruct (co_ShouldPatch _); by repeat constructor.
Qed.

(** What is asked for whom. In a reconcile of a CR both Prometheus queries are
    those of the CR's Deployment, the history covers the configured span up to now at
    one-minute steps, a forecast request carries received samples, the CR's key as the
    workload, the effective forecaster with "auto" as no preference, and the stored context
    with the hour and minute of the clock exactly when there is one and the CR does not opt
    out, and the Deployment read is the target in the CR's namespace. *)
Theorem Reconcile_asks {W} `{!ApiServer W} `{!PromQuerier W} `{!Forecaster W}
    `{!Clock W} `{GoPlatform} cfg key (s : CtlState W) aas k :
  states_ok (cs_store s) →
  cs_log (Reconcile cfg key s).2 = cs_log s ++ EGetAAS key (Ok aas) :: k →
  Forall (asks cfg key aas) k.
Proof.
  intros Hok Hk. destruct (Reconcile_read cfg key s aas k Hok Hk) as (_ & _ & Hr).
  by apply reconciled_asks in Hr.
Qed.

Lemma Reconcile_asks_witness :
  Forall (asks demo_config demo_key (demo_cr demo_start)) (tail (cs_log demo_once)) ∧
  ∃ req r, cs_log demo_once !! 5%nat = Some (ERecommend req r) ∧ Forecast.WorkloadID req = "ns/app".
Proof.
  split; [|do 2 eexists; split; vm_compute; reflexivity].
  apply (@Reconcile_asks Demo demo_api demo_metrics demo_forecaster demo_clock amd64 demo_config demo_key
    (demo_state demo_start) (demo_cr demo_start) (tail (cs_log demo_once)) states_ok_new).
  vm_compute. reflexivity.
Defined.

(** ** Explanations *)

(** A decision to patch always carries the reason of a move. *)
Definition move_reasons : list string := [ScaleUp; ScaleDown; StepCappedUp; StepCappedDown].

Lemma patch_reason i :
  co_ShouldPatch (ApplyCapAndCooldown i) = true → co_Reason (ApplyCapAndCooldown i) ∈ move_reasons.
Proof.
  unfold ApplyCapAndCooldown, move_reasons. intros Hp. revert Hp.
  split_decisions; simpl; try (rewrite bool_decide_eq_false_2 by naive_solver; discriminate);
    set_solver.
Qed.

Lemma decision_reason `{GoPlatform} cfg aas x :
  co_ShouldPatch (sd_Cap (de_decision cfg aas x)) = true →
  co_Reason (sd_Cap (de_decision cfg aas x)) ∈ move_reasons.
Proof. destruct (decision_input cfg aas x) as (i & -> & _). apply patch_reason. Qed.

Lemma notify_after_patch {W} `{!ApiServer W} `{!PromQuerier W} `{!Forecaster W}
    `{!Clock W} `{GoPlatform} cfg key (s : CtlState W) k req :
  states_ok (cs_store s) → cs_log (Reconcile cfg key s).2 = cs_log s ++ k → ENotify req ∈ k →
  ∃ k1 k2 aas x, k = k1 ++ EScale (de_patch cfg key aas x true) :: k2 ∧ ENotify req ∈ k2 ∧
    (ENotify req ∉ k1) ∧ req = de_request cfg aas x ∧
    co_ShouldPatch (sd_Cap (de_decision cfg aas x)) = true.
Proof.
  intros Hok Hk Hn. destruct (Reconcile_log cfg key s k Hok Hk) as (k' & -> & Hc).
  apply elem_of_cons in Hn as [?|Hn]; [done|].
  destruct (GetAAS key (cs_world s)).1 as [aas|e]; [|rewrite Hc in Hn; by inversion Hn].
  destruct Hc as [_ Hc]. inv Hc as [? _ Hq|hpas k0 _ Hq _|x k0 σ' _ Ha].
  - rewrite Forall_forall in Hq. by destruct (Hq _ Hn).
  - apply elem_of_cons in Hn as [?|Hn]; [done|]. rewrite Forall_forall in Hq. by destruct (Hq _ Hn).
  - apply elem_of_app in Hn as [Hn|Hn]; [by apply transcript_notify in Hn|].
    inv Ha as [r ? Hsp _|? Hsp _|r ? Hsp _].
    + unfold closing in Hn. rewrite Hsp in Hn. set_solver.
    + set_solver.
    + apply elem_of_cons in Hn as [?|Hn]; [done|].
      exists (EGetAAS key (Ok aas) :: transcript cfg key aas x), (closing cfg aas x r), aas, x.
      split_and!; [done..| | |done].
      * intros [?|Hin]%elem_of_cons; [done|by apply transcript_notify in Hin].
      * unfold closing in Hn. rewrite Hsp in Hn. set_solver.
Qed.

(** Claim C18: explanations follow patches. A reconcile asks for an explanation only after
    a scale patch that succeeded in the same reconcile, with that patch's counts and with
    one of the four reasons of a move; in particular no request ever carries the reason
    [max_replicas_binding] or [min_replicas_binding]. *)
Theorem explanations_follow_patches {W} `{!ApiServer W} `{!PromQuerier W} `{!Forecaster W}
    `{!Clock W} `{GoPlatform} cfg key (s : CtlState W) k req :
  states_ok (cs_store s) → cs_log (Reconcile cfg key s).2 = cs_log s ++ k → ENotify req ∈ k →
  ∃ k1 k2 p, k = k1 ++ EScale p :: k2 ∧ ENotify req ∈ k2 ∧ (ENotify req ∉ k1) ∧
    pa_ok p = true ∧ pa_cr p = key ∧ ex_CurrentReplicas req = pa_current p ∧
    ex_TargetReplicas req = pa_target p ∧ ex_Reason req ∈ move_reasons.
Proof.
  intros Hok Hk Hn.
  destruct (notify_after_patch cfg key s k req Hok Hk Hn) as (k1 & k2 & aas & x & Ek & H2 & H1 & -> & Hsp).
  exists k1, k2, (de_patch cfg key aas x true). split_and!; try done. by apply decision_reason.
Qed.

Lemma explanations_follow_patches_witness :
  ∃ req, ENotify req ∈ cs_log demo_once ∧ ex_Reason req ∈ move_reasons ∧
    ex_Reason req = StepCappedUp.
Proof.
  assert (∃ req, cs_log demo_once !! 10%nat = Some (ENotify req) ∧ ex_Reason req = StepCappedUp)
    as (req & Hr & Hreason) by (eexists; split; vm_compute; reflexivity).
  exists req. split; [exact (in_log _ 10 _ Hr)|]. split; [|exact Hreason].
  destruct (@explanations_follow_patches Demo _ _ _ _ amd64 demo_config demo_key
    (demo_state demo_start) (cs_log demo_once) req states_ok_new eq_refl (in_log _ 10 _ Hr))
    as (k1 & k2 & p & _ & _ & _ & _ & _ & _ & _ & Hm).
  exact Hm.
Defined.

(** ** Corners *)

(** The kill switch of a CR in conflict. The status written keeps the reason of a
    conflict that the phase no longer reports: only the phase is assigned. *)
Theorem kill_switch_keeps_conflict_reason {W} `{!ApiServer W} `{!PromQuerier W} `{!Forecaster W}
    `{!Clock W} `{GoPlatform} cfg (s : CtlState W) aas r :
  st_Phase (aas_Status aas) = PhaseConflict → st_ConflictReason (aas_Status aas) = r →
  ∃ aas' ok k, cs_log (handleKillSwitch cfg aas s).2 = cs_log s ++ EStatus aas' ok :: k ∧
    st_Phase (aas_Status aas') = PhaseDisabled ∧ st_ConflictReason (aas_Status aas') = r.
Proof.
  intros Hp Hr. unfold handleKillSwitch. rewrite decide_True by (by rewrite Hp).
  set (aas' := set_status _ aas).
  assert (run (W := W) (handleKillSwitch cfg aas) (cs_store s) (λ _ k _, ∃ r k', k = EStatus aas' r :: k'))
    as Hrun.
  { unfold handleKillSwitch. rewrite decide_True by (by rewrite Hp). run_step.
    match goal with r : result ApiError () |- _ => destruct r end; repeat run_step; eauto. }
  unfold handleKillSwitch in Hrun. rewrite decide_True in Hrun by (by rewrite Hp).
  destruct (Hrun s eq_refl) as (k & Hk & ok & k' & ->). by exists aas', ok, k'.
Qed.

Definition conflicted : AgenticAutoscaler :=
  set_status (set_phase_reason PhaseConflict (conflict_reason "web") (aas_Status sample_cr)) sample_cr.

Lemma kill_switch_keeps_conflict_reason_witness :
  ∃ aas' ok k,
    cs_log (@handleKillSwitch Demo _ demo_config conflicted (demo_state demo_start)).2 =
      EStatus aas' ok :: k ∧
    st_Phase (aas_Status aas') = PhaseDisabled ∧
    st_ConflictReason (aas_Status aas') = conflict_reason "web".
Proof.
  exact (@kill_switch_keeps_conflict_reason Demo _ _ _ _ amd64 demo_config (demo_state demo_start)
    conflicted (conflict_reason "web") eq_refl eq_refl).
Defined.

(** The midpoint a restart falls back to adds the two bounds as [int32]: for
    rpsPerPodMin 1500000000 and rpsPerPodMax 2000000000, which admission accepts, it is
    negative, and the CR starts from a negative capacity until observations arrive, which
    the clamp then turns into the minimum. *)
Theorem restart_midpoint_overflows :
  let aas := mkAAS "ns" "app" "1" ∅ None (spec_of 2 10 1500000000 2000000000 None None)
               (aas_Status sample_cr) in
  ValidateSpec (aas_Spec aas) = [] ∧
  (seed_Midpoint (buildStatusSeed aas) <? f0)%f64 = true ∧
  ClampRpsPerPod (pc_RpsPerPod (loaded NewStateStore demo_key aas)) 1500000000 2000000000 =
    f64_of_Z 1500000000.
Proof. split; [|split]; vm_compute; reflexivity. Qed.
