(* ===== verification/Estimate.v ===== *)
(** * The per-pod estimate of the reconciler stays a number

    If Prometheus answers numbers and the Forecast Service answers loads, the estimate
    of the requests per second one pod serves is never NaN, in any run; after the clamp
    it is a capacity between the CR's bounds, and every patch aims at the replica count
    this capacity and the forecast call for. *)
From S2P Require Import Prelude Float64 FloatOrder FloatRound Reasoning Config Capacity.
From S2P Require Import Api State Decision Webhook Channels Adapters Interfaces Worker.
From S2P Require Import Manager Metrics Controller ReconcileCases Scaling Demo.
From Stdlib Require Import SpecFloat QArith Qround Lqa.
#[local] Open Scope Z_scope.

(** ** Amounts: numbers at or above positive zero, infinity included *)
Definition number (x : float64) : Prop := is_nan x = false ∧ valid_binary 53 1024 x = true.
Definition amount (x : float64) : Prop := number x ∧ signbit x = false.

Lemma rounds_number s q r : rounds s q r → number r.
Proof.
  intros Hr. split; [|by eapply rounds_valid]. destruct Hr as (k & e' & _ & Hp). by destruct r.
Qed.

Lemma rounds_amount q r : rounds false q r → amount r.
Proof. intros Hr. split; [by eapply rounds_number|by eapply rounds_signbit]. Qed.

Lemma amount_div x m e : amount x → amount (x / S754_finite false m e)%f64.
Proof.
  intros [[Hn Hv] Hs]. destruct x as [s|s| |s m' e']; simpl in Hs; subst; try done.
  eapply rounds_amount. apply fdiv_rounds.
Qed.

Lemma number_div x m e : number x → number (x / S754_finite false m e)%f64.
Proof.
  intros [Hn Hv]. destruct x as [s|s| |s m' e']; try done. eapply rounds_number. apply fdiv_rounds.
Qed.

Lemma amount_add x y : amount x → amount y → amount (x + y)%f64.
Proof.
  intros [[Hnx Hvx] Hsx] [[Hny Hvy] Hsy].
  destruct x as [s|s| |s m e], y as [t|t| |t m' e']; simpl in Hsx, Hsy; subst; try done.
  eapply rounds_amount. apply fadd_rounds.
Qed.

Lemma f64_at_amount l i : Forall amount l → (i < length l)%nat → amount (f64_at (sort_Float64s l) i).
Proof.
  intros Hl Hi. rewrite <- (sort_Float64s_perm l) in Hl.
  eapply Forall_lookup_1; [exact Hl|]. apply f64_at_lookup. by rewrite sort_Float64s_length.
Qed.

Lemma Median_amount rb : Forall amount (rb_data rb) → amount (Median rb).
Proof.
  intros Hl. unfold Median. set (n := length (rb_data rb)).
  pose proof (Nat.div_mod_eq n 2). pose proof (Nat.mod_upper_bound n 2 ltac:(lia)).
  case_decide; [done|]. case_decide; [apply f64_at_amount; [done|fold n; lia]|].
  destruct f2_shape as (m & e & -> & _).
  apply amount_div, amount_add; (apply f64_at_amount; [done|fold n; lia]).
Qed.

Lemma positive_amount x : number x → (x <=? f0)%f64 = false → amount x.
Proof. intros [Hn Hv] Hx. split; [done|]. by destruct x as [[]|[]| |[]]. Qed.

Lemma f64_of_Z_number z : number (f64_of_Z z).
Proof.
  unfold f64_of_Z. destruct (binary_normalize_rounds z 0 false) as [[-> ->]|[_ Hr]]; [done|].
  by eapply rounds_number.
Qed.

(** ** The estimate of a CR *)
Record estimate_ok (st : PerCRState) : Prop := {
  es_window : Forall amount (rb_data (pc_Observations st));
  es_rps : number (pc_RpsPerPod st);
}.

Lemma Initialize_estimate st aas :
  estimate_ok st → estimate_ok (InitializeFromStatus st (buildStatusSeed aas)).
Proof.
  intros [Hw Hr]. unfold InitializeFromStatus. set (seed := buildStatusSeed aas).
  assert (number (seed_RpsPerPodCurrent seed)) as Hc by apply f64_of_Z_number.
  assert (number (seed_Midpoint seed)) as Hm.
  { unfold seed, buildStatusSeed. cbn [seed_Midpoint]. destruct f2_shape as (m & e & -> & _).
    apply number_div, f64_of_Z_number. }
  destruct (seed_InBounds seed) eqn:Hb, (seed_RpsPerPodCurrent seed >? f0)%f64 eqn:Hp, (time_IsZero _);
    cbn [andb]; split; try done; cbn [pc_Observations SeedN rb_data]; apply Forall_replicate;
    (split; [done|]); revert Hp; by destruct (seed_RpsPerPodCurrent seed) as [[]|[]| |[]].
Qed.

Lemma last_n_Forall {A} (P : A → Prop) n l : Forall P l → Forall P (last_n n l).
Proof. apply Forall_drop. Qed.

Lemma observe_estimate cfg st rps n now st' :
  window_ok st → estimate_ok st → number rps → n <= MaxInt32 →
  observe_rps cfg st rps n now = Some st' → estimate_ok st'.
Proof.
  intros [_ Hw] Hest Hrps Hn. unfold observe_rps.
  destruct (ShouldUpdateRpsPerPodWithFloor _ _ _ _ _ _) eqn:Hg; [|by intros [= <-]].
  destruct (Push_spec (pc_Observations st) (rps / f64_of_Z n)%f64 Hw) as (rb & -> & _ & _ & Hd).
  simpl. intros [= <-].
  assert (amount (rps / f64_of_Z n)%f64) as Ha.
  { unfold ShouldUpdateRpsPerPodWithFloor in Hg.
    destruct (rps <=? f0)%f64 eqn:Hpos; [done|]. case_bool_decide as Hlt; [done|]. simpl in Hg.
    destruct (capacity_shape _ (capacity_of_i32 n ltac:(lia))) as (m & e & -> & _).
    apply amount_div. by apply positive_amount. }
  assert (Forall amount (rb_data rb)) as Hall.
  { rewrite Hd. apply last_n_Forall, Forall_snoc; [apply Hest|done]. }
  split; [done|]. by apply Median_amount.
Qed.

(** ** In the reconcile loop *)

(** Prometheus answers numbers: its textual "NaN" is the one answer that is excluded. *)
Class PromLaws (W : Type) `{!PromQuerier W} :=
  instant_number : ∀ query v, answers (pq_InstantQuery query) (Ok v) → number v.

Definition estimates_ok (σ : StateStore) : Prop := ∀ k st, view σ k = Some st → estimate_ok st.

Lemma loaded_estimate σ key aas :
  (∀ st, view σ key = Some st → estimate_ok st) → estimate_ok (loaded σ key aas).
Proof.
  intros Hσ. unfold loaded.
  assert (estimate_ok (deref_or (view σ key) (mkPerCRState (mkRB [] ringBufferCapacity) f0 0 0 false)))
    as Hd by (destruct (view σ key) eqn:E; simpl; [eauto|by repeat constructor]).
  case_match; [done|by apply Initialize_estimate].
Qed.

Lemma estimates_ok_stored σ σ' key st :
  estimates_ok σ → stored σ σ' key st → estimate_ok st → estimates_ok σ'.
Proof.
  intros Hσ (_ & Hv & Ho) Hst k st' Hk. destruct (decide (k = key)) as [->|Hne]; [by simplify_eq|].
  rewrite Ho in Hk by done. eauto.
Qed.

Section runs.
Context {W : Type} `{!ApiServer W} `{!PromQuerier W} `{!Forecaster W} `{!Clock W} `{GoPlatform}.
Context (cfg : Config) `{!ClusterLaws W cfg} `{!PromLaws W}.

Lemma observed_estimate key aas x σ :
  states_ok σ → estimates_ok σ → deciding (W := W) cfg key aas σ x → estimate_ok (de_st x).
Proof.
  intros Hok Hest Hd. refine (observe_estimate _ _ _ _ _ _ _ _ _ _ (dc_observed _ _ _ _ _ Hd)).
  - by apply loaded_window.
  - by apply loaded_estimate; apply Hest.
  - apply (instant_number (InstantRPS (deploy_name aas))).
    pose proof (dc_answered _ _ _ _ _ Hd) as Hh. rewrite Forall_forall in Hh.
    apply (Hh (EInstantQuery _ (Ok (de_rps x)))). unfold transcript, queried. set_solver.
  - pose proof (deciding_current _ _ _ _ _ Hd). unfold max_count, MaxInt32 in *. lia.
Qed.

Lemma patched_sound key aas σ σ' ps :
  states_ok σ → estimates_ok σ → patched (W := W) cfg key aas σ σ' ps → estimates_ok σ'.
Proof.
  intros Hok Hest Hp. destruct Hp as [->|x Hd Hst|x ok Hd Hsp Hst]; [done| |];
    pose proof (observed_estimate key aas x σ Hok Hest Hd) as He.
  - by eapply estimates_ok_stored.
  - eapply estimates_ok_stored; [done..|]. destruct ok; [|done].
    unfold record_scale. by case_decide; split; apply He.
Qed.

Lemma reachable_estimates s0 s :
  started s0 → rtc (step cfg) s0 s → states_ok (cs_store s) ∧ estimates_ok (cs_store s).
Proof.
  intros [Hs0 _].
  apply (rtc_invariant (step cfg) (λ s, states_ok (cs_store s) ∧ estimates_ok (cs_store s))).
  - intros a b (Hok & He) Hst. split; [by eapply step_states_ok|]. destruct Hst as [s1 key|]; [|done].
    destruct (Reconcile_patched cfg key s1 Hok) as (ps & _ & [(aas & _ & Hp)|(_ & e & _ & ->)]).
    + by eapply patched_sound.
    + destruct (IsNotFound e); [|done].
      intros k st Hk. destruct (Delete_spec (cs_store s1) key (proj1 Hok)) as (_ & Hn & Ho).
      destruct (decide (k = key)) as [->|Hne]; [congruence|]. rewrite Ho in Hk by done. eauto.
  - rewrite Hs0. split; [apply states_ok_new|].
    intros k st. unfold view, Get. simpl. by rewrite lookup_empty.
Qed.
End runs.

(** The CR's bounds on the per-pod capacity. *)
Definition rps_min (aas : AgenticAutoscaler) : Z := deref_or (spec_RpsPerPodMin (aas_Spec aas)) 50.
Definition rps_max (aas : AgenticAutoscaler) : Z := deref_or (spec_RpsPerPodMax (aas_Spec aas)) 500.

Lemma admitted_rps cfg aas : admitted cfg aas → 0 < rps_min aas <= rps_max aas ∧ rps_max aas <= MaxInt32.
Proof.
  intros Ha. pose proof (admitted_ok _ _ Ha) as Hok. pose proof (ad_ints _ _ Ha) as Hi.
  unfold spec_i32 in Hi. rewrite !Forall_cons in Hi. destruct Hi as (_&_&_&Hx&_).
  destruct (ad_rps _ _ Ha) as [[mn Hmn] [mx Hmx]]. unfold rps_min, rps_max. rewrite Hmn, Hmx in *. simpl in *.
  pose proof (so_rps_min _ Hok _ Hmn). pose proof (so_rps_range _ Hok _ _ Hmn Hmx). int_lia.
Qed.

(** What the decision of a reconcile aims at: the pods that the forecast [f] needs at the
    capacity [r], as the double quotient computes it, clamped to the CR's bounds. *)
Record aims (aas : AgenticAutoscaler) (f r : float64) (p : ScalePatch) : Prop := {
  am_load : load f;
  am_capacity : capacity r ∧ (inject_Z (rps_min aas) <= fval r <= inject_Z (rps_max aas))%Q;
  am_toward : (fval f <= inject_Z MaxInt32 * fval r)%Q →
    ∃ n, Qceiling (fval f / fval r) - 1 <= n <= Qceiling (fval f / fval r) ∧
      let goal := (ClampRecommended n (min_replicas aas) (max_replicas aas)).1 in
      pa_current p < pa_target p <= goal ∨ goal <= pa_target p < pa_current p;
}.

Lemma decision_amounts `{GoPlatform} cfg aas x :
  sd_RpsPerPod (de_decision cfg aas x) = ClampRpsPerPod (pc_RpsPerPod (de_st x)) (rps_min aas) (rps_max aas) ∧
  sd_Unbounded (de_decision cfg aas x) =
    ComputeUnboundedRecommended (Forecast.PredictedRPS (de_resp x)) (sd_RpsPerPod (de_decision cfg aas x)).
Proof. unfold de_decision, decide_scale. by destruct (ClampRecommended _ _ _). Qed.

(** The direction and the extent of a patch, relative to the clamped recommendation. *)
Lemma patch_toward `{GoPlatform} cfg aas x key ok :
  well_configured cfg aas → 0 <= de_current x <= max_count →
  co_ShouldPatch (sd_Cap (de_decision cfg aas x)) = true →
  let p := de_patch cfg key aas x ok in
  let goal := (ClampRecommended (sd_Unbounded (de_decision cfg aas x)) (min_replicas aas) (max_replicas aas)).1 in
  pa_current p < pa_target p <= goal ∨ goal <= pa_target p < pa_current p.
Proof.
  intros Hwc Hcur. unfold de_patch. destruct (decision_input cfg aas x) as (i & -> & -> & _ & Hi).
  pose proof (decision_cap_ok cfg aas x Hwc Hcur i Hi) as Hok. rewrite (cap_follows_design _ Hok).
  intros Hsp. destruct (cap_design_toward i (ck_step _ Hok)) as (Ht & _ & Hne). apply Hne in Hsp.
  revert Ht Hsp. generalize (co_Target (cap_design i)). intros t. rewrite Hi.
  cbn [ci_Recommended ci_Current pa_current pa_target fst]. lia.
Qed.

(** Claim C10: patches serve the forecast. If Prometheus answers numbers and the Forecast
    Service answers loads, then in any run every patch rests on a finite forecast and on a
    finite positive capacity per pod between rpsPerPodMin and rpsPerPodMax, and moves the
    replica count towards, and never past, the clamped number of pods this forecast needs
    at this capacity, which is the exact ceiling of the quotient or, where the double
    quotient rounds down onto an integer, one less. *)
Theorem every_patch_serves_the_forecast {W} `{!ApiServer W} `{!PromQuerier W} `{!Forecaster W}
    `{!Clock W} `{GoPlatform} cfg `{!ClusterLaws W cfg} `{!PromLaws W} `{!ForecasterLaws W}
    (s0 s : CtlState W) p :
  started s0 → rtc (step cfg) s0 s → EScale p ∈ cs_log s →
  ∃ s1 aas x l, origin cfg s0 s p s1 aas x l ∧
    aims aas (Forecast.PredictedRPS (de_resp x)) (sd_RpsPerPod (de_decision cfg aas x)) p.
Proof.
  intros Hs0 Hr Hp. destruct (patch_origin cfg s0 s p Hs0 Hr Hp) as (s1 & aas & x & l & Ho).
  exists s1, aas, x, l. split; [done|]. destruct Ho.
  destruct (reachable_estimates cfg s0 s1 Hs0 or_before) as [Hok Hest].
  destruct (observed_estimate cfg _ _ _ _ Hok Hest or_deciding) as [_ [Hnan Hval]].
  pose proof (cl_admitted _ _ or_cr) as Had. pose proof (admitted_well_configured _ _ Had) as Hwc.
  pose proof (deciding_current _ _ _ _ _ or_deciding) as Hcur.
  destruct (admitted_rps _ _ Had) as [Hb Hmax].
  assert (load (Forecast.PredictedRPS (de_resp x))) as Hload.
  { pose proof (dc_answered _ _ _ _ _ or_deciding) as Hh. rewrite Forall_forall in Hh.
    destruct (Hh (ERecommend (forecast_request cfg (pa_cr p) aas (de_samples x) (de_context_now x))
      (Ok (de_resp x)))) as (w & w' & Hw);
      [unfold transcript; rewrite !elem_of_app; right; right; left|].
    by destruct (recommend_sane _ w _ w' Hw). }
  destruct (decision_amounts cfg aas x) as [Erps Eunb].
  destruct (ClampRpsPerPod_spec _ _ _ Hnan Hval Hb Hmax) as (Hcap & Hin & _). rewrite <- Erps in Hcap, Hin.
  split; [done..|].
  intros Hfit. exists (sd_Unbounded (de_decision cfg aas x)). rewrite Eunb at 1 2.
  split; [apply unbounded_ceiling; done|]. cbn zeta.
  pose proof (patch_toward cfg aas x (pa_cr p) (pa_ok p) Hwc Hcur or_moves) as Ht.
  by rewrite <- or_patch in Ht.
Qed.

#[export] Instance demo_numbers : PromLaws Demo.
Proof. intros query v (w & w' & E). simpl in E. injection E as <- <-. by vm_compute. Qed.

#[export] Instance demo_loads : ForecasterLaws Demo.
Proof.
  intros req w r w' E. simpl in E. injection E as <- _. split; [|discriminate].
  apply load_of_i32. unfold MaxInt32. simpl. lia.
Qed.

Lemma every_patch_serves_the_forecast_witness :
  ∃ aas f r, aims aas f r (mkScalePatch demo_key demo_key 2 6 (1000300 * Second) true) ∧
    answers (GetAAS (W := Demo) demo_key) (Ok aas).
Proof.
  assert (rtc (@step Demo _ _ _ _ amd64 demo_config) (demo_state demo_start) demo_once) as Hr
    by (eapply rtc_l; [apply step_reconcile|apply rtc_refl]).
  assert (cs_log demo_once !! 8%nat =
    Some (EScale (mkScalePatch demo_key demo_key 2 6 (1000300 * Second) true))) as Hl
    by (vm_compute; reflexivity).
  destruct (@every_patch_serves_the_forecast Demo _ _ _ _ amd64 demo_config _ _ _ (demo_state demo_start)
    demo_once _ (conj eq_refl eq_refl) Hr (list_elem_of_lookup_2 _ _ _ Hl))
    as (s1 & aas & x & l & Ho & Haim).
  exists aas. do 2 eexists. split; [exact Haim|exact (or_cr _ _ _ _ _ _ _ _ Ho)].
Defined.
