(* ===== verification/Steady.v ===== *)
(** * A steady load

    The estimate of the requests that one pod serves is learned from the current load and
    the current count.  When the load is steady and the forecast says so, what was learned
    at a replica count calls for that count again, up to one pod that the two roundings can
    add: the loop has no preferred count inside the band of Live.v, and can creep upwards. *)
From S2P Require Import Prelude Float64 FloatOrder FloatRound FloatBound Reasoning Config Capacity.
From S2P Require Import Api State Decision Webhook Channels Adapters Interfaces Worker.
From S2P Require Import Manager Metrics Controller ReconcileCases Scaling Demo Estimate.
From Stdlib Require Import SpecFloat QArith Qround Lqa.
#[local] Open Scope Z_scope.

(** ** Rounding near a moderate number *)




(** ** Replica counts under a steady load *)


(** What one of [n] pods is seen to serve of the load [p]. *)
Definition per_pod (p : float64) (n : Z) : float64 := (p / f64_of_Z n)%f64.









(** Twenty requests per second on four pods are less than the fifty that a pod is taken to
    be good for at the least. *)
Example light_load_scales_down :
  let p := f64_of_Z 20 in
  let st := mkPerCRState (mkRB (replicate 10 (per_pod p 4)) ringBufferCapacity) (per_pod p 4) 0 0 true in
  let d := @decide_scale amd64 (demo_cr demo_start) (effective demo_config (demo_cr demo_start)) st p 4
             (1000 * Second) in
  rps_min (demo_cr demo_start) = 50 ∧ sd_Unbounded d = 1 ∧ co_Target (sd_Cap d) = 2.
Proof. vm_compute. split_and!; reflexivity. Qed.

(** ** One pod too many *)

(** The demonstration's CR under 453 requests per second, seven replicas, a forecast of just
    that, and ten observations. *)
Definition steady_load : float64 := f64_of_Z 453.
Definition steady_state : PerCRState :=
  mkPerCRState (mkRB (replicate 10 (per_pod steady_load 7)) ringBufferCapacity) (per_pod steady_load 7) 0 0 true.


(** Both roundings go up here, and the Deployment is scaled up without need. The state is
    the one that ten reconciles a minute apart leave. *)
Theorem steady_load_creeps :
  let observe st now := st ≫= λ st, observe_rps demo_config st steady_load 7 now in
  foldl observe (Some (mkPerCRState (mkRB [] ringBufferCapacity) f0 0 0 true))
    ((λ i, Z.of_nat i * Minute) <$> seq 2 10) = Some steady_state ∧
  let d := @decide_scale amd64 (demo_cr demo_start) (effective demo_config (demo_cr demo_start)) steady_state
             steady_load 7 (1000 * Second) in
  sd_Unbounded d = 8 ∧ co_Target (sd_Cap d) = 8 ∧ co_ShouldPatch (sd_Cap d) = true.
Proof. vm_compute. split_and!; reflexivity. Qed.
