(* ===== verification/Explainer.v ===== *)
(** * internal/explainer: prompts and the explain worker

    The prompt is the concatenation of its lines; [TrimContent] counts bytes, and a
    slice with a negative bound is a panic ([None]).  The worker handles one request at
    a time over the outside world and keeps a log of the events it emits and of what it
    writes to its logger. *)
From S2P Require Import Prelude Float64 Reasoning Api Adapters Interfaces.
From Stdlib Require Import SpecFloat.

Definition SystemMessage : string :=
  "You are observing a Kubernetes autoscaler. " +:+
  "Explain scaling decisions in 2-3 plain English sentences. " +:+
  "Be concise, specific, and ground your explanation in the data provided.".

Definition MaxEventLength : Z := 500.

(** [strings.Builder]: the pieces written so far, in order. *)
Definition when (c : bool) (piece : string) : string := if c then piece else EmptyString.

(** The three conditional explanations of a limit. *)
Definition step_line (req : ExplainRequest) : string :=
  when (bool_decide (ex_Reason req = StepCappedUp) || bool_decide (ex_Reason req = StepCappedDown))
    ("This scale was limited by maxStep: the controller computed " +:+ fmt_d (ex_RecommendedReplicas req)
     +:+ " replicas from the forecast but moved only to " +:+ fmt_d (ex_TargetReplicas req)
     +:+ " this reconcile (cap: " +:+ fmt_d (ex_EffectiveMaxStep req) +:+ " replicas per reconcile)." +:+ nl).

Definition max_line (req : ExplainRequest) : string :=
  when (bool_decide (ex_Reason req = MaxReplicasBinding))
    ("This scale was limited by maxReplicas: the forecast asked for " +:+ fmt_d (ex_UnboundedRecommended req)
     +:+ " replicas but the CRD bound capped it at maxReplicas=" +:+ fmt_d (ex_MaxReplicas req)
     +:+ ". Raise spec.maxReplicas to let the autoscaler scale further." +:+ nl).

Definition min_line (req : ExplainRequest) : string :=
  when (bool_decide (ex_Reason req = MinReplicasBinding))
    ("This scale was limited by minReplicas: the forecast asked for only " +:+ fmt_d (ex_UnboundedRecommended req)
     +:+ " replicas but the CRD bound floored it at minReplicas=" +:+ fmt_d (ex_MinReplicas req)
     +:+ "." +:+ nl).

Definition pattern_line (req : ExplainRequest) : string :=
  when (bool_decide (ex_Pattern req ≠ EmptyString) && bool_decide (ex_Pattern req ≠ "default"))
    ("Traffic pattern: " +:+ ex_Pattern req +:+ " (confidence: " +:+ ex_Confidence req +:+ ")" +:+ nl).

Definition context_line (req : ExplainRequest) : string :=
  when (bool_decide (ex_Pattern req ≠ EmptyString))
    ("Long-term context: baseline " +:+ fmt_d (ex_BaselineRPS req) +:+ " rps, p95 " +:+
     fmt_d (ex_PeakP95RPS req) +:+ " rps" +:+ nl).

Definition BuildPrompt (req : ExplainRequest) : string * string :=
  (SystemMessage,
   pattern_line req +:+ context_line req +:+
   "Current RPS: " +:+ fmt_f1 (ex_CurrentRPS req) +:+ ", Predicted RPS (" +:+
   fmt_d (ex_HorizonMinutes req) +:+ " min ahead): " +:+ fmt_f1 (ex_PredictedRPS req) +:+ nl +:+
   "Scaling: " +:+ fmt_d (ex_CurrentReplicas req) +:+ " → " +:+ fmt_d (ex_TargetReplicas req) +:+
   " replicas (" +:+ ex_Reason req +:+ ")" +:+ nl +:+
   step_line req +:+ max_line req +:+ min_line req +:+
   "Forecasting model: " +:+ ex_ModelUsed req +:+ nl +:+
   "Active parameters: scaleUpCooldown=" +:+ fmt_d (ex_EffectiveCooldownUp req) +:+
   "s, scaleDownCooldown=" +:+ fmt_d (ex_EffectiveCooldownDown req) +:+ "s, maxStep=" +:+
   fmt_d (ex_EffectiveMaxStep req) +:+ nl +:+ nl +:+
   "Explain why this decision was made and what the traffic data suggests " +:+
   "relative to the workload's long-term baseline.").

(** [len(s)], and [s[:n]] for an [n] up to the length. *)
Definition slen (s : string) : Z := Z.of_nat (String.length s).
Definition sprefix (n : Z) (s : string) : option string :=
  if decide (n < 0) then None else Some (String.substring 0 (Z.to_nat n) s).

Definition TrimContent (s : string) (maxLen : Z) : option string :=
  if decide (slen s <= maxLen) then Some s
  else if decide (maxLen <= 3) then sprefix maxLen s
  else p ← sprefix (maxLen - 3) s; Some (p +:+ "...").

(** ** The worker *)
Record ExplainWorkerConfig := mkExplainWorkerConfig {
  xc_Model : string;
  xc_MaxTokens : Z;
  xc_Timeout : Duration;
}.

Class OllamaChatter (W : Type) :=
  oc_Chat : Ollama.ChatRequest → ST W (result ClientError string).

Record ExplainWorker := mkExplainWorker {
  xw_Config : ExplainWorkerConfig;
  xw_EventRecorder : bool;   (* non-nil *)
  xw_Client : bool;          (* non-nil *)
}.

(** What the worker does: chat requests, events, lines in its log. *)
Inductive LogLine := LogModelNotFound | LogEmptyResponse | LogUnreachable | LogCallFailed
  | LogBlankContent.

Inductive ExplainEffect :=
| XChat (req : Ollama.ChatRequest)
| XEvent (aas : AgenticAutoscaler) (type : EventType) (reason message : string)
| XLog (l : LogLine).

Record ExplainState (W : Type) := mkExplainState { xs_world : W; xs_log : list ExplainEffect }.
Arguments mkExplainState {W} _ _.
Arguments xs_world {W} _.
Arguments xs_log {W} _.

(** [logOllamaErr]: the line it logs. *)
Definition ollama_log_line (e : ClientError) : LogLine :=
  match e with
  | ErrModelNotFound => LogModelNotFound
  | ErrEmptyResponse => LogEmptyResponse
  | TransportFailed ConnRefused => LogUnreachable
  | _ => LogCallFailed
  end.

Section explain_worker.
Context {W : Type} `{!ApiServer W} `{!OllamaChatter W}.
Context (w : ExplainWorker).

Abbreviation XS := (ST (ExplainState W)) (only parsing).

Definition xcall {A} (m : ST W A) : XS A :=
  λ s, let '(a, world) := m (xs_world s) in (a, mkExplainState world (xs_log s)).
Definition xlog (e : ExplainEffect) : XS unit :=
  st_modify (λ s, mkExplainState (xs_world s) (xs_log s ++ [e])).

Definition logOllamaErr (e : ClientError) : XS unit := xlog (XLog (ollama_log_line e)).

(** [emitEvent]; the recovered panic of an impossible trim ends it silently. *)
Definition emitExplained (req : ExplainRequest) (message : string) : XS unit :=
  if negb (xw_EventRecorder w) || negb (xw_Client w) then mret ()
  else
    r ← xcall (GetAAS (mkNN (ex_Namespace req) (ex_Name req)));
    match r with
    | Err _ => mret ()
    | Ok aas =>
        let prefix := ScaleExplained +:+ " " in
        match TrimContent (prefix +:+ message) MaxEventLength with
        | None => mret ()
        | Some body => xlog (XEvent aas EventTypeNormal (PascalReason ScaleExplained) body)
        end
    end.

Definition chat_request (req : ExplainRequest) : Ollama.ChatRequest :=
  let '(sys, user) := BuildPrompt req in
  Ollama.mkChat (xc_Model (xw_Config w))
    [Ollama.mkMessage "system" sys; Ollama.mkMessage "user" user]
    (xc_MaxTokens (xw_Config w)) false.

Definition handleRequest (req : ExplainRequest) : XS unit :=
  _ ← xlog (XChat (chat_request req));
  r ← xcall (oc_Chat (chat_request req));
  match r with
  | Err e => logOllamaErr e
  | Ok content =>
      match TrimContent content MaxEventLength with
      | None => mret ()
      | Some trimmed =>
          if decide (trimmed = EmptyString) then xlog (XLog LogBlankContent)
          else emitExplained req trimmed
      end
  end.

(** [Run] until the channel is closed, on the requests it receives. *)
Fixpoint Run (reqs : list ExplainRequest) : XS unit :=
  match reqs with
  | [] => mret ()
  | req :: reqs => _ ← handleRequest req; Run reqs
  end.
End explain_worker.

(** ** Trimming *)

Lemma substring_prefix n s :
  (n <= String.length s)%nat →
  ∃ t, s = String.substring 0 n s +:+ t ∧ String.length (String.substring 0 n s) = n.
Proof.
  revert n. induction s as [|c s IH]; intros [|n] Hn; simpl in *; [by exists EmptyString|lia|by eexists|].
  destruct (IH n ltac:(lia)) as (t & Hs & Hl). exists t. rewrite Hl. split; [|done].
  change (String c s = String c (String.substring 0 n s +:+ t)). by f_equal.
Qed.

Lemma sprefix_spec n s :
  0 <= n <= slen s → ∃ p t, sprefix n s = Some p ∧ s = p +:+ t ∧ slen p = n.
Proof.
  unfold slen, sprefix. intros Hn. rewrite decide_False by lia.
  destruct (substring_prefix (Z.to_nat n) s ltac:(lia)) as (t & Hs & Hl).
  eexists _, t. split; [done|]. split; [done|]. lia.
Qed.

Lemma slen_app s t : slen (s +:+ t) = slen s + slen t.
Proof. unfold slen. rewrite append_length. lia. Qed.

Lemma TrimContent_spec s n :
  0 <= n →
  ∃ r, TrimContent s n = Some r ∧ slen r = Z.min n (slen s) ∧
    (slen s <= n → r = s) ∧
    (3 < n < slen s → ∃ p t, s = p +:+ t ∧ r = p +:+ "...") ∧
    (0 < n → r = EmptyString → s = EmptyString).
Proof.
  intros Hn. unfold TrimContent. case_decide; [exists s; split_and!; (done || lia)|].
  assert (∀ r, slen r = n → 0 < n → r = EmptyString → s = EmptyString) as He.
  { intros r Hr ? ->. unfold slen in Hr. simpl in Hr. lia. }
  case_decide.
  - destruct (sprefix_spec n s ltac:(lia)) as (p & t & -> & -> & Hl). exists p.
    split_and!; try lia; [done|by apply He].
  - destruct (sprefix_spec (n - 3) s ltac:(lia)) as (p & t & Hp & Hs & Hl). rewrite Hp.
    exists (p +:+ "..."). assert (slen (p +:+ "...") = n) as Hr
      by (rewrite slen_app, Hl; change (slen "...") with 3; lia).
    simpl. split_and!; [done|lia|lia|by eauto|by apply He].
Qed.

(** Trimming is exact. For every text and every non-negative limit the result
    has the length of the text or the limit, whichever is smaller, in bytes; a text within
    the limit is unchanged, and a longer one keeps a prefix followed by three dots. *)
Theorem TrimContent_exact s n :
  0 <= n →
  ∃ r, TrimContent s n = Some r ∧ slen r = Z.min n (slen s) ∧
    (slen s <= n → r = s) ∧ (3 < n < slen s → ∃ p t, s = p +:+ t ∧ r = p +:+ "...").
Proof. intros Hn. destruct (TrimContent_spec s n Hn) as (r & ? & ? & ? & ? & _). eauto 6. Qed.

Lemma TrimContent_exact_witness :
  0 <= 8 ∧ TrimContent "scaling up" 8 = Some "scali..." ∧
  ∃ r, TrimContent "scaling up" 8 = Some r ∧ slen r = 8.
Proof.
  split; [lia|]. split; [reflexivity|].
  destruct (TrimContent_exact "scaling up" 8 ltac:(lia)) as (r & Hr & Hl & _).
  exists r. split; [exact Hr|exact Hl].
Defined.

(** [utf8.ValidString], on the bytes. *)
Fixpoint bytes (s : string) : list N :=
  match s with EmptyString => [] | String c s => Ascii.N_of_ascii c :: bytes s end.
Definition within (lo hi b : N) : bool := (lo <=? b)%N && (b <=? hi)%N.
Definition cont (b : N) : bool := within 128 191 b.
Fixpoint valid_runes (l : list N) : bool :=
  match l with
  | [] => true
  | b0 :: l0 =>
      if within 0 127 b0 then valid_runes l0
      else match l0 with
           | [] => false
           | b1 :: l1 =>
               if within 194 223 b0 then cont b1 && valid_runes l1
               else match l1 with
                    | [] => false
                    | b2 :: l2 =>
                        let lo := if (b0 =? 224)%N then 160%N else 128%N in
                        let hi := if (b0 =? 237)%N then 159%N else 191%N in
                        if within 224 239 b0
                        then within lo hi b1 && cont b2 && valid_runes l2
                        else match l2 with
                             | [] => false
                             | b3 :: l3 =>
                                 let lo := if (b0 =? 240)%N then 144%N else 128%N in
                                 let hi := if (b0 =? 244)%N then 143%N else 191%N in
                                 within 240 244 b0 && within lo hi b1 && cont b2 && cont b3 &&
                                   valid_runes l3
                             end
                    end
           end
  end.
Definition ValidString (s : string) : bool := valid_runes (bytes s).

Fixpoint repeat_string (n : nat) (s : string) : string :=
  match n with O => EmptyString | S n => s +:+ repeat_string n s end.

(** Bytes are not characters: a text of the model that is valid UTF-8 can be cut inside
    a rune, and the event's message is then not valid UTF-8. *)
Theorem TrimContent_can_split_a_rune :
  let s := repeat_string 496 "a" +:+ "élan" in
  ValidString s = true ∧ slen s = 501 ∧
  ∃ r, TrimContent s MaxEventLength = Some r ∧ slen r = 500 ∧ ValidString r = false.
Proof. split; [|split]; [vm_compute; reflexivity..|]. eexists. by vm_compute. Qed.

(** ** What the worker emits *)
Section explain_spec.
Context {W : Type} `{!ApiServer W} `{!OllamaChatter W}.
Context (w : ExplainWorker).

(** An event the worker may emit. *)
Definition explained_ok (e : ExplainEffect) : Prop :=
  match e with
  | XChat _ => False
  | XEvent _ type reason msg =>
      type = EventTypeNormal ∧ reason = PascalReason ScaleExplained ∧
      ∃ body, msg = ScaleExplained +:+ " " +:+ body ∧ body ≠ EmptyString ∧ slen msg <= MaxEventLength
  | XLog _ => True
  end.

Lemma xcall_emits {A} (m : ST W A) (Q : A → list ExplainEffect → Prop) :
  (∀ a, Q a []) → emits (@xs_log W) (xcall m) Q.
Proof. intros HQ. apply emits_silent; [|done]. intros s. unfold xcall. by destruct (m (xs_world s)). Qed.

Lemma xlog_emits e (Q : unit → list ExplainEffect → Prop) :
  Q () [e] → emits (@xs_log W) (xlog e) Q.
Proof. intros HQ s. by exists [e]. Qed.

(** Of two ways to split a text, the shorter first part is a prefix of the longer. *)
Lemma append_split pre m p t :
  pre +:+ m = p +:+ t → slen pre <= slen p → ∃ q, p = pre +:+ q.
Proof.
  revert m p t. induction pre as [|c pre IH]; intros m p t E Hle; [by exists p|].
  destruct p as [|c' p]; [unfold slen in Hle; simpl in Hle; lia|].
  change (String c (pre +:+ m) = String c' (p +:+ t)) in E. injection E as -> E.
  destruct (IH m p t E) as [q ->]; [unfold slen in *; simpl in Hle; lia|]. by exists q.
Qed.

(** Cutting a text that starts with the prefix leaves the prefix and something of the rest. *)
Lemma trim_prefixed message :
  message ≠ EmptyString →
  ∃ body, TrimContent (ScaleExplained +:+ " " +:+ message) MaxEventLength =
      Some (ScaleExplained +:+ " " +:+ body) ∧ body ≠ EmptyString ∧
    slen (ScaleExplained +:+ " " +:+ body) <= MaxEventLength.
Proof.
  intros Hne. set (s := ScaleExplained +:+ " " +:+ message).
  destruct (TrimContent_spec s MaxEventLength ltac:(done)) as (r & Hr & Hl & Hshort & Hlong & _).
  destruct (decide (slen s <= MaxEventLength)) as [Hs|Hs].
  - rewrite Hr, (Hshort Hs). exists message. split_and!; [done..|exact Hs].
  - destruct Hlong as (p & t & Hp & Hrp); [unfold MaxEventLength in *; lia|].
    assert (slen p = 497) as Hlp.
    { rewrite Hrp, slen_app in Hl. change (slen "...") with 3 in Hl. unfold MaxEventLength in *. lia. }
    rewrite Hr, Hrp. clear -Hp Hlp Hl Hrp. unfold s in Hp. change (ScaleExplained +:+ " " +:+ message)
      with ("scale_explained " +:+ message) in Hp.
    destruct (append_split _ _ _ _ Hp) as [q ->]; [rewrite Hlp; done|].
    exists (q +:+ "..."). split_and!; [done|by destruct q|].
    rewrite Hrp in Hl. change (slen ("scale_explained " +:+ (q +:+ "...")) <= 500).
    change (slen (("scale_explained " +:+ q) +:+ "...") = Z.min MaxEventLength (slen s)) in Hl.
    rewrite !slen_app in *. unfold MaxEventLength in *. lia.
Qed.

Lemma emitExplained_spec req message :
  message ≠ EmptyString →
  emits (@xs_log W) (emitExplained w req message)
    (λ _ k, k = [] ∨ ∃ aas type reason msg,
       k = [XEvent aas type reason msg] ∧ explained_ok (XEvent aas type reason msg)).
Proof.
  intros Hne. unfold emitExplained. destruct (_ || _); [by apply emits_ret; left|].
  eapply emits_bind; [by apply (xcall_emits _ (λ _ k, k = []))|]. intros r k ->. simpl.
  destruct r as [aas|e]; [|by apply emits_ret; left].
  destruct (trim_prefixed message Hne) as (body & Htrim & Hb & Hl).
  change (ScaleExplained +:+ " " +:+ message) with ((ScaleExplained +:+ " ") +:+ message) in Htrim.
  rewrite Htrim.
  apply xlog_emits. right. eexists _, _, _, _. split; [done|]. simpl. split_and!; [done..|]. by exists body.
Qed.

Lemma handleRequest_spec req :
  emits (@xs_log W) (handleRequest w req)
    (λ _ k, ∃ l, k = XChat (chat_request w req) :: l ∧ (length l <= 1)%nat ∧ Forall explained_ok l).
Proof.
  unfold handleRequest.
  eapply emits_bind; [by apply (xlog_emits _ (λ _ k, k = [XChat (chat_request w req)]))|].
  intros [] k ->. simpl.
  eapply emits_bind; [by apply (xcall_emits _ (λ _ k, k = []))|]. intros r k ->. simpl.
  destruct r as [content|e].
  2: { apply xlog_emits. eexists. split; [done|]. split; [done|by repeat constructor]. }
  destruct (TrimContent_spec content MaxEventLength ltac:(done)) as (trimmed & -> & _).
  case_decide.
  - apply xlog_emits. eexists. split; [done|]. split; [done|by repeat constructor].
  - eapply emits_mono; [by apply emitExplained_spec|]. intros [] k [->|(aas & ty & rs & msg & -> & He)]; simpl.
    + exists []. by repeat constructor.
    + eexists [_]. split; [done|]. split; [done|]. by constructor.
Qed.

Lemma explained_no_chat l : Forall explained_ok l → omap (λ e, match e with XChat r => Some r | _ => None end) l = [].
Proof. induction 1 as [|[] l He _ IH]; simpl; [done|by destruct He|done..]. Qed.
End explain_spec.

(** The chat requests among the entries. *)
Definition chats (k : list ExplainEffect) : list Ollama.ChatRequest :=
  omap (λ e, match e with XChat r => Some r | _ => None end) k.

(** Claim C37: one request, at most one event. The explain worker sends exactly one chat
    request per explain request, in the order it receives them. Whatever the model
    answers, what it adds for a request is at most one further entry, and an event is
    always Normal, carries the reason ScaleExplained, starts with the token
    scale_explained followed by a non-empty text, and is at most 500 bytes long. *)
Theorem explainer_events {W} `{!ApiServer W} `{!OllamaChatter W} w reqs :
  emits (@xs_log W) (Run w reqs)
    (λ _ k, chats k = chat_request w <$> reqs ∧
       Forall (λ e, match e with XChat _ => True | _ => explained_ok e end) k ∧
       (length k <= 2 * length reqs)%nat).
Proof.
  induction reqs as [|req reqs IH]; simpl; [by apply emits_ret; repeat constructor|].
  eapply emits_bind; [apply handleRequest_spec|]. intros [] k1 (l & -> & Hl & Hok).
  eapply emits_mono; [exact IH|]. intros [] k2 (Hc & Hf & Hlen). unfold chats in *.
  split_and!.
  - simpl. by rewrite omap_app, (explained_no_chat _ Hok), Hc.
  - simpl. constructor; [done|]. apply Forall_app. split; [|done].
    eapply Forall_impl; [exact Hok|]. by intros [].
  - simpl. rewrite length_app. lia.
Qed.

(** ** The HTTP client is such a chatter *)

(** What the defensive check of the worker guards against. *)
Class OllamaLaws (W : Type) `{!OllamaChatter W} :=
  chat_not_blank : ∀ req w content w', oc_Chat req w = (Ok content, w') → content ≠ EmptyString.

#[export] Instance ollama_client {W} `{!HttpTransport W Ollama.chatResponse} (url : string) :
    OllamaChatter W | 100 := Ollama.Chat url.

Lemma ollama_client_lawful {W} `{!HttpTransport W Ollama.chatResponse} (url : string) :
  @OllamaLaws W (ollama_client url).
Proof. intros req w content w' Hc. by eapply Chat_Ok. Qed.

Lemma xcall_bind_emits {W A B} (m : ST W A) (f : A → ST (ExplainState W) B) Q :
  (∀ a w w', m w = (a, w') → emits (@xs_log W) (f a) Q) → emits (@xs_log W) (xcall m ≫= f) Q.
Proof.
  intros Hf s. unfold xcall, mbind, st_bind. destruct (m (xs_world s)) as [a w'] eqn:E.
  exact (Hf a _ _ E (mkExplainState w' (xs_log s))).
Qed.

(** With a client that keeps the contract, the defensive branch is dead: no
    request ends with the log line about blank content. *)
Theorem blank_content_is_never_logged {W} `{!ApiServer W} `{!OllamaChatter W} `{!OllamaLaws W} w reqs :
  emits (@xs_log W) (Run w reqs) (λ _, Forall (λ e, e ≠ XLog LogBlankContent)).
Proof.
  induction reqs as [|req reqs IH]; simpl; [by apply emits_ret; constructor|].
  apply emits_bind_closed; [apply Forall_app_2| |by intros []]. unfold handleRequest.
  apply emits_bind_closed; [apply Forall_app_2|by apply xlog_emits; repeat constructor|]. intros [].
  apply xcall_bind_emits. intros [content|e] world world' Hc.
  2: { apply xlog_emits. constructor; [|constructor]. unfold ollama_log_line. by repeat case_match. }
  pose proof (chat_not_blank _ _ _ _ Hc) as Hne.
  destruct (TrimContent_spec content MaxEventLength ltac:(done)) as (t & -> & _ & _ & _ & He).
  rewrite decide_False by (intros E; by apply Hne, He). eapply emits_mono.
  - apply emitExplained_spec. intros E. by apply Hne, He.
  - intros [] k [->|(aas & ty & rs & msg & -> & _)]; by repeat constructor.
Qed.
