(* ===== verification/Wiring.v ===== *)
(** * cmd/controller/main.go: how the parts are put together

    What [main] builds from the loaded configuration, and the theorems about the
    assembled program: the classifier's workers run with the fields [main] sets, the
    reconciler's client is the HTTP client of the Forecast Service, and the explain
    worker receives what the reconciler puts into the channel. *)
From S2P Require Import Prelude Float64 FloatOrder FloatRound Reasoning Config Capacity.
From S2P Require Import Api State Decision Webhook Features Classifier Channels Adapters.
From S2P Require Import Interfaces Worker Manager Metrics Controller ReconcileCases.
From S2P Require Import Scaling Demo Guarantees Explainer.
From Stdlib Require Import SpecFloat.

(** [int(cfg.ClassifierDedup / time.Second)] and the other fields of the literal; the
    fields it does not mention have their zero values. *)
Definition classifier_config (cfg : Config) : WorkerConfig :=
  {| wc_Interval := cfg_ClassifierInterval cfg;
     wc_HistoryHours := cfg_ClassifierHistory cfg;
     wc_MinPoints := cfg_ClassifierMinPoints cfg;
     wc_HighConfPoints := cfg_ClassifierHighConfidencePoints cfg;
     wc_DedupSeconds := Z.quot (cfg_ClassifierDedup cfg) Second;
     wc_ResolutionMin := 0;
     wc_HourlyProfileMinHours := 0;
     wc_CVGuardMeanRPS := f0 |}.

Definition explain_worker (cfg : Config) : ExplainWorker :=
  {| xw_Config := mkExplainWorkerConfig (cfg_OllamaModel cfg) (cfg_OllamaMaxTokens cfg)
                    (cfg_OllamaTimeout cfg);
     xw_EventRecorder := true;
     xw_Client := true |}.

(** The reconciler as [main] starts it, in a world [w]. *)
Definition start_reconciler {W} (cfg : Config) (w : W) : CtlState W :=
  mkCtl w NewStateStore (Some (NewManager (classifier_config cfg))) no_samples None [].

(** ** The classifier's workers *)

(** Every worker of a manager runs with the manager's configuration. *)
Definition same_config (c : WorkerConfig) (m : Manager) : Prop :=
  mg_config m = c ∧ Forall (λ w, wk_Config w = c) (mg_started m).

Lemma run_manager_op_config c m op : same_config c m → same_config c (run_manager_op m op).
Proof.
  intros [Hc Hw]. destruct op; simpl;
    unfold Ensure, Stop, SignalReclassify, ObserveDeploymentRevision, take_reclassify, take_generation;
    repeat case_match; simplify_eq/=; try done.
  split; [done|]. apply Forall_snoc; [done|]. done.
Qed.

Lemma manager_config c ops : same_config c (fold_left run_manager_op ops (NewManager c)).
Proof.
  assert (same_config c (NewManager c)) as H0 by (split; [done|constructor]).
  revert H0. generalize (NewManager c).
  induction ops as [|op ops IH]; intros m Hm; simpl; [done|]. by apply IH, run_manager_op_config.
Qed.

(** Claim C38: the assembled classifier never produces a context. Whatever the
    configuration says about the context's resolution, and whatever the manager is asked
    to do, every worker it starts writes only [classifiedParams] blocks without a context:
    [main] leaves the resolution of the workers at zero, which selects the pipeline
    without one. *)
Theorem context_is_never_written {W} `{!ApiServer W} `{!PromQuerier W} `{!Clock W} `{GoPlatform}
    cfg ops iterations w :
  w ∈ mg_started (fold_left run_manager_op ops (NewManager (classifier_config cfg))) →
  emits (@ws_log W) (run_worker w iterations)
    (λ _, worker_log (W := W) w (λ _ cp, cp_Context cp = None)).
Proof.
  intros Hw. destruct (manager_config (classifier_config cfg) ops) as [_ Hall].
  rewrite Forall_forall in Hall. specialize (Hall w Hw).
  apply run_worker_logs. split; intros *; [rewrite Hall; simpl; lia|done].
Qed.

Definition demo_worker : Worker := new_worker (NewManager (classifier_config demo_config)) sample_cr.

Lemma context_is_never_written_witness :
  demo_worker ∈ mg_started (fold_left run_manager_op [MEnsure sample_cr]
                              (NewManager (classifier_config demo_config))) ∧
  wc_ResolutionMin (wk_Config demo_worker) ≠ cfg_ContextResolutionMinutes demo_config ∧
  emits (@ws_log unit) (@run_worker unit offline no_metrics (clock_at 0) amd64 demo_worker [[TTimer]])
    (λ _, @worker_log unit offline demo_worker (λ _ cp, cp_Context cp = None)).
Proof.
  assert (demo_worker ∈ mg_started (fold_left run_manager_op [MEnsure sample_cr]
    (NewManager (classifier_config demo_config)))) as Hw by (simpl; constructor).
  split; [exact Hw|]. split; [vm_compute; discriminate|].
  exact (@context_is_never_written unit offline no_metrics (clock_at 0) amd64 demo_config _ [[TTimer]] _ Hw).
Defined.

(** And the Forecast Service never receives one: for a CR whose block was
    written by such a worker, no forecast request of a reconcile carries a context. *)
Theorem context_is_never_sent {W} `{!ApiServer W} `{!PromQuerier W} `{!Forecaster W}
    `{!Clock W} `{GoPlatform} cfg key (s : CtlState W) aas k req r :
  states_ok (cs_store s) →
  cs_log (Reconcile cfg key s).2 = cs_log s ++ EGetAAS key (Ok aas) :: k →
  (∀ cp, st_ClassifiedParams (aas_Status aas) = Some cp → cp_Context cp = None) →
  ERecommend req r ∈ k → Forecast.Context_ req = None.
Proof.
  intros Hok Hk Hcp Hreq. destruct (Reconcile_read cfg key s aas k Hok Hk) as (_ & _ & Hc).
  apply reconciled_asks in Hc. rewrite Forall_forall in Hc.
  destruct (Hc _ Hreq) as (samples & t & -> & _). simpl. unfold de_context, classified_context.
  destruct t, (st_ClassifiedParams (aas_Status aas)) as [cp|]; simpl; try done.
  by rewrite (Hcp cp eq_refl).
Qed.

Lemma context_is_never_sent_witness :
  ∃ req r, ERecommend req r ∈ tail (cs_log demo_once) ∧ Forecast.Context_ req = None.
Proof.
  assert (∃ req r, tail (cs_log demo_once) !! 4%nat = Some (ERecommend req r)) as (req & r & Hr)
    by (do 2 eexists; vm_compute; reflexivity).
  apply list_elem_of_lookup_2 in Hr. exists req, r. split; [exact Hr|].
  refine (@context_is_never_sent Demo demo_api demo_metrics demo_forecaster demo_clock amd64 demo_config
    demo_key (demo_state demo_start) (demo_cr demo_start) (tail (cs_log demo_once)) req r
    states_ok_new _ _ Hr).
  - vm_compute. reflexivity.
  - intros cp E. discriminate E.
Defined.

(** ** The explain worker *)

(** The two lines of the prompt that explain a binding bound are unreachable from the
    reconciler: a request it sends has neither reason. *)
Theorem binding_lines_are_unreachable {W} `{!ApiServer W} `{!PromQuerier W} `{!Forecaster W}
    `{!Clock W} `{GoPlatform} cfg key (s : CtlState W) k req :
  states_ok (cs_store s) → cs_log (Reconcile cfg key s).2 = cs_log s ++ k → ENotify req ∈ k →
  max_line req = EmptyString ∧ min_line req = EmptyString.
Proof.
  intros Hok Hk Hr.
  destruct (notify_after_patch cfg key s k req Hok Hk Hr) as (k1 & k2 & aas & x & _ & _ & _ & -> & Hsp).
  pose proof (decision_reason cfg aas x Hsp) as Hreason. simpl in Hreason.
  change (co_Reason (sd_Cap (de_decision cfg aas x))) with (ex_Reason (de_request cfg aas x)) in Hreason.
  unfold max_line, min_line, move_reasons in *.
  rewrite !bool_decide_eq_false_2; [done|..]; intros E; rewrite E in Hreason; set_solver.
Qed.

Lemma binding_lines_are_unreachable_witness :
  ∃ req, ENotify req ∈ cs_log demo_once ∧ max_line req = EmptyString ∧ step_line req ≠ EmptyString.
Proof.
  assert (∃ req, cs_log demo_once !! 10%nat = Some (ENotify req) ∧ step_line req ≠ EmptyString)
    as (req & Hr & Hs) by (eexists; split; vm_compute; [reflexivity|discriminate]).
  exists req. split; [exact (in_log _ 10 _ Hr)|]. split; [|exact Hs].
  exact (proj1 (@binding_lines_are_unreachable Demo demo_api demo_metrics demo_forecaster demo_clock amd64
    demo_config demo_key (demo_state demo_start) (cs_log demo_once) req states_ok_new eq_refl
    (in_log _ 10 _ Hr))).
Defined.
