(* ===== verification/Timeouts.v ===== *)
(** * How long the program can wait for its services

    The HTTP clients that main builds, with their time limits, and what follows for the
    one goroutine that runs the reconciles: it waits for three answers at most, each
    within the limit, when the limit is one at all. *)
From S2P Require Import Prelude Float64 FloatOrder FloatRound Reasoning Config Capacity.
From S2P Require Import Api State Decision Webhook Features Classifier Channels Adapters.
From S2P Require Import Interfaces Worker Manager Metrics Controller ReconcileCases.
From S2P Require Import Scaling Demo Guarantees Explainer Wiring.

(** ** The clients *)

(** A base URL and the [http.Client] with its [Timeout]. *)
Record HttpClient := mkHttpClient { hc_baseURL : string; hc_Timeout : Duration }.

Definition prometheus_New (baseURL : string) (timeout : Duration) : HttpClient := mkHttpClient baseURL timeout.
Definition forecast_New (baseURL : string) (timeout : Duration) : HttpClient := mkHttpClient baseURL timeout.
Definition ollama_New (baseURL : string) (timeout : Duration) : HttpClient := mkHttpClient baseURL timeout.

Definition promClient (cfg : Config) : HttpClient := prometheus_New (cfg_PrometheusURL cfg) (cfg_ForecastTimeout cfg).
Definition forecastClient (cfg : Config) : HttpClient :=
  forecast_New (cfg_ForecastServiceURL cfg) (cfg_ForecastTimeout cfg).
Definition ollamaClient (cfg : Config) : HttpClient := ollama_New (cfg_OllamaURL cfg) (cfg_OllamaTimeout cfg).

(** How long [http.Client.Do] with the body takes when the service needs [latency]
    ([None]: it never answers).  A limit that is not positive is no limit. *)
Definition http_wait (c : HttpClient) (latency : option Duration) : option Duration :=
  if decide (0 < hc_Timeout c)
  then Some (match latency with Some d => Z.min d (hc_Timeout c) | None => hc_Timeout c end)
  else latency.

(** ** The waiting time of a reconcile *)

(** The client of a call that goes through one. *)
Definition client_of (cfg : Config) (e : Effect) : option HttpClient :=
  match e with
  | EInstantQuery _ _ | ERangeQuery _ _ _ _ _ => Some (promClient cfg)
  | ERecommend _ _ => Some (forecastClient cfg)
  | _ => None
  end.

(** The time the calls of [k] take, the [i]-th with latency [lat i]; [None] is for ever. *)
Fixpoint waiting (cfg : Config) (lat : nat → option Duration) (i : nat) (k : list Effect) : option Duration :=
  match k with
  | [] => Some 0
  | e :: k =>
      match client_of cfg e with
      | None => waiting cfg lat i k
      | Some c => d ← http_wait c (lat i); (λ d', d + d') <$> waiting cfg lat (S i) k
      end
  end.

Definition http_calls (cfg : Config) (k : list Effect) : nat := length (omap (client_of cfg) k).

Lemma http_calls_app cfg k1 k2 : http_calls cfg (k1 ++ k2) = (http_calls cfg k1 + http_calls cfg k2)%nat.
Proof. unfold http_calls. by rewrite omap_app, length_app. Qed.

Lemma client_timeout cfg e c : client_of cfg e = Some c → hc_Timeout c = cfg_ForecastTimeout cfg.
Proof. destruct e; simpl; intros; simplify_eq; done. Qed.

Lemma waiting_bounded cfg lat k :
  0 < cfg_ForecastTimeout cfg → (∀ i d, lat i = Some d → 0 <= d) →
  ∀ i, ∃ d, waiting cfg lat i k = Some d ∧ 0 <= d <= Z.of_nat (http_calls cfg k) * cfg_ForecastTimeout cfg.
Proof.
  intros Ht Hlat. induction k as [|e k IH]; intros i; simpl; [by exists 0|].
  unfold http_calls. cbn [omap list_omap]. destruct (client_of cfg e) as [c|] eqn:E; [|apply IH].
  apply client_timeout in E. destruct (IH (S i)) as (d' & Hd' & Hb).
  unfold http_wait. rewrite decide_True by lia. simpl. rewrite Hd'. simpl. eexists. split; [done|].
  fold (http_calls cfg k). destruct (lat i) as [d|] eqn:El; [apply Hlat in El|]; lia.
Qed.

Lemma waiting_forever cfg k i :
  cfg_ForecastTimeout cfg <= 0 → (0 < http_calls cfg k)%nat → waiting cfg (λ _, None) i k = None.
Proof.
  intros Ht. revert i. induction k as [|e k IH]; intros i Hk; [cbn in Hk; lia|]. simpl.
  unfold http_calls in Hk. cbn [omap list_omap] in Hk. destruct (client_of cfg e) as [c|] eqn:E; [|by apply IH].
  apply client_timeout in E. unfold http_wait. by rewrite decide_False by lia.
Qed.

(** ** The calls of a reconcile *)
Section calls.
Context {W : Type} `{!ApiServer W} `{!PromQuerier W} `{!Forecaster W} `{!Clock W} `{GoPlatform}.
Context (cfg : Config).

Definition costs {A} (m : ST (CtlState W) A) (n : nat) : Prop :=
  emits (@cs_log W) m (λ _ k, (http_calls cfg k <= n)%nat).

Lemma costs_ret {A} (a : A) n : costs (mret a) n.
Proof. apply emits_ret, Nat.le_0_l. Qed.

Lemma costs_bind {A B} (m : ST (CtlState W) A) (f : A → ST (CtlState W) B) n1 n2 :
  costs m n1 → (∀ a, costs (f a) n2) → costs (m ≫= f) (n1 + n2).
Proof.
  intros Hm Hf. eapply emits_bind; [exact Hm|]. intros a k1 H1. eapply emits_mono; [apply Hf|].
  intros b k2 H2. rewrite http_calls_app. cbn beta in *. lia.
Qed.

Lemma costs_mono {A} (m : ST (CtlState W) A) n1 n2 : costs m n1 → (n1 <= n2)%nat → costs m n2.
Proof. intros Hm Hn. eapply emits_mono; [exact Hm|]. intros a k Hk. cbn beta in *. lia. Qed.

Lemma costs_silent {A} (m : ST (CtlState W) A) n : (∀ s, cs_log (m s).2 = cs_log s) → costs m n.
Proof. intros Hs. apply emits_silent; [done|]. intros a. apply Nat.le_0_l. Qed.

Lemma costs_log e n : client_of cfg e = None → costs (log_effect e) n.
Proof. intros He s. exists [e]. split; [done|]. unfold http_calls. cbn. rewrite He. cbn. lia. Qed.

Lemma costs_ask {A} (m : ST W A) (e : A → Effect) n :
  (∀ a, (if client_of cfg (e a) is Some _ then 1 else 0) <= n)%nat → costs (ask m e) n.
Proof.
  intros He s. unfold ask, call, log_effect, st_modify, mret, st_ret, mbind, st_bind.
  destruct (m (cs_world s)) as [a w']. exists [e a]. split; [done|].
  specialize (He a). unfold http_calls. cbn. destruct (client_of cfg (e a)); cbn; lia.
Qed.

(** The next step of a handler costs nothing. *)
Lemma costs_free {A B} (m : ST (CtlState W) A) (f : A → ST (CtlState W) B) n :
  costs m 0 → (∀ a, costs (f a) n) → costs (m ≫= f) n.
Proof. apply (costs_bind m f 0 n). Qed.
Lemma costs_one {A B} (m : ST (CtlState W) A) (f : A → ST (CtlState W) B) n :
  costs m 1 → (∀ a, costs (f a) n) → costs (m ≫= f) (S n).
Proof. apply (costs_bind m f 1 n). Qed.

Ltac free := apply costs_free;
  [ solve [apply costs_ask; intros; cbn; lia | apply costs_log; reflexivity
          | apply costs_silent; intros s; unfold with_store; by repeat case_match ]
  | intros ].
Ltac cost_step :=
  first [ apply costs_ret | free | case_match ].

Lemma update_status_costs a n : costs (update_status a) n.
Proof. apply costs_ask. intros. cbn. lia. Qed.

Lemma handleKillSwitch_costs aas n : costs (handleKillSwitch cfg aas) n.
Proof. unfold handleKillSwitch, update_status, event, requeue. repeat cost_step. Qed.

Lemma handleConflict_costs aas name n : costs (handleConflict cfg aas name) n.
Proof. unfold handleConflict, update_status, event, requeue. repeat cost_step. Qed.

Lemma metrics_unavailable_costs aas msg n : costs (metrics_unavailable cfg aas msg) n.
Proof. unfold metrics_unavailable, event, requeue. repeat cost_step. Qed.

Lemma finish_costs aas ep d r c resp now n : costs (finish cfg aas ep d r c resp now) n.
Proof.
  unfold finish, event, update_status, requeue. do 3 free.
  apply costs_free; [|intros; repeat cost_step].
  destruct (co_ShouldPatch _); [|apply costs_ret]. free. by apply costs_silent.
Qed.

Lemma decide_and_act_costs key p st aas ep r resp d n : costs (decide_and_act cfg key p st aas ep r resp d) n.
Proof.
  unfold decide_and_act, rnow. free. destruct (observe_rps _ _ _ _ _); [|apply costs_ret]. free.
  unfold patch_scale, update_scale, requeue. destruct (co_ShouldPatch _); [|apply finish_costs].
  free. case_match; [free; apply finish_costs|apply costs_ret].
Qed.

Lemma with_forecast_costs key aas ep r resp n : costs (with_forecast cfg key aas ep r resp) n.
Proof.
  unfold with_forecast, requeue. free. case_match; [|apply costs_ret]. free.
  apply costs_free.
  - apply costs_silent. intros s. unfold load_state, with_store. by repeat case_match.
  - intros [[p st]|]; [apply decide_and_act_costs|apply costs_ret].
Qed.

Lemma call_forecast_costs key aas r h : costs (call_forecast cfg key aas r h) 1.
Proof.
  unfold call_forecast. apply costs_free.
  - unfold buildForecastContext, rnow. repeat cost_step.
  - intros ctx. apply costs_one; [by apply costs_ask; intros|]. intros [resp|e]; [apply with_forecast_costs|].
    unfold event, requeue. repeat cost_step.
Qed.

Lemma hot_path_costs key aas : costs (hot_path cfg key aas) 3.
Proof.
  unfold hot_path. apply costs_one; [by apply costs_ask; intros|]. intros [rps|e]; [|apply metrics_unavailable_costs].
  unfold rnow. free. apply costs_one; [by apply costs_ask; intros|]. intros [l|e]; [|apply metrics_unavailable_costs].
  case_decide; [apply metrics_unavailable_costs|apply call_forecast_costs].
Qed.

Lemma Reconcile_costs key : costs (Reconcile cfg key) 3.
Proof.
  unfold Reconcile. free. case_match.
  - unfold ensure_worker. free. unfold pre_checks, findConflictingHPA.
    case_decide; [apply handleKillSwitch_costs|]. case_match; [apply costs_ret|].
    apply costs_free; [free; apply costs_ret|]. intros [[h|]|e]; [apply handleConflict_costs|apply hot_path_costs|apply costs_ret].
  - case_match; [|apply costs_ret]. repeat cost_step.
Qed.
End calls.

(** Claim C15: a reconcile does not wait for its services beyond the limit. It makes at most
    three calls through the HTTP clients that main builds, two to Prometheus and one to the
    Forecast Service, and with a positive FORECAST_TIMEOUT_SECONDS waits for them three
    times that long at most, however slow the services are, even if they never answer. A
    timeout that is not positive, which the configuration accepts, is none: then any
    call of any reconcile can hold the only goroutine that reconciles for ever. *)
Theorem reconcile_wait_bounded {W} `{!ApiServer W} `{!PromQuerier W} `{!Forecaster W} `{!Clock W}
    `{GoPlatform} cfg key (s : CtlState W) k lat :
  cs_log (Reconcile cfg key s).2 = cs_log s ++ k → (∀ i d, lat i = Some d → 0 <= d) →
  (http_calls cfg k <= 3)%nat ∧
  (0 < cfg_ForecastTimeout cfg →
     ∃ d, waiting cfg lat 0 k = Some d ∧ 0 <= d <= 3 * cfg_ForecastTimeout cfg) ∧
  (cfg_ForecastTimeout cfg <= 0 → (0 < http_calls cfg k)%nat → waiting cfg (λ _, None) 0 k = None).
Proof.
  intros Hk Hlat. destruct (Reconcile_costs cfg key s) as (k' & Hk' & Hc).
  rewrite Hk in Hk'. apply app_inv_head in Hk' as <-. split; [done|]. split.
  - intros Ht. destruct (waiting_bounded cfg lat k Ht Hlat 0) as (d & Hd & Hb). exists d. split; [done|]. nia.
  - intros Ht Hn. by apply waiting_forever.
Qed.

(** Prometheus answers after one and after two seconds, the Forecast Service never. *)
Lemma reconcile_wait_bounded_witness :
  ∃ d, waiting demo_config (λ i, match i with O => Some Second | S O => Some (2 * Second) | _ => None end) 0
    (cs_log demo_once) = Some d ∧ 0 <= d <= 3 * cfg_ForecastTimeout demo_config.
Proof.
  apply (@reconcile_wait_bounded Demo _ _ _ _ amd64 demo_config demo_key (demo_state demo_start) (cs_log demo_once)).
  - reflexivity.
  - intros [|[|i]] d E; simplify_eq; done.
  - reflexivity.
Defined.

(** ** A timeout of zero *)

Definition no_timeout_env : Env :=
  env_of [("FORECAST_SERVICE_URL", "f"); ("PROMETHEUS_URL", "p"); ("FORECAST_TIMEOUT_SECONDS", "0");
          ("OLLAMA_TIMEOUT_SECONDS", "0")].

(** It loads, and under it a reconcile whose Prometheus does not answer waits for ever. *)
Theorem zero_timeout_blocks :
  ∃ cfg, @LoadFromEnv nan_strconv no_timeout_env = Ok cfg ∧ cfg_ForecastTimeout cfg = 0 ∧
    cfg_OllamaTimeout cfg = 0 ∧
    waiting cfg (λ _, None) 0
      (cs_log (@Reconcile Demo _ _ _ _ amd64 cfg demo_key (demo_state demo_start)).2) = None.
Proof. eexists. split; [vm_compute; reflexivity|]. vm_compute. done. Qed.

(** ** The explain worker *)

(** Its call runs under a context with the worker's timeout as well, which is over at once
    when that is not positive: the time the call takes, and whether the answer arrives. *)
Definition chat_wait (xw : ExplainWorker) (c : HttpClient) (latency : option Duration) : Duration * bool :=
  let limit := xc_Timeout (xw_Config xw) in
  if decide (limit <= 0) then (0, false)
  else match http_wait c latency with
       | Some d => if decide (d < limit) then (d, bool_decide (latency = Some d)) else (limit, false)
       | None => (limit, false)
       end.

(** One explanation takes the configured timeout at most; without a positive one it never
    takes place, however fast the model answers. *)
Lemma explain_wait_bounded cfg latency :
  (∀ d, latency = Some d → 0 <= d) →
  0 <= (chat_wait (explain_worker cfg) (ollamaClient cfg) latency).1 <= Z.max 0 (cfg_OllamaTimeout cfg) ∧
  (cfg_OllamaTimeout cfg <= 0 → (chat_wait (explain_worker cfg) (ollamaClient cfg) latency).2 = false).
Proof.
  intros Hl. unfold chat_wait, http_wait. cbn [explain_worker xw_Config xc_Timeout ollamaClient ollama_New hc_Timeout].
  split.
  - destruct latency as [d|]; [specialize (Hl d eq_refl)|]; repeat (case_decide; simpl); lia.
  - intros. by rewrite decide_True.
Qed.
