(* ===== verification/Startup.v ===== *)
(** * cmd/controller/main.go: start-up

    [main] as a sequence of set-up actions that can fail.  The controller-runtime
    library is the class [ControllerRuntime]; what [main] decides itself (the options,
    the order, what a failure does, when the explain worker starts) is modelled. *)
From S2P Require Import Prelude Float64 FloatOrder FloatRound Reasoning Config Summary Capacity.
From S2P Require Import Api State Decision Webhook Features Classifier Channels Adapters.
From S2P Require Import Interfaces Worker Manager Metrics Controller ReconcileCases.
From S2P Require Import Scaling Demo Guarantees Explainer Wiring.

(** ** Flags and options *)
Record Flags := mkFlags {
  fl_metricsAddr : string;
  fl_probeAddr : string;
  fl_enableLeaderElection : bool;
  fl_secureMetrics : bool;
  fl_enableHTTP2 : bool;
}.

(** What [flag.Parse] leaves on an empty command line. *)
Definition default_flags : Flags := mkFlags "0" ":8081" false true false.

(** The field of [tls.Config] that [main] sets. *)
Record TLSConfig := mkTLS { NextProtos : list string }.
Abbreviation TLSOpt := (TLSConfig → TLSConfig).
Definition disableHTTP2 : TLSOpt := λ c, mkTLS ["http/1.1"].
Definition tlsOpts (fl : Flags) : list TLSOpt := if negb (fl_enableHTTP2 fl) then [disableHTTP2] else [].

(** How a server applies its options. *)
Definition configure (opts : list TLSOpt) (c : TLSConfig) : TLSConfig := fold_left (λ c f, f c) opts c.

Inductive Filter := WithAuthenticationAndAuthorization.
Record MetricsOptions := mkMetricsOptions {
  mo_BindAddress : string;
  mo_SecureServing : bool;
  mo_TLSOpts : list TLSOpt;
  mo_FilterProvider : option Filter;
}.
Definition metricsServerOptions (fl : Flags) : MetricsOptions :=
  mkMetricsOptions (fl_metricsAddr fl) (fl_secureMetrics fl) (tlsOpts fl)
    (if fl_secureMetrics fl then Some WithAuthenticationAndAuthorization else None).

Record ManagerOptions := mkManagerOptions {
  mgo_Metrics : MetricsOptions;
  mgo_WebhookTLSOpts : list TLSOpt;
  mgo_HealthProbeBindAddress : string;
  mgo_LeaderElection : bool;
  mgo_LeaderElectionID : string;
}.
Definition manager_options (fl : Flags) : ManagerOptions :=
  mkManagerOptions (metricsServerOptions fl) (tlsOpts fl) (fl_probeAddr fl)
    (fl_enableLeaderElection fl) "39d01c48.agentic.io".

(** ** The library's calls

    [rt_NewManager] includes [ctrl.GetConfigOrDie], which ends the process with 1 itself
    when there is no cluster configuration. *)
Class ControllerRuntime (W E : Type) := {
  rt_NewManager : ManagerOptions → ST W (option E);
  rt_SetupWebhook : ST W (option E);
  rt_SetupController : Config → ST W (option E);
  rt_AddHealthzCheck : ST W (option E);
  rt_AddReadyzCheck : ST W (option E);
  rt_Start : ST W (option E);
}.

(** What [main] does, in its order; [ALoaded] and [AStarting] are log lines. *)
Inductive Action :=
| AConfigError (errs : list ConfigError)
| ALoaded (summary : string)
| ANewManager (opts : ManagerOptions)
| ASetupWebhook
| ASetupController (cfg : Config)
| AHealthz
| AReadyz
| AStarting
| AGoExplain (worker : ExplainWorker)
| AStart.

Section main.
Context {W E : Type} `{!ControllerRuntime W E} `{GoFormatG} `{GoStrconv}.

(** The world, and the actions with the error each returned. *)
Record MainState := mkMain { ma_world : W; ma_log : list (Action * option E) }.
Abbreviation MS := (ST MainState).

Definition record (a : Action) (e : option E) : MS unit :=
  st_modify (λ s, mkMain (ma_world s) (ma_log s ++ [(a, e)])).

(** [if err := op; err != nil { os.Exit(1) }] before the rest. *)
Definition attempt (a : Action) (op : ST W (option E)) (rest : MS Z) : MS Z :=
  e ← (λ s, let '(e, w) := op (ma_world s) in (e, mkMain w (ma_log s)));
  _ ← record a e;
  match e with Some _ => mret 1 | None => rest end.

(** An action that cannot fail. *)
Definition perform (a : Action) (rest : MS Z) : MS Z := _ ← record a None; rest.

Definition enable_webhooks (env : string → string) : bool := bool_decide (env "ENABLE_WEBHOOKS" ≠ "false").

Definition run_manager (cfg : Config) : MS Z :=
  attempt AHealthz rt_AddHealthzCheck (
  attempt AReadyz rt_AddReadyzCheck (
  perform AStarting (
  perform (AGoExplain (explain_worker cfg)) (
  attempt AStart rt_Start (
  mret 0))))).

Definition setup_controller (cfg : Config) : MS Z :=
  attempt (ASetupController cfg) (rt_SetupController cfg) (run_manager cfg).

Definition setup_webhook (env : string → string) (rest : MS Z) : MS Z :=
  if enable_webhooks env then attempt ASetupWebhook rt_SetupWebhook rest else rest.

(** [main]; its value is the exit code. *)
Definition main (fl : Flags) (env : string → string) : MS Z :=
  match LoadFromEnv env with
  | Err errs => perform (AConfigError errs) (mret 1)
  | Ok cfg =>
      perform (ALoaded (nl +:+ Summary cfg)) (
      attempt (ANewManager (manager_options fl)) (rt_NewManager (manager_options fl)) (
      setup_webhook env (setup_controller cfg)))
  end.

(** ** A plan that stops at the first failure *)

(** [plan], carried out with exit code [code], left the entries [k]. *)
Inductive carried_out : list Action → Z → list (Action * option E) → Prop :=
| co_done : carried_out [] 0 []
| co_next a plan code k : carried_out plan code k → carried_out (a :: plan) code ((a, None) :: k)
| co_fail a plan e : carried_out (a :: plan) 1 [(a, Some e)].

Definition follows (plan : list Action) (m : MS Z) : Prop := emits ma_log m (carried_out plan).

Lemma follows_ret : follows [] (mret 0).
Proof. apply emits_ret. constructor. Qed.

Lemma follows_perform a plan rest : follows plan rest → follows (a :: plan) (perform a rest).
Proof.
  intros Hr [w l]. destruct (Hr (mkMain w (l ++ [(a, None)]))) as (k & Hk & Hc). simpl in Hk.
  exists ((a, None) :: k). unfold perform, mbind, st_bind. simpl.
  rewrite Hk. rewrite <- app_assoc. split; [done|by constructor].
Qed.

Lemma follows_attempt a op plan rest : follows plan rest → follows (a :: plan) (attempt a op rest).
Proof.
  intros Hr [w l]. unfold attempt, mbind, st_bind. simpl. destruct (op w) as [[e|] w']; simpl.
  - exists [(a, Some e)]. split; [done|constructor].
  - destruct (Hr (mkMain w' (l ++ [(a, None)]))) as (k & Hk & Hc). simpl in Hk.
    exists ((a, None) :: k). rewrite Hk. rewrite <- app_assoc. split; [done|by constructor].
Qed.

(** What [main] sets out to do. *)
Definition plan (fl : Flags) (env : string → string) (cfg : Config) : list Action :=
  [ALoaded (nl +:+ Summary cfg); ANewManager (manager_options fl)] ++
  (if enable_webhooks env then [ASetupWebhook] else []) ++
  [ASetupController cfg; AHealthz; AReadyz; AStarting; AGoExplain (explain_worker cfg); AStart].

Lemma main_follows fl env cfg : LoadFromEnv env = Ok cfg → follows (plan fl env cfg) (main fl env).
Proof.
  intros Hl. unfold main, plan. rewrite Hl. simpl.
  apply follows_perform, follows_attempt. unfold setup_webhook.
  assert (follows [ASetupController cfg; AHealthz; AReadyz; AStarting; AGoExplain (explain_worker cfg); AStart]
    (setup_controller cfg)) as Hc.
  { by repeat first [apply follows_attempt | apply follows_perform]; apply follows_ret. }
  destruct (enable_webhooks env); [by apply follows_attempt|done].
Qed.

(** The exit code and the entries of a plan: everything, or up to the first failure. *)
Lemma carried_out_spec plan code k :
  carried_out plan code k →
  (code = 0 ∧ k = (λ a, (a, None)) <$> plan) ∨
  (code = 1 ∧ ∃ n a e, plan !! n = Some a ∧ k = ((λ a, (a, None)) <$> take n plan) ++ [(a, Some e)]).
Proof.
  induction 1 as [|a plan code k _ IH|a plan e]; [by left| |].
  - destruct IH as [[-> ->]|(-> & n & b & e & Hn & ->)]; [by left|].
    right. split; [done|]. by exists (S n), b, e.
  - right. split; [done|]. by exists 0%nat, a, e.
Qed.
End main.

(** Claim C29: start-up fails fast. With an invalid environment [main] reports every error
    and exits with 1 before touching the cluster. Otherwise it carries out its plan in
    order: manager, webhook unless ENABLE_WEBHOOKS is "false", controller, the two
    checks, the explain worker, the manager's run. The first action that fails ends the
    process with 1 and nothing after it happens, so neither the explain worker nor the
    manager runs on a partial set-up; the exit code is 0 only when all of it succeeded. *)
Theorem main_fails_fast {W E} `{!ControllerRuntime W E} `{GoFormatG} `{GoStrconv} fl env :
  emits (@ma_log W E) (main fl env) (λ code k,
    match LoadFromEnv env with
    | Err errs => code = 1 ∧ k = [(AConfigError errs, None)]
    | Ok cfg =>
        (code = 0 ∧ k = (λ a, (a, None)) <$> plan fl env cfg) ∨
        (code = 1 ∧ ∃ n a e, plan fl env cfg !! n = Some a ∧
           k = ((λ a, (a, None)) <$> take n (plan fl env cfg)) ++ [(a, Some e)])
    end).
Proof.
  destruct (LoadFromEnv env) as [cfg|errs] eqn:Hl.
  - eapply emits_mono; [by apply main_follows|]. intros code k. apply carried_out_spec.
  - unfold main. rewrite Hl. intros [w l]. eexists. split; [reflexivity|]. done.
Qed.

(** Without the flag both servers speak HTTP/1.1 only, and the metrics are behind
    authentication exactly when they are served over TLS. *)
Lemma servers_hardened fl c :
  (fl_enableHTTP2 fl = false →
     NextProtos (configure (mgo_WebhookTLSOpts (manager_options fl)) c) = ["http/1.1"] ∧
     NextProtos (configure (mo_TLSOpts (mgo_Metrics (manager_options fl))) c) = ["http/1.1"]) ∧
  (mo_FilterProvider (mgo_Metrics (manager_options fl)) = Some WithAuthenticationAndAuthorization ↔
     mo_SecureServing (mgo_Metrics (manager_options fl)) = true).
Proof.
  split.
  - intros Hf. unfold manager_options, metricsServerOptions, tlsOpts. by rewrite Hf.
  - simpl. by destruct (fl_secureMetrics fl).
Qed.

(** A library whose readiness check cannot be added. *)
Definition no_readyz : ControllerRuntime () string := {|
  rt_NewManager := λ _, mret None; rt_SetupWebhook := mret None; rt_SetupController := λ _, mret None;
  rt_AddHealthzCheck := mret None; rt_AddReadyzCheck := mret (Some "duplicate"); rt_Start := mret None |}.

Example explain_worker_not_started :
  let s := @main () string no_readyz one_g one_strconv default_flags urls_env (mkMain () []) in
  s.1 = 1 ∧ ma_log s.2 !! 5%nat = Some (AReadyz, Some "duplicate") ∧ length (ma_log s.2) = 6%nat.
Proof. vm_compute. split_and!; reflexivity. Qed.
