(* ===== verification/Supervision.v ===== *)
(** * The classifier's workers follow the CRs

    What a reconcile tells the manager is a function of its transcript: the CR it read, the
    answer that there is none, the revision of the Deployment it read.  Over any run of the
    program from its start this gives every CR exactly one worker. *)
From S2P Require Import Prelude Float64 Reasoning Config Api State Decision.
From S2P Require Import Channels Adapters Interfaces Worker Manager Metrics Controller.
From S2P Require Import ReconcileCases Scaling Demo Wiring.

(** ** What a transcript tells the manager *)

(** The revision annotation of a Deployment. *)
Definition revision (d : Deployment) : string :=
  deref_or (dep_Annotations d !! "deployment.kubernetes.io/revision") EmptyString.

(** The calls of the manager that an entry of a reconcile of [key] brings about. *)
Definition told (key : NamespacedName) (e : Effect) : list ManagerOp :=
  match e with
  | EGetAAS _ (Ok aas) =>
      MEnsure aas :: if decide (annotation aas AnnotationReclassify = "true") then [MSignal key] else []
  | EGetAAS _ (Err e) => if IsNotFound e then [MStop key] else []
  | EGetDeployment _ (Ok d) => [MObserve key (revision d)]
  | _ => []
  end.

Definition manage (ops : list ManagerOp) (m : Manager) : Manager := fold_left run_manager_op ops m.

Lemma manage_app ops ops' m : manage (ops ++ ops') m = manage ops' (manage ops m).
Proof. apply fold_left_app. Qed.

Section telling.
Context {W : Type} `{!ApiServer W} `{!PromQuerier W} `{!Forecaster W} `{!Clock W} `{GoPlatform}.
Context (cfg : Config) (key : NamespacedName).
Abbreviation CT := (ST (CtlState W)) (only parsing).

(** [c] makes the manager's calls [due], and then those of its own transcript. *)
Definition tells {A} (due : list ManagerOp) (c : CT A) : Prop :=
  ∀ s, ∃ k, cs_log (c s).2 = cs_log s ++ k ∧
    cs_classifier (c s).2 = manage (due ++ (k ≫= told key)) <$> cs_classifier s.

Lemma tells_ret {A} (a : A) : tells [] (mret a).
Proof. intros s. exists []. rewrite app_nil_r. split; [done|]. simpl. by destruct (cs_classifier s). Qed.

Lemma tells_bind {A B} due (c : CT A) (f : A → CT B) :
  tells due c → (∀ a, tells [] (f a)) → tells due (c ≫= f).
Proof.
  intros Hc Hf s. unfold mbind, st_bind. destruct (Hc s) as (k1 & E1 & M1). destruct (c s) as [a s1].
  destruct (Hf a s1) as (k2 & E2 & M2). exists (k1 ++ k2). simpl in *.
  rewrite E2, E1, M2, M1. split; [by rewrite app_assoc|].
  rewrite bind_app, app_assoc. destruct (cs_classifier s); simpl; [|done]. by rewrite <- manage_app.
Qed.

(** Logging an entry makes its calls due. *)
Lemma tells_log {B} e (f : unit → CT B) : tells (told key e) (f ()) → tells [] (log_effect e ≫= f).
Proof.
  intros Hf [w st m me ex l]. destruct (Hf (mkCtl w st m me ex (l ++ [e]))) as (k & E & M).
  exists (e :: k). unfold log_effect, st_modify, mbind, st_bind. simpl in *.
  by rewrite E, <- app_assoc.
Qed.

Lemma tells_ask {A B} (c : ST W A) (e : A → Effect) (f : A → CT B) :
  (∀ a, tells (told key (e a)) (f a)) → tells [] (ask c e ≫= f).
Proof.
  intros Hf [w st m me ex l]. unfold ask, call, log_effect, st_modify, mret, st_ret, mbind, st_bind. simpl.
  destruct (c w) as [a w']. destruct (Hf a (mkCtl w' st m me ex (l ++ [e a]))) as (k & E & M).
  exists (e a :: k). simpl in *. by rewrite E, <- app_assoc.
Qed.

(** A call that was due. *)
Lemma tells_classifier {B} g ops due (f : unit → CT B) :
  (∀ m, g m = manage ops m) → tells due (f ()) → tells (ops ++ due) (with_classifier g ≫= f).
Proof.
  intros Hg Hf [w st m me ex l]. destruct (Hf (mkCtl w st (g <$> m) me ex l)) as (k & E & M).
  exists k. unfold with_classifier, st_modify, mbind, st_bind. simpl in *. split; [done|].
  rewrite M. destruct m as [m|]; simpl; [|done]. by rewrite Hg, <- manage_app, app_assoc.
Qed.

(** The updates of the other parts. *)
Lemma tells_store {A} (g : StateStore → A * StateStore) : tells [] (with_store g).
Proof.
  intros [w st m me ex l]. exists []. unfold with_store. simpl. destruct (g st). simpl.
  rewrite app_nil_r. by destruct m.
Qed.
Lemma tells_store_then {A B} due (g : StateStore → A * StateStore) (f : A → CT B) :
  (∀ a, tells due (f a)) → tells due (with_store g ≫= f).
Proof.
  intros Hf [w st m me ex l]. unfold with_store, mbind, st_bind. simpl. destruct (g st) as [a st'].
  apply (Hf a (mkCtl w st' m me ex l)).
Qed.
Lemma tells_metrics g : tells [] (with_metrics g).
Proof. intros [w st m me ex l]. exists []. simpl. rewrite app_nil_r. by destruct m. Qed.
Lemma tells_explain g : tells [] (with_explain g).
Proof. intros [w st m me ex l]. exists []. simpl. rewrite app_nil_r. by destruct m. Qed.
End telling.

(** One step of the code that tells the manager nothing. *)
Ltac tell_step :=
  match goal with
  | |- tells _ [] (mret _) => apply tells_ret
  | |- tells _ [] (requeue _) => apply tells_ret
  | |- tells _ [] (with_store _) => apply tells_store
  | |- tells _ [] (with_explain _) => apply tells_explain
  | |- tells _ [] (log_effect _ ≫= _) => apply tells_log
  | |- tells _ [] (event _ _ _ _ ≫= _) => apply tells_log
  | |- tells _ [] (update_status _ ≫= _) => apply tells_ask; intros ?
  | |- tells _ [] (update_scale _ _ _ _ _ ≫= _) => apply tells_ask; intros ?
  | |- tells _ [] (ask _ _ ≫= _) => apply tells_ask; intros ?
  | |- tells _ [] (rnow ≫= _) => apply tells_ask; intros ?
  | |- tells _ [] (with_metrics _ ≫= _) => apply tells_bind; [apply tells_metrics|intros ?]
  | |- tells _ [] (with_store _ ≫= _) => apply tells_bind; [apply tells_store|intros ?]
  | |- tells _ [] (match ?x with _ => _ end) => destruct x
  | |- tells _ (told _ _) _ => progress simpl
  end.
Ltac tell := repeat tell_step.

Section reconciler.
Context {W : Type} `{!ApiServer W} `{!PromQuerier W} `{!Forecaster W} `{!Clock W} `{GoPlatform}.
Context (cfg : Config) (key : NamespacedName).

Lemma tells_finish aas eff d rps cur resp now : tells (W := W) key [] (finish cfg aas eff d rps cur resp now).
Proof.
  unfold finish. tell. apply tells_bind; [|intros []; tell].
  destruct (co_ShouldPatch _); tell.
Qed.

Lemma tells_decide_and_act p st aas eff rps resp deploy :
  tells (W := W) key [] (decide_and_act cfg key p st aas eff rps resp deploy).
Proof.
  unfold decide_and_act. tell.
  unfold patch_scale. destruct (co_ShouldPatch _); tell; apply tells_finish.
Qed.

Lemma tells_with_forecast aas eff rps resp : tells (W := W) key [] (with_forecast cfg key aas eff rps resp).
Proof.
  unfold with_forecast. apply tells_ask. intros [d|e]; [|simpl; tell].
  apply (tells_classifier key _ [MObserve key (revision d)] []); [done|]. unfold load_state. tell.
  apply tells_decide_and_act.
Qed.

Lemma tells_hot_path aas : tells (W := W) key [] (hot_path cfg key aas).
Proof.
  unfold hot_path, metrics_unavailable, call_forecast. tell.
  apply tells_bind; [unfold buildForecastContext; tell|]. intros context. tell. apply tells_with_forecast.
Qed.

Lemma tells_pre_checks aas : tells (W := W) key [] (pre_checks cfg key aas).
Proof.
  unfold pre_checks, handleKillSwitch, handleConflict, findConflictingHPA. tell.
  apply tells_bind; [tell|]. intros r. tell. apply tells_hot_path.
Qed.

(** Everything a reconcile tells the manager is told by its transcript, in its order. *)
Lemma Reconcile_tells : tells (W := W) key [] (Reconcile cfg key).
Proof.
  unfold Reconcile. apply tells_ask. intros [aas|e].
  - unfold ensure_worker.
    rewrite <- (app_nil_r (told key _)).
    apply tells_classifier; [|apply tells_pre_checks]. intros m. simpl. by case_decide.
  - simpl. destruct (IsNotFound e); [|tell].
    apply tells_store_then. intros []. by apply (tells_classifier key _ [MStop key] []); [|tell].
Qed.
End reconciler.

(** ** What the manager makes of it *)

(** Observing revisions touches one handle, and not its reclassify channel. *)
Definition observes (key : NamespacedName) (op : ManagerOp) : Prop := ∃ rev, op = MObserve key rev.

Lemma manage_observes key ops m :
  Forall (observes key) ops →
  (∀ k, k ≠ key → mg_workers (manage ops m) !! k = mg_workers m !! k) ∧
  (∀ k, wh_reclassifyCh <$> mg_workers (manage ops m) !! k = wh_reclassifyCh <$> mg_workers m !! k).
Proof.
  intros Hops. revert m. induction Hops as [|op ops [rev ->] _ IH]; intros m; [done|]. simpl.
  specialize (IH (ObserveDeploymentRevision m key rev).2) as [Ho Hc]. split; intros k.
  - intros Hk. rewrite Ho by done. unfold ObserveDeploymentRevision.
    repeat case_match; simpl; rewrite ?lookup_insert_ne by done; done.
  - rewrite Hc. unfold ObserveDeploymentRevision. repeat case_match; try done; simpl;
      (destruct (decide (k = key)) as [->|Hk]; [rewrite lookup_insert_eq|by rewrite lookup_insert_ne]);
      by simplify_option_eq.
Qed.

Lemma HasWorker_reclassify m m' k :
  wh_reclassifyCh <$> mg_workers m !! k = wh_reclassifyCh <$> mg_workers m' !! k →
  HasWorker m k = HasWorker m' k.
Proof.
  unfold HasWorker. intros E. apply bool_decide_ext.
  by rewrite <- (fmap_is_Some wh_reclassifyCh), E, fmap_is_Some.
Qed.

Lemma Ensure_workers m cr k :
  mg_workers (Ensure m cr) !! k =
  match mg_workers m !! k with
  | Some h => Some h
  | None => if decide (k = aas_key cr) then Some (mkHandle None None EmptyString false) else None
  end.
Proof.
  unfold Ensure. destruct (mg_workers m !! aas_key cr) eqn:E; case_decide; subst; rewrite ?E; try done;
    simpl; rewrite ?lookup_insert_eq, ?lookup_insert_ne by done; try done; by destruct (_ !! k).
Qed.

Lemma SignalReclassify_workers m key k :
  mg_workers (SignalReclassify m key) !! k =
  if decide (k = key) then (λ h, mkHandle (Some ()) (wh_generationCh h) (wh_lastDeploymentRevision h)
                                   (wh_revisionInitialized h)) <$> mg_workers m !! k
  else mg_workers m !! k.
Proof.
  unfold SignalReclassify. destruct (mg_workers m !! key) as [h|] eqn:E; simpl; case_decide; subst;
    rewrite ?lookup_insert_eq, ?lookup_insert_ne, ?E by done; try done.
  destruct h as [[[]|] ? ? ?]; done.
Qed.

Lemma Stop_workers m key k :
  mg_workers (Stop m key) !! k = if decide (k = key) then None else mg_workers m !! k.
Proof.
  unfold Stop. destruct (mg_workers m !! key) eqn:E; simpl; case_decide; subst;
    rewrite ?lookup_delete_eq, ?lookup_delete_ne by done; done.
Qed.

Lemma manage_one_worker ops m : one_worker m → one_worker (manage ops m).
Proof. revert m. induction ops as [|op ops IH]; intros m Hm; [done|]. by apply IH, run_manager_op_one_worker. Qed.

Lemma NewManager_one_worker c : one_worker (NewManager c).
Proof. intros key. unfold HasWorker, NewManager. simpl. by rewrite lookup_empty. Qed.

(** The manager after a reconcile of [key] whose read was answered by [r]. *)
Definition manager_after (key : NamespacedName) (r : result ApiError AgenticAutoscaler) (m m' : Manager) : Prop :=
  (∀ k, k ≠ key → mg_workers m' !! k = mg_workers m !! k) ∧
  match r with
  | Ok aas => HasWorker m' key = true ∧
      (annotation aas AnnotationReclassify = "true" →
       wh_reclassifyCh <$> mg_workers m' !! key = Some (Some ()))
  | Err e => HasWorker m' key = if IsNotFound e then false else HasWorker m key
  end.

Lemma after_read key aas ops m :
  aas_key aas = key → Forall (observes key) ops →
  manager_after key (Ok aas) m (manage (told key (EGetAAS key (Ok aas)) ++ ops) m).
Proof.
  intros <- Hops. rewrite manage_app.
  destruct (manage_observes _ ops (manage (told (aas_key aas) (EGetAAS (aas_key aas) (Ok aas))) m) Hops)
    as [Ho Hc].
  assert (∀ k, mg_workers (manage (told (aas_key aas) (EGetAAS (aas_key aas) (Ok aas))) m) !! k =
    if decide (annotation aas AnnotationReclassify = "true")
    then mg_workers (SignalReclassify (Ensure m aas) (aas_key aas)) !! k
    else mg_workers (Ensure m aas) !! k) as Ht by (intros k; simpl; by case_decide).
  split; [|split].
  - intros k Hk. rewrite Ho, Ht by done. case_decide; rewrite ?SignalReclassify_workers, Ensure_workers;
      rewrite ?decide_False by done; by destruct (_ !! k).
  - rewrite (HasWorker_reclassify _ _ _ (Hc _)). unfold HasWorker. rewrite Ht. apply bool_decide_eq_true_2.
    case_decide; rewrite ?SignalReclassify_workers, ?decide_True, Ensure_workers by done;
      rewrite ?decide_True by done; destruct (_ !! _); eauto.
  - intros Ha. rewrite Hc, Ht, decide_True, SignalReclassify_workers, decide_True, Ensure_workers by done.
    rewrite decide_True by done. by destruct (_ !! _).
Qed.

Lemma after_failure key e m : manager_after key (Err e) m (manage (told key (EGetAAS key (Err e))) m).
Proof.
  simpl. destruct (IsNotFound e) eqn:He; split; try done; simpl; rewrite ?He; try done.
  - intros k Hk. by rewrite Stop_workers, decide_False.
  - unfold HasWorker. rewrite Stop_workers, decide_True by done.
    apply bool_decide_eq_false_2. by intros [? ?].
Qed.

(** ** Runs of the program *)

(** The receives of the workers. *)
Definition receives (op : ManagerOp) : Prop :=
  match op with MTakeReclassify _ | MTakeGeneration _ => True | _ => False end.

Section runs.
Context {W : Type} `{!ApiServer W} `{!PromQuerier W} `{!Forecaster W} `{!Clock W} `{GoPlatform}.
Context (cfg : Config).

(** A reconcile, or anything the rest of the world does: the manager's map is the
    reconciler's alone, its channels are also read by the workers. *)
Inductive managed : CtlState W → CtlState W → Prop :=
| managed_reconcile s key : managed s (Reconcile cfg key s).2
| managed_environment s w me ex ops :
    Forall receives ops →
    managed s (mkCtl w (cs_store s) (manage ops <$> cs_classifier s) me ex (cs_log s)).

Lemma managed_supervised s s' m :
  managed s s' → cs_classifier s = Some m → one_worker m →
  ∃ m', cs_classifier s' = Some m' ∧ one_worker m'.
Proof.
  intros Hs Hm Hw. destruct Hs as [s key|s w me ex ops Hops].
  - destruct (Reconcile_tells cfg key s) as (k & _ & E). rewrite Hm in E. simpl in E.
    eexists. split; [exact E|]. by apply manage_one_worker.
  - simpl. rewrite Hm. eexists. split; [done|]. by apply manage_one_worker.
Qed.

Lemma managed_states_ok s s' : states_ok (cs_store s) → managed s s' → states_ok (cs_store s').
Proof. intros Hok Hs. destruct Hs; [by apply Reconcile_states_ok|done]. Qed.

Definition supervised (s : CtlState W) : Prop :=
  states_ok (cs_store s) ∧ ∃ m, cs_classifier s = Some m ∧ one_worker m.

Lemma reachable_supervised w s : rtc managed (start_reconciler cfg w) s → supervised s.
Proof.
  apply (rtc_invariant managed supervised).
  - intros a b (Hok & m & Hm & Hw) Hs. split; [by eapply managed_states_ok|by eapply managed_supervised].
  - split; [apply states_ok_new|]. eexists. split; [done|apply NewManager_one_worker].
Qed.

(** The rest of a transcript only observes the revision of the Deployment read. *)
Lemma told_observes key aas σ k σ' :
  reconciled (W := W) cfg key aas σ k σ' → Forall (observes key) (k ≫= told key).
Proof.
  intros Hr. assert (Forall (λ e, Forall (observes key) (told key e)) k) as Hk.
  { clear -Hr. revert Hr. apply reconciled_Forall.
    - by intros [].
    - intros []; try done. intros _. destruct r; repeat constructor. by eexists.
    - done.
    - intros x k' σ1 _ Ha. apply Forall_app. split.
      + unfold transcript, queried. rewrite !Forall_app, !Forall_cons. split_and!; try done.
        * destruct (de_context_now x); by repeat (constructor; simpl).
        * repeat (constructor; simpl). by eexists.
      + destruct Ha; unfold closing; destruct (co_ShouldPatch _); by repeat (constructor; simpl). }
  clear Hr. induction Hk as [|e k He _ IH]; [constructor|]. rewrite bind_cons. by apply Forall_app_intro.
Qed.

(** The API server answers a read with the object of that name. *)
Class KeyedReads : Prop :=
  read_key : ∀ key aas, answers (GetAAS (W := W) key) (Ok aas) → aas_key aas = key.

(** What one reconcile does to the manager. *)
Lemma Reconcile_manager `{!KeyedReads} key s m :
  states_ok (cs_store s) → cs_classifier s = Some m →
  let s' := (Reconcile cfg key s).2 in
  ∃ r k m', cs_log s' = cs_log s ++ EGetAAS key r :: k ∧ cs_classifier s' = Some m' ∧
    manager_after key r m m'.
Proof.
  intros Hok Hm. cbn zeta. destruct (Reconcile_tells cfg key s) as (k0 & Hlog & Hcl).
  destruct (Reconcile_log cfg key s k0 Hok Hlog) as (k & -> & Hc).
  rewrite Hm in Hcl. simpl in Hcl.
  pose proof (answers_now (GetAAS key) (cs_world s)) as Ha.
  destruct (GetAAS key (cs_world s)).1 as [aas|e]; do 3 eexists; (split; [exact Hlog|]); (split; [exact Hcl|]).
  - destruct Hc as [_ Hr]. apply after_read; [by apply read_key|by eapply told_observes].
  - subst k. pose proof (after_failure key e m) as Hf. simpl in *. by rewrite app_nil_r.
Qed.
End runs.

(** Claim C19: every CR has its worker. In any run of the program from its start, reconciles
    of any CRs interleaved with anything the rest of the world does, no worker is leaked
    and none runs twice: the workers started for a key exceed those cancelled by one
    exactly when the manager holds it. After a reconcile that read its CR the CR has a
    worker, paused or not, and a requested reclassification is pending at it; after one
    that found the CR gone it has none; and no reconcile touches another CR's worker. *)
Theorem workers_follow_CRs {W} `{!ApiServer W} `{!PromQuerier W} `{!Forecaster W}
    `{!Clock W} `{GoPlatform} cfg `{!KeyedReads (W := W)} (w : W) s key :
  rtc (managed cfg) (start_reconciler cfg w) s →
  let s' := (Reconcile cfg key s).2 in
  ∃ m r k m', cs_classifier s = Some m ∧ cs_classifier s' = Some m' ∧
    cs_log s' = cs_log s ++ EGetAAS key r :: k ∧
    (∀ k', starts m' k' = stops m' k' + if HasWorker m' k' then 1 else 0)%nat ∧
    (∀ k', k' ≠ key → mg_workers m' !! k' = mg_workers m !! k') ∧
    match r with
    | Ok aas => HasWorker m' key = true ∧
        (annotation aas AnnotationReclassify = "true" →
         wh_reclassifyCh <$> mg_workers m' !! key = Some (Some ()))
    | Err e => HasWorker m' key = if IsNotFound e then false else HasWorker m key
    end.
Proof.
  intros Hr. cbn zeta.
  destruct (reachable_supervised cfg w s Hr) as (Hok & m & Hm & Hw).
  destruct (Reconcile_manager cfg key s m Hok Hm) as (r & k & m' & Hlog & Hm' & Ho & Hres).
  destruct (managed_supervised cfg s _ m (managed_reconcile cfg s key) Hm Hw) as (m1 & E & Hw').
  rewrite Hm' in E. injection E as <-. exists m, r, k, m'. by split_and!.
Qed.

#[export] Instance demo_keyed : KeyedReads (W := Demo).
Proof.
  intros key aas (w & w' & E). simpl in E. case_decide; [|done]. simplify_eq.
  unfold demo_cr. by destruct (dm_paused _).
Qed.

(** A first reconcile of a paused CR starts its worker. *)
Definition paused_start : Demo := mkDemo 2 (1000000 * Second) None 6000 true.

Lemma workers_follow_CRs_witness :
  let s := start_reconciler demo_config paused_start in
  ∃ m', cs_classifier (@Reconcile Demo _ _ _ _ amd64 demo_config demo_key s).2 = Some m' ∧
    HasWorker m' demo_key = true ∧ (starts m' demo_key = stops m' demo_key + 1)%nat.
Proof.
  intros s.
  destruct (@workers_follow_CRs Demo demo_api demo_metrics demo_forecaster demo_clock amd64 demo_config
    demo_keyed paused_start s demo_key ltac:(apply rtc_refl)) as (m & r & k & m' & Hm & Hm' & Hk & Hs & _ & Hr).
  exists m'. split; [exact Hm'|].
  assert (∃ aas, r = Ok aas) as [aas ->].
  { apply (f_equal (λ l, head l)) in Hk. vm_compute in Hk. injection Hk as <-. eauto. }
  destruct Hr as [Hh _]. split; [exact Hh|]. rewrite (Hs demo_key), Hh. reflexivity.
Defined.
