(* ===== verification/System.v ===== *)
(** * The assembled program

    Theorems that span the components: what the program writes into a CR keeps what it
    relies on when it reads it back, data that is there leads to a decision, and what an
    edited spec means for the worker that is already running. *)
From S2P Require Import Prelude Float64 FloatOrder FloatRound Reasoning Config Capacity.
From S2P Require Import Api State Decision Webhook Features Classifier Channels Adapters.
From S2P Require Import Interfaces Worker Manager Metrics Controller ReconcileCases.
From S2P Require Import Scaling Demo Guarantees Wiring.
From Stdlib Require Import SpecFloat.

(** ** The writes of the program *)

(** A worker whose bounds are those of an admitted CR. *)
Definition worker_fits (w : Worker) : Prop :=
  1 <= wk_MinReplicas w <= wk_MaxReplicas w ∧ wk_MaxReplicas w <= max_count.

Lemma new_worker_fits cfg m cr : admitted cfg cr → worker_fits (new_worker m cr).
Proof.
  intros Ha. pose proof (admitted_bounds _ _ Ha) as Hb. pose proof (ad_size _ _ Ha) as Hs.
  unfold worker_fits, new_worker, min_replicas, max_replicas, deref_or in *. simpl.
  destruct (spec_MinReplicas (aas_Spec cr)), (spec_MaxReplicas (aas_Spec cr)); lia.
Qed.

Lemma admissible_usable w cp :
  worker_fits w → cp_bounded (wk_MinReplicas w) (wk_MaxReplicas w) cp → cp_usable cp.
Proof.
  intros [Hb Hs] Hc. pose proof (ca_up _ _ _ Hc). pose proof (ca_down _ _ _ Hc).
  pose proof (ca_step _ _ _ Hc) as Hst. unfold replica_range in Hst.
  unfold max_count in *. rewrite wrap32_id in Hst by int_lia.
  split; [int_lia|int_lia|unfold max_count; lia].
Qed.

(** [admitted] is about the spec and the classified block only. *)
Lemma admitted_rewrite cfg aas aas' :
  admitted cfg aas → aas_Spec aas' = aas_Spec aas →
  (∀ cp, st_ClassifiedParams (aas_Status aas') = Some cp → cp_usable cp) → admitted cfg aas'.
Proof.
  intros [] Hs Hc. split; unfold min_replicas, max_replicas in *; rewrite ?Hs; done.
Qed.

Section closure.
Context {W : Type} `{!ApiServer W} `{!PromQuerier W} `{!Forecaster W} `{!Clock W} `{GoPlatform}.
Context (cfg : Config) `{!ClusterLaws W cfg}.

(** The CRs a worker asks the API server to store. *)
Definition stored_by_worker (k : list WorkerEffect) (aas : AgenticAutoscaler) : Prop :=
  ∃ r, WStatusUpdate aas r ∈ k ∨ WUpdate aas r ∈ k.

Lemma worker_log_admitted w k aas :
  worker_fits w →
  worker_log (W := W) w (cp_computed (wk_MinReplicas w) (wk_MaxReplicas w)) k →
  stored_by_worker k aas → admitted cfg aas.
Proof.
  intros Hw Hk (r & Hin). revert Hin.
  induction Hk as [|r1 k _ IH|end_ r1 k _ IH|aas1 ty rs msg k _ IH
    |end_ samples aas1 cp r1 k Ha [Hcp _] _ IH|aas1 r1 k Ha _ IH]; rewrite ?elem_of_cons; intros Hin.
  - destruct Hin as [Hin|Hin]; by inversion Hin.
  - apply IH. naive_solver.
  - apply IH. naive_solver.
  - apply IH. naive_solver.
  - assert (aas = set_status (set_classified cp (aas_Status aas1)) aas1 ∨
      WStatusUpdate aas r ∈ k ∨ WUpdate aas r ∈ k) as [->|?] by naive_solver; [|by apply IH].
    apply (admitted_rewrite cfg aas1); [by apply (cl_admitted _ _ Ha)|done|].
    simpl. intros cp' [= <-]. by eapply admissible_usable.
  - assert (aas = set_annotations (delete AnnotationReclassify (aas_Annotations aas1)) aas1 ∨
      WStatusUpdate aas r ∈ k ∨ WUpdate aas r ∈ k) as [->|?] by naive_solver; [|by apply IH].
    pose proof (cl_admitted _ _ Ha) as Had.
    apply (admitted_rewrite cfg aas1); [done|done|]. simpl. apply Had.
Qed.
End closure.

(** The program keeps what it relies on. In a cluster that holds admitted CRs
    only, everything the program asks the API server to store is an admitted CR again:
    the statuses of every reconcile, and the classifications and annotation removals of
    every worker that was started for an admitted CR, whatever happened to the spec
    since. So that the cluster's CRs are admitted depends on their authors alone. *)
Theorem writes_keep_admitted {W} `{!ApiServer W} `{!PromQuerier W} `{!Forecaster W}
    `{!Clock W} `{GoPlatform} cfg `{!ClusterLaws W cfg} :
  (∀ key (s : CtlState W) k aas r,
     states_ok (cs_store s) → cs_log (Reconcile cfg key s).2 = cs_log s ++ k →
     EStatus aas r ∈ k → admitted cfg aas) ∧
  (∀ m cr iterations, admitted cfg cr →
     emits ws_log (run_worker (W := W) (new_worker m cr) iterations)
       (λ _ k, ∀ aas, stored_by_worker k aas → admitted cfg aas)).
Proof.
  split.
  - intros key s k aas r Hok Hk Hin.
    destruct (Reconcile_log cfg key s k Hok Hk) as (k' & -> & Hc).
    apply elem_of_cons in Hin as [?|Hin]; [done|].
    pose proof (answers_now (GetAAS key) (cs_world s)) as Ha.
    destruct (GetAAS key (cs_world s)).1 as [aas1|e]; [|rewrite Hc in Hin; by inversion Hin].
    destruct Hc as [_ Hc%reconciled_owned]. rewrite Forall_forall in Hc.
    destruct (Hc _ Hin) as (st & -> & Hst). pose proof (cl_admitted _ _ Ha) as Had.
    apply (admitted_rewrite cfg aas1); [done|done|]. simpl. rewrite Hst. apply Had.
  - intros m cr its Hcr. eapply emits_mono; [apply run_worker_logs, pipelines_admissible|].
    intros o k Hk aas.
    apply (worker_log_admitted cfg (new_worker m cr)); [by eapply new_worker_fits|exact Hk].
Qed.

(** A worker of the demonstration's CR, over a cluster that holds it. *)
Lemma writes_keep_admitted_witness :
  admitted demo_config (demo_cr demo_start) ∧
  ∃ aas, EStatus aas (Ok ()) ∈ cs_log demo_once ∧ admitted demo_config aas.
Proof.
  split; [apply demo_admitted|].
  assert (∃ a, cs_log demo_once !! 11%nat = Some (EStatus a (Ok ()))) as (a & Ha)
    by (eexists; vm_compute; reflexivity).
  exists a. split; [exact (in_log _ 11 _ Ha)|].
  exact (proj1 (@writes_keep_admitted Demo _ _ _ _ amd64 demo_config _) demo_key (demo_state demo_start)
    (cs_log demo_once) a (Ok ()) states_ok_new eq_refl (in_log _ 11 _ Ha)).
Defined.

(** ** Progress *)

(** Claim C9: Data means a decision. If no pre-check stops a reconcile and none of its
    questions goes unanswered (Prometheus with enough samples, the Forecast Service, the
    Deployment), it decides: its transcript is the complete one of a decision on the CR's
    state, and what follows is exactly the decision's consequence, the patch of a count
    that must change, and then, unless this patch fails, the event, the explanation of a
    patch, and the status. *)
Theorem data_means_decision {W} `{!ApiServer W} `{!PromQuerier W} `{!Forecaster W}
    `{!Clock W} `{GoPlatform} cfg key (s : CtlState W) aas k :
  states_ok (cs_store s) →
  cs_log (Reconcile cfg key s).2 = cs_log s ++ EGetAAS key (Ok aas) :: k →
  ¬ pause_cause aas k → Forall (λ e, ¬ shortfall cfg e) k →
  ∃ x, deciding (W := W) cfg key aas (cs_store s) x ∧
    if co_ShouldPatch (sd_Cap (de_decision cfg aas x)) then
      k = transcript cfg key aas x ++ [EScale (de_patch cfg key aas x false)] ∨
      ∃ r, k = transcript cfg key aas x ++ EScale (de_patch cfg key aas x true) :: closing cfg aas x r
    else ∃ r, k = transcript cfg key aas x ++ closing cfg aas x r.
Proof.
  intros Hok Hk Hp Hs. destruct (Reconcile_read cfg key s aas k Hok Hk) as (_ & _ & Hr).
  destruct Hr as [k Hc _|hpas k _ _ Hex|x k σ' Hd Ha]; [done|exfalso|].
  - apply Forall_cons in Hs as [_ Hs]. rewrite Exists_exists in Hex. rewrite Forall_forall in Hs.
    destruct Hex as (e & He & Hf). by apply (Hs e).
  - exists x. split; [done|]. destruct Ha as [r σ' Hsp _|σ' Hsp _|r σ' Hsp _]; rewrite Hsp; eauto.
Qed.

Lemma data_means_decision_witness :
  ∃ x, @deciding Demo _ _ _ demo_config demo_key (demo_cr demo_start) NewStateStore x.
Proof.
  destruct (@data_means_decision Demo demo_api demo_metrics demo_forecaster demo_clock amd64 demo_config
    demo_key (demo_state demo_start) (demo_cr demo_start) (tail demo_log)) as (x & Hd & _).
  - apply states_ok_new.
  - vm_compute. reflexivity.
  - unfold demo_log, tail. intros [H|[H|[(e & H)|(hpas & H & Hex)]]].
    + vm_compute in H. discriminate.
    + vm_compute in H. discriminate.
    + repeat (apply elem_of_cons in H as [H|H]; [discriminate|]). inversion H.
    + apply elem_of_cons in H as [[= ->]|H].
      * inversion Hex as [? ? Hf|? ? Hf]; [vm_compute in Hf; discriminate|inversion Hf].
      * repeat (apply elem_of_cons in H as [H|H]; [discriminate|]). inversion H.
  - unfold demo_log, tail. repeat (constructor; [vm_compute; first [tauto|discriminate]|]). constructor.
  - exists x. exact Hd.
Defined.

(** ** Edits *)

Definition stops_key (key : NamespacedName) (op : ManagerOp) : Prop :=
  match op with MStop k => k = key | _ => False end.

(** A spec that is edited while its worker runs does not reach the worker: until the CR is
    gone, the one worker of its key keeps the Deployment name and the replica bounds of the
    CR that started it, whatever CR later reconciles pass to [Ensure]. *)
Theorem edits_do_not_reach_the_worker cfg cr ops :
  Forall (λ op, ¬ stops_key (aas_key cr) op) ops →
  filter (λ w, wk_Key w = aas_key cr)
    (mg_started (fold_left run_manager_op ops (Ensure (NewManager cfg) cr))) =
  [new_worker (NewManager cfg) cr].
Proof.
  intros Hops. set (key := aas_key cr) in *.
  assert (∀ ops m, Forall (λ op, ¬ stops_key key op) ops → is_Some (mg_workers m !! key) →
    filter (λ w, wk_Key w = key) (mg_started (fold_left run_manager_op ops m)) =
    filter (λ w, wk_Key w = key) (mg_started m)) as Hkeep.
  { clear. induction ops as [|op ops IH]; intros m Hops Hin; [done|].
    apply Forall_cons in Hops as [Hop Hops]. simpl. rewrite IH; [|done|].
    - destruct op as [cr'| | | | |]; simpl;
        unfold Ensure, Stop, SignalReclassify, ObserveDeploymentRevision, take_reclassify,
          take_generation; repeat case_match; simplify_eq/=; try done.
      rewrite filter_app, filter_cons_False, filter_nil, app_nil_r; [done|].
      simpl. intros E. rewrite <- E in Hin. by destruct Hin; congruence.
    - destruct op as [cr'| | | | |]; simpl in *;
        unfold Ensure, Stop, SignalReclassify, ObserveDeploymentRevision, take_reclassify,
          take_generation; repeat case_match; simplify_eq/=; try done;
        try (by apply lookup_insert_is_Some'; right). by rewrite lookup_delete_ne. }
  rewrite Hkeep; [|done|]; unfold Ensure, NewManager; simpl; rewrite lookup_empty; simpl.
  - by rewrite filter_cons_True, filter_nil.
  - unfold key. rewrite lookup_insert_eq. eauto.
Qed.

(** The demonstration's CR, retargeted and widened. *)
Definition edited_cr : AgenticAutoscaler :=
  mkAAS "ns" "app" "1" ∅ None
    (mkSpec (mkRef "apps/v1" "Deployment" "other") (Some 2) (Some 100) (Some 50) (Some 500) None None
       None None) (aas_Status sample_cr).

Lemma edits_do_not_reach_the_worker_witness :
  let m := fold_left run_manager_op [MEnsure edited_cr]
             (Ensure (NewManager (classifier_config demo_config)) sample_cr) in
  wk_DeploymentName <$> mg_started m = ["app"] ∧ ValidateSpec (aas_Spec edited_cr) = [].
Proof.
  intros m. split; [|vm_compute; reflexivity].
  pose proof (edits_do_not_reach_the_worker (classifier_config demo_config) sample_cr [MEnsure edited_cr]
    ltac:(constructor; [by intros []|constructor])) as H.
  assert (mg_started m = filter (λ w, wk_Key w = aas_key sample_cr) (mg_started m)) as -> by reflexivity.
  unfold m. rewrite H. reflexivity.
Defined.
