(* ===== verification/Server.v ===== *)
(** * An API server with many clients

    The reconciler and the classifier's workers write the same CRs, at the same time as
    their authors edit them.  This file merges the transcripts of any number of reconciles
    and workers, finished or not, into one history of an API server that accepts a write
    only on top of the version that the writer has read.  The server is an interface with
    its documented laws; a log of revisions, executable, is one that satisfies them. *)
From S2P Require Import Prelude Float64 Reasoning Config Api State Decision Webhook.
From S2P Require Import Classifier Adapters Interfaces Worker Manager Metrics Controller.
From S2P Require Import ReconcileCases Scaling Demo Guarantees.

(** ** Activities and their events *)
Inductive SysEvent :=
| EvReconcile (e : Effect)
| EvWorker (e : WorkerEffect)
| EvCreate (aas : AgenticAutoscaler)
| EvEdit (aas : AgenticAutoscaler).

Inductive Activity :=
| Reconciling (cfg : Config) (key : NamespacedName)
| Working (w : Worker)
| Authoring.

(** A transcript the code can produce, in some world. *)
Definition reconcile_transcript (cfg : Config) (key : NamespacedName) (t : list Effect) : Prop :=
  ∃ (W : Type) (_ : ApiServer W) (_ : PromQuerier W) (_ : Forecaster W) (_ : Clock W) (_ : GoPlatform)
    (s : CtlState W), states_ok (cs_store s) ∧ cs_log (Reconcile cfg key s).2 = cs_log s ++ t.
Definition worker_transcript (w : Worker) (t : list WorkerEffect) : Prop :=
  ∃ (W : Type) (_ : ApiServer W) (_ : PromQuerier W) (_ : Clock W) (_ : GoPlatform)
    (s : WorkerState W) (iterations : list (list Trigger)),
    ws_log (run_worker w iterations s).2 = ws_log s ++ t.

(** What an activity has done so far: a prefix of a transcript. *)
Definition possible (a : Activity) (evs : list SysEvent) : Prop :=
  match a with
  | Reconciling cfg key => ∃ t t', evs = EvReconcile <$> t ∧ reconcile_transcript cfg key (t ++ t')
  | Working w => ∃ t t', evs = EvWorker <$> t ∧ worker_transcript w (t ++ t')
  | Authoring => Forall (λ ev, match ev with EvCreate _ | EvEdit _ => True | _ => False end) evs
  end.

(** The events of activity [i] in a merged history. *)
Definition events_of (i : nat) (l : list (nat * SysEvent)) : list SysEvent :=
  snd <$> filter (λ p, p.1 = i) l.

Lemma events_of_app i l1 l2 : events_of i (l1 ++ l2) = events_of i l1 ++ events_of i l2.
Proof. unfold events_of. by rewrite filter_app, fmap_app. Qed.

Lemma events_of_elem i l ev : ev ∈ events_of i l ↔ (i, ev) ∈ l.
Proof.
  unfold events_of. rewrite list_elem_of_fmap. split.
  - intros ([j ev'] & -> & Hin). by apply list_elem_of_filter in Hin as [<- Hin].
  - intros Hin. exists (i, ev). split; [done|]. by apply list_elem_of_filter.
Qed.

(** ** The API server *)

Definition set_version (rv : string) (aas : AgenticAutoscaler) : AgenticAutoscaler :=
  mkAAS (aas_Namespace aas) (aas_Name aas) rv (aas_Annotations aas) (aas_DeletionTimestamp aas)
    (aas_Spec aas) (aas_Status aas).

(** Times are stored as RFC 3339 text, to the second. *)
Definition stored_classified (cp : ApiClassifiedParams) : ApiClassifiedParams :=
  {| cp_Pattern := cp_Pattern cp;
     cp_ScaleUpCooldownSeconds := cp_ScaleUpCooldownSeconds cp;
     cp_ScaleDownCooldownSeconds := cp_ScaleDownCooldownSeconds cp;
     cp_MaxStepSize := cp_MaxStepSize cp;
     cp_PreferredForecaster := cp_PreferredForecaster cp;
     cp_ClassifiedAt := stored_time (cp_ClassifiedAt cp);
     cp_HistoryPoints := cp_HistoryPoints cp;
     cp_Confidence := cp_Confidence cp;
     cp_Context := cp_Context cp |}.
Definition stored_status (st : AgenticAutoscalerStatus) : AgenticAutoscalerStatus :=
  mkStatus (st_Phase st) (st_ConflictReason st) (st_CurrentReplicas st) (st_RecommendedReplicas st)
    (st_UnboundedRecommended st) (st_PredictedRPS st) (st_RpsPerPodCurrent st)
    (stored_time <$> st_LastScaleTime st) (stored_classified <$> st_ClassifiedParams st).

Definition empty_status : AgenticAutoscalerStatus := mkStatus EmptyString EmptyString 0 0 0 0 0 None None.

(** The object a read answered; the object of a write, and whether it succeeded. *)
Definition read_of (ev : SysEvent) : option (NamespacedName * AgenticAutoscaler) :=
  match ev with
  | EvReconcile (EGetAAS key (Ok aas)) | EvWorker (WGet key (Ok aas)) => Some (key, aas)
  | _ => None
  end.
Definition status_write (ev : SysEvent) : option (AgenticAutoscaler * bool) :=
  match ev with
  | EvReconcile (EStatus aas r) | EvWorker (WStatusUpdate aas r) => Some (aas, succeeded r)
  | _ => None
  end.
Definition object_write (ev : SysEvent) : option (AgenticAutoscaler * bool) :=
  match ev with EvWorker (WUpdate aas r) => Some (aas, succeeded r) | _ => None end.
Definition authored (ev : SysEvent) : bool :=
  match ev with EvCreate _ | EvEdit _ => true | _ => false end.

(** A server by what it has accepted: the versions of each object, oldest first. *)
Class VersionedServer (S : Type) := {
  versions : S → NamespacedName → list AgenticAutoscaler;
  serves : S → SysEvent → S → Prop;
}.

Section server.
Context {S : Type} `{!VersionedServer S}.

Definition untouched (s s' : S) : Prop := ∀ key, versions s' key = versions s key.
Definition commits (s s' : S) (key : NamespacedName) (new : AgenticAutoscaler) : Prop :=
  versions s' key = versions s key ++ [new] ∧ ∀ k, k ≠ key → versions s' k = versions s k.

(** A write is accepted only with the version of the newest object, to which it is applied;
    one that changes nothing makes no new version. *)
Definition accepts (s s' : S) (aas : AgenticAutoscaler) (apply : AgenticAutoscaler → AgenticAutoscaler) : Prop :=
  ∃ cur, last (versions s (aas_key aas)) = Some cur ∧ aas_ResourceVersion cur = aas_ResourceVersion aas ∧
    (untouched s s' ∧ apply cur = cur ∨ ∃ rv, commits s s' (aas_key aas) (set_version rv (apply cur))).

(** The documented behaviour of the API server for a kind with the status subresource: the
    status is written through it alone, reads may lag behind, versions are unique, and a
    write that reports an error may have been accepted all the same. *)
Class ServerLaws : Prop := {
  sl_key s key aas : aas ∈ versions s key → aas_key aas = key;
  sl_distinct s key : NoDup (aas_ResourceVersion <$> versions s key);
  sl_stored s key aas : aas ∈ versions s key → stored_status (aas_Status aas) = aas_Status aas;
  sl_read s ev s' key aas : serves s ev s' → read_of ev = Some (key, aas) → aas ∈ versions s key;
  sl_status s ev s' aas ok : serves s ev s' → status_write ev = Some (aas, ok) →
    accepts s s' aas (set_status (stored_status (aas_Status aas))) ∨ untouched s s' ∧ ok = false;
  sl_update s ev s' aas ok : serves s ev s' → object_write ev = Some (aas, ok) →
    accepts s s' aas (λ cur, set_status (aas_Status cur) aas) ∨ untouched s s' ∧ ok = false;
  sl_create s aas s' : serves s (EvCreate aas) s' →
    untouched s s' ∨ ∃ rv, commits s s' (aas_key aas) (set_version rv aas) ∧ aas_Status aas = empty_status;
  sl_edit s aas s' : serves s (EvEdit aas) s' →
    untouched s s' ∨ ∃ cur rv, last (versions s (aas_key aas)) = Some cur ∧
      commits s s' (aas_key aas) (set_version rv aas) ∧ aas_Status aas = aas_Status cur;
  sl_other s ev s' : serves s ev s' → status_write ev = None → object_write ev = None →
    authored ev = false → untouched s s';
}.

(** ** Histories *)

Inductive served : S → list (nat * SysEvent) → S → Prop :=
| served_nil s : served s [] s
| served_snoc s l s' i ev s'' : served s l s' → serves s' ev s'' → served s (l ++ [(i, ev)]) s''.

Definition history (act : nat → Activity) (s0 : S) (l : list (nat * SysEvent)) (s : S) : Prop :=
  served s0 l s ∧ ∀ i, possible (act i) (events_of i l).

Lemma served_snoc_inv s0 l i ev s : served s0 (l ++ [(i, ev)]) s → ∃ s', served s0 l s' ∧ serves s' ev s.
Proof.
  remember (l ++ [(i, ev)]) as l0 eqn:E. destruct 1 as [|s0 l' s' j ev' s'' Hs Hev]; [by destruct l|].
  apply app_inj_tail in E as [-> [= -> ->]]. by exists s'.
Qed.
Lemma served_nil_inv s0 s : served s0 [] s → s = s0.
Proof. remember [] as l eqn:E. destruct 1 as [|s0 l' ? ? ?]; [done|by destruct l']. Qed.

Lemma served_app s l1 l2 s2 : served s (l1 ++ l2) s2 ↔ ∃ s1, served s l1 s1 ∧ served s1 l2 s2.
Proof.
  split.
  - revert s2. induction l2 as [|[i ev] l2 IH] using rev_ind; intros s2 Hs.
    + rewrite app_nil_r in Hs. exists s2. split; [done|constructor].
    + rewrite app_assoc in Hs. apply served_snoc_inv in Hs as (s' & Hs & Hev).
      destruct (IH _ Hs) as (s1 & H1 & H2). exists s1. split; [done|]. by econstructor.
  - intros (s1 & H1 & H2). induction H2 as [|s1 l s' i ev s'' _ IH Hev]; [by rewrite app_nil_r|].
    rewrite app_assoc. econstructor; [by apply IH|done].
Qed.

Lemma possible_prefix a evs evs' : possible a (evs ++ evs') → possible a evs.
Proof.
  destruct a as [cfg key|w|]; simpl.
  - intros (t & t' & E & Ht). symmetry in E. apply fmap_app_inv in E as (t1 & t2 & -> & _ & ->).
    exists t1, (t2 ++ t'). by rewrite app_assoc.
  - intros (t & t' & E & Ht). symmetry in E. apply fmap_app_inv in E as (t1 & t2 & -> & _ & ->).
    exists t1, (t2 ++ t'). by rewrite app_assoc.
  - by intros [? _]%Forall_app.
Qed.

Lemma history_snoc act s0 l i ev s :
  history act s0 (l ++ [(i, ev)]) s → ∃ s', history act s0 l s' ∧ serves s' ev s.
Proof.
  intros [Hs Hp]. apply served_snoc_inv in Hs as (s' & Hs & Hev). exists s'. split; [|done]. split; [done|].
  intros k. eapply possible_prefix. rewrite <- events_of_app. apply Hp.
Qed.

Lemma history_ind act s0 (P : list (nat * SysEvent) → S → Prop) :
  P [] s0 →
  (∀ l s i ev s', history act s0 l s → history act s0 (l ++ [(i, ev)]) s' → serves s ev s' → P l s →
     P (l ++ [(i, ev)]) s') →
  ∀ l s, history act s0 l s → P l s.
Proof.
  intros H0 Hstep l. induction l as [|[i ev] l IH] using rev_ind; intros s Hh.
  - by destruct Hh as [->%served_nil_inv _].
  - destruct (history_snoc _ _ _ _ _ _ Hh) as (s' & Hh' & Hev). eapply Hstep; eauto.
Qed.
End server.
Arguments ServerLaws S {_}.

(** ** A log of revisions

    One log for all objects, as etcd keeps it: a version's number is its place in the log,
    and what is stored is the object with its times cut to the second. *)
Definition stored (i : nat) (aas : AgenticAutoscaler) : AgenticAutoscaler :=
  set_version (pretty i) (set_status (stored_status (aas_Status aas)) aas).
Definition log_versions (s : list AgenticAutoscaler) (key : NamespacedName) : list AgenticAutoscaler :=
  filter (λ aas, aas_key aas = key) (imap stored s).

(** A write on top of the version it names, or nothing. *)
Definition log_write (s : list AgenticAutoscaler) (aas : AgenticAutoscaler)
    (apply : AgenticAutoscaler → AgenticAutoscaler) : option (list AgenticAutoscaler) :=
  cur ← last (log_versions s (aas_key aas));
  if decide (aas_ResourceVersion cur = aas_ResourceVersion aas) then Some (s ++ [apply cur]) else None.

(** A write is refused exactly when the version is not the newest. *)
Definition settle (s : list AgenticAutoscaler) (ok : bool) (s' : option (list AgenticAutoscaler)) :
    option (list AgenticAutoscaler) :=
  match s', ok with Some s', true => Some s' | None, false => Some s | _, _ => None end.

#[export] Instance context_eq_dec : EqDecision ContextFields.
Proof. solve_decision. Defined.
#[export] Instance classified_eq_dec : EqDecision ApiClassifiedParams.
Proof. solve_decision. Defined.
#[export] Instance status_eq_dec : EqDecision AgenticAutoscalerStatus.
Proof. solve_decision. Defined.
#[export] Instance spec_eq_dec : EqDecision AgenticAutoscalerSpec.
Proof. assert (EqDecision CrossVersionObjectReference) by solve_decision. solve_decision. Defined.
#[export] Instance aas_eq_dec : EqDecision AgenticAutoscaler.
Proof. solve_decision. Defined.

(** The log after an event, or nothing when the event cannot happen now. *)
Definition log_next (s : list AgenticAutoscaler) (ev : SysEvent) : option (list AgenticAutoscaler) :=
  match ev with
  | EvReconcile (EGetAAS key (Ok aas)) | EvWorker (WGet key (Ok aas)) =>
      if decide (aas ∈ log_versions s key) then Some s else None
  | EvReconcile (EStatus aas r) | EvWorker (WStatusUpdate aas r) =>
      settle s (succeeded r) (log_write s aas (set_status (aas_Status aas)))
  | EvWorker (WUpdate aas r) =>
      settle s (succeeded r) (log_write s aas (λ cur, set_status (aas_Status cur) aas))
  | EvCreate aas =>
      if decide (log_versions s (aas_key aas) = [] ∧ aas_Status aas = empty_status)
      then Some (s ++ [aas]) else None
  | EvEdit aas =>
      if decide (aas_Status <$> last (log_versions s (aas_key aas)) = Some (aas_Status aas))
      then log_write s aas (λ _, aas) else None
  | _ => Some s
  end.

#[export] Instance log_server : VersionedServer (list AgenticAutoscaler) :=
  {| versions := log_versions; serves s ev s' := log_next s ev = Some s' |}.

(** The log after a history. *)
Definition log_run (s : list AgenticAutoscaler) (l : list (nat * SysEvent)) :
    option (list AgenticAutoscaler) :=
  foldl (λ s p, s ← s; log_next s p.2) (Some s) l.

Lemma log_run_served s l s' : log_run s l = Some s' → served s l s'.
Proof.
  revert s'. induction l as [|[i ev] l IH] using rev_ind; intros s' Hs.
  - injection Hs as ->. constructor.
  - unfold log_run in Hs. rewrite foldl_snoc in Hs. apply bind_Some in Hs as (s1 & Hs1 & Hs).
    econstructor; [by apply IH|exact Hs].
Qed.

Lemma settle_Some s ok o s' :
  settle s ok o = Some s' → o = (if ok then Some s' else None) ∧ (ok = false → s' = s).
Proof. unfold settle. destruct o, ok; naive_solver. Qed.

Lemma stored_time_idem t : stored_time (stored_time t) = stored_time t.
Proof. unfold stored_time. by rewrite Z.div_mul. Qed.

Lemma stored_status_idem st : stored_status (stored_status st) = stored_status st.
Proof.
  unfold stored_status. simpl. f_equal.
  - destruct (st_LastScaleTime st); simpl; [by rewrite stored_time_idem|done].
  - destruct (st_ClassifiedParams st) as [cp|]; simpl; [|done].
    unfold stored_classified. simpl. by rewrite stored_time_idem.
Qed.

Lemma set_status_id aas : set_status (aas_Status aas) aas = aas.
Proof. by destruct aas. Qed.

Lemma log_versions_stored s key aas :
  aas ∈ log_versions s key → aas_key aas = key ∧ ∃ i x, s !! i = Some x ∧ aas = stored i x.
Proof.
  intros [Hk Hin]%list_elem_of_filter. split; [done|].
  apply list_elem_of_lookup in Hin as [i Hi]. rewrite list_lookup_imap in Hi.
  apply fmap_Some in Hi as (x & Hx & ->). by exists i, x.
Qed.

Lemma log_versions_snoc s x key :
  log_versions (s ++ [x]) key =
    log_versions s key ++ (if decide (aas_key x = key) then [stored (length s) x] else []).
Proof.
  unfold log_versions. rewrite imap_app, filter_app. f_equal. simpl. rewrite Nat.add_0_r.
  case_decide as Hk; [by rewrite filter_cons_True by done|by rewrite filter_cons_False by done].
Qed.

Lemma log_commits s x key :
  aas_key x = key → commits s (s ++ [x]) key (stored (length s) x).
Proof.
  intros <-. split; [|intros k Hk]; simpl; rewrite log_versions_snoc.
  - by rewrite decide_True.
  - rewrite decide_False by done. apply app_nil_r.
Qed.

Lemma log_write_Some s s' aas f :
  log_write s aas f = Some s' → ∃ cur, last (log_versions s (aas_key aas)) = Some cur ∧
    aas_ResourceVersion cur = aas_ResourceVersion aas ∧ s' = s ++ [f cur].
Proof.
  unfold log_write. destruct (last _) as [cur|] eqn:E; simpl; [|done].
  case_decide; [|done]. intros [= <-]. by exists cur.
Qed.

Lemma log_last s key cur :
  last (log_versions s key) = Some cur → aas_key cur = key ∧ stored_status (aas_Status cur) = aas_Status cur.
Proof.
  intros Hl. rewrite last_lookup in Hl. apply list_elem_of_lookup_2, log_versions_stored in Hl.
  destruct Hl as (Hk & i & x & _ & ->). split; [done|]. simpl. apply stored_status_idem.
Qed.

(** An accepted write of the log is one of the interface. *)
Lemma log_accepts s s' aas f g :
  log_write s aas f = Some s' →
  (∀ cur, aas_key cur = aas_key aas → stored_status (aas_Status cur) = aas_Status cur →
     aas_key (f cur) = aas_key aas ∧ set_status (stored_status (aas_Status (f cur))) (f cur) = g cur) →
  accepts s s' aas g.
Proof.
  intros (cur & Hl & Hrv & ->)%log_write_Some Hg. exists cur. split_and!; [done|done|]. right.
  destruct (log_last _ _ _ Hl) as [Hk Hst]. destruct (Hg cur Hk Hst) as [Hkf <-].
  exists (pretty (length s)). by apply log_commits.
Qed.

#[export] Instance log_laws : ServerLaws (list AgenticAutoscaler).
Proof.
  split.
  - intros s key aas Hin. by apply log_versions_stored in Hin as [Hk _].
  - intros s key. simpl. unfold log_versions.
    assert (NoDup (aas_ResourceVersion <$> imap stored s)) as Hnd.
    { assert (aas_ResourceVersion <$> imap stored s = pretty <$> seq 0 (length s)) as ->.
      { apply list_eq. intros i. rewrite !list_lookup_fmap, list_lookup_imap.
        destruct (s !! i) as [x|] eqn:E; simpl.
        - rewrite lookup_seq_lt by (by eapply lookup_lt_Some). done.
        - rewrite lookup_seq_ge by (by apply lookup_ge_None). done. }
      apply NoDup_fmap_2; [apply _|apply NoDup_seq]. }
    eapply sublist_NoDup; [exact Hnd|]. apply fmap_sublist, sublist_filter.
  - intros s key aas Hin. apply log_versions_stored in Hin as (_ & i & x & _ & ->).
    simpl. apply stored_status_idem.
  - intros s ev s' key aas Hs Hr. simpl in Hs. destruct ev as [[]|[]|?|?]; simpl in Hr; try done;
      (case_match; [|done]); simplify_eq; simpl in Hs; by case_decide.
  - intros s ev s' aas ok Hs Hw.
    assert (log_write s aas (set_status (aas_Status aas)) = (if ok then Some s' else None) ∧ (ok = false → s' = s))
      as [Hl Hn] by (destruct ev as [[]|[]|?|?]; simpl in Hw; simplify_eq; by apply settle_Some).
    destruct ok; [left|right; by rewrite Hn].
    by eapply log_accepts.
  - intros s ev s' aas ok Hs Hw.
    assert (log_write s aas (λ cur, set_status (aas_Status cur) aas) = (if ok then Some s' else None) ∧
      (ok = false → s' = s)) as [Hl Hn]
      by (destruct ev as [[]|[]|?|?]; simpl in Hw; simplify_eq; by apply settle_Some).
    destruct ok; [left|right; by rewrite Hn].
    eapply log_accepts; [exact Hl|]. intros cur Hk Hst. split; [done|]. simpl. by rewrite Hst.
  - intros s aas s' Hs. simpl in Hs. case_decide as Hd; [|done]. destruct Hd as [_ Hst]. simplify_eq.
    right. exists (pretty (length s)). split; [|done].
    pose proof (log_commits s aas _ eq_refl) as Hc. unfold stored in Hc.
    by rewrite Hst in Hc; replace (stored_status empty_status) with (aas_Status aas) in Hc;
      rewrite set_status_id in Hc.
  - intros s aas s' Hs. simpl in Hs. case_decide as Hst; [|done].
    right. apply log_write_Some in Hs as (cur & Hcur & _ & ->).
    rewrite Hcur in Hst. injection Hst as Hst. exists cur, (pretty (length s)). split_and!; [done| |done].
    pose proof (log_commits s aas _ eq_refl) as Hc. unfold stored in Hc.
    destruct (log_last _ _ _ Hcur) as [_ Hs]. by rewrite <- Hst, Hs, Hst, set_status_id in Hc.
  - intros s ev s' Hs H1 H2 H3 key. simpl in *. assert (s' = s) as ->; [|done].
    destruct ev as [[]|[]|?|?]; simpl in *; try case_match; try case_decide; by simplify_eq.
Qed.
