(* ===== verification/Replay.v ===== *)
(** * Transcripts as programs

    A transcript tells all that an activity did outside: the world after a reconcile, or
    after a worker's run, is the one that the calls of its transcript make of the world
    before, each with the answer that the transcript records.  What a world promises of
    single calls then holds of whole reconciles; against a coherent API server, whole
    programs of reconciles, workers and authors make the histories of Server.v. *)
From S2P Require Import Prelude Float64 Reasoning Config Api State Decision Webhook.
From S2P Require Import Classifier Adapters Interfaces Worker Manager Metrics Controller.
From S2P Require Import ReconcileCases Scaling Demo Guarantees System Server.

(** ** Paths *)
Section paths.
Context {W E : Type} (perf : E → W → W → Prop).

(** The world goes from one state to another by the events of a list, in order. *)
Inductive path : W → list E → W → Prop :=
| path_nil w : path w [] w
| path_cons w e w1 k w2 : perf e w w1 → path w1 k w2 → path w (e :: k) w2.

Lemma path_app w k1 k2 w2 : path w (k1 ++ k2) w2 ↔ ∃ w1, path w k1 w1 ∧ path w1 k2 w2.
Proof.
  split.
  - revert w. induction k1 as [|e k1 IH]; intros w Hp; [by exists w; split; [constructor|]|].
    inversion Hp as [|? ? w1 ? ? He Hk]; subst. destruct (IH _ Hk) as (w' & H1 & H2).
    exists w'. split; [by econstructor|done].
  - intros (w1 & H1 & H2). induction H1; [done|]. econstructor; [done|auto].
Qed.

Lemma path_nil_inv w w' : path w [] w' → w' = w.
Proof. by inversion 1. Qed.
Lemma path_cons_inv w e k w2 : path w (e :: k) w2 → ∃ w1, perf e w w1 ∧ path w1 k w2.
Proof. inversion 1; eauto. Qed.
Lemma path_singleton w e w' : path w [e] w' ↔ perf e w w'.
Proof.
  split.
  - intros (w1 & He & ->%path_nil_inv)%path_cons_inv. exact He.
  - intros He. econstructor; [exact He|constructor].
Qed.

Lemma path_elem w k w' e :
  path w k w' → e ∈ k → ∃ k1 k2 w1 w2, k = k1 ++ e :: k2 ∧ path w k1 w1 ∧ perf e w1 w2 ∧ path w2 k2 w'.
Proof.
  intros Hp (k1 & k2 & ->)%list_elem_of_split. apply path_app in Hp as (w1 & H1 & Hp).
  apply path_cons_inv in Hp as (w2 & He & H2). by exists k1, k2, w1, w2.
Qed.

(** A relation that every event keeps holds along a path. *)
Lemma path_invariant (R : W → W → Prop) `{!PreOrder R} (P : E → Prop) w k w' :
  (∀ e w w', P e → perf e w w' → R w w') → Forall P k → path w k w' → R w w'.
Proof.
  intros HR Hk Hp. induction Hp as [w|w e w1 k w2 He _ IH]; [reflexivity|].
  apply Forall_cons in Hk as [HP Hk]. transitivity w1; [by eapply HR|auto].
Qed.
End paths.
Arguments path {W E} perf.

(** ** A logic for computations whose log says what they did to the world *)
Section replays.
Context {S W E : Type} (world : S → W) (log : S → list E) (perf : E → W → W → Prop).

Definition replays {A} (m : ST S A) : Prop :=
  ∀ s, ∃ k, log (m s).2 = log s ++ k ∧ path perf (world s) k (world (m s).2).

Lemma replays_silent {A} (m : ST S A) :
  (∀ s, log (m s).2 = log s ∧ world (m s).2 = world s) → replays m.
Proof. intros Hm s. destruct (Hm s) as [-> ->]. exists []. rewrite app_nil_r. by split; [|constructor]. Qed.

Lemma replays_ret {A} (a : A) : replays (mret a).
Proof. by apply replays_silent. Qed.

Lemma replays_bind {A B} (m : ST S A) (f : A → ST S B) :
  replays m → (∀ a, replays (f a)) → replays (m ≫= f).
Proof.
  intros Hm Hf s. unfold mbind, st_bind. destruct (Hm s) as (k1 & E1 & P1). destruct (m s) as [a s1].
  destruct (Hf a s1) as (k2 & E2 & P2). exists (k1 ++ k2). simpl in *. rewrite E2, E1, app_assoc.
  split; [done|]. apply path_app. eauto.
Qed.
End replays.

(** The next step of a computation; [tac] solves single steps. *)
Ltac replay_with tac :=
  repeat first
    [ apply replays_ret | solve [tac]
    | apply replays_bind; [solve [tac | apply replays_ret]|intros ?]
    | case_match ].

(** ** The reconciler *)
Section reconciler.
Context {W : Type} `{!ApiServer W} `{!PromQuerier W} `{!Forecaster W} `{!Clock W} `{GoPlatform}.

(** What an entry of the transcript says was done. *)
Definition performs (e : Effect) (w w' : W) : Prop :=
  match e with
  | EGetAAS key r => GetAAS key w = (r, w')
  | EListHPA namespace r => ListHPA namespace w = (r, w')
  | EInstantQuery query r => pq_InstantQuery query w = (r, w')
  | ERangeQuery query start end_ step r => pq_RangeQuery query start end_ step w = (r, w')
  | ERecommend req r => fc_Recommend req w = (r, w')
  | EGetDeployment key r => GetDeployment key w = (r, w')
  | ENow t => clock_now w = (t, w')
  | EScale p => ∃ r, UpdateScale (pa_deployment p) (pa_target p) w = (r, w') ∧ pa_ok p = succeeded r
  | EStatus aas r => UpdateAASStatus aas w = (r, w')
  | EEvent _ _ _ _ | ENotify _ => w' = w
  end.

Abbreviation rep := (replays (@cs_world W) (@cs_log W) performs) (only parsing).

Lemma replays_ask {A} (m : ST W A) (e : A → Effect) :
  (∀ w a w', m w = (a, w') → performs (e a) w w') → rep (ask m e).
Proof.
  intros He s. unfold ask, call, log_effect, st_modify, mret, st_ret, mbind, st_bind.
  destruct (m (cs_world s)) as [a w'] eqn:Em. exists [e a]. split; [done|]. apply path_singleton. by apply He.
Qed.

Lemma replays_log e : (∀ w, performs e w w) → rep (log_effect e).
Proof. intros He s. exists [e]. split; [done|]. apply path_singleton, He. Qed.

Ltac replay_step :=
  first [ by apply replays_ask; intros | by apply replays_ask; intros ? [[]|?] ?; eexists
        | by apply replays_log
        | apply replays_silent; intros s; unfold with_store; by repeat case_match ].
Ltac replay := replay_with replay_step.

Lemma finish_replays cfg aas ep d r c resp now : rep (finish cfg aas ep d r c resp now).
Proof. unfold finish, event, update_status, requeue. replay. Qed.

Lemma decide_and_act_replays cfg key p st aas ep r resp d : rep (decide_and_act cfg key p st aas ep r resp d).
Proof.
  unfold decide_and_act, rnow, patch_scale, update_scale, requeue.
  apply replays_bind; [replay_step|intros now]. case_match; [|apply replays_ret].
  apply replays_bind; [replay_step|intros _]. case_match; [|apply finish_replays].
  apply replays_bind; [replay_step|intros [[]|e]; [|apply replays_ret]].
  apply replays_bind; [replay_step|intros _; apply finish_replays].
Qed.

Lemma with_forecast_replays cfg key aas ep r resp : rep (with_forecast cfg key aas ep r resp).
Proof.
  unfold with_forecast, requeue. apply replays_bind; [replay_step|intros [d|e]; [|apply replays_ret]].
  apply replays_bind; [replay_step|intros _]. apply replays_bind.
  - apply replays_silent. intros s. unfold load_state, with_store. by repeat case_match.
  - intros [[p st]|]; [apply decide_and_act_replays|apply replays_ret].
Qed.

Lemma hot_path_replays cfg key aas : rep (hot_path cfg key aas).
Proof.
  assert (∀ msg, rep (metrics_unavailable cfg aas msg)) as Hm
    by (intros; unfold metrics_unavailable, event, requeue; replay).
  unfold hot_path. apply replays_bind; [replay_step|intros [rps|e]; [|apply Hm]].
  apply replays_bind; [unfold rnow; replay_step|intros t].
  apply replays_bind; [replay_step|intros [l|e]; [|apply Hm]]. case_decide; [apply Hm|].
  unfold call_forecast. apply replays_bind; [unfold buildForecastContext, rnow; replay|intros ctx].
  apply replays_bind; [replay_step|intros [resp|e]; [apply with_forecast_replays|]].
  unfold event, requeue. replay.
Qed.

(** The world after a reconcile is what its transcript makes of the world before. *)
Lemma Reconcile_replays cfg key : rep (Reconcile cfg key).
Proof.
  unfold Reconcile. apply replays_bind; [replay_step|intros [aas|e]].
  - unfold ensure_worker. apply replays_bind; [replay_step|intros _]. unfold pre_checks.
    case_decide; [unfold handleKillSwitch, event, update_status, requeue; replay|].
    case_match; [apply replays_ret|]. apply replays_bind.
    + unfold findConflictingHPA. replay.
    + intros [[h|]|e]; [|apply hot_path_replays|apply replays_ret].
      unfold handleConflict, event, update_status, requeue. replay.
  - replay.
Qed.
End reconciler.

(** The controller after something else changed the world. *)
Definition with_world {W} (s : CtlState W) (w : W) : CtlState W :=
  mkCtl w (cs_store s) (cs_classifier s) (cs_metrics s) (cs_explain s) (cs_log s).

(** ** Coherent clusters *)

(** What an entry of a worker's transcript says was done; the readings of its clock are not
    in the transcript. *)
Definition wperforms {W} `{!ApiServer W} `{!PromQuerier W} (e : WorkerEffect) (w w' : W) : Prop :=
  match e with
  | WGet key r => GetAAS key w = (r, w')
  | WQuery query start end_ step r => pq_RangeQuery query start end_ step w = (r, w')
  | WStatusUpdate aas r => UpdateAASStatus aas w = (r, w')
  | WUpdate aas r => UpdateAAS aas w = (r, w')
  | WEvent _ _ _ _ => w' = w
  end.

(** The CRs of a world are kept by an API server that serves the calls of both clients. *)
Class Coherent {W S : Type} `{!ApiServer W} `{!PromQuerier W} `{!Forecaster W} `{!Clock W}
    `{!VersionedServer S} (crs : W → S) := {
  co_reconcile e w w' : performs e w w' → serves (crs w) (EvReconcile e) (crs w');
  co_worker e w w' : wperforms e w w' → serves (crs w) (EvWorker e) (crs w');
  co_clock w : crs (clock_now w).2 = crs w;
}.

Section coherent.
Context {W S : Type} `{!ApiServer W} `{!PromQuerier W} `{!Forecaster W} `{!Clock W} `{GoPlatform}.
Context `{!VersionedServer S} (crs : W → S) `{!Coherent crs}.

Definition serves_worker (e : WorkerEffect) (s s' : S) : Prop := serves s (EvWorker e) s'.
Abbreviation wrep := (replays (λ s, crs (ws_world s)) (@ws_log W) serves_worker) (only parsing).

Lemma replays_wask {A} (m : ST W A) (e : A → WorkerEffect) :
  (∀ w a w', m w = (a, w') → wperforms (e a) w w') → wrep (wask m e).
Proof.
  intros He s. unfold wask, wcall, wlog, st_modify, mret, st_ret, mbind, st_bind.
  destruct (m (ws_world s)) as [a w'] eqn:Em. exists [e a]. split; [done|]. apply path_singleton.
  by apply co_worker, He.
Qed.

Lemma replays_wlog aas type reason msg : wrep (wlog (WEvent aas type reason msg)).
Proof. intros s. eexists. split; [done|]. apply path_singleton. by apply co_worker. Qed.

Lemma replays_WNow : wrep WNow.
Proof.
  apply replays_silent. intros s. unfold WNow, wcall. pose proof (co_clock (ws_world s)) as Hc.
  destruct (clock_now (ws_world s)). by split.
Qed.

Ltac wstep :=
  first [ by apply replays_wask; intros | apply replays_WNow | apply replays_wlog
        | by apply replays_silent ].
Ltac wreplay := replay_with wstep.

Lemma runClassification_replays w : wrep (runClassification w).
Proof.
  assert (∀ reason msg, wrep (emitEvent w reason msg)) as Hev
    by (intros; unfold emitEvent, get_cr; wreplay).
  assert (∀ mk, wrep (patch_classified w mk)) as Hp by (intros; unfold patch_classified, get_cr; wreplay).
  assert (∀ m r, wrep m → wrep (finish_classification w m r)) as Hf.
  { intros m r Hm. unfold finish_classification. apply replays_bind; [done|intros [[]|e]; [|apply replays_ret]].
    apply replays_bind; [wstep|intros now]. apply replays_bind; [wstep|intros _].
    apply replays_bind; [apply Hev|intros _; apply replays_ret]. }
  unfold runClassification. apply replays_bind; [wstep|intros end_].
  apply replays_bind; [wstep|intros [samples|e]; [|apply replays_ret]].
  unfold classify_series. case_decide; case_match; try (by apply Hf, Hp).
  all: apply replays_bind; [apply Hev|intros _; apply replays_ret].
Qed.

Lemma run_worker_replays w iterations : wrep (run_worker w iterations).
Proof.
  assert (∀ t, wrep (handle_trigger w t)) as Ht.
  { intros []; simpl.
    - apply replays_bind; [apply runClassification_replays|intros _; apply replays_ret].
    - apply replays_bind; [apply runClassification_replays|intros []; [|apply replays_ret]].
      unfold removeReclassifyAnnotation, get_cr. wreplay.
    - unfold ShouldRunOnGeneration. apply replays_bind; [wreplay|intros []; [|apply replays_ret]].
      apply replays_bind; [apply runClassification_replays|intros _; apply replays_ret]. }
  assert (∀ ts, wrep (run_loop w ts)) as Hl.
  { induction ts as [|t ts IH]; simpl; [apply replays_ret|]. by apply replays_bind; [|intros _]. }
  induction iterations as [|ts iterations IH]; simpl; [apply replays_ret|].
  apply replays_bind; [|intros []; [apply replays_ret|done]]. unfold runOnce.
  apply replays_bind; [apply runClassification_replays|intros _]. case_decide; [apply replays_ret|].
  apply replays_bind; [apply Hl|intros _; apply replays_ret].
Qed.

(** ** Programs *)

(** The controller, its workers and the CRs' authors at work on one world: whole reconciles
    and whole runs of workers one after the other, each activity with a number of its own,
    and everything else that may change in between. *)
Inductive program (cfg : Config) (act : nat → Activity) (s0 : CtlState W) :
    list (nat * SysEvent) → CtlState W → Prop :=
| pr_start : program cfg act s0 [] s0
| pr_reconcile l s i key k :
    program cfg act s0 l s → act i = Reconciling cfg key → events_of i l = [] →
    cs_log (Reconcile cfg key s).2 = cs_log s ++ k →
    program cfg act s0 (l ++ (pair i ∘ EvReconcile <$> k)) (Reconcile cfg key s).2
| pr_worker l s i w iterations last :
    program cfg act s0 l s → act i = Working w → events_of i l = [] →
    let ws := (run_worker w iterations (mkWorkerState (cs_world s) last [])).2 in
    program cfg act s0 (l ++ (pair i ∘ EvWorker <$> ws_log ws))
      (with_world s (ws_world ws))
| pr_author l s i ev w :
    program cfg act s0 l s → act i = Authoring → authored ev = true →
    serves (crs (cs_world s)) ev (crs w) →
    program cfg act s0 (l ++ [(i, ev)])
      (with_world s w)
| pr_environment l s w m me ex :
    program cfg act s0 l s → crs w = crs (cs_world s) →
    program cfg act s0 l (mkCtl w (cs_store s) m me ex (cs_log s)).

Lemma events_of_block {E} (f : E → SysEvent) i j k :
  events_of j (pair i ∘ f <$> k) = if decide (i = j) then f <$> k else [].
Proof.
  unfold events_of. induction k as [|e k IH]; [by case_decide|]. simpl. case_decide as Hij.
  - rewrite filter_cons_True by done. simpl. by f_equal.
  - by rewrite filter_cons_False.
Qed.

Lemma path_served {E} (f : E → SysEvent) i s k s' :
  path (λ e s s', serves s (f e) s') s k s' → served s (pair i ∘ f <$> k) s'.
Proof.
  revert s'. induction k as [|e k IH] using rev_ind; intros s' Hp.
  - apply path_nil_inv in Hp as ->. constructor.
  - apply path_app in Hp as (s1 & H1 & He%path_singleton). rewrite fmap_app. simpl. econstructor; eauto.
Qed.

Lemma path_view s k s' :
  path performs s k s' → path (λ e s s', serves s (EvReconcile e) s') (crs s) k (crs s').
Proof. induction 1; econstructor; [by apply co_reconcile|done]. Qed.

(** An activity's first block of events. *)
Lemma possible_block act i l blk :
  (∀ j, possible (act j) (events_of j l)) → events_of i l = [] → possible (act i) (events_of i blk) →
  (∀ j, j ≠ i → events_of j blk = []) → ∀ j, possible (act j) (events_of j (l ++ blk)).
Proof.
  intros Hl Hi Hb Ho j. rewrite events_of_app. destruct (decide (j = i)) as [->|Hj].
  - by rewrite Hi.
  - by rewrite Ho, app_nil_r.
Qed.

(** Whole transcripts of this world. *)
Lemma possible_reconcile cfg key (s : CtlState W) k :
  states_ok (cs_store s) → cs_log (Reconcile cfg key s).2 = cs_log s ++ k →
  possible (Reconciling cfg key) (EvReconcile <$> k).
Proof.
  intros Hok Hk. exists k, []. rewrite app_nil_r. split; [done|].
  by exists W, _, _, _, _, _, s.
Qed.

Lemma possible_worker w iterations world t0 :
  possible (Working w) (EvWorker <$> ws_log (run_worker w iterations (mkWorkerState world t0 [])).2).
Proof.
  eexists _, []. rewrite app_nil_r. split; [done|]. by exists W, _, _, _, _, (mkWorkerState world t0 []), iterations.
Qed.

Lemma possible_nothing a (s : CtlState W) : states_ok (cs_store s) → possible a [].
Proof.
  intros Hok. destruct a as [cfg key|w|]; [| |constructor].
  - destruct (Reconcile_replays cfg key s) as (k & Hk & _).
    apply (possible_prefix _ [] (EvReconcile <$> k)). by eapply possible_reconcile.
  - apply (possible_prefix _ [] _ (possible_worker w [] (cs_world s) 0)).
Qed.

(** A program's events are a history of its CRs. *)
Lemma program_history cfg act s0 l s :
  states_ok (cs_store s0) → program cfg act s0 l s →
  states_ok (cs_store s) ∧ history act (crs (cs_world s0)) l (crs (cs_world s)).
Proof.
  intros Hok0. induction 1 as [|l s i key k Hp (Hok & Hs & Hpos) Hact Hnew Hk
    |l s i w its t0 Hp (Hok & Hs & Hpos) Hact Hnew ws|l s i ev w Hp (Hok & Hs & Hpos) Hact Hev Hsv
    |l s w m me ex Hp (Hok & Hs & Hpos) Hw].
  - split; [done|]. split; [constructor|]. intros i. by apply (possible_nothing _ s0).
  - split; [by apply Reconcile_states_ok|]. destruct (Reconcile_replays cfg key s) as (k' & Hk' & Hpath).
    rewrite Hk in Hk'. apply app_inv_head in Hk' as <-. split.
    + rewrite served_app. eexists. split; [exact Hs|]. by apply path_served, path_view.
    + apply (possible_block act i); [done|done| |intros j Hj; rewrite events_of_block; case_decide; congruence].
      rewrite events_of_block, decide_True, Hact by done. by eapply possible_reconcile.
  - split; [done|]. destruct (run_worker_replays w its (mkWorkerState (cs_world s) t0 [])) as (k & Hk & Hpath).
    fold ws in Hk, Hpath. simpl in Hk. subst k. split.
    + rewrite served_app. eexists. split; [exact Hs|]. by apply path_served.
    + apply (possible_block act i); [done|done| |intros j Hj; rewrite events_of_block; case_decide; congruence].
      rewrite events_of_block, decide_True, Hact by done. apply possible_worker.
  - split; [done|]. split; [by econstructor|]. intros j. rewrite events_of_app.
    destruct (decide (j = i)) as [->|Hj].
    + rewrite Hact. specialize (Hpos i). rewrite Hact in Hpos. apply Forall_app. split; [exact Hpos|].
      unfold events_of. rewrite filter_cons_True by done. simpl. constructor; [|constructor]. by destruct ev.
    + unfold events_of at 2. rewrite filter_cons_False by (simpl; congruence). simpl. by rewrite app_nil_r.
  - split; [done|]. split; [|done]. simpl. by rewrite Hw.
Qed.
End coherent.
