(* ===== verification/Health.v ===== *)
(** * Healthy clusters

    What the reconciler needs of its surroundings to do its work, as an interface: reads are
    fresh, writes on top of the newest version are accepted, a Deployment has the replica
    count last set, time passes, Prometheus and the Forecast Service answer. *)
From S2P Require Import Prelude Float64 FloatOrder FloatRound Reasoning Config Capacity.
From S2P Require Import Api State Decision Webhook Features Classifier Channels Adapters.
From S2P Require Import Interfaces Worker Manager Metrics Controller ReconcileCases.
From S2P Require Import Scaling Loop Demo Guarantees Estimate System Server Replay.
From Stdlib Require Import SpecFloat QArith.
#[local] Open Scope Z_scope.

(** What can be observed of a cluster besides its CRs. *)
Class LiveCluster (W : Type) := {
  deployment_of : W → NamespacedName → option Deployment;
  hpas_of : W → string → list HPA;
  wall : W → Time;
}.

Definition resized (n : Z) (d : Deployment) : Deployment :=
  mkDeployment (dep_Namespace d) (dep_Name d) (dep_Annotations d) (Some n).

(** The calls that change the CRs and the Deployments. *)
Definition writes (e : Effect) : bool := match e with EScale _ | EStatus _ _ => true | _ => false end.

Section cluster.
Context {W : Type} `{!ApiServer W} `{!PromQuerier W} `{!Forecaster W} `{!Clock W}.
Context `{!VersionedServer W} `{!LiveCluster W}.

Definition newest (w : W) (key : NamespacedName) : option AgenticAutoscaler := last (versions w key).

(** Nothing changes but the time. *)
Record still (w w' : W) : Prop := {
  st_versions : ∀ key, versions w' key = versions w key;
  st_deployments : ∀ key, deployment_of w' key = deployment_of w key;
  st_hpas : ∀ namespace, hpas_of w' namespace = hpas_of w namespace;
  st_wall : wall w <= wall w';
}.

#[export] Instance still_preorder : PreOrder still.
Proof.
  split; [by split|]. intros w1 w2 w3 [V1 D1 H1 T1] [V2 D2 H2 T2]. split; intros; [congruence..|lia].
Qed.

(** The laws of a healthy cluster in the calls of the reconciler, which are not interrupted. *)
Class LiveLaws := {
  lv_serves e w w' : performs e w w' → serves w (EvReconcile e) w';
  lv_quiet e w w' : writes e = false → performs e w w' → still w w';
  lv_get w key aas : newest w key = Some aas ↔ (GetAAS key w).1 = Ok aas;
  lv_list w namespace : (ListHPA namespace w).1 = Ok (hpas_of w namespace);
  lv_deployment w key d : deployment_of w key = Some d ↔ (GetDeployment key w).1 = Ok d;
  lv_named w key d : deployment_of w key = Some d → mkNN (dep_Namespace d) (dep_Name d) = key;
  lv_frame e w w' : performs e w w' →
    (∀ namespace, hpas_of w' namespace = hpas_of w namespace) ∧ wall w <= wall w';
  lv_scale w key n d : deployment_of w key = Some d →
    let '(r, w') := UpdateScale key n w in r = Ok () ∧ deployment_of w' key = Some (resized n d);
  lv_scale_only w key n k : k ≠ key → deployment_of (UpdateScale key n w).2 k = deployment_of w k;
  lv_status w aas cur : newest w (aas_key aas) = Some cur → aas_ResourceVersion cur = aas_ResourceVersion aas →
    (UpdateAASStatus aas w).1 = Ok ();
  lv_status_only w aas key : deployment_of (UpdateAASStatus aas w).2 key = deployment_of w key;
  lv_clock w : let '(t, w') := clock_now w in wall w <= t <= wall w';
}.

(** The workload: Prometheus has the data, and the forecasts lie between [p1] and [p2]. *)
Class Workload (cfg : Config) (p1 p2 : float64) := {
  wl_rps query w : ∃ rps, (pq_InstantQuery query w).1 = Ok rps ∧ number rps;
  wl_history query start end_ step w : ∃ samples,
    (pq_RangeQuery query start end_ step w).1 = Ok samples ∧
    cfg_HotPathMinPoints cfg <= Z.of_nat (length samples);
  wl_forecast req w : ∃ resp, (fc_Recommend req w).1 = Ok resp ∧
    load (Forecast.PredictedRPS resp) ∧
    (fval p1 <= fval (Forecast.PredictedRPS resp) <= fval p2)%Q;
}.
End cluster.
Arguments LiveLaws W {_ _ _ _ _ _}.
Arguments Workload W {_ _} cfg p1 p2.
