(* ===== verification/Site.v ===== *)
(** * A cluster that runs

    The API server of Server.v, the log of revisions, together with Deployments, HPAs, a
    clock, a Prometheus and a Forecast Service whose forecasts vary with the time: an
    executable instance of every interface.  It is coherent, so that all its programs make
    histories, and healthy in the sense of Health.v. *)
From S2P Require Import Prelude Float64 FloatOrder FloatRound Reasoning Config Capacity.
From S2P Require Import Api State Decision Webhook Features Classifier Channels Adapters.
From S2P Require Import Interfaces Worker Manager Metrics Controller ReconcileCases.
From S2P Require Import Scaling Loop Demo Guarantees Estimate System Server Replay Health.
From Stdlib Require Import SpecFloat QArith.
#[local] Open Scope Z_scope.

Record Site := mkSite {
  si_log : list AgenticAutoscaler;                        (* the revisions of all CRs *)
  si_deployments : gmap NamespacedName (option Z);        (* spec.replicas *)
  si_hpas : list (string * HPA);                          (* with their namespaces *)
  si_now : Time;
}.

Definition with_log (l : list AgenticAutoscaler) (w : Site) : Site :=
  mkSite l (si_deployments w) (si_hpas w) (si_now w).

(** A write on top of the newest version, or a conflict. *)
Definition site_write (aas : AgenticAutoscaler) (apply : AgenticAutoscaler → AgenticAutoscaler) :
    ST Site (result ApiError ()) :=
  λ w, match log_write (si_log w) aas apply with
       | Some l => (Ok (), with_log l w)
       | None => (Err (OtherError "conflict"), w)
       end.

#[export] Instance site_live : LiveCluster Site := {|
  deployment_of w key :=
    (λ r, mkDeployment (nn_Namespace key) (nn_Name key) ∅ r) <$> si_deployments w !! key;
  hpas_of w namespace := snd <$> filter (λ p, p.1 = namespace) (si_hpas w);
  wall := si_now;
|}.

#[export] Instance site_api : ApiServer Site := {|
  GetAAS key := λ w,
    (match last (log_versions (si_log w) key) with Some aas => Ok aas | None => Err (NotFound "gone") end, w);
  UpdateAASStatus aas := site_write aas (set_status (aas_Status aas));
  UpdateAAS aas := site_write aas (λ cur, set_status (aas_Status cur) aas);
  GetDeployment key := λ w,
    (match deployment_of w key with Some d => Ok d | None => Err (NotFound "gone") end, w);
  ListHPA namespace := λ w, (Ok (hpas_of w namespace), w);
  UpdateScale key n := λ w,
    match si_deployments w !! key with
    | Some _ => (Ok (), mkSite (si_log w) (<[key := Some n]> (si_deployments w)) (si_hpas w) (si_now w))
    | None => (Err (NotFound "gone"), w)
    end;
|}.

#[export] Instance site_clock : Clock Site := λ w, (si_now w, w).

#[export] Instance site_metrics : PromQuerier Site := {|
  pq_InstantQuery _ := mret (Ok (f64_of_Z 1200));
  pq_RangeQuery _ _ _ _ := mret (Ok (replicate 12 (Prometheus.mkSample 0 (f64_of_Z 1200))));
|}.

(** From 3000 requests per second to 3199, with the minutes. *)
#[export] Instance site_forecaster : Forecaster Site := λ _ w,
  (Ok (Forecast.mkResponse (f64_of_Z (3000 + (si_now w / Minute) mod 200)) 10 "linear_extrap"), w).

(** ** It is coherent *)

#[export] Instance site_coherent : Coherent (λ w : Site, si_log w).
Proof.
  assert (∀ (w w' : Site) aas f r, site_write aas f w = (r, w') →
    settle (si_log w) (succeeded r) (log_write (si_log w) aas f) = Some (si_log w')) as Hw.
  { intros w w' aas f r. unfold site_write. destruct (log_write _ _ _); intros E; by simplify_eq. }
  assert (∀ (w w' : Site) key aas, GetAAS key w = (Ok aas, w') →
    w' = w ∧ aas ∈ log_versions (si_log w) key) as Hg.
  { intros w w' key aas. simpl. destruct (last _) eqn:E; intros ?; simplify_eq. split; [done|].
    rewrite last_lookup in E. by eapply list_elem_of_lookup_2. }
  split.
  - intros e w w' Hp. destruct e as [key [aas|]|?|?|?|?|?|?|p|aas r|?|?]; simpl in Hp |- *;
      try (by inversion Hp).
    + destruct (Hg _ _ _ _ Hp) as [-> Hin]. by rewrite decide_True.
    + destruct Hp as (r & Hp & _). destruct (si_deployments w !! _); by inversion Hp.
    + by apply Hw.
  - intros e w w' Hp. destruct e as [key [aas|]|?|aas r|aas r|?]; simpl in Hp |- *; try (by inversion Hp).
    + destruct (Hg _ _ _ _ Hp) as [-> Hin]. by rewrite decide_True.
    + by apply Hw.
    + by apply Hw.
  - done.
Qed.

(** ** It is healthy *)

#[export] Instance site_server : VersionedServer Site := {|
  versions w := log_versions (si_log w);
  serves w ev w' := log_next (si_log w) ev = Some (si_log w');
|}.

#[export] Instance site_laws : ServerLaws Site.
Proof.
  pose proof log_laws as [L1 L2 L3 L4 L5 L6 L7 L8 L9]. split.
  - intros w. apply L1.
  - intros w. apply L2.
  - intros w. apply L3.
  - intros w ev w' key aas Hs. by apply (L4 (si_log w) ev (si_log w')).
  - intros w ev w' aas ok Hs. by apply (L5 (si_log w) ev (si_log w')).
  - intros w ev w' aas ok Hs. by apply (L6 (si_log w) ev (si_log w')).
  - intros w aas w' Hs. by apply (L7 (si_log w) aas (si_log w')).
  - intros w aas w' Hs. by apply (L8 (si_log w) aas (si_log w')).
  - intros w ev w' Hs. by apply (L9 (si_log w) ev (si_log w')).
Qed.

#[export] Instance site_live_laws : LiveLaws Site.
Proof.
  split.
  - intros e w w' Hp. exact (co_reconcile (crs := λ w : Site, si_log w) e w w' Hp).
  - intros e w w' Hq Hp. assert (w' = w) as ->; [|reflexivity].
    destruct e; simpl in *; try done; by inversion Hp.
  - intros w key aas. unfold newest. simpl. destruct (last _); split; congruence.
  - done.
  - intros w key d. simpl. destruct (si_deployments w !! key) as [r|]; simpl; split; congruence.
  - intros w key d E. simpl in E. destruct (si_deployments w !! key) as [r|]; simplify_eq/=. by destruct key.
  - intros e w w' Hp. destruct e as [| | | | | | |p|aas r| |]; simpl in Hp;
      try (inversion Hp; subst; split; [done|simpl; lia]).
    + destruct Hp as (r & Hp & _). destruct (si_deployments w !! _); inversion Hp; subst; (split; [done|simpl; lia]).
    + unfold site_write in Hp. destruct (log_write _ _ _); inversion Hp; subst; (split; [done|simpl; lia]).
  - intros w key n d E. simpl in E |- *. destruct (si_deployments w !! key) as [r|]; [|done].
    simplify_eq/=. split; [done|]. by rewrite lookup_insert_eq.
  - intros w key n k Hk. simpl. destruct (si_deployments w !! key); [|done]. simpl. by rewrite lookup_insert_ne.
  - intros w aas cur E Hrv. unfold newest in E. simpl in E |- *. unfold site_write, log_write.
    rewrite E. simpl. by rewrite decide_True.
  - intros w aas key. simpl. unfold site_write. by destruct (log_write _ _ _).
  - intros w. simpl. lia.
Qed.

(** ** Its workload *)
Definition forecast_from : float64 := f64_of_Z 3000.
Definition forecast_to : float64 := f64_of_Z 3199.

#[export] Instance site_workload : Workload Site demo_config forecast_from forecast_to.
Proof.
  split.
  - intros query w. eexists. split; [reflexivity|]. by vm_compute.
  - intros query start end_ step w. eexists. split; [reflexivity|]. by vm_compute.
  - intros req w. eexists. split; [reflexivity|]. cbn [Forecast.PredictedRPS].
    pose proof (Z.mod_pos_bound (si_now w / Minute) 200 ltac:(lia)) as Hz.
    set (z := (si_now w / Minute) mod 200) in *. split; [apply load_of_i32; unfold MaxInt32; lia|].
    unfold forecast_from, forecast_to.
    destruct (f64_of_i32 (3000 + z)) as [_ ->]; [int_lia|].
    destruct (f64_of_i32 3000) as [_ ->]; [int_lia|]. destruct (f64_of_i32 3199) as [_ ->]; [int_lia|].
    rewrite <- !Zle_Qle. lia.
Qed.

(** The demonstration's CR, just created, and its Deployment with two replicas. *)
Definition site_start : Site :=
  mkSite [sample_cr] {[ demo_key := Some 2 ]} [("ns", mkHPA "other" "Deployment" "elsewhere")] (1000000 * Second).
Definition site_state : CtlState Site := mkCtl site_start NewStateStore None no_samples None [].
