(* ===== verification/Live.v ===== *)
(** * The loop closed over a live cluster

    Against a healthy cluster the reconciler, called for many CRs, is for each of them the
    loop of Loop.v: the Deployment gets into the band of replica counts that the forecasts
    call for, and the CR's status tells its count. *)
From S2P Require Import Prelude Float64 FloatOrder FloatRound Reasoning Config Capacity.
From S2P Require Import Api State Decision Webhook Features Classifier Channels Adapters.
From S2P Require Import Interfaces Worker Manager Metrics Controller ReconcileCases.
From S2P Require Import Scaling Loop Demo Guarantees Estimate System Server Replay Health Site.
From Stdlib Require Import SpecFloat QArith Qround Lqa.
#[local] Open Scope Z_scope.

(** ** The replica counts that forecasts from [p1] to [p2] call for

    At least what the weaker forecast needs on the strongest pods the CR allows for, at most
    what the stronger one needs on the weakest. *)
Section band.
Context `{GoPlatform} (aas : AgenticAutoscaler).

Definition clamped (n : Z) : Z := (ClampRecommended n (min_replicas aas) (max_replicas aas)).1.
Definition fewest (p1 : float64) : Z := clamped (ComputeUnboundedRecommended p1 (f64_of_Z (rps_max aas))).
Definition most (p2 : float64) : Z := clamped (ComputeUnboundedRecommended p2 (f64_of_Z (rps_min aas))).

Lemma clamped_mono m n : min_replicas aas <= max_replicas aas → m <= n → clamped m <= clamped n.
Proof. unfold clamped, ClampRecommended. intros. split_decisions; simpl; lia. Qed.

Lemma clamped_range n :
  min_replicas aas <= max_replicas aas → min_replicas aas <= clamped n <= max_replicas aas.
Proof. unfold clamped, ClampRecommended. intros. split_decisions; simpl; lia. Qed.

Lemma decision_in_band cfg x p1 p2 :
  admitted cfg aas → estimate_ok (de_st x) → load p1 → load p2 →
  load (Forecast.PredictedRPS (de_resp x)) →
  (fval p1 <= fval (Forecast.PredictedRPS (de_resp x)) <= fval p2)%Q →
  (fval p2 <= inject_Z MaxInt32 * inject_Z (rps_min aas))%Q →
  fewest p1 <= clamped (sd_Unbounded (de_decision cfg aas x)) <= most p2.
Proof.
  intros Had [_ [Hnan Hval]] Hp1 Hp2 Hp [Hlo Hhi] Hmax.
  destruct (decision_amounts cfg aas x) as [Er ->].
  destruct (admitted_rps _ _ Had) as [Hb Hmx]. pose proof (admitted_bounds _ _ Had).
  destruct (ClampRpsPerPod_spec _ _ _ Hnan Hval Hb Hmx) as (Hcap & [Hr1 Hr2] & _).
  rewrite <- Er in Hcap, Hr1, Hr2. set (r := sd_RpsPerPod (de_decision cfg aas x)) in *.
  assert (∀ z, 0 < z <= MaxInt32 → capacity (f64_of_Z z) ∧ (fval (f64_of_Z z) == inject_Z z)%Q) as Hz.
  { intros z Hz. split; [by apply capacity_of_i32|]. apply f64_of_i32. int_lia. }
  destruct (Hz (rps_min aas) ltac:(lia)) as [Cmin Emin]. destruct (Hz (rps_max aas) ltac:(lia)) as [Cmax Emax].
  assert (inject_Z (rps_min aas) <= fval r)%Q as Hrmin by done.
  assert (0 <= inject_Z MaxInt32)%Q as Hm32 by (vm_compute; discriminate).
  unfold fewest, most. split; (apply clamped_mono; [lia|apply unbounded_mono]; try done);
    rewrite ?Emin, ?Emax; try done; nra.
Qed.
End band.

(** ** The parts of a CR that its reconciles leave alone *)
Definition target_of (aas : AgenticAutoscaler) : NamespacedName :=
  mkNN (aas_Namespace aas) (deploy_name aas).

Record alike (a b : AgenticAutoscaler) : Prop := {
  al_key : aas_key b = aas_key a;
  al_spec : aas_Spec b = aas_Spec a;
  al_annotations : aas_Annotations b = aas_Annotations a;
  al_deletion : aas_DeletionTimestamp b = aas_DeletionTimestamp a;
  al_classified : stored_classified <$> st_ClassifiedParams (aas_Status b) =
    stored_classified <$> st_ClassifiedParams (aas_Status a);
}.

#[export] Instance alike_preorder : PreOrder alike.
Proof. split; [by split|]. intros a b c [] []. split; congruence. Qed.

Section alike.
Context (cfg : Config) (a b : AgenticAutoscaler).
Hypothesis Hab : alike a b.

Lemma alike_effective : effective cfg b = effective cfg a.
Proof.
  destruct Hab as [_ Hs _ _ Hc]. unfold effective, buildParamSources. rewrite Hs.
  destruct (st_ClassifiedParams (aas_Status a)), (st_ClassifiedParams (aas_Status b)); simplify_eq/=; done || congruence.
Qed.

Lemma alike_target : target_of b = target_of a.
Proof.
  destruct Hab as [Hk Hs _ _ _]. unfold target_of, deploy_name. rewrite Hs. unfold aas_key in Hk. congruence.
Qed.

Lemma alike_namespace : aas_Namespace b = aas_Namespace a.
Proof. destruct Hab as [Hk _ _ _ _]. unfold aas_key in Hk. congruence. Qed.

Lemma alike_active hpas : active a hpas → active b hpas.
Proof.
  destruct Hab as [_ Hs Ha Hd _]. intros [H1 H2 H3]. split.
  - unfold annotation in *. by rewrite Ha.
  - unfold deletion_pending in *. by rewrite Hd.
  - eapply Forall_impl; [exact H3|]. unfold conflicting. by rewrite Hs.
Qed.

Lemma alike_admitted : admitted cfg a → admitted cfg b.
Proof.
  destruct Hab as [_ Hs _ _ Hc]. intros Had. apply (admitted_rewrite cfg a); [done..|]. intros cp Hcp.
  rewrite Hcp in Hc. pose proof (ad_classified _ _ Had) as Hu.
  destruct (st_ClassifiedParams (aas_Status a)) as [cp'|]; [|done]. injection Hc as Hc1 Hc2 Hc3 Hc4 Hc5 Hc6 Hc7 Hc8.
  destruct (Hu cp' eq_refl) as [U D M]. split; congruence.
Qed.

Lemma alike_band `{GoPlatform} p1 p2 : fewest b p1 = fewest a p1 ∧ most b p2 = most a p2.
Proof.
  destruct Hab as [_ Hs _ _ _]. unfold fewest, most, clamped, min_replicas, max_replicas, rps_min, rps_max.
  by rewrite Hs.
Qed.
End alike.

Lemma alike_rps_min a b : alike a b → rps_min b = rps_min a.
Proof. intros Hab. unfold rps_min. by rewrite (al_spec _ _ Hab). Qed.

(** ** One reconcile of an undisturbed CR *)
Section undisturbed.
Context {W : Type} `{!ApiServer W} `{!PromQuerier W} `{!Forecaster W} `{!Clock W} `{GoPlatform}.
Context `{!VersionedServer W} `{!ServerLaws W} `{!LiveCluster W} `{!LiveLaws W}.
Context (cfg : Config) (key : NamespacedName) (p1 p2 : float64) `{!Workload W cfg p1 p2}.

(** A question among others is asked of a world like the first. *)
Lemma asked w k w' e :
  path performs w k w' → Forall (λ e, writes e = false) k → e ∈ k →
  ∃ w1 w2, still w w1 ∧ performs e w1 w2 ∧ still w2 w'.
Proof.
  intros Hp Hk He. destruct (path_elem _ _ _ _ _ Hp He) as (k1 & k2 & w1 & w2 & -> & H1 & Hpe & H2).
  apply Forall_app in Hk as [Hk1 [_ Hk2]%Forall_cons]. exists w1, w2. split_and!; [|done|].
  - exact (path_invariant _ still _ _ _ _ (λ e w w', lv_quiet e w w') Hk1 H1).
  - exact (path_invariant _ still _ _ _ _ (λ e w w', lv_quiet e w w') Hk2 H2).
Qed.

Lemma asked_hpas w k w' namespace r :
  path performs w k w' → EListHPA namespace r ∈ k → r = Ok (hpas_of w namespace).
Proof.
  intros Hp He. destruct (path_elem _ _ _ _ _ Hp He) as (k1 & k2 & w1 & w2 & -> & H1 & Hpe & _).
  assert (∀ ns, hpas_of w1 ns = hpas_of w ns) as <-.
  { refine (path_invariant _ (λ w w' : W, ∀ ns, hpas_of w' ns = hpas_of w ns) (λ _, True) _ _ _ _ _ H1).
    - split; [done|]. intros x y z Hxy Hyz ns. by rewrite Hyz, Hxy.
    - intros e x y _ He' . by apply (lv_frame e).
    - by apply Forall_true. }
  pose proof (lv_list w1 namespace) as Hl. simpl in Hpe. rewrite Hpe in Hl. exact Hl.
Qed.

Lemma transcript_quiet aas x : Forall (λ e, writes e = false) (transcript cfg key aas x).
Proof. unfold transcript. by destruct (de_context_now x); repeat constructor. Qed.

Lemma probe_quiet aas k : Forall (probe_effect cfg key aas) k → Forall (λ e, writes e = false) k.
Proof. intros Hk. eapply Forall_impl; [exact Hk|]. by intros []. Qed.

(** No question goes unanswered. *)
Lemma no_shortfall aas w k w' d :
  path performs w k w' → Forall (probe_effect cfg key aas) k → deployment_of w (target_of aas) = Some d →
  ¬ Exists (shortfall cfg) k.
Proof.
  intros Hp Hk Hd (e & He & Hs)%Exists_exists. pose proof (proj1 (Forall_forall _ _) Hk e He) as Hpe.
  destruct (asked _ _ _ _ Hp (probe_quiet _ _ Hk) He) as (w1 & w2 & Hst & Hw & _).
  destruct e as [| |query r|query start end_ step r|req r|key' r| | | | |]; try done; simpl in Hw, Hpe.
  - destruct (wl_rps query w1) as (rps & Hr & _). rewrite Hw in Hr. simpl in Hr. by subst.
  - destruct (wl_history query start end_ step w1) as (samples & Hr & Hl). rewrite Hw in Hr. simpl in Hr. subst.
    simpl in Hs. lia.
  - destruct (wl_forecast req w1) as (resp & Hr & _). rewrite Hw in Hr. simpl in Hr. by subst.
  - rewrite <- (st_deployments _ _ Hst) in Hd. pose proof (proj1 (lv_deployment _ _ _) Hd) as Hr. subst.
    unfold target_of in Hr. rewrite Hw in Hr. simpl in Hr. by subst.
Qed.

(** The reconcile decides, on the Deployment as it is, at the present time. *)
Lemma live_decides (s : CtlState W) aas d :
  states_ok (cs_store s) → newest (cs_world s) key = Some aas →
  active aas (hpas_of (cs_world s) (aas_Namespace aas)) →
  deployment_of (cs_world s) (target_of aas) = Some d →
  let '(o, s') := Reconcile cfg key s in
  ∃ x k w, deciding (W := W) cfg key aas (cs_store s) x ∧
    acted cfg key aas (cs_store s) x k (cs_store s') ∧
    o = outcome_of cfg aas k ∧ still (cs_world s) w ∧ path performs w k (cs_world s') ∧
    de_deploy x = d ∧ wall (cs_world s) <= de_now x <= wall w ∧ number (de_rps x) ∧
    load (Forecast.PredictedRPS (de_resp x)) ∧
    (fval p1 <= fval (Forecast.PredictedRPS (de_resp x)) <= fval p2)%Q.
Proof.
  intros Hok Hcr Hact Hd. destruct (Reconcile_replays cfg key s) as (k0 & Hlog & Hpath).
  destruct (Reconcile_log cfg key s k0 Hok Hlog) as (k & -> & Hc).
  destruct (Reconcile cfg key s) as [o s']. cbn [fst snd] in *.
  apply path_cons_inv in Hpath as (w0 & Hget & Hpath).
  rewrite (proj1 (lv_get _ _ _) Hcr) in Hc. destruct Hc as [Ho Hc].
  pose proof (lv_quiet (EGetAAS key _) _ _ eq_refl Hget) as Hst0.
  destruct Hact as [Hks Hdel Halone].
  destruct Hc as [k Hp Hk|hpas k Ha Hk Hs|x k σ' Hx Hacted].
  - exfalso. destruct Hp as [Hp|[Hp|[(e & Hin)|(hpas & Hin & Hex)]]]; [done|congruence| |];
      apply (asked_hpas _ _ _ _ _ Hpath) in Hin; [done|]. injection Hin as ->.
    rewrite (st_hpas _ _ Hst0) in Hex. apply Exists_exists in Hex as (h & Hh & Hc).
    rewrite (proj1 (Forall_forall _ _) Halone h Hh) in Hc. done.
  - exfalso. apply path_cons_inv in Hpath as (w1 & Hl & Hpath).
    pose proof (lv_quiet (EListHPA _ _) _ _ eq_refl Hl) as Hst1.
    refine (no_shortfall aas w1 k _ d Hpath Hk _ Hs).
    by rewrite (st_deployments _ _ Hst1), (st_deployments _ _ Hst0).
  - apply path_app in Hpath as (w & Htr & Hrest).
    pose proof (λ e, asked _ _ _ e Htr (transcript_quiet aas x)) as Hasked.
    exists x, k, w. split; [done|]. split; [done|]. split.
    { rewrite Ho. destruct Hx as [_ [Hjact _ _] _]. rewrite !(outcome_active cfg aas _ _ Hjact), omap_app.
      by rewrite transcript_fatal. }
    split. { transitivity w0; [done|]. refine (path_invariant _ still _ _ _ _ _ (transcript_quiet aas x) Htr).
      intros. by eapply lv_quiet. }
    split; [done|].
    destruct (Hasked (EGetDeployment (target_of aas) (Ok (de_deploy x)))) as (w1 & w2 & Hs1 & Hp1 & _);
      [unfold transcript, target_of; rewrite !elem_of_app; right; right; right; left|].
    rewrite <- (st_deployments _ _ Hst0), <- (st_deployments _ _ Hs1) in Hd.
    pose proof (proj1 (lv_deployment _ _ _) Hd) as Hr1. simpl in Hp1. rewrite Hp1 in Hr1. injection Hr1 as ->.
    destruct (Hasked (ENow (de_now x))) as (w3 & w4 & Hs3 & Hp3 & Hs4);
      [unfold transcript; rewrite !elem_of_app; right; right; right; right; left|].
    pose proof (lv_clock w3) as Ht. simpl in Hp3. rewrite Hp3 in Ht.
    destruct (Hasked (EInstantQuery (InstantRPS (deploy_name aas)) (Ok (de_rps x)))) as (w5 & w6 & _ & Hp5 & _);
      [unfold transcript, queried; set_solver|].
    destruct (wl_rps (InstantRPS (deploy_name aas)) w5) as (rps & Hr5 & Hn). simpl in Hp5. rewrite Hp5 in Hr5.
    injection Hr5 as ->.
    destruct (Hasked (ERecommend (forecast_request cfg key aas (de_samples x) (de_context_now x)) (Ok (de_resp x))))
      as (w7 & w8 & _ & Hp7 & _); [unfold transcript; rewrite !elem_of_app; right; right; left|].
    destruct (wl_forecast (forecast_request cfg key aas (de_samples x) (de_context_now x)) w7) as (resp & Hr7 & Hf).
    simpl in Hp7. rewrite Hp7 in Hr7. injection Hr7 as ->.
    pose proof (st_wall _ _ Hst0). pose proof (st_wall _ _ Hs3). pose proof (st_wall _ _ Hs4).
    split; [done|]. split; [lia|]. done.
Qed.

(** A status written on top of the newest version is its successor's. *)
Lemma status_written w w' aas st r :
  newest w key = Some aas → st_ClassifiedParams st = st_ClassifiedParams (aas_Status aas) →
  performs (EStatus (set_status st aas) r) w w' →
  r = Ok () ∧ (∀ k, deployment_of w' k = deployment_of w k) ∧
  ∃ aas', newest w' key = Some aas' ∧ alike aas aas' ∧ aas_Status aas' = stored_status st.
Proof.
  intros Hcr Hcl Hp. assert (aas_key aas = key) as Hk.
  { apply (sl_key w). unfold newest in Hcr. rewrite last_lookup in Hcr. by eapply list_elem_of_lookup_2. }
  assert (newest w (aas_key (set_status st aas)) = Some aas) as Hcr' by (simpl; by rewrite <- Hk in Hcr).
  pose proof (lv_status w (set_status st aas) aas Hcr' eq_refl) as Hr.
  pose proof (lv_status_only w (set_status st aas)) as Hd. pose proof (lv_serves _ _ _ Hp) as Hs.
  simpl in Hp. rewrite Hp in Hr, Hd. simpl in Hr, Hd. subst r. split; [done|]. split; [done|].
  assert (∀ rv, alike aas (set_version rv (set_status (stored_status st) aas))) as Hal.
  { intros rv. split; try done. simpl. rewrite Hcl. destruct (st_ClassifiedParams (aas_Status aas)); [|done].
    simpl. f_equal. unfold stored_classified. simpl. by rewrite stored_time_idem. }
  destruct (sl_status _ _ _ _ _ Hs eq_refl) as [(cur & Hcur & _ & Hc)|[_ ?]]; [|done].
  unfold newest in Hcr'. rewrite Hcur in Hcr'. injection Hcr' as ->.
  change (aas_key (set_status st aas)) with (aas_key aas) in *. rewrite Hk in *.
  destruct Hc as [[Hu Happ]|(rv & [Hc _])].
  - exists aas. unfold newest. rewrite Hu. split; [done|]. split; [done|]. by rewrite <- Happ at 1.
  - eexists. unfold newest. rewrite Hc, last_snoc. split; [done|]. split; [apply Hal|done].
Qed.

Lemma closing_path aas x r w w' :
  path performs w (closing cfg aas x r) w' → performs (EStatus (de_status cfg aas x) r) w w'.
Proof.
  unfold closing. intros (w1 & -> & Hp)%path_cons_inv. apply path_app in Hp as (w2 & Hn & Hp%path_singleton).
  destruct (co_ShouldPatch _).
  - apply path_singleton in Hn. simpl in Hn. by subst.
  - apply path_nil_inv in Hn. by subst.
Qed.

(** What the decision does to the world. *)
Lemma live_acts aas σ x k σ' w w' :
  newest w key = Some aas → active aas (hpas_of w (aas_Namespace aas)) →
  deployment_of w (target_of aas) = Some (de_deploy x) →
  acted cfg key aas σ x k σ' → path performs w k w' →
  let o := sd_Cap (de_decision cfg aas x) in
  outcome_of cfg aas k = Finished (cfg_ReconcileInterval cfg) None ∧
  ReconcileCases.stored σ σ' key (if co_ShouldPatch o then record_scale (de_st x) (co_Target o) (de_current x) (de_now x)
                   else de_st x) ∧
  deployment_of w' (target_of aas) = Some (if co_ShouldPatch o then resized (co_Target o) (de_deploy x)
                                           else de_deploy x) ∧
  ∃ aas', newest w' key = Some aas' ∧ alike aas aas' ∧
    aas_Status aas' = stored_status (final_status aas (de_decision cfg aas x) (de_resp x) (de_now x)).
Proof.
  intros Hcr Hact Hd Ha Hpath. cbn zeta. pose proof (lv_named _ _ _ Hd) as Hname.
  rewrite (outcome_active cfg aas _ _ Hact).
  destruct Ha as [r σ' Hsp Hst|σ' Hsp Hst|r σ' Hsp Hst]; rewrite Hsp.
  - apply closing_path in Hpath. apply status_written in Hpath as (-> & Hdep & Haas); [|done..].
    rewrite closing_fatal. split; [done|]. split; [done|]. split; [by rewrite Hdep|exact Haas].
  - exfalso. apply path_singleton in Hpath as (r & Hu & Hr). simpl in Hu, Hr. rewrite Hname in Hu.
    pose proof (lv_scale w (target_of aas) (co_Target (sd_Cap (de_decision cfg aas x))) _ Hd) as Hl.
    rewrite Hu in Hl. destruct Hl as [-> _]. done.
  - apply path_cons_inv in Hpath as (w1 & Hu & Hpath). pose proof (lv_serves _ _ _ Hu) as Hs.
    destruct Hu as (r1 & Hu & _). simpl in Hu. rewrite Hname in Hu.
    pose proof (lv_scale w (target_of aas) (co_Target (sd_Cap (de_decision cfg aas x))) _ Hd) as Hl.
    rewrite Hu in Hl. destruct Hl as [_ Hl].
    assert (newest w1 key = Some aas) as Hcr1 by (unfold newest; by rewrite (sl_other _ _ _ Hs)).
    apply closing_path in Hpath. apply status_written in Hpath as (-> & Hdep & Haas); [|done..].
    rewrite fatal_cons, closing_fatal by done. split; [done|]. split; [done|].
    split; [by rewrite Hdep|exact Haas].
Qed.
End undisturbed.

(** ** What a reconcile of any CR changes in the cluster *)
Section frame.
Context {W : Type} `{!ApiServer W} `{!PromQuerier W} `{!Forecaster W} `{!Clock W} `{GoPlatform}.
Context `{!VersionedServer W} `{!ServerLaws W} `{!LiveCluster W} `{!LiveLaws W}.
Context (cfg : Config) (k : NamespacedName).

(** CRs other than [k] stay, and [k] keeps its target. *)
Record retargets_none (w w' : W) : Prop := {
  rt_others : ∀ k', k' ≠ k → newest w' k' = newest w k';
  rt_target : ∀ a', newest w' k = Some a' → ∃ a, newest w k = Some a ∧ target_of a' = target_of a;
}.

#[local] Instance retargets_none_preorder : PreOrder retargets_none.
Proof.
  split; [split; eauto|]. intros w1 w2 w3 [O1 T1] [O2 T2]. split.
  - intros k' Hk. by rewrite O2, O1.
  - intros a3 (a2 & (a1 & ? & ?)%T1 & ?)%T2. exists a1. split; [done|congruence].
Qed.

Lemma untouched_retargets w w' : untouched w w' → retargets_none w w'.
Proof. intros Hu. split; intros ?; unfold newest; rewrite Hu; eauto. Qed.

Lemma owned_retargets aas e w w' :
  aas_key aas = k → owned_status aas e → performs e w w' → retargets_none w w'.
Proof.
  intros Hk He Hp. pose proof (lv_serves _ _ _ Hp) as Hs.
  destruct e as [| | | | | | | |aas' r| |]; try by apply untouched_retargets, (sl_other _ _ _ Hs).
  destruct He as (st & -> & _).
  destruct (sl_status _ _ _ _ _ Hs eq_refl) as [(cur & Hcur & _ & [[Hu _]|(rv & Hc & Ho)])|[Hu _]];
    [by apply untouched_retargets| |by apply untouched_retargets].
  change (aas_key (set_status st aas)) with (aas_key aas) in *. rewrite Hk in *. split.
  - intros k' Hk'. unfold newest. by rewrite Ho.
  - intros a'. unfold newest. rewrite Hc, last_snoc. intros [= <-]. by exists cur.
Qed.

Lemma newest_key (w : W) key aas : newest w key = Some aas → aas_key aas = key.
Proof. unfold newest. rewrite last_lookup. intros Hl. apply (sl_key w). by eapply list_elem_of_lookup_2. Qed.

(** The transcript of a reconcile, as a path through the cluster's states. *)
Lemma Reconcile_path (s : CtlState W) :
  states_ok (cs_store s) → let s' := (Reconcile cfg k s).2 in
  still (cs_world s) (cs_world s') ∨
  ∃ aas l w0, newest (cs_world s) k = Some aas ∧ still (cs_world s) w0 ∧
    path performs w0 l (cs_world s') ∧ reconciled (W := W) cfg k aas (cs_store s) l (cs_store s').
Proof.
  intros Hok. cbn zeta. destruct (Reconcile_replays cfg k s) as (l0 & Hlog & Hpath).
  destruct (Reconcile_log cfg k s l0 Hok Hlog) as (l & -> & Hc).
  apply path_cons_inv in Hpath as (w0 & Hget & Hpath).
  pose proof (lv_quiet (EGetAAS k _) _ _ eq_refl Hget) as Hst.
  destruct (GetAAS k (cs_world s)).1 as [aas|e] eqn:E.
  - right. exists aas, l, w0. split; [by apply lv_get|]. split; [done|]. split; [done|]. apply Hc.
  - left. subst l. apply path_nil_inv in Hpath as ->. done.
Qed.

(** A patch is of the CR's target. *)
Lemma patch_of_target aas σ l σ' w w' p :
  reconciled (W := W) cfg k aas σ l σ' → path performs w l w' → EScale p ∈ l → pa_deployment p = target_of aas.
Proof.
  intros Hr Hp Hin. destruct (reconciled_scale _ _ _ _ _ _ _ Hr Hin) as (x & l' & _ & _ & -> & -> & _).
  apply path_app in Hp as (w1 & Hp & _).
  assert (EGetDeployment (target_of aas) (Ok (de_deploy x)) ∈ transcript cfg k aas x) as Hd
    by (unfold transcript, target_of; rewrite !elem_of_app; right; right; right; left).
  destruct (path_elem _ _ _ _ _ Hp Hd) as (l1 & l2 & w2 & w3 & _ & _ & Hg & _). simpl in Hg.
  apply (lv_named w2). apply lv_deployment. by rewrite Hg.
Qed.

Lemma performs_deployment e w w' tgt :
  (∀ p, e = EScale p → pa_deployment p ≠ tgt) → performs e w w' → deployment_of w' tgt = deployment_of w tgt.
Proof.
  intros He Hp. destruct e as [| | | | | | |p|aas r| |];
    try by apply (st_deployments w w'); eapply lv_quiet; [|exact Hp].
  - destruct Hp as (r & Hp & _). specialize (He p eq_refl).
    pose proof (lv_scale_only w (pa_deployment p) (pa_target p) tgt ltac:(congruence)) as Hs. by rewrite Hp in Hs.
  - pose proof (lv_status_only w aas tgt) as Hs. simpl in Hp. by rewrite Hp in Hs.
Qed.

Lemma Reconcile_retargets_none (s : CtlState W) :
  states_ok (cs_store s) → retargets_none (cs_world s) (cs_world (Reconcile cfg k s).2).
Proof.
  intros Hok. destruct (Reconcile_path s Hok) as [Hst|(aas & l & w0 & Hcr & Hst & Hp & Hr)].
  { apply untouched_retargets. exact (st_versions _ _ Hst). }
  transitivity w0; [apply untouched_retargets; exact (st_versions _ _ Hst)|].
  refine (path_invariant _ retargets_none (owned_status aas) _ _ _ _ (reconciled_owned _ _ _ _ _ _ Hr) Hp).
  intros e w w' He Hpe. eapply owned_retargets; [by eapply newest_key|done..].
Qed.

Lemma Reconcile_others_deployments (s : CtlState W) tgt :
  states_ok (cs_store s) → (∀ a, newest (cs_world s) k = Some a → target_of a ≠ tgt) →
  deployment_of (cs_world (Reconcile cfg k s).2) tgt = deployment_of (cs_world s) tgt.
Proof.
  intros Hok Ha. destruct (Reconcile_path s Hok) as [Hst|(aas & l & w0 & Hcr & Hst & Hp & Hr)].
  { apply (st_deployments _ _ Hst). }
  rewrite <- (st_deployments _ _ Hst).
  refine (path_invariant _ (λ w w' : W, deployment_of w' tgt = deployment_of w tgt)
    (λ e, ∀ p, e = EScale p → pa_deployment p ≠ tgt) _ _ _ _ _ Hp).
  - split; [done|]. intros x y z. congruence.
  - intros e w w' He. by apply performs_deployment.
  - apply Forall_forall. intros e Hin p ->. rewrite (patch_of_target _ _ _ _ _ _ _ Hr Hp Hin). by apply Ha.
Qed.

(** What no call of the reconciler changes. *)
Lemma path_frame w l w' :
  path performs w l w' → (∀ ns, hpas_of w' ns = hpas_of w ns) ∧ wall w <= wall w'.
Proof.
  intros Hp. split.
  - refine (path_invariant _ (λ w w' : W, ∀ ns, hpas_of w' ns = hpas_of w ns) (λ _, True) _ _ _ _ _ Hp).
    + split; [done|]. intros x y z Hxy Hyz ns. by rewrite Hyz, Hxy.
    + intros e x y _ He. by apply (lv_frame e).
    + by apply Forall_true.
  - refine (path_invariant _ (λ w w' : W, wall w <= wall w') (λ _, True) _ _ _ _ _ Hp).
    + split; [intros x; lia|]. intros x y z. lia.
    + intros e x y _ He. by apply (lv_frame e).
    + by apply Forall_true.
Qed.

Lemma Reconcile_frame (s : CtlState W) :
  (∀ ns, hpas_of (cs_world (Reconcile cfg k s).2) ns = hpas_of (cs_world s) ns) ∧
  wall (cs_world s) <= wall (cs_world (Reconcile cfg k s).2).
Proof. destruct (Reconcile_replays cfg k s) as (l & _ & Hp). exact (path_frame _ _ _ Hp). Qed.
End frame.

(** ** The loop *)
Section closed_loop.
Context {W : Type} `{!ApiServer W} `{!PromQuerier W} `{!Forecaster W} `{!Clock W} `{GoPlatform}.
Context `{!LiveCluster W} `{!VersionedServer W}.

(** No CR but [key] has the target [tgt]. *)
Definition alone (key tgt : NamespacedName) (w : W) : Prop :=
  ∀ k a, k ≠ key → newest w k = Some a → target_of a ≠ tgt.

(** For [d] at least, anything may happen in the cluster that leaves the CR and its target
    alone: authors, workers and other controllers act on other objects, loads change. *)
Record meanwhile (key tgt : NamespacedName) (d : Duration) (w w' : W) : Prop := {
  mw_cr : newest w' key = newest w key;
  mw_deployment : deployment_of w' tgt = deployment_of w tgt;
  mw_hpas : hpas_of w' (nn_Namespace tgt) = hpas_of w (nn_Namespace tgt);
  mw_alone : alone key tgt w';
  mw_wall : wall w + d <= wall w';
}.

(** The process at work: it reconciles one CR or another, this one included, whenever their
    timers fire or their objects change; and [d] passes. *)
Inductive turns (cfg : Config) (key tgt : NamespacedName) : Duration → CtlState W → CtlState W → Prop :=
| tn_nil s : turns cfg key tgt 0 s s
| tn_reconcile d s s1 k : turns cfg key tgt d s s1 → turns cfg key tgt d s (Reconcile cfg k s1).2
| tn_meanwhile d e s s1 w :
    turns cfg key tgt d s s1 → 0 <= e → meanwhile key tgt e (cs_world s1) w →
    turns cfg key tgt (d + e) s (with_world s1 w).

(** A reconcile of [key] and whatever follows it for its requeue interval. *)
Definition round (cfg : Config) (key tgt : NamespacedName) (s s' : CtlState W) : Prop :=
  ∃ d, turns cfg key tgt d (Reconcile cfg key s).2 s' ∧ cfg_ReconcileInterval cfg <= d.

(** The CR [aas], not paused, its Deployment with [n] replicas and no other CR's, and what
    the controller remembers of it lies in the past. *)
Record undisturbed (cfg : Config) (key : NamespacedName) (aas : AgenticAutoscaler) (n : Z) (s : CtlState W) : Prop := {
  ud_store : states_ok (cs_store s);
  ud_estimate : ∀ st, view (cs_store s) key = Some st → estimate_ok st;
  ud_cr : newest (cs_world s) key = Some aas;
  ud_alone : alone key (target_of aas) (cs_world s);
  ud_admitted : admitted cfg aas;
  ud_active : active aas (hpas_of (cs_world s) (aas_Namespace aas));
  ud_deployment : ∃ d, deployment_of (cs_world s) (target_of aas) = Some d ∧ deref_or (dep_Replicas d) 1 = n;
  ud_count : 0 <= n <= max_count;
  ud_past : ∀ up, last_scale up (loaded (cs_store s) key aas) <= wall (cs_world s);
}.

(** Its state as one of the loop. *)
Definition loop_of (key : NamespacedName) (aas : AgenticAutoscaler) (n : Z) (s : CtlState W) : LoopState :=
  mkLoop n (last_scale true (loaded (cs_store s) key aas)) (last_scale false (loaded (cs_store s) key aas))
    (wall (cs_world s)).

Lemma undisturbed_loop_ok cfg key aas n s : undisturbed cfg key aas n s → loop_ok (loop_of key aas n s).
Proof. intros Hu. split; [apply Hu|apply (ud_past _ _ _ _ _ Hu true)|apply (ud_past _ _ _ _ _ Hu false)]. Qed.

(** The relations of Loop.v with the parameters of [aas], in its band for forecasts between
    [p1] and [p2]. *)
Definition in_loop {A} (cfg : Config) (aas : AgenticAutoscaler) (p1 p2 : float64)
    (R : Z → Z → Z → Z → Z → A) : A :=
  R (fewest aas p1) (most aas p2) (ep_MaxStep (effective cfg aas)) (ep_CooldownUp (effective cfg aas))
    (ep_CooldownDown (effective cfg aas)).

Lemma alike_in_loop {A} cfg a b p1 p2 (R : Z → Z → Z → Z → Z → A) :
  alike a b → in_loop cfg b p1 p2 R = in_loop cfg a p1 p2 R.
Proof.
  intros Hab. unfold in_loop. rewrite (alike_effective cfg a b Hab).
  by destruct (alike_band a b Hab p1 p2) as [-> ->].
Qed.

Context `{!ServerLaws W} `{!LiveLaws W}.
Context (cfg : Config) (key : NamespacedName) (p1 p2 : float64) `{!Workload W cfg p1 p2}.
Hypothesis Hp1 : load p1.
Hypothesis Hp2 : load p2.

(** The state after a decision, as the loop has it. *)
Lemma loaded_stored σ σ' aas st : ReconcileCases.stored σ σ' key st → pc_Initialized st = true → loaded σ' key aas = st.
Proof. intros (_ & Hv & _) Hi. unfold loaded. rewrite Hv. simpl. by rewrite Hi. Qed.

Lemma recorded_clocks st o cur t now now' :
  let st' := if co_ShouldPatch o then record_scale st (co_Target o) cur now else st in
  loop_after (mkLoop cur (last_scale true st) (last_scale false st) t) o now now' =
  mkLoop (if co_ShouldPatch o then co_Target o else cur) (last_scale true st') (last_scale false st') now'.
Proof.
  unfold loop_after, record_scale, last_scale. destruct (co_ShouldPatch o); [|done]. simpl. by case_decide.
Qed.

(** What the CR's newest version says after a reconcile. *)
Definition tells (n : Z) (aas : AgenticAutoscaler) : Prop :=
  st_Phase (aas_Status aas) = PhaseReady ∧ st_CurrentReplicas (aas_Status aas) = n.

Lemma band_range aas :
  admitted cfg aas → 0 <= fewest aas p1 ∧ most aas p2 <= max_count.
Proof.
  intros Had. pose proof (admitted_bounds _ _ Had). pose proof (ad_size _ _ Had).
  pose proof (clamped_range aas (ComputeUnboundedRecommended p1 (f64_of_Z (rps_max aas))) ltac:(lia)).
  pose proof (clamped_range aas (ComputeUnboundedRecommended p2 (f64_of_Z (rps_min aas))) ltac:(lia)).
  unfold fewest, most. lia.
Qed.

(** A decision is one of the loop, on the state that was observed. *)
Lemma decision_loop_next aas x now' t :
  admitted cfg aas → estimate_ok (de_st x) → load (Forecast.PredictedRPS (de_resp x)) →
  (fval p1 <= fval (Forecast.PredictedRPS (de_resp x)) <= fval p2)%Q →
  (fval p2 <= inject_Z MaxInt32 * inject_Z (rps_min aas))%Q →
  t <= de_now x <= now' →
  let o := sd_Cap (de_decision cfg aas x) in
  let st' := if co_ShouldPatch o then record_scale (de_st x) (co_Target o) (de_current x) (de_now x) else de_st x in
  fewest aas p1 <= most aas p2 ∧
  in_loop cfg aas p1 p2 loop_next
    (mkLoop (de_current x) (last_scale true (de_st x)) (last_scale false (de_st x)) t)
    (mkLoop (if co_ShouldPatch o then co_Target o else de_current x) (last_scale true st') (last_scale false st') now').
Proof.
  intros Had Hest Hload Hpred Hmax Hnow. cbn zeta.
  pose proof (decision_in_band aas cfg x p1 p2 Had Hest Hp1 Hp2 Hload Hpred Hmax) as Hin.
  split; [lia|]. rewrite <- (recorded_clocks _ _ _ t).
  destruct (decision_input cfg aas x) as (i & Ei & Hcl & _ & Hi).
  exists (ci_Recommended i), (ci_BindingReason i), (de_now x), now'.
  split; [unfold clamped in Hin; by rewrite Hcl in Hin|]. split; [done|].
  rewrite Ei. unfold loop_input. cbn [ls_Current ls_LastUp ls_LastDown]. by rewrite <- Hi.
Qed.

(** The count that the status reports is the Deployment's. *)
Lemma decision_target aas x :
  admitted cfg aas → 0 <= de_current x <= max_count →
  let o := sd_Cap (de_decision cfg aas x) in
  (if co_ShouldPatch o then co_Target o else de_current x) = co_Target o.
Proof.
  intros Had Hcur. cbn zeta. destruct (decision_input cfg aas x) as (i & -> & _ & _ & Hi).
  pose proof (decision_cap_ok cfg aas x (admitted_well_configured _ _ Had) Hcur i Hi) as Hok.
  rewrite (cap_follows_design _ Hok). destruct (cap_design_toward i (ck_step _ Hok)) as (_ & _ & Hne).
  destruct (co_ShouldPatch (cap_design i)); [done|]. assert (de_current x = ci_Current i) as -> by (by rewrite Hi).
  destruct (decide (co_Target (cap_design i) = ci_Current i)) as [->|Hd]; [done|]. by apply Hne in Hd.
Qed.

Lemma cr_loop_params aas :
  admitted cfg aas → fewest aas p1 <= most aas p2 →
  (0 <= fewest aas p1 <= most aas p2 ∧ most aas p2 <= max_count) ∧
  1 <= ep_MaxStep (effective cfg aas) <= max_count ∧
  (0 <= ep_CooldownUp (effective cfg aas) ∧ in_i32 (ep_CooldownUp (effective cfg aas))) ∧
  (0 <= ep_CooldownDown (effective cfg aas) ∧ in_i32 (ep_CooldownDown (effective cfg aas))).
Proof.
  intros Had Hle. destruct (admitted_well_configured _ _ Had). pose proof (band_range aas Had).
  split; [lia|]. split; [done|]. by split.
Qed.

Lemma loaded_estimate_observed aas σ x :
  states_ok σ → (∀ st, view σ key = Some st → estimate_ok st) → deciding (W := W) cfg key aas σ x →
  number (de_rps x) →
  de_current x <= max_count →
  estimate_ok (de_st x) ∧ pc_Initialized (de_st x) = true ∧
  ∀ up, last_scale up (de_st x) = last_scale up (loaded σ key aas).
Proof.
  intros Hok Hest Hx Hnum Hcur. pose proof (dc_observed _ _ _ _ _ Hx) as Hobs.
  destruct (observe_rps_spec cfg _ (de_rps x) (de_current x) (de_now x) (loaded_window σ key aas Hok))
    as (st & Hst & _ & Hu & Hd & Hi). rewrite Hobs in Hst. injection Hst as <-. split.
  - refine (observe_estimate _ _ _ _ _ _ _ _ Hnum _ Hobs);
      [by apply loaded_window|by apply loaded_estimate|unfold max_count, MaxInt32 in *; lia].
  - rewrite Hi. split; [apply loaded_initialized|]. by intros [].
Qed.

(** One reconcile is a decision of the loop. *)
Lemma reconcile_step aas n s :
  undisturbed cfg key aas n s → (fval p2 <= inject_Z MaxInt32 * inject_Z (rps_min aas))%Q →
  (Reconcile cfg key s).1 = Finished (cfg_ReconcileInterval cfg) None ∧
  ∃ aas' n', undisturbed cfg key aas' n' (Reconcile cfg key s).2 ∧ alike aas aas' ∧ tells n' aas' ∧
    fewest aas p1 <= most aas p2 ∧
    in_loop cfg aas p1 p2 loop_next (loop_of key aas n s) (loop_of key aas' n' (Reconcile cfg key s).2).
Proof.
  intros Hu Hmax. pose proof (undisturbed_loop_ok _ _ _ _ _ Hu) as Hlok.
  destruct Hu as [Hok Hest Hcr Halone Had Hact (d & Hd & Hn) Hcount Hpast].
  pose proof (live_decides cfg key p1 p2 s aas d Hok Hcr Hact Hd) as Hdec.
  pose proof (Reconcile_states_ok cfg key s Hok) as Hok'.
  pose proof (Reconcile_retargets_none cfg key s Hok) as Hrt.
  destruct (Reconcile cfg key s) as [o s']. cbn [fst snd] in *.
  destruct Hdec as (x & k & w & Hx & Hacted & Ho & Hst & Hpath & Hdx & Hnow & Hnum & Hload & Hpred).
  assert (de_current x = n) as Hcur by (unfold de_current; by rewrite Hdx).
  assert (newest w key = Some aas) as Hcrw by (unfold newest; by rewrite (st_versions _ _ Hst)).
  rewrite <- (st_deployments _ _ Hst) in Hd. rewrite <- (st_hpas _ _ Hst) in Hact. rewrite <- Hdx in Hd.
  destruct (live_acts cfg key aas _ x k _ w _ Hcrw Hact Hd Hacted Hpath) as (Hout & Hstore & Hdep & aas' & Hcr' & Hal & Hstatus).
  rewrite Hout in Ho. split; [exact Ho|]. destruct (path_frame _ _ _ Hpath) as [Hh Hwall].
  destruct (loaded_estimate_observed aas _ x Hok Hest Hx Hnum ltac:(lia)) as (Hex & Hinit & Hls).
  destruct (decision_loop_next aas x (wall (cs_world s')) (wall (cs_world s)) Had Hex Hload Hpred Hmax) as [Hband Hnext];
    [lia|].
  set (out := sd_Cap (de_decision cfg aas x)) in *.
  set (st' := if co_ShouldPatch out then record_scale (de_st x) (co_Target out) (de_current x) (de_now x) else de_st x) in *.
  set (n' := if co_ShouldPatch out then co_Target out else de_current x) in *.
  assert (estimate_ok st' ∧ pc_Initialized st' = true) as [Hest' Hinit'].
  { unfold st', record_scale. destruct (co_ShouldPatch out), (decide (co_Target out > de_current x)); by destruct Hex. }
  assert (∀ a, loaded (cs_store s') key a = st') as Hloaded by (intros a; by eapply loaded_stored).
  assert (loop_of key aas n s = mkLoop (de_current x) (last_scale true (de_st x)) (last_scale false (de_st x)) (wall (cs_world s))) as El
    by (unfold loop_of; by rewrite !Hls, Hcur).
  rewrite El in Hlok. destruct (cr_loop_params aas Had Hband) as (HA & HB & HC & HD).
  destruct (loop_next_progress _ _ _ _ _ HA HB HC HD _ _ Hlok Hnext) as ([Hc' Hu' Hd'] & _).
  exists aas', n'. split; [|split; [exact Hal|split; [|split; [exact Hband|]]]].
  - split.
    + exact Hok'.
    + intros st Hv. destruct Hstore as (_ & Hv' & _). congruence.
    + exact Hcr'.
    + intros k' a Hk' Ha. rewrite (alike_target _ _ Hal). apply (Halone k' a Hk').
      by rewrite <- (rt_others _ _ _ Hrt k' Hk').
    + by eapply alike_admitted.
    + rewrite Hh, (alike_namespace _ _ Hal). by eapply alike_active.
    + rewrite (alike_target _ _ Hal). eexists. split; [exact Hdep|]. unfold n'. by destruct (co_ShouldPatch out).
    + exact Hc'.
    + intros up. rewrite Hloaded. destruct up; [exact Hu'|exact Hd'].
  - unfold tells. rewrite Hstatus. split; [done|]. simpl. symmetry.
    exact (decision_target aas x Had ltac:(by rewrite Hcur)).
  - unfold loop_of. rewrite !Hloaded. rewrite <- El in Hnext. exact Hnext.
Qed.

(** What happens elsewhere is a pause of the loop. *)
Lemma meanwhile_step aas n s s' d :
  undisturbed cfg key aas n s → 0 <= d → meanwhile key (target_of aas) d (cs_world s) (cs_world s') →
  states_ok (cs_store s') → view (cs_store s') key = view (cs_store s) key →
  undisturbed cfg key aas n s' ∧ loop_waits d (loop_of key aas n s) (loop_of key aas n s').
Proof.
  intros [Hok Hest Hcr Halone Had Hact Hd Hcount Hpast] Hd0 [Mcr Mdep Mhpa Malone Mwall] Hok' Hv.
  assert (∀ a, loaded (cs_store s') key a = loaded (cs_store s) key a) as Hl
    by (intros a; unfold loaded; by rewrite Hv).
  split.
  - split; [done|by rewrite Hv|by rewrite Mcr|done|done|exact (eq_ind_r (active aas) Hact Mhpa)|by rewrite Mdep|done|].
    intros up. rewrite Hl. specialize (Hpast up). lia.
  - unfold loop_of, loop_waits. cbn [ls_Now ls_Current ls_LastUp ls_LastDown]. by rewrite !Hl.
Qed.

(** So is the reconcile of another CR. *)
Lemma other_reconcile aas n s k :
  undisturbed cfg key aas n s → k ≠ key →
  undisturbed cfg key aas n (Reconcile cfg k s).2 ∧
  loop_waits 0 (loop_of key aas n s) (loop_of key aas n (Reconcile cfg k s).2).
Proof.
  intros Hu Hk. pose proof (ud_store _ _ _ _ _ Hu) as Hok. apply meanwhile_step; [done|lia| | |].
  - pose proof (Reconcile_retargets_none cfg k s Hok) as [Ho Ht]. destruct (Reconcile_frame cfg k s) as [Hh Hw].
    pose proof (ud_alone _ _ _ _ _ Hu) as Halone. split.
    + by apply Ho.
    + apply Reconcile_others_deployments; [done|]. intros a. by apply Halone.
    + apply Hh.
    + intros k' a Hk' Ha. destruct (decide (k' = k)) as [->|Hne].
      * destruct (Ht a Ha) as (a0 & Ha0 & ->). by eapply Halone.
      * rewrite Ho in Ha by done. by eapply Halone.
    + lia.
  - by apply Reconcile_states_ok.
  - by apply Reconcile_view.
Qed.

(** The process at work is a run of the loop. *)
Lemma turns_run aas n s d s' :
  turns cfg key (target_of aas) d s s' → undisturbed cfg key aas n s → tells n aas →
  (fval p2 <= inject_Z MaxInt32 * inject_Z (rps_min aas))%Q →
  ∃ aas' n', undisturbed cfg key aas' n' s' ∧ alike aas aas' ∧ tells n' aas' ∧
    in_loop cfg aas p1 p2 loop_run d (loop_of key aas n s) (loop_of key aas' n' s').
Proof.
  intros Ht Hu Htl Hmax. induction Ht as [s|d s s1 k Ht IH|d e s s1 w Ht IH He Hm].
  - exists aas, n. split_and!; [done..|constructor].
  - destruct (IH Hu) as (aas1 & n1 & Hu1 & Hal & Htl1 & Hr1).
    destruct (decide (k = key)) as [->|Hk].
    + destruct (reconcile_step aas1 n1 s1 Hu1) as (_ & aas2 & n2 & Hu2 & Hal2 & Htl2 & _ & Hn).
      { by rewrite (alike_rps_min _ _ Hal). }
      exists aas2, n2. split; [done|]. split; [by etransitivity|]. split; [done|].
      rewrite (alike_in_loop cfg _ _ p1 p2 loop_next Hal) in Hn.
      eapply lr_decides; [exact Hr1|exact Hn].
    + destruct (other_reconcile aas1 n1 s1 k Hu1 Hk) as [Hu2 Hw].
      exists aas1, n1. do 3 (split; [done|]). rewrite <- (Z.add_0_r d). by eapply lr_waits.
  - destruct (IH Hu) as (aas1 & n1 & Hu1 & Hal & Htl1 & Hr1).
    rewrite <- (alike_target _ _ Hal) in Hm.
    destruct (meanwhile_step aas1 n1 s1 (with_world s1 w) e Hu1 He Hm) as [Hu2 Hw]; [apply Hu1|done|].
    exists aas1, n1. do 3 (split; [done|]). by eapply lr_waits.
Qed.

(** A round of the process is a round of the loop. *)
Lemma round_loop aas n s s' :
  round cfg key (target_of aas) s s' → undisturbed cfg key aas n s →
  (fval p2 <= inject_Z MaxInt32 * inject_Z (rps_min aas))%Q →
  ∃ aas' n', undisturbed cfg key aas' n' s' ∧ alike aas aas' ∧ tells n' aas' ∧ fewest aas p1 <= most aas p2 ∧
    in_loop cfg aas p1 p2 loop_round (cfg_ReconcileInterval cfg) (loop_of key aas n s) (loop_of key aas' n' s').
Proof.
  intros (d & Ht & Hd) Hu Hmax.
  destruct (reconcile_step aas n s Hu Hmax) as (_ & aas1 & n1 & Hu1 & Hal1 & Htl1 & Hb & Hn).
  rewrite <- (alike_target _ _ Hal1) in Ht.
  destruct (turns_run aas1 n1 _ _ _ Ht Hu1 Htl1) as (aas2 & n2 & Hu2 & Hal2 & Htl2 & Hr).
  { by rewrite (alike_rps_min _ _ Hal1). }
  exists aas2, n2. split; [done|]. split; [by etransitivity|]. split; [done|]. split; [done|].
  exists d, (loop_of key aas1 n1 (Reconcile cfg key s).2). split; [exact Hn|]. split; [|done].
  rewrite (alike_in_loop cfg _ _ p1 p2 loop_run Hal1) in Hr. exact Hr.
Qed.

(** So [m] rounds of the one are [m] rounds of the other. *)
Lemma rounds_loop aas n s m s' :
  undisturbed cfg key aas n s → (fval p2 <= inject_Z MaxInt32 * inject_Z (rps_min aas))%Q →
  nsteps (round cfg key (target_of aas)) m s s' →
  ∃ aas' n', undisturbed cfg key aas' n' s' ∧ alike aas aas' ∧
    ((0 < m)%nat → tells n' aas' ∧ fewest aas p1 <= most aas p2) ∧
    nsteps (in_loop cfg aas p1 p2 loop_round (cfg_ReconcileInterval cfg)) m (loop_of key aas n s)
      (loop_of key aas' n' s').
Proof.
  intros Hu Hmax. revert s'. induction m as [|m IH]; intros s' Hm.
  { inversion Hm; subst. exists aas, n. split; [done|]. split; [done|]. split; [lia|constructor]. }
  apply nsteps_inv_r in Hm as (s1 & Hm & Hr). destruct (IH s1 Hm) as (aas1 & n1 & Hu1 & Hal1 & _ & Hs1).
  rewrite <- (alike_target _ _ Hal1) in Hr.
  destruct (round_loop aas1 n1 s1 s' Hr Hu1) as (aas2 & n2 & Hu2 & Hal2 & Htl2 & Hb2 & Hs2).
  { by rewrite (alike_rps_min _ _ Hal1). }
  exists aas2, n2. split; [done|]. split; [by etransitivity|]. split.
  - intros _. split; [done|]. by destruct (alike_band _ _ Hal1 p1 p2) as [<- <-].
  - eapply nsteps_r; [exact Hs1|]. by rewrite <- (alike_in_loop cfg _ _ p1 p2 loop_round Hal1).
Qed.
End closed_loop.

(** ** The ends of the band *)
Section ends.
Context `{GoPlatform} (cfg : Config) (aas : AgenticAutoscaler).
Hypothesis Had : admitted cfg aas.

Lemma bound_capacity z : 0 < z <= MaxInt32 → capacity (f64_of_Z z) ∧ (fval (f64_of_Z z) == inject_Z z)%Q.
Proof. intros Hz. split; [by apply capacity_of_i32|]. apply f64_of_i32. int_lia. Qed.

(** A load beyond what all the pods can serve at their best calls for all of them. *)
Lemma fewest_overload p :
  load p → (fval p <= inject_Z MaxInt32 * inject_Z (rps_max aas))%Q →
  (inject_Z (max_replicas aas) * inject_Z (rps_max aas) <= fval p)%Q → fewest aas p = max_replicas aas.
Proof.
  intros Hp Hmax Hover. destruct (admitted_rps _ _ Had) as [Hb Hm]. pose proof (admitted_bounds _ _ Had).
  destruct (bound_capacity (rps_max aas) ltac:(lia)) as [Hc Ec].
  destruct (unbounded_ceiling p _ Hp Hc ltac:(by rewrite Ec)) as (Hn & _ & Hex).
  assert (max_replicas aas <= ComputeUnboundedRecommended p (f64_of_Z (rps_max aas))) as Hle.
  { destruct (Qlt_le_dec (inject_Z (max_replicas aas) * inject_Z (rps_max aas)) (fval p)) as [Hlt|Hge].
    - assert (max_replicas aas < Qceiling (fval p / fval (f64_of_Z (rps_max aas)))); [|lia].
      rewrite Zlt_Qlt. eapply Qlt_le_trans; [|apply Qle_ceiling]. apply Qlt_shift_div_l; [apply Hc|].
      by rewrite Ec.
    - rewrite (Hex (max_replicas aas)); [lia|]. rewrite Ec. lra. }
  unfold fewest, clamped, ClampRecommended. split_decisions; simpl; lia.
Qed.

(** A load that the least number of pods serves at their worst calls for no more. *)
Lemma most_underload p :
  load p → (fval p <= inject_Z (min_replicas aas) * inject_Z (rps_min aas))%Q →
  most aas p = min_replicas aas.
Proof.
  intros Hp Hunder. destruct (admitted_rps _ _ Had) as [Hb Hm]. pose proof (admitted_bounds _ _ Had).
  pose proof (ad_size _ _ Had). unfold max_count, MaxInt32 in *.
  destruct (bound_capacity (rps_min aas)) as [Hc Ec]; [unfold MaxInt32; lia|].
  assert (0 < inject_Z (rps_min aas))%Q as Hr0 by (rewrite <- Ec; apply Hc).
  assert (fval p / fval (f64_of_Z (rps_min aas)) <= inject_Z (min_replicas aas))%Q as Hq
    by (apply Qle_shift_div_r; [apply Hc|by rewrite Ec]).
  destruct (unbounded_ceiling p _ Hp Hc) as (Hn & _ & _).
  { rewrite Ec. eapply Qle_trans; [exact Hunder|]. apply Qmult_le_compat_r; [|lra].
    rewrite <- Zle_Qle. unfold MaxInt32. lia. }
  pose proof (Qceiling_le _ _ Hq). unfold most, clamped, ClampRecommended. split_decisions; simpl; lia.
Qed.

Lemma band_top p1 p2 n :
  load p1 → (fval p1 <= fval p2)%Q → (fval p2 <= inject_Z MaxInt32 * inject_Z (rps_min aas))%Q →
  fewest aas p1 <= n <= most aas p2 →
  (inject_Z (max_replicas aas) * inject_Z (rps_max aas) <= fval p1)%Q → n = max_replicas aas.
Proof.
  intros Hp1 Hle Hmax Hin Hover. destruct (admitted_rps _ _ Had) as [[_ Hr] _].
  rewrite (fewest_overload p1 Hp1) in Hin; [| |done].
  - pose proof (admitted_bounds _ _ Had).
    pose proof (clamped_range aas (ComputeUnboundedRecommended p2 (f64_of_Z (rps_min aas))) ltac:(lia)).
    unfold most in Hin. lia.
  - apply (Qle_trans _ (fval p2)); [done|]. eapply Qle_trans; [exact Hmax|].
    apply Qmult_le_l; [done|]. by rewrite <- Zle_Qle.
Qed.

Lemma band_bottom p1 p2 n :
  load p2 → fewest aas p1 <= n <= most aas p2 →
  (fval p2 <= inject_Z (min_replicas aas) * inject_Z (rps_min aas))%Q → n = min_replicas aas.
Proof.
  intros Hp2 Hin Hunder. rewrite (most_underload p2 Hp2 Hunder) in Hin. pose proof (admitted_bounds _ _ Had).
  pose proof (clamped_range aas (ComputeUnboundedRecommended p1 (f64_of_Z (rps_max aas))) ltac:(lia)).
  unfold fewest in Hin. lia.
Qed.
End ends.

(** Claim C5: the closed loop converges. In a healthy cluster, let the forecasts lie between
    [p1] and [p2], whatever load Prometheus reports, and let nobody else act on an admitted
    CR that is not paused, or on its Deployment. The process reconciles it at least once per
    requeue interval, at its timer and whenever its status has changed, among the reconciles
    of any other CRs and whatever else happens in the cluster. Then the Deployment goes from
    [n] replicas into the band of counts that such forecasts call for, between what [p1]
    needs on the strongest pods the CR allows for and what [p2] needs on the weakest, within
    [k * q + 1] intervals when the band is [k] steps away and [q] intervals cover the
    cooldowns; and there it stays at every later moment, with the count in the CR's status,
    and every reconcile asks for the next one. A load beyond what maxReplicas pods serve at
    rpsPerPodMax ends at maxReplicas, one that minReplicas pods serve at rpsPerPodMin at
    minReplicas, whatever the per-pod estimate has learned. *)
Theorem closed_loop_converges {W} `{!ApiServer W} `{!PromQuerier W} `{!Forecaster W} `{!Clock W}
    `{GoPlatform} `{!LiveCluster W} `{!VersionedServer W} `{!ServerLaws W} `{!LiveLaws W}
    cfg key p1 p2 `{!Workload W cfg p1 p2} aas n (s s1 s' : CtlState W) (q k m : nat) d :
  undisturbed cfg key aas n s → load p1 → load p2 →
  (fval p2 <= inject_Z MaxInt32 * inject_Z (rps_min aas))%Q →
  0 <= cfg_ReconcileInterval cfg → (1 <= q)%nat →
  Z.max (ep_CooldownUp (effective cfg aas)) (ep_CooldownDown (effective cfg aas)) * Second <=
    Z.of_nat q * cfg_ReconcileInterval cfg →
  fewest aas p1 - n <= Z.of_nat k * ep_MaxStep (effective cfg aas) →
  n - most aas p2 <= Z.of_nat k * ep_MaxStep (effective cfg aas) →
  (k * q < m)%nat →
  nsteps (round cfg key (target_of aas)) m s s1 → turns cfg key (target_of aas) d s1 s' →
  (Reconcile cfg key s').1 = Finished (cfg_ReconcileInterval cfg) None ∧
  ∃ aas' n', undisturbed cfg key aas' n' s' ∧ alike aas aas' ∧
    tells n' aas' ∧ fewest aas p1 <= n' <= most aas p2 ∧
    ((inject_Z (max_replicas aas) * inject_Z (rps_max aas) <= fval p1)%Q → n' = max_replicas aas) ∧
    ((fval p2 <= inject_Z (min_replicas aas) * inject_Z (rps_min aas))%Q → n' = min_replicas aas).
Proof.
  intros Hu Hp1 Hp2 Hmax Hint Hq Hcool Hlo Hhi Hm Hrounds Hturns. pose proof (ud_admitted _ _ _ _ _ Hu) as Had.
  destruct (rounds_loop cfg key p1 p2 Hp1 Hp2 aas n s m s1 Hu Hmax Hrounds) as (aas1 & n1 & Hu1 & Hal1 & Ht1 & Hs1).
  destruct (Ht1 ltac:(lia)) as [Htells Hband].
  destruct (cr_loop_params cfg p1 p2 aas Had Hband) as (HA & HB & HC & HD).
  rewrite <- (alike_target _ _ Hal1) in Hturns. pose proof (alike_rps_min _ _ Hal1) as Er1.
  destruct (turns_run cfg key p1 p2 Hp1 Hp2 aas1 n1 s1 d s' Hturns Hu1 Htells) as (aas' & n' & Hu' & Hal' & Ht' & Hrun);
    [by rewrite Er1|]. rewrite (alike_in_loop cfg _ _ p1 p2 loop_run Hal1) in Hrun.
  assert (alike aas aas') as Hal by by etransitivity. split.
  { by apply (reconcile_step cfg key p1 p2 Hp1 Hp2 aas' n' s' Hu'); rewrite (alike_rps_min _ _ Hal). }
  exists aas', n'. do 3 (split; [done|]).
  assert (fewest aas p1 <= n' <= most aas p2) as Hin.
  { refine (loop_stays_in_band _ _ _ _ _ HA HB HC HD _ q Hint Hcool Hq k m _ _ _ d
      (undisturbed_loop_ok _ _ _ _ _ Hu) _ Hm Hs1 Hrun). unfold gap, loop_of. cbn [ls_Current]. nia. }
  split; [exact Hin|]. split.
  - apply (band_top cfg aas Had p1 p2 n' Hp1); [|exact Hmax|exact Hin].
    destruct (wl_forecast (Forecast.mkRequest [] EmptyString EmptyString None) (cs_world s)) as (resp & _ & _ & Hf). lra.
  - exact (band_bottom cfg aas Had p1 p2 n' Hp2 Hin).
Qed.

(** Two CRs of the site. In a round, one is reconciled, then the other, then the first again,
    because its status has changed; then a minute passes. *)
Definition site_cr : AgenticAutoscaler := Eval vm_compute in stored 1 sample_cr.
Definition site_other : AgenticAutoscaler := Eval vm_compute in
  mkAAS "ns" "batch" "other-0" ∅ None
    (mkSpec (mkRef "apps/v1" "Deployment" "batch") (Some 1) (Some 5) (Some 10) (Some 100) None None None None)
    empty_status.
Definition site_pair : CtlState Site :=
  mkCtl (mkSite [site_other; site_cr] {[ demo_key := Some 2; mkNN "ns" "batch" := Some 1 ]}
           [("ns", mkHPA "other" "Deployment" "elsewhere")] (1000000 * Second))
    NewStateStore None no_samples None [].
Definition site_tick (d : Duration) (w : Site) : Site :=
  mkSite (si_log w) (si_deployments w) (si_hpas w) (si_now w + d).
Definition site_reconciles (s : CtlState Site) : CtlState Site :=
  (Reconcile (H := amd64) demo_config demo_key
     (Reconcile (H := amd64) demo_config (mkNN "ns" "batch") (Reconcile (H := amd64) demo_config demo_key s).2).2).2.
Definition site_round (s : CtlState Site) : CtlState Site :=
  let s := site_reconciles s in with_world s (site_tick Minute (cs_world s)).
Definition site_after (m : nat) : CtlState Site := Nat.iter m site_round site_pair.

(** The first goes from two replicas into its band, from 6 to 10; the other to its maximum. *)
Example site_converges :
  (λ m, (mjoin (si_deployments (cs_world (site_after m)) !! demo_key),
         mjoin (si_deployments (cs_world (site_after m)) !! mkNN "ns" "batch"))) <$> [0; 1; 2; 6; 9]%nat =
    [(Some 2, Some 1); (Some 6, Some 5); (Some 7, Some 5); (Some 10, Some 5); (Some 10, Some 5)].
Proof. vm_compute. reflexivity. Qed.

Definition site_targets (w : Site) : Prop :=
  Forall (λ a, aas_key a = demo_key ∨ target_of a ≠ demo_key) (si_log w).

#[local] Instance site_targets_dec w : Decision (site_targets w).
Proof. unfold site_targets. apply _. Defined.

Lemma site_targets_alone w : site_targets w → alone demo_key demo_key w.
Proof.
  intros Ht k a Hk Ha. unfold newest in Ha. rewrite last_lookup in Ha. apply list_elem_of_lookup_2 in Ha.
  pose proof (sl_key w k a Ha) as Hkey. simpl in Ha. apply list_elem_of_filter in Ha as [_ Ha].
  apply elem_of_lookup_imap in Ha as (i & b & -> & Hb%list_elem_of_lookup_2).
  unfold site_targets in Ht. rewrite Forall_forall in Ht. destruct (Ht b Hb) as [Hb'|Hb']; [|exact Hb'].
  destruct Hk. by rewrite <- Hkey.
Qed.

Lemma site_round_ok s :
  site_targets (cs_world (site_reconciles s)) → round (H := amd64) demo_config demo_key demo_key s (site_round s).
Proof.
  intros Ht. exists (0 + Minute). split; [|vm_compute; congruence]. unfold site_round, site_reconciles.
  apply tn_meanwhile; [repeat constructor|unfold Minute; lia|]. apply site_targets_alone in Ht.
  split; [done|done|done|exact Ht|]. simpl. lia.
Qed.

Lemma site_rounds_ok m s :
  Forall (λ i, site_targets (cs_world (site_reconciles (Nat.iter i site_round s)))) (seq 0 m) →
  nsteps (round (H := amd64) demo_config demo_key demo_key) m s (Nat.iter m site_round s).
Proof.
  induction m as [|m IH]; intros Ht; [constructor|]. rewrite seq_S in Ht. apply Forall_app in Ht as [Ht Hm].
  rewrite Forall_singleton in Hm. eapply nsteps_r; [by apply IH|]. by apply site_round_ok.
Qed.

Lemma site_undisturbed : undisturbed demo_config demo_key site_cr 2 site_pair.
Proof.
  split.
  - apply states_ok_new.
  - intros st. unfold view, Get. simpl. by rewrite lookup_empty.
  - vm_compute. reflexivity.
  - apply site_targets_alone, (bool_decide_unpack _). vm_compute. exact I.
  - apply (admitted_rewrite demo_config (demo_cr demo_start)); [apply demo_admitted|done|done].
  - split; [by vm_compute|by vm_compute|]. vm_compute. by repeat constructor.
  - eexists. split; [vm_compute; reflexivity|done].
  - unfold max_count. lia.
  - intros []; vm_compute; congruence.
Qed.

Lemma closed_loop_converges_witness :
  undisturbed demo_config demo_key site_cr 2 site_pair ∧
  ∃ aas' n', undisturbed demo_config demo_key aas' n' (site_after 6) ∧ tells n' aas' ∧ 6 <= n' <= 10.
Proof.
  split; [exact site_undisturbed|].
  destruct (@closed_loop_converges Site _ _ _ _ amd64 _ _ _ _ demo_config demo_key forecast_from forecast_to _
    site_cr 2 site_pair (site_after 6) (site_after 6) 5 1 6 0 site_undisturbed)
    as (_ & aas' & n' & Hu & _ & Ht & Hb & _).
  - apply load_of_i32. unfold MaxInt32. lia.
  - apply load_of_i32. unfold MaxInt32. lia.
  - vm_compute. congruence.
  - vm_compute. congruence.
  - lia.
  - vm_compute. congruence.
  - vm_compute. congruence.
  - vm_compute. congruence.
  - lia.
  - apply (site_rounds_ok 6 site_pair), (bool_decide_unpack _). vm_compute. exact I.
  - constructor.
  - exists aas', n'. split; [exact Hu|]. split; [exact Ht|]. exact Hb.
Defined.

(** The controller is called on every change of a CR, its own status writes included. At the
    same moment and under the same load, the first reconcile reports a new forecast, and
    the next one an estimate that the first has moved: each is the cause of another. *)
Definition site_status (s : CtlState Site) : option AgenticAutoscalerStatus :=
  aas_Status <$> newest (cs_world s) demo_key.
Definition site_again (s : CtlState Site) : CtlState Site := (Reconcile (H := amd64) demo_config demo_key s).2.

Example site_wakes_itself :
  let s := site_after 7 in
  (si_now (cs_world (site_again (site_again s))) = si_now (cs_world s)) ∧
  site_status (site_again s) ≠ site_status s ∧ site_status (site_again (site_again s)) ≠ site_status (site_again s).
Proof. cbn zeta. split; [vm_compute; reflexivity|]. split; vm_compute; discriminate. Qed.
