(* ===== verification/Commits.v ===== *)
(** * Concurrent writers of one object

    Who can change what in the histories of Server.v: no activity ever undoes the work of
    another, what a write has put down stays until a writer of the same part replaces it,
    and a cluster whose authors are checked at admission never holds another CR. *)
From S2P Require Import Prelude Float64 Reasoning Config Api State Decision Webhook.
From S2P Require Import Classifier Adapters Interfaces Worker Manager Metrics Controller.
From S2P Require Import ReconcileCases Scaling Demo Guarantees System Server.

(** ** What the transcripts write *)

Lemma reconcile_writes cfg key t1 aas r t2 :
  reconcile_transcript cfg key (t1 ++ EStatus aas r :: t2) →
  ∃ aas0 st, EGetAAS key (Ok aas0) ∈ t1 ∧ aas = set_status st aas0 ∧
    st_ClassifiedParams st = st_ClassifiedParams (aas_Status aas0).
Proof.
  intros (W & ? & ? & ? & ? & ? & s & Hok & Hlog).
  destruct (Reconcile_log cfg key s _ Hok Hlog) as (k & E & Hc).
  destruct t1 as [|e t1]; simplify_eq/=.
  destruct (GetAAS key (cs_world s)).1 as [aas0|err]; [|by destruct t1].
  destruct Hc as [_ Hc%reconciled_owned]. apply Forall_app in Hc as [_ [(st & -> & Hst) _]%Forall_cons].
  exists aas0, st. split; [by left|done].
Qed.

(** A write of a worker follows the read of the object it changes. *)
Definition worker_write (w : Worker) (t1 : list WorkerEffect) (e : WorkerEffect) : Prop :=
  match e with
  | WStatusUpdate aas _ => ∃ aas0 cp, WGet (wk_Key w) (Ok aas0) ∈ t1 ∧
      cp_bounded (wk_MinReplicas w) (wk_MaxReplicas w) cp ∧
      aas = set_status (set_classified cp (aas_Status aas0)) aas0
  | WUpdate aas _ => ∃ aas0, WGet (wk_Key w) (Ok aas0) ∈ t1 ∧
      aas = set_annotations (delete AnnotationReclassify (aas_Annotations aas0)) aas0
  | _ => True
  end.

Lemma worker_write_mono w t t1 e : worker_write w t1 e → worker_write w (t ++ t1) e.
Proof. destruct e; simpl; try done; naive_solver set_solver. Qed.

Lemma worker_log_writes {W} `{!ApiServer W} w t :
  worker_log (W := W) w (cp_computed (wk_MinReplicas w) (wk_MaxReplicas w)) t →
  ∀ t1 e t2, t = t1 ++ e :: t2 → worker_write w t1 e.
Proof.
  assert (∀ x k, (∀ t1 e t2, k = t1 ++ e :: t2 → worker_write w t1 e) → worker_write w [] x →
    ∀ t1 e t2, x :: k = t1 ++ e :: t2 → worker_write w t1 e) as Hcons.
  { intros x k IH Hx t1 e t2 E. destruct t1 as [|x' t1]; simplify_eq/=; [done|].
    by apply (worker_write_mono w [x']), (IH t1 e t2). }
  assert (∀ x y k, (∀ t1 e t2, k = t1 ++ e :: t2 → worker_write w t1 e) → worker_write w [] x →
    worker_write w [x] y → ∀ t1 e t2, x :: y :: k = t1 ++ e :: t2 → worker_write w t1 e) as Hcons2.
  { intros x y k IH Hx Hy t1 e t2 E. destruct t1 as [|x' [|y' t1]]; simplify_eq/=; [done|done|].
    by apply (worker_write_mono w [x'; y']), (IH t1 e t2). }
  induction 1; [by intros []|by apply Hcons..|idtac|idtac].
  - apply Hcons; [|done]. apply Hcons2; [done|done|]. eexists _, _. split; [by left|].
    by match goal with H : cp_computed _ _ _ _ |- _ => destruct H end.
  - apply Hcons2; [done|done|]. eexists. split; [by left|done].
Qed.

Lemma worker_writes w t1 e t2 : worker_transcript w (t1 ++ e :: t2) → worker_write w t1 e.
Proof.
  intros (W & ? & ? & ? & ? & s & its & Hlog).
  destruct (run_worker_logs w _ its (pipelines_admissible w) s) as (k & Hk & Hl).
  rewrite Hk in Hlog. apply app_inv_head in Hlog as ->. by eapply worker_log_writes.
Qed.

(** ** Who changes what *)

(** The version [new] that an event of an activity may add after [cur]: a reconcile
    changes the status of its CR but for the classification, a worker the classification
    or its own annotation, a user anything but the status. *)
Definition authorised (a : Activity) (ev : SysEvent) (cur : option AgenticAutoscaler)
    (new : AgenticAutoscaler) : Prop :=
  match a, ev with
  | Reconciling _ key, EvReconcile (EStatus _ _) =>
      ∃ c rv st, cur = Some c ∧ aas_key c = key ∧ new = set_version rv (set_status st c) ∧
        st_ClassifiedParams st = st_ClassifiedParams (aas_Status c)
  | Working w, EvWorker (WStatusUpdate _ _) =>
      ∃ c rv cp, cur = Some c ∧ aas_key c = wk_Key w ∧
        cp_bounded (wk_MinReplicas w) (wk_MaxReplicas w) cp ∧
        new = set_version rv (set_status (set_classified (stored_classified cp) (aas_Status c)) c)
  | Working w, EvWorker (WUpdate _ _) =>
      ∃ c rv, cur = Some c ∧ aas_key c = wk_Key w ∧
        new = set_version rv (set_annotations (delete AnnotationReclassify (aas_Annotations c)) c)
  | Authoring, EvCreate aas => ∃ rv, new = set_version rv aas ∧ aas_Status new = empty_status
  | Authoring, EvEdit aas => ∃ c rv, cur = Some c ∧ new = set_version rv aas ∧ aas_Status new = aas_Status c
  | _, _ => False
  end.

Section owners.
Context {S : Type} `{!VersionedServer S} `{!ServerLaws S} (act : nat → Activity) (s0 : S).

Lemma accepts_grows s s' aas f key :
  accepts s s' aas f → versions s key `prefix_of` versions s' key.
Proof.
  intros (cur & _ & _ & [[Hu _]|(rv & Hc & Ho)]); [by rewrite Hu|].
  destruct (decide (key = aas_key aas)) as [->|Hk]; [rewrite Hc; by apply prefix_app_r|by rewrite Ho].
Qed.

Lemma commits_grows s s' key key' new :
  commits s s' key new → versions s key' `prefix_of` versions s' key'.
Proof.
  intros [Hc Ho]. destruct (decide (key' = key)) as [->|Hk]; [rewrite Hc; by apply prefix_app_r|by rewrite Ho].
Qed.

Lemma serves_grows s ev s' key : serves s ev s' → versions s key `prefix_of` versions s' key.
Proof.
  intros Hs. assert (untouched s s' → versions s key `prefix_of` versions s' key) as Hu by (by intros ->).
  destruct (status_write ev) as [[aas ok]|] eqn:E1.
  { destruct (sl_status _ _ _ _ _ Hs E1) as [Ha|[? _]]; [by eapply accepts_grows|auto]. }
  destruct (object_write ev) as [[aas ok]|] eqn:E2.
  { destruct (sl_update _ _ _ _ _ Hs E2) as [Ha|[? _]]; [by eapply accepts_grows|auto]. }
  destruct ev as [e|e|aas|aas]; [by eapply Hu, sl_other..| |].
  - destruct (sl_create _ _ _ Hs) as [?|(rv & Hc & _)]; [auto|by eapply commits_grows].
  - destruct (sl_edit _ _ _ Hs) as [?|(cur & rv & _ & Hc & _)]; [auto|by eapply commits_grows].
Qed.

(** A version is known by its number. *)
Lemma version_unique s key a b :
  a ∈ versions s key → b ∈ versions s key → aas_ResourceVersion a = aas_ResourceVersion b → a = b.
Proof.
  intros [i Hi]%list_elem_of_lookup [j Hj]%list_elem_of_lookup Hrv.
  assert (i = j) as ->; [|by simplify_eq].
  eapply NoDup_lookup; [apply (sl_distinct s key)|..]; rewrite list_lookup_fmap; [by rewrite Hi|].
  rewrite Hj. simpl. by rewrite Hrv.
Qed.

(** What was read stays among the versions. *)
Lemma history_read l s i ev key aas :
  history act s0 l s → (i, ev) ∈ l → read_of ev = Some (key, aas) → aas ∈ versions s key.
Proof.
  intros Hh Hin Hr. revert i ev Hin Hr. revert l s Hh.
  refine (history_ind act s0 (λ l s, ∀ i ev, (i, ev) ∈ l → read_of ev = Some (key, aas) → aas ∈ versions s key)
    _ _); [set_solver|].
  intros l s j ev' s' _ _ Hs IH i ev Hin Hr.
  destruct (serves_grows s ev' s' key Hs) as [k ->]. apply elem_of_app. left.
  apply elem_of_app in Hin as [Hin|Hin]; [by eapply IH|].
  apply list_elem_of_singleton in Hin as [= -> ->]. by eapply sl_read.
Qed.

(** The newest object with the version of an object that was read is that object. *)
Lemma current_is_read s aas0 cur key :
  aas0 ∈ versions s key → last (versions s (aas_key aas0)) = Some cur →
  aas_ResourceVersion cur = aas_ResourceVersion aas0 → cur = aas0 ∧ aas_key aas0 = key.
Proof.
  intros Hin Hlast Hrv. pose proof (sl_key _ _ _ Hin) as Hk. split; [|done].
  rewrite Hk in Hlast. eapply version_unique; [|exact Hin|exact Hrv].
  apply list_elem_of_lookup. exists (pred (length (versions s key))). by rewrite <- last_lookup.
Qed.

(** What an accepted write leaves of the object, when the writer has read it. *)
Lemma accepts_authorised a ev s s' aas aas0 f key :
  accepts s s' aas f → aas0 ∈ versions s key → aas_key aas = aas_key aas0 →
  aas_ResourceVersion aas = aas_ResourceVersion aas0 →
  (∀ rv, authorised a ev (Some aas0) (set_version rv (f aas0))) →
  ∀ k, versions s' k = versions s k ∨
    ∃ new, versions s' k = versions s k ++ [new] ∧ authorised a ev (last (versions s k)) new.
Proof.
  intros (cur & Hlast & Hrv & Hc) Hin Hk Hrv' Ha k. rewrite Hk in Hlast, Hc. rewrite Hrv' in Hrv.
  destruct (current_is_read _ _ _ _ Hin Hlast Hrv) as [-> _].
  destruct Hc as [[Hu _]|(rv & Hc & Ho)]; [left; apply Hu|].
  destruct (decide (k = aas_key aas0)) as [->|Hne]; [right|left; by apply Ho].
  exists (set_version rv (f aas0)). rewrite Hc, Hlast. by split.
Qed.

(** One event, and the versions it makes. *)
Definition authorised_step (a : Activity) (ev : SysEvent) (s s' : S) : Prop :=
  ∀ k, versions s' k = versions s k ∨
    ∃ new, versions s' k = versions s k ++ [new] ∧ authorised a ev (last (versions s k)) new.

Lemma untouched_step a ev s s' : untouched s s' → authorised_step a ev s s'.
Proof. intros Hu k. left. apply Hu. Qed.

(** The objects an activity has read are among the versions. *)
Definition has_read (s : S) (evs : list SysEvent) : Prop :=
  ∀ ev k a, ev ∈ evs → read_of ev = Some (k, a) → a ∈ versions s k.

Lemma reconcile_event cfg key s s' t1 e t2 :
  has_read s (EvReconcile <$> t1) → reconcile_transcript cfg key (t1 ++ e :: t2) →
  serves s (EvReconcile e) s' → authorised_step (Reconciling cfg key) (EvReconcile e) s s'.
Proof.
  intros Hread Ht Hs. destruct e; try (by eapply untouched_step, sl_other).
  destruct (reconcile_writes _ _ _ _ _ _ Ht) as (aas0 & st & Hin & -> & Hst).
  assert (aas0 ∈ versions s key) as H0.
  { eapply (Hread (EvReconcile (EGetAAS key (Ok aas0)))); [by apply list_elem_of_fmap_2|done]. }
  destruct (sl_status _ _ _ _ _ Hs eq_refl) as [Ha|[Hu _]]; [|by apply untouched_step].
  unfold authorised_step. eapply accepts_authorised; [exact Ha|exact H0|done|done|].
  intros rv. exists aas0, rv, (stored_status st). split_and!; [done|by eapply sl_key|done|].
  simpl. rewrite Hst. apply sl_stored in H0. by apply (f_equal st_ClassifiedParams) in H0.
Qed.

Lemma worker_event w s s' t1 e t2 :
  has_read s (EvWorker <$> t1) → worker_transcript w (t1 ++ e :: t2) →
  serves s (EvWorker e) s' → authorised_step (Working w) (EvWorker e) s s'.
Proof.
  intros Hread Ht Hs. pose proof (worker_writes _ _ _ _ Ht) as Hw.
  assert (∀ aas0, WGet (wk_Key w) (Ok aas0) ∈ t1 → aas0 ∈ versions s (wk_Key w)) as Hr.
  { intros aas0 Hin. by eapply (Hread (EvWorker _)); [apply list_elem_of_fmap_2|]. }
  destruct e; try (by eapply untouched_step, sl_other).
  - destruct Hw as (aas0 & cp & Hin%Hr & Hcp & ->).
    destruct (sl_status _ _ _ _ _ Hs eq_refl) as [Ha|[Hu _]]; [|by apply untouched_step].
    unfold authorised_step. eapply accepts_authorised; [exact Ha|exact Hin|done|done|].
    intros rv. exists aas0, rv, cp. split_and!; [done|by eapply sl_key|done|].
    f_equal. f_equal. apply sl_stored in Hin. rewrite <- Hin at 2. done.
  - destruct Hw as (aas0 & Hin%Hr & ->).
    destruct (sl_update _ _ _ _ _ Hs eq_refl) as [Ha|[Hu _]]; [|by apply untouched_step].
    unfold authorised_step. eapply accepts_authorised; [exact Ha|exact Hin|done|done|].
    intros rv. exists aas0, rv. split_and!; [done|by eapply sl_key|done].
Qed.

Lemma author_event s ev s' : authored ev = true → serves s ev s' → authorised_step Authoring ev s s'.
Proof.
  intros Ha Hs. destruct ev as [e|e|aas|aas]; try done.
  - destruct (sl_create _ _ _ Hs) as [Hu|(rv & [Hc Ho] & Hst)]; [by apply untouched_step|].
    intros k. destruct (decide (k = aas_key aas)) as [->|Hk]; [right|left; by apply Ho].
    eexists. split; [exact Hc|]. by exists rv.
  - destruct (sl_edit _ _ _ Hs) as [Hu|(cur & rv & Hl & [Hc Ho] & Hst)]; [by apply untouched_step|].
    intros k. destruct (decide (k = aas_key aas)) as [->|Hk]; [right|left; by apply Ho].
    eexists. split; [exact Hc|]. rewrite Hl. by exists cur, rv.
Qed.

Lemma events_of_snoc i l ev : events_of i (l ++ [(i, ev)]) = events_of i l ++ [ev].
Proof. rewrite events_of_app. unfold events_of. by rewrite filter_cons_True. Qed.

Lemma history_event l i ev s s' :
  history act s0 l s → history act s0 (l ++ [(i, ev)]) s' → serves s ev s' → authorised_step (act i) ev s s'.
Proof.
  intros Hh [_ Hp] Hs. specialize (Hp i). rewrite events_of_snoc in Hp.
  assert (has_read s (events_of i l)) as Hread.
  { intros ev' k a Hin%events_of_elem. by eapply history_read. }
  revert Hp Hread. generalize (events_of i l). intros evs Hp Hread.
  destruct (act i) as [cfg k|w|]; simpl in Hp.
  - destruct Hp as (t & t' & E & Ht). symmetry in E. apply fmap_app_inv in E as (t1 & t2 & -> & E & ->).
    destruct t2 as [|e [|]]; simplify_eq/=. rewrite <- app_assoc in Ht. by eapply reconcile_event.
  - destruct Hp as (t & t' & E & Ht). symmetry in E. apply fmap_app_inv in E as (t1 & t2 & -> & E & ->).
    destruct t2 as [|e [|]]; simplify_eq/=. rewrite <- app_assoc in Ht. by eapply worker_event.
  - apply Forall_app in Hp as [_ [Ha _]%Forall_cons]. apply (author_event _ ev); [by destruct ev|done].
Qed.

(** ** The shape of a history *)

Lemma history_prefix l1 l2 s1 s2 :
  history act s0 (l1 ++ l2) s2 → served s0 l1 s1 → history act s0 l1 s1.
Proof.
  intros [_ Hp] Hs. split; [done|]. intros k. eapply possible_prefix. rewrite <- events_of_app. apply Hp.
Qed.

(** What the events of [l2] keep of the object, each of them, they keep together. *)
Lemma kept_along (R : AgenticAutoscaler → AgenticAutoscaler → Prop) `{!PreOrder R} key l1 l2 s1 s2 cur :
  history act s0 (l1 ++ l2) s2 → served s0 l1 s1 → served s1 l2 s2 →
  (∀ j ev c new, (j, ev) ∈ l2 → aas_key c = key → aas_key new = key → authorised (act j) ev (Some c) new →
     R new c) →
  last (versions s1 key) = Some cur →
  ∃ c, last (versions s2 key) = Some c ∧ R c cur.
Proof.
  intros Hh Hs1 Hs2 Hpart Hcur. revert s2 Hh Hs2 Hpart.
  induction l2 as [|[j ev] l2 IH] using rev_ind; intros s2 Hh Hs2 Hpart.
  - apply served_nil_inv in Hs2 as ->. by exists cur.
  - apply served_snoc_inv in Hs2 as (s' & Hs2 & Hev). rewrite app_assoc in Hh.
    assert (served s0 (l1 ++ l2) s') as Hs' by (apply served_app; by exists s1).
    pose proof (history_prefix _ _ _ _ Hh Hs') as Hh'.
    destruct (IH s' Hh' Hs2) as (c & Hc & Hpc).
    { intros k ev' c new Hin. apply Hpart. set_solver. }
    destruct (history_event _ _ _ _ _ Hh' Hh Hev key) as [Heq|(new & Heq & Ha)]; rewrite Heq; [by exists c|].
    rewrite last_snoc. exists new. split; [done|]. rewrite <- Hpc. rewrite Hc in Ha.
    assert (c ∈ versions s' key) as Hin
      by (rewrite last_lookup in Hc; by eapply list_elem_of_lookup_2).
    eapply (Hpart j ev); [set_solver|by eapply sl_key| |exact Ha].
    eapply (sl_key s2). rewrite Heq. set_solver.
Qed.
End owners.

(** ** A concrete history

    A reconcile reads the CR, a worker classifies it meanwhile, the reconcile's status is
    refused, and a second reconcile writes its own over the classification. *)
Record Snapshot := mkSnapshot { sn_cr : AgenticAutoscaler; sn_accepts : bool }.

#[export] Instance snapshot_api : ApiServer Snapshot := {|
  GetAAS _ := λ w, (Ok (sn_cr w), w);
  UpdateAASStatus _ := λ w, (if sn_accepts w then Ok () else Err (OtherError "conflict"), w);
  UpdateAAS _ := mret (Ok ());
  GetDeployment key := mret (Ok (mkDeployment (nn_Namespace key) (nn_Name key) ∅ (Some 2)));
  ListHPA _ := mret (Ok []);
  UpdateScale _ _ := mret (Ok ());
|}.
#[export] Instance snapshot_clock : Clock Snapshot := mret (1000000 * Second + 1).
#[export] Instance snapshot_metrics : PromQuerier Snapshot := {|
  pq_InstantQuery _ := mret (Ok (f64_of_Z 1200));
  pq_RangeQuery _ _ _ _ := mret (Ok (replicate 12 (Prometheus.mkSample 0 (f64_of_Z 1200))));
|}.
#[export] Instance snapshot_forecaster : Forecaster Snapshot :=
  λ _, mret (Ok (Forecast.mkResponse (f64_of_Z 1200) 10 "linear_extrap")).

Definition snapshot_state (cr : AgenticAutoscaler) (ok : bool) : CtlState Snapshot :=
  mkCtl (mkSnapshot cr ok) NewStateStore None no_samples None [].
Definition snapshot_reconcile (cr : AgenticAutoscaler) (ok : bool) : list Effect :=
  cs_log (@Reconcile Snapshot _ _ _ _ amd64 demo_config demo_key (snapshot_state cr ok)).2.
Definition snapshot_worker : Worker :=
  new_worker (NewManager (mkWorkerConfig (30 * Minute) (24 * Hour) 10 240 60 0 0 f0)) sample_cr.
Definition snapshot_run (cr : AgenticAutoscaler) : list WorkerEffect :=
  ws_log (@run_worker Snapshot _ _ _ amd64 snapshot_worker [[]] (mkWorkerState (mkSnapshot cr true) 0 [])).2.

Definition demo_act (i : nat) : Activity :=
  match i with
  | 1 | 3 => Reconciling demo_config demo_key
  | 2 => Working snapshot_worker
  | _ => Authoring
  end%nat.

Definition demo_version (s : list AgenticAutoscaler) : AgenticAutoscaler :=
  default sample_cr (last (log_versions s demo_key)).
Definition v0 : AgenticAutoscaler := Eval vm_compute in stored 0 sample_cr.
Definition demo_patched : list WorkerEffect := Eval vm_compute in snapshot_run v0.
Definition demo_refused : list Effect := Eval vm_compute in snapshot_reconcile v0 false.
Definition before_patch : list (nat * SysEvent) :=
  (0%nat, EvCreate sample_cr) :: (pair 1%nat ∘ EvReconcile <$> removelast demo_refused) ++
  (pair 2%nat ∘ EvWorker <$> take 2 demo_patched).
Definition demo_patch : SysEvent :=
  Eval vm_compute in EvWorker (default (WGet demo_key (Err (NotFound EmptyString))) (demo_patched !! 2%nat)).
Definition v1 : AgenticAutoscaler :=
  Eval vm_compute in
    default v0 (s ← log_run [] (before_patch ++ [(2%nat, demo_patch)]); last (log_versions s demo_key)).
Definition after_patch : list (nat * SysEvent) :=
  Eval vm_compute in
    (pair 2%nat ∘ EvWorker <$> drop 3 demo_patched) ++
    (pair 1%nat ∘ EvReconcile <$> drop (pred (length demo_refused)) demo_refused) ++
    (pair 3%nat ∘ EvReconcile <$> snapshot_reconcile v1 true).
Definition demo_history : list (nat * SysEvent) :=
  Eval vm_compute in before_patch ++ (2%nat, demo_patch) :: after_patch.
Definition demo_final : list AgenticAutoscaler := Eval vm_compute in default [] (log_run [] demo_history).

(** Claim C6: nobody writes another's part. Merge the transcripts of any number of
    reconciles and workers, finished or interrupted, with the edits of the CRs' authors,
    in any order that the API server can have served. Then every version of a CR differs
    from the one before it only by what its writer owns: a reconcile changes only the
    status of its own CR and never the classification, a worker only the classification
    (to an admissible one) or its own annotation, an author never the status. In
    particular no write that was computed from an older version is ever applied. *)
Theorem writers_keep_to_their_part {S} `{!VersionedServer S} `{!ServerLaws S} act (s0 : S) l s key n new :
  history act s0 l s → (length (versions s0 key) <= n)%nat → versions s key !! n = Some new →
  ∃ i ev, (i, ev) ∈ l ∧ authorised (act i) ev (last (take n (versions s key))) new.
Proof.
  intros Hh Hn. revert l s Hh.
  refine (history_ind act s0 (λ l s, versions s key !! n = Some new →
    ∃ i ev, (i, ev) ∈ l ∧ authorised (act i) ev (last (take n (versions s key))) new) _ _).
  - intros Hl. apply lookup_lt_Some in Hl. lia.
  - intros l s i ev s' Hh Hh' Hs IH Hl.
    destruct (history_event act s0 l i ev s s' Hh Hh' Hs key) as [E|(new' & E & Ha)]; rewrite E in *.
    { destruct (IH Hl) as (j & ev' & Hin & Ha). exists j, ev'. split; [set_solver|done]. }
    apply lookup_app_Some in Hl as [Hl|[Hlen Hl]].
    + pose proof (lookup_lt_Some _ _ _ Hl). rewrite take_app_le by lia.
      destruct (IH Hl) as (j & ev' & Hin & Ha'). exists j, ev'. split; [set_solver|done].
    + apply list_lookup_singleton_Some in Hl as [Hz ->].
      assert (n = length (versions s key)) as -> by lia.
      rewrite take_app_length. exists i, ev. split; [set_solver|done].
Qed.
(** The history above is one of the log server. *)
Lemma demo_history_served : served [] demo_history demo_final.
Proof. apply log_run_served. vm_compute. reflexivity. Qed.

Lemma states_ok_snapshot cr ok : states_ok (cs_store (snapshot_state cr ok)).
Proof. apply states_ok_new. Qed.

Lemma snapshot_reconcile_transcript cr ok :
  reconcile_transcript demo_config demo_key (snapshot_reconcile cr ok).
Proof.
  exists Snapshot, _, _, _, _, amd64, (snapshot_state cr ok). split; [apply states_ok_snapshot|done].
Qed.

Lemma demo_possible i : possible (demo_act i) (events_of i demo_history).
Proof.
  destruct i as [|[|[|[|i]]]].
  - by repeat constructor.
  - exists (snapshot_reconcile v0 false), []. split; [by vm_compute|]. rewrite app_nil_r.
    apply snapshot_reconcile_transcript.
  - exists (snapshot_run v0), []. split; [by vm_compute|]. rewrite app_nil_r.
    exists Snapshot, _, _, _, amd64, (mkWorkerState (mkSnapshot v0 true) 0 []), [[]]. done.
  - exists (snapshot_reconcile v1 true), []. split; [by vm_compute|]. rewrite app_nil_r.
    apply snapshot_reconcile_transcript.
  - simpl. constructor.
Qed.

Lemma demo_is_history : history demo_act [] demo_history demo_final.
Proof. split; [apply demo_history_served|apply demo_possible]. Qed.

(** The second version is the worker's. *)
Lemma writers_keep_to_their_part_witness :
  ∃ new i ev, log_versions demo_final demo_key !! 1%nat = Some new ∧ (i, ev) ∈ demo_history ∧
    authorised (demo_act i) ev (last (take 1 (log_versions demo_final demo_key))) new.
Proof.
  assert (∃ new, log_versions demo_final demo_key !! 1%nat = Some new) as (new & Hnew)
    by (eexists; vm_compute; reflexivity).
  destruct (writers_keep_to_their_part demo_act [] demo_history demo_final demo_key 1%nat new
    demo_is_history (Nat.le_0_l 1) Hnew) as (i & ev & Hin & Ha).
  exists new, i, ev. split_and!; done.
Defined.

(** What a status write is for: a worker's for the classification, a reconcile's for the
    rest. *)
Definition unclassified (st : AgenticAutoscalerStatus) : AgenticAutoscalerStatus :=
  mkStatus (st_Phase st) (st_ConflictReason st) (st_CurrentReplicas st) (st_RecommendedReplicas st)
    (st_UnboundedRecommended st) (st_PredictedRPS st) (st_RpsPerPodCurrent st) (st_LastScaleTime st) None.
Definition same_part (ev : SysEvent) (st st' : AgenticAutoscalerStatus) : Prop :=
  match ev with
  | EvWorker _ => st_ClassifiedParams st = st_ClassifiedParams st'
  | _ => unclassified st = unclassified st'
  end.

(** The events of an activity that replace that part of the CR at [key]. *)
Definition replaces (key : NamespacedName) (ev : SysEvent) (a : Activity) (ev' : SysEvent) : Prop :=
  match a, ev', ev with
  | Reconciling _ k, EvReconcile (EStatus _ _), EvReconcile _ => k = key
  | Working w, EvWorker (WStatusUpdate _ _), EvWorker _ => wk_Key w = key
  | Authoring, EvCreate aas, _ => aas_key aas = key
  | _, _, _ => False
  end.

#[export] Instance same_part_preorder ev : PreOrder (λ a b, same_part ev (aas_Status a) (aas_Status b)).
Proof. split; [intros a; by destruct ev|]. intros a b c. destruct ev; simpl; congruence. Qed.

Lemma unreplaced_part ev a ev' c new :
  status_write ev ≠ None → authorised a ev' (Some c) new → aas_key c = aas_key new →
  ¬ replaces (aas_key c) ev a ev' → same_part ev (aas_Status new) (aas_Status c).
Proof.
  intros Hw Ha Hk Hr. destruct a as [cfg k|w|], ev' as [[]|[]|aas|aas]; simpl in Ha; try done.
  - destruct Ha as (c0 & rv & st & [= <-] & Hkey & -> & Hst). destruct ev as [[]|[]|?|?]; simpl in *; done.
  - destruct Ha as (c0 & rv & cp & [= <-] & Hkey & _ & ->). by destruct ev as [[]|[]|?|?].
  - destruct Ha as (c0 & rv & [= <-] & _ & ->). by destruct ev.
  - destruct Ha as (rv & -> & _). destruct ev; simpl in *; by rewrite Hk in Hr.
  - destruct Ha as (c0 & rv & [= <-] & _ & ->). destruct ev; simpl; by f_equal.
Qed.

(** An accepted status write, as the newest version of the CR. *)
Lemma accepted_status {S} `{!VersionedServer S} `{!ServerLaws S} (s : S) ev s' aas :
  serves s ev s' → status_write ev = Some (aas, true) →
  ∃ cur, last (versions s' (aas_key aas)) = Some cur ∧ aas_Status cur = stored_status (aas_Status aas).
Proof.
  intros Hs Hw. destruct (sl_status _ _ _ _ _ Hs Hw) as [Ha|[_ ?]]; [|done].
  destruct Ha as (cur & Hl & _ & [[Hu Hc]|(rv & [Hc _])]).
  - exists cur. rewrite Hu. split; [done|]. by rewrite <- Hc.
  - eexists. rewrite Hc, last_snoc. by split.
Qed.

(** Claim C7: no status write is lost. When the API server accepts a classification of a
    worker, it is the classification of the newest version, to the second, for as long as
    no worker of the CR writes another and the CR is not created anew, whatever reconciles
    were under way that had read the CR before: their writes fail. In the same way the
    scaling status of a reconcile outlives every classification, patched at the same time
    or later. *)
Theorem status_writes_survive {S} `{!VersionedServer S} `{!ServerLaws S} act (s0 : S) l1 i ev l2 s aas :
  history act s0 (l1 ++ (i, ev) :: l2) s → status_write ev = Some (aas, true) →
  (∀ j ev', (j, ev') ∈ l2 → ¬ replaces (aas_key aas) ev (act j) ev') →
  ∃ cur, last (versions s (aas_key aas)) = Some cur ∧
    same_part ev (aas_Status cur) (stored_status (aas_Status aas)).
Proof.
  intros Hh Hw Hl2. rewrite cons_middle, app_assoc in Hh.
  pose proof Hh as [Hs _]. apply served_app in Hs as (s2 & Hs2 & Hs).
  pose proof Hs2 as Hs1. apply served_snoc_inv in Hs1 as (s1 & _ & Hev).
  destruct (accepted_status _ _ _ _ Hev Hw) as (cur & Hcur & <-).
  apply (kept_along act s0 (λ a b, same_part ev (aas_Status a) (aas_Status b)) _ _ _ _ _ _ Hh Hs2 Hs); [|done].
  intros j ev' c new Hin Hk Hk' Ha. apply (unreplaced_part ev (act j) ev'); [by rewrite Hw|done|congruence|].
  rewrite Hk. by apply Hl2.
Qed.

(** The worker's classification survives the reconcile that had read the CR before it and
    the one after. *)
Lemma status_writes_survive_witness :
  ∃ aas cur, status_write demo_patch = Some (aas, true) ∧
    last (log_versions demo_final demo_key) = Some cur ∧
    same_part demo_patch (aas_Status cur) (stored_status (aas_Status aas)).
Proof.
  assert (∃ aas, status_write demo_patch = Some (aas, true) ∧ aas_key aas = demo_key) as (aas & Hw & Hk)
    by (eexists; split; vm_compute; reflexivity).
  destruct (status_writes_survive demo_act [] before_patch 2%nat demo_patch after_patch demo_final aas
    demo_is_history Hw) as (cur & Hl & Hp).
  { assert (Forall (λ p, ¬ replaces (aas_key aas) demo_patch (demo_act p.1) p.2) after_patch) as Hf
      by (unfold after_patch; repeat constructor; by intros []).
    intros j ev' Hin. exact (proj1 (Forall_forall _ _) Hf _ Hin). }
  rewrite Hk in Hl. exists aas, cur. split_and!; done.
Defined.

(** ** Admission is enough *)

(** What an author submits passes admission: its spec is an admitted one. *)
Definition submits (ev : SysEvent) : option AgenticAutoscaler :=
  match ev with EvCreate aas | EvEdit aas => Some aas | _ => None end.
Definition spec_admitted (cfg : Config) (aas : AgenticAutoscaler) : Prop :=
  admitted cfg (set_status empty_status aas).

Lemma spec_admitted_spec cfg aas aas' :
  spec_admitted cfg aas → aas_Spec aas' = aas_Spec aas →
  (∀ cp, st_ClassifiedParams (aas_Status aas') = Some cp → cp_usable cp) → admitted cfg aas'.
Proof. intros Ha Hs. by apply (admitted_rewrite cfg (set_status empty_status aas)). Qed.

Lemma authorised_admitted cfg a ev cur new :
  (∀ c, cur = Some c → admitted cfg c) → (∀ aas, submits ev = Some aas → spec_admitted cfg aas) →
  (∀ w, a = Working w → worker_fits w) → authorised a ev cur new → admitted cfg new.
Proof.
  intros Hcur Hsub Hw Ha. destruct a as [? k|w|], ev as [[]|[]|aas|aas]; simpl in Ha; try done.
  - destruct Ha as (c & rv & st & Hc & _ & -> & Hst). pose proof (Hcur c Hc) as Had.
    apply (admitted_rewrite cfg c); [done|done|]. simpl. rewrite Hst. apply Had.
  - destruct Ha as (c & rv & cp & Hc & _ & Hcp & ->). pose proof (Hcur c Hc) as Had.
    apply (admitted_rewrite cfg c); [done|done|]. simpl. intros cp' [= <-].
    by destruct (admissible_usable w cp (Hw w eq_refl) Hcp).
  - destruct Ha as (c & rv & Hc & _ & ->). pose proof (Hcur c Hc) as Had.
    apply (admitted_rewrite cfg c); [done|done|]. apply Had.
  - destruct Ha as (rv & -> & Hst). apply (spec_admitted_spec cfg aas); [by apply Hsub|done|].
    by rewrite Hst.
  - destruct Ha as (c & rv & Hc & -> & Hst). apply (spec_admitted_spec cfg aas); [by apply Hsub|done|].
    rewrite Hst. by apply Hcur.
Qed.

Lemma versions_admitted {S} `{!VersionedServer S} `{!ServerLaws S} cfg act (s0 : S) l s :
  history act s0 l s →
  (∀ key aas, aas ∈ versions s0 key → admitted cfg aas) →
  (∀ i ev aas, (i, ev) ∈ l → submits ev = Some aas → spec_admitted cfg aas) →
  (∀ i w, act i = Working w → ∃ m cr, admitted cfg cr ∧ w = new_worker m cr) →
  ∀ key aas, aas ∈ versions s key → admitted cfg aas.
Proof.
  intros Hh H0 Hsub Hw.
  revert l s Hh Hsub. refine (history_ind act s0 (λ l s, _ → ∀ key aas, aas ∈ versions s key → admitted cfg aas) _ _);
    [done|].
  intros l s i ev s' Hh Hh' Hs IH Hsub.
  assert (∀ key aas, aas ∈ versions s key → admitted cfg aas) as IHs
    by (apply IH; intros j ev' aas Hin; apply (Hsub j ev'); set_solver).
  intros key aas. destruct (history_event act s0 l i ev s s' Hh Hh' Hs key) as [E|(new & E & Ha)];
    rewrite E; [apply IHs|].
  intros [Hin| ->%list_elem_of_singleton]%elem_of_app; [by eapply IHs|].
  eapply authorised_admitted; [| |intros w Ew; destruct (Hw i w Ew) as (m & cr & Hcr & ->); exact (new_worker_fits cfg m cr Hcr)|exact Ha].
  - intros c Hc. rewrite last_lookup in Hc. eapply IHs, list_elem_of_lookup_2, Hc.
  - intros aas' Hs'. apply (Hsub i ev); [set_solver|done].
Qed.

(** Claim C21: Admission is enough. Start from a server that holds admitted CRs only (an
    empty one, for example) and let what authors create and edit pass admission: the
    webhook and the CRD schema, and, which neither checks, a [maxReplicas] and a configured
    default step of at most [2^30 - 1] ([spec_admitted]). Then after any history of
    reconciles, workers and authors, every version of every CR is an admitted one, and so
    was every CR that a reconcile or a worker read on the way: what the theorems about the
    decisions assume of the cluster holds by itself. *)
Theorem versions_stay_admitted {S} `{!VersionedServer S} `{!ServerLaws S} cfg act (s0 : S) l s :
  history act s0 l s →
  (∀ key aas, aas ∈ versions s0 key → admitted cfg aas) →
  (∀ i ev aas, (i, ev) ∈ l → submits ev = Some aas → spec_admitted cfg aas) →
  (∀ i w, act i = Working w → ∃ m cr, admitted cfg cr ∧ w = new_worker m cr) →
  (∀ key aas, aas ∈ versions s key → admitted cfg aas) ∧
  (∀ i ev key aas, (i, ev) ∈ l → read_of ev = Some (key, aas) → admitted cfg aas).
Proof.
  intros Hh H0 Hsub Hw. pose proof (versions_admitted cfg act s0 l s Hh H0 Hsub Hw) as Hall.
  split; [done|]. intros i ev key aas Hin Hr. eapply Hall, history_read; eauto.
Qed.

(** The demonstration's CR is classified and scaled, and admitted throughout. *)
Lemma versions_stay_admitted_witness :
  spec_admitted demo_config sample_cr ∧ ∀ aas, aas ∈ log_versions demo_final demo_key → admitted demo_config aas.
Proof.
  assert (spec_admitted demo_config sample_cr) as Hs.
  { apply (admitted_rewrite demo_config (demo_cr demo_start)); [apply demo_admitted|done|done]. }
  split; [exact Hs|]. intros aas.
  refine (proj1 (versions_stay_admitted demo_config demo_act [] demo_history demo_final demo_is_history _ _ _) demo_key aas).
  - intros key a Hin. by apply elem_of_nil in Hin.
  - intros i ev a Hin Ha.
    assert (forallb (λ p, from_option (λ a, bool_decide (a = sample_cr)) true (submits p.2)) demo_history = true)
      as Hf by (vm_compute; reflexivity).
    rewrite forallb_forall in Hf. apply list_elem_of_In, Hf in Hin. simpl in Hin. rewrite Ha in Hin.
    apply bool_decide_eq_true in Hin as ->. exact Hs.
  - intros i w E. exists (NewManager (mkWorkerConfig (30 * Minute) (24 * Hour) 10 240 60 0 0 f0)), sample_cr.
    split; [by eapply spec_admitted_spec|].
    destruct i as [|[|[|[|i]]]]; simpl in E; simplify_eq. done.
Defined.
