(* ===== verification/Programs.v ===== *)
(** * Running programs

    The guarantees about decisions and the one about histories, put together: what the
    controller, the workers and the CRs' authors do on one world, with no other assumption
    on the CRs than that the webhook checks what authors submit. *)
From S2P Require Import Prelude Float64 FloatRound Reasoning Config Api State Decision Webhook.
From S2P Require Import Classifier Adapters Interfaces Worker Manager Metrics Controller.
From S2P Require Import ReconcileCases Scaling Demo Guarantees System Server Replay Site Commits.

Section programs.
Context {W S : Type} `{!ApiServer W} `{!PromQuerier W} `{!Forecaster W} `{!Clock W} `{GoPlatform}.
Context `{!VersionedServer S} (crs : W → S) (cfg : Config) (act : nat → Activity) (s0 : CtlState W).

(** A program is a run of the controller: what the others do is its environment. *)
Lemma program_run l s : program crs cfg act s0 l s → rtc (step cfg) s0 s.
Proof.
  induction 1 as [|l s i key k _ IH _ _ _|l s i w its t0 _ IH _ _ ws|l s i ev w _ IH _ _ _
    |l s w m me ex _ IH _]; [apply rtc_refl|..]; (eapply rtc_r; [exact IH|]);
    [apply step_reconcile|apply step_environment..].
Qed.

(** The controller's log is in the history. *)
Lemma program_log l s e :
  program crs cfg act s0 l s → e ∈ cs_log s → e ∈ cs_log s0 ∨ ∃ i, (i, EvReconcile e) ∈ l.
Proof.
  induction 1 as [|l s i key k _ IH _ _ Hk|l s i w its t0 _ IH _ _ ws|l s i ev w _ IH _ _ _
    |l s w m me ex _ IH _]; intros He; [by left| | | |by apply IH].
  - rewrite Hk in He. apply elem_of_app in He as [He|He].
    + destruct (IH He) as [?|[j Hj]]; [by left|]. right. exists j. by apply elem_of_app; left.
    + right. exists i. apply elem_of_app. right. apply list_elem_of_fmap. by exists e.
  - destruct (IH He) as [?|[j Hj]]; [by left|]. right. exists j. by apply elem_of_app; left.
  - destruct (IH He) as [?|[j Hj]]; [by left|]. right. exists j. by apply elem_of_app; left.
Qed.

Context `{!ServerLaws S} `{!Coherent crs}.

(** Every CR the controller read is a version the API server holds. *)
Lemma program_reads l s key aas :
  started s0 → program crs cfg act s0 l s → EGetAAS key (Ok aas) ∈ cs_log s →
  aas ∈ versions (crs (cs_world s)) key.
Proof.
  intros [Hσ Hl] Hp Hin. destruct (program_log l s _ Hp Hin) as [Hin'|[i Hi]].
  - rewrite Hl in Hin'. by apply not_elem_of_nil in Hin'.
  - destruct (program_history crs cfg act s0 l s) as [_ Hh]; [rewrite Hσ; apply states_ok_new|done|].
    by eapply history_read.
Qed.

(** ** Admission is all that is needed *)

(** The CRs at the start, those the authors submit and those the workers were started for
    pass admission. *)
Record admission (l : list (nat * SysEvent)) : Prop := {
  am_start : ∀ key aas, aas ∈ versions (crs (cs_world s0)) key → admitted cfg aas;
  am_submitted : ∀ i ev aas, (i, ev) ∈ l → submits ev = Some aas → spec_admitted cfg aas;
  am_workers : ∀ i w, act i = Working w → ∃ m cr, admitted cfg cr ∧ w = new_worker m cr;
}.

(** The replica counts that the cluster reported. *)
Definition sized (k : list Effect) : Prop :=
  ∀ target d, EGetDeployment target (Ok d) ∈ k → 0 <= deref_or (dep_Replicas d) 1 <= max_count.

Context (l : list (nat * SysEvent)) (s : CtlState W).
Hypothesis Hs0 : started s0.
Hypothesis Hprog : program crs cfg act s0 l s.
Hypothesis Hsized : sized (cs_log s).

(** Where a patch of a program comes from. *)
Lemma program_origin p :
  EScale p ∈ cs_log s →
  ∃ s1 aas x k, origin cfg s0 s p s1 aas x k ∧ aas ∈ versions (crs (cs_world s)) (pa_cr p) ∧
    0 <= de_current x <= max_count.
Proof.
  intros Hp. pose proof (program_run l s Hprog) as Hr.
  destruct (patch_origin cfg s0 s p Hs0 Hr Hp) as (s1 & aas & x & k & Ho).
  assert (∀ e, e ∈ EGetAAS (pa_cr p) (Ok aas) :: transcript cfg (pa_cr p) aas x → e ∈ cs_log s) as Hlog.
  { intros e He. pose proof (rtc_grows cfg s0 (Reconcile cfg (pa_cr p) s1).2 s Hs0) as Hg.
    destruct Hg as [k' ->]; [eapply rtc_r; [apply Ho|apply step_reconcile]|apply Ho|].
    rewrite (or_log _ _ _ _ _ _ _ _ Ho). rewrite !elem_of_app, elem_of_cons, elem_of_app.
    apply elem_of_cons in He as [?|?]; tauto. }
  exists s1, aas, x, k. split; [done|]. split.
  - apply (program_reads l); [done..|]. apply Hlog. by left.
  - apply (Hsized (mkNN (aas_Namespace aas) (deploy_name aas))), Hlog. right. unfold transcript. set_solver.
Qed.

Hypothesis Hadm : admission l.

Lemma program_admitted key aas : aas ∈ versions (crs (cs_world s)) key → admitted cfg aas.
Proof.
  destruct Hs0 as [Hσ _], Hadm as [H0 Hsub Hw].
  destruct (program_history crs cfg act s0 l s) as [_ Hh]; [rewrite Hσ; apply states_ok_new|done|].
  by apply (versions_admitted cfg act (crs (cs_world s0)) l).
Qed.

Lemma program_fits : Forall (fits cfg) (cs_log s).
Proof.
  apply Forall_forall. intros [key [aas|]| | | | | | |p| | |] Hin; try done.
  - apply (program_admitted key). by apply (program_reads l).
  - destruct (program_origin p Hin) as (s1 & aas & x & k & Ho & _ & Hc). simpl.
    by rewrite (or_patch _ _ _ _ _ _ _ _ Ho).
Qed.
End programs.

(** Claim C8: running programs scale safely, and admission is all it takes. Take any
    interleaving of whole reconciles of any CRs, whole runs of classification workers, CRs
    created and edited by their authors, and anything else changing in between, on a world
    whose CRs are kept by a lawful API server. Suppose that the CRs there at the start and
    what the authors submit pass admission (with the bounds on sizes in [admitted]), that
    the workers were started for such CRs, and that no count reported for a Deployment
    exceeds [2^30 - 1]. Then every patch of
    the run was decided on a version of its CR that the server has held, and that was
    admitted, with no kill switch on it, no deletion pending, no conflicting HPA and enough
    history; it stays within that version's bounds and effective step, asks for at least
    one replica, and comes no earlier than that version's cooldown after the last patch in
    its direction that the controller remembers. And of a CR that was there whenever it
    was read and of which no version that the server ever held has a cooldown below [c],
    two patches in one direction, the first of them successful, are at least [c] seconds
    apart. *)
Theorem running_programs_scale_safely {W S} `{!ApiServer W} `{!PromQuerier W} `{!Forecaster W}
    `{!Clock W} `{GoPlatform} `{!VersionedServer S} `{!ServerLaws S} (crs : W → S) `{!Coherent crs}
    cfg act (s0 : CtlState W) l s :
  started s0 → program crs cfg act s0 l s → admission crs cfg act s0 l → sized (cs_log s) →
  (∀ p, EScale p ∈ cs_log s →
     ∃ s1 aas x k, origin cfg s0 s p s1 aas x k ∧
       aas ∈ versions (crs (cs_world s)) (pa_cr p) ∧ admitted cfg aas ∧ justified cfg aas x ∧
       patch_ok cfg aas p ∧ 1 <= pa_target p ∧
       cooldown (upward p) (effective cfg aas) * Second <= pa_now p - last_scale (upward p) (de_st x)) ∧
  (∀ key c i j p q,
     (∀ aas, aas ∈ versions (crs (cs_world s)) key → cools cfg c aas) →
     (∀ e, EGetAAS key (Err e) ∈ cs_log s → IsNotFound e = false) →
     scales (cs_log s) !! i = Some p → scales (cs_log s) !! j = Some q → (i < j)%nat →
     pa_cr p = key → pa_cr q = key → pa_ok p = true → upward p = upward q →
     c (upward p) * Second <= pa_now q - pa_now p).
Proof.
  intros Hs0 Hp Ha Hsz. pose proof (program_run crs cfg act s0 l s Hp) as Hr. split.
  - intros p Hin. destruct (program_origin crs cfg act s0 l s Hs0 Hp Hsz p Hin) as (s1 & aas & x & k & Ho & Hv & Hc).
    assert (admitted cfg aas) as Had by (by eapply program_admitted).
    pose proof (admitted_well_configured _ _ Had) as Hwc.
    destruct (decision_patch_ok cfg aas x Hwc Hc (pa_cr p) (pa_ok p) (or_moves _ _ _ _ _ _ _ _ Ho)) as [Hok Hcd].
    rewrite <- (or_patch _ _ _ _ _ _ _ _ Ho) in Hok, Hcd.
    assert (pa_current p = de_current x ∧ pa_now p = de_now x) as [Ec En]
      by (by rewrite (or_patch _ _ _ _ _ _ _ _ Ho)).
    exists s1, aas, x, k. split_and!; try done; [apply (or_deciding _ _ _ _ _ _ _ _ Ho)| |by rewrite En].
    pose proof (wc_bounds _ _ Hwc). destruct Hok. lia.
  - intros key c i j p q Hcools Hthere Ep Eq Hij.
    assert (Forall (lasting cfg key c) (cs_log s)) as Hl.
    { apply Forall_forall. intros [k [aas|e]| | | | | | | | | |] Hin; try done; intros ->; [|by apply Hthere].
      apply Hcools. by apply (program_reads crs cfg act s0 l). }
    destruct (reachable_clocks cfg key c s0 s Hs0 Hr Hl) as [Hss _];
      [by apply (program_fits crs cfg act s0 l)|].
    exact (StronglySorted_lookup_lt _ _ _ _ _ _ Hss Hij Ep Eq).
Qed.

(** ** A program *)

(** A reconcile, a worker, a quarter of an hour, a second reconcile, an edit on top of what
    they wrote, and a third reconcile. *)
Definition site_worker : Worker :=
  new_worker (NewManager (mkWorkerConfig (30 * Minute) (24 * Hour) 10 240 60 0 0 f0)) sample_cr.
Definition site_act (i : nat) : Activity :=
  match i with 1%nat => Working site_worker | 3%nat => Authoring | _ => Reconciling demo_config demo_key end.
Definition site_reconcile (s : CtlState Site) : CtlState Site :=
  (Reconcile (H := amd64) demo_config demo_key s).2.
Definition later (d : Duration) (w : Site) : Site :=
  mkSite (si_log w) (si_deployments w) (si_hpas w) (si_now w + d).

Definition site_one : CtlState Site := site_reconcile site_state.
Definition site_ws : WorkerState Site :=
  (run_worker (H := amd64) site_worker [[]] (mkWorkerState (cs_world site_one) 0 [])).2.
Definition site_worked : CtlState Site := with_world site_one (ws_world site_ws).
Definition site_later : CtlState Site := with_world site_worked (later (15 * Minute) (ws_world site_ws)).
Definition site_two : CtlState Site := site_reconcile site_later.
Definition site_edit : AgenticAutoscaler :=
  match last (log_versions (si_log (cs_world site_two)) demo_key) with
  | Some cr => set_annotations {[ AnnotationKillSwitch := "true" ]} cr | None => sample_cr end.
Definition site_edited : CtlState Site :=
  with_world site_two (with_log (si_log (cs_world site_two) ++ [site_edit]) (cs_world site_two)).
Definition site_three : CtlState Site := site_reconcile site_edited.

(** What a reconcile adds to the log. *)
Definition entries (s s' : CtlState Site) : list Effect := drop (length (cs_log s)) (cs_log s').
Definition site_second : list Effect := Eval vm_compute in entries site_one site_two.
Definition site_third : list Effect := Eval vm_compute in entries site_two site_three.
Definition site_history : list (nat * SysEvent) :=
  (((([] ++ (pair 0%nat ∘ EvReconcile <$> cs_log site_one)) ++ (pair 1%nat ∘ EvWorker <$> ws_log site_ws)) ++
    (pair 2%nat ∘ EvReconcile <$> site_second)) ++ [(3%nat, EvEdit site_edit)]) ++
  (pair 4%nat ∘ EvReconcile <$> site_third).

Abbreviation site_programs := (program (H := amd64) (λ w : Site, si_log w) demo_config site_act site_state) (only parsing).

Lemma site_program : site_programs site_history site_three.
Proof.
  assert (site_programs ([] ++ (pair 0%nat ∘ EvReconcile <$> cs_log site_one)) site_one) as H1.
  { apply (pr_reconcile _ _ _ _ [] site_state 0 demo_key (cs_log site_one)); [constructor|reflexivity..]. }
  pose proof (pr_worker (H := amd64) _ _ _ _ _ site_one 1 site_worker [[]] 0 H1 eq_refl ltac:(by vm_compute)) as H2.
  cbn zeta in H2. fold site_ws in H2. fold site_worked in H2.
  assert (si_log (cs_world site_later) = si_log (cs_world site_worked)) as Hlog by (vm_compute; reflexivity).
  pose proof (pr_environment (H := amd64) _ _ _ _ _ site_worked (cs_world site_later)
    (cs_classifier site_worked) (cs_metrics site_worked) (cs_explain site_worked) H2 Hlog) as H3.
  change (mkCtl _ _ _ _ _ _) with site_later in H3.
  pose proof (pr_reconcile (H := amd64) _ _ _ _ _ site_later 2 demo_key site_second H3 eq_refl
    ltac:(by vm_compute) ltac:(by vm_compute)) as H4.
  pose proof (pr_author (H := amd64) _ _ _ _ _ _ 3 (EvEdit site_edit)
    (with_log (si_log (cs_world site_two) ++ [site_edit]) (cs_world site_two)) H4 eq_refl eq_refl
    ltac:(by vm_compute)) as H5.
  exact (pr_reconcile (H := amd64) _ _ _ _ _ site_edited 4 demo_key site_third H5 eq_refl ltac:(by vm_compute)
    ltac:(by vm_compute)).
Qed.

Lemma sample_spec_admitted aas : aas_Spec aas = aas_Spec sample_cr → spec_admitted demo_config aas.
Proof. intros Hs. by apply (admitted_rewrite demo_config (demo_cr demo_start)); [apply demo_admitted| |]. Qed.

Lemma forallb_elem {A} (f : A → bool) k x : forallb f k = true → x ∈ k → f x = true.
Proof. rewrite forallb_forall, list_elem_of_In. auto. Qed.

Lemma site_admission : admission (λ w : Site, si_log w) demo_config site_act site_state site_history.
Proof.
  split.
  - intros key aas Hin. apply list_elem_of_filter in Hin as [_ Hin].
    apply list_elem_of_singleton in Hin as ->. eapply spec_admitted_spec; [by apply sample_spec_admitted|done|done].
  - intros i ev aas Hin Ha. apply sample_spec_admitted.
    assert (forallb (λ p, from_option (λ a, bool_decide (aas_Spec a = aas_Spec sample_cr)) true (submits p.2))
      site_history = true) as Hf by (vm_compute; reflexivity).
    pose proof (forallb_elem _ _ _ Hf Hin) as Hs. simpl in Hs. rewrite Ha in Hs. by apply bool_decide_eq_true in Hs.
  - intros i w E. exists (NewManager (mkWorkerConfig (30 * Minute) (24 * Hour) 10 240 60 0 0 f0)), sample_cr.
    split; [by eapply spec_admitted_spec; [apply sample_spec_admitted|..]|].
    destruct i as [|[|[|[|i]]]]; simpl in E; by simplify_eq.
Qed.

Lemma site_sized : sized (cs_log site_three).
Proof.
  intros target d Hin.
  assert (forallb (λ e, match e with
    | EGetDeployment _ (Ok d) => bool_decide (0 <= deref_or (dep_Replicas d) 1 <= max_count)
    | _ => true end) (cs_log site_three) = true) as Hf by (vm_compute; reflexivity).
  pose proof (forallb_elem _ _ _ Hf Hin) as Hs. by apply bool_decide_eq_true in Hs.
Qed.

(** ** What it shows *)
Lemma scales_elem p k : p ∈ scales k → EScale p ∈ k.
Proof. intros (e & He & Eq)%list_elem_of_omap. destruct e; by simplify_eq. Qed.

Definition site_patch (cur target : Z) (now : Time) : ScalePatch :=
  mkScalePatch demo_key (mkNN "ns" "app") cur target now true.
Definition site_cooldown (up : bool) : Z := if up then 60 else 180.

Lemma site_cools aas : aas ∈ log_versions (si_log (cs_world site_three)) demo_key → cools demo_config site_cooldown aas.
Proof.
  intros Hin up.
  assert (forallb (λ a, bool_decide (60 <= ep_CooldownUp (effective demo_config a)) &&
    bool_decide (180 <= ep_CooldownDown (effective demo_config a)))
    (log_versions (si_log (cs_world site_three)) demo_key) = true) as Hf by (vm_compute; reflexivity).
  pose proof (forallb_elem _ _ _ Hf Hin) as Hs.
  apply andb_true_iff in Hs as [Hu%bool_decide_eq_true Hd%bool_decide_eq_true].
  destruct up; unfold site_cooldown, cooldown; lia.
Qed.

(** The second patch keeps to the step of one that the worker wrote in between, and comes
    after the cooldown. *)
Lemma running_programs_scale_safely_witness :
  let second := site_patch 6 7 (1000900 * Second) in
  scales (cs_log site_three) = [site_patch 2 6 (1000000 * Second); second] ∧
  (∃ aas, aas ∈ versions (si_log (cs_world site_three)) demo_key ∧ patch_ok demo_config aas second) ∧
  60 * Second <= 1000900 * Second - 1000000 * Second.
Proof.
  intros second.
  assert (scales (cs_log site_three) = [site_patch 2 6 (1000000 * Second); second]) as Hs
    by (vm_compute; reflexivity).
  assert (started site_state) as H0 by (split; reflexivity).
  destruct (@running_programs_scale_safely Site _ _ _ _ _ amd64 _ _ (λ w : Site, si_log w) _ demo_config
    site_act site_state site_history site_three H0 site_program site_admission site_sized) as [Hok Hsp].
  split; [exact Hs|]. split.
  - assert (EScale second ∈ cs_log site_three) as Hin by (apply scales_elem; rewrite Hs; right; left).
    destruct (Hok second Hin) as (s1 & aas & x & k & _ & Hv & _ & _ & Hp & _).
    change (pa_cr second) with demo_key in Hv. exact (ex_intro _ aas (conj Hv Hp)).
  - refine (Hsp demo_key site_cooldown 0%nat 1%nat (site_patch 2 6 (1000000 * Second)) second site_cools _ _ _
      ltac:(lia) eq_refl eq_refl eq_refl eq_refl); [|by rewrite Hs|by rewrite Hs].
    intros e Hin.
    assert (forallb (λ e, match e with EGetAAS _ (Err _) => false | _ => true end) (cs_log site_three) = true)
      as Hf by (vm_compute; reflexivity).
    pose proof (forallb_elem _ _ _ Hf Hin) as Hx. discriminate Hx.
Defined.
