(* ===== verification/TargetApp.v ===== *)
(** * target-app: the load target

    The configuration of the server, and its concurrent request handling as a step
    relation: every arriving request runs in a goroutine of its own, and a step is one
    visible action of one of them: the [select] on the semaphore, the answer after the
    work, and the two deferred calls, last registered first. Shown: the semaphore and the
    counters account for every request, and the app drains once arrivals stop. *)
From S2P Require Import Prelude Config Adapters.
From Stdlib Require Import Ascii.

Record TargetConfig := mkTargetConfig {
  Concurrency : Z;
  WorkDurationMS : Z;
  WorkJitterMS : Z;
  DeploymentName : string;
}.

Definition DefaultConfig : TargetConfig := mkTargetConfig 8 50 30 "unknown".

(** [strconv.Atoi]: an optional sign, decimal digits, [int] range. *)
Definition Atoi (s : string) : option Z :=
  let '(neg, ds) :=
    match s with
    | String c s' =>
        if decide (c = "+"%char) then (false, s')
        else if decide (c = "-"%char) then (true, s') else (false, s)
    | EmptyString => (false, s)
    end in
  if decide (ds = EmptyString) then None
  else n ← parse_digits ds 0;
       let v := if neg : bool then - n else n in
       if decide (in_i64 v) then Some v else None.

Definition target_envIntOrDefault (env : string → string) (name : string) (def : Z) : Z :=
  let raw := env name in
  if decide (raw = EmptyString) then def
  else match Atoi raw with
       | None => def
       | Some v => if decide (v < 0) then def else v
       end.

Definition LoadConfig (env : string → string) : TargetConfig :=
  mkTargetConfig
    (target_envIntOrDefault env "TARGET_CONCURRENCY" (Concurrency DefaultConfig))
    (target_envIntOrDefault env "TARGET_WORK_DURATION_MS" (WorkDurationMS DefaultConfig))
    (target_envIntOrDefault env "TARGET_WORK_JITTER_MS" (WorkJitterMS DefaultConfig))
    (if decide (env "DEPLOYMENT_NAME" ≠ EmptyString) then env "DEPLOYMENT_NAME"
     else DeploymentName DefaultConfig).

(** ** The server *)

Record Server := mkServer {
  sv_cfg : TargetConfig;
  sv_label : string;                         (* the deployment const-label *)
  sv_ready : bool;
  sv_sem : Z;                                (* slots taken *)
  sv_counter : gmap (string * string) Z;     (* http_requests_total by path and status *)
  sv_observed : Z;                           (* observations of the duration histogram *)
}.

(** [New]; [make] panics on a negative capacity ([None]). *)
Definition New (cfg : TargetConfig) : option Server :=
  if decide (Concurrency cfg < 0) then None
  else Some (mkServer cfg
    (if decide (DeploymentName cfg = EmptyString) then "unknown" else DeploymentName cfg)
    true 0 {[ ("/work", "200") := 0; ("/work", "503") := 0 ]} 0).

Definition SetReady (ready : bool) (s : Server) : Server :=
  mkServer (sv_cfg s) (sv_label s) ready (sv_sem s) (sv_counter s) (sv_observed s).

Definition count (s : Server) (status : string) : Z := deref_or (sv_counter s !! ("/work", status)) 0.
Definition count_status (status : string) (s : Server) : Server :=
  mkServer (sv_cfg s) (sv_label s) (sv_ready s) (sv_sem s)
    (<[("/work", status) := count s status + 1]> (sv_counter s)) (sv_observed s).
Definition set_sem (n : Z) (s : Server) : Server :=
  mkServer (sv_cfg s) (sv_label s) (sv_ready s) n (sv_counter s) (sv_observed s).
Definition observe (s : Server) : Server :=
  mkServer (sv_cfg s) (sv_label s) (sv_ready s) (sv_sem s) (sv_counter s) (sv_observed s + 1).

Record Response := mkResponse { code : Z; body : string }.

(** A body of the sources, with quotes for apostrophes. *)
Fixpoint json (s : string) : string :=
  match s with
  | EmptyString => EmptyString
  | String c s => (if decide (c = "'"%char) then dq else String c EmptyString) +:+ json s
  end.

Definition rejected : Response := mkResponse 503 (json "{'work':'rejected','reason':'overloaded'}").
Definition done_ : Response := mkResponse 200 (json "{'work':'done'}").

Definition handleHealthz (s : Server) : Response := mkResponse 200 (json "{'status':'ok'}").
Definition handleReadyz (s : Server) : Response :=
  if negb (sv_ready s) then mkResponse 503 (json "{'status':'not_ready'}")
  else mkResponse 200 (json "{'status':'ready'}").

(** Where the goroutine of a request is in [handleWork]. *)
Inductive Phase :=
| Arrived                       (* before the select *)
| Working                       (* holds a slot, sleeping *)
| Answered (r : Response)       (* answered, its deferred calls still to run *)
| Released (r : Response)       (* slot given back, observation still to run *)
| Finished (r : Response).

(** Its next action. *)
Definition work_step (s : Server) (p : Phase) : option (Server * Phase) :=
  match p with
  | Arrived =>
      if decide (sv_sem s < Concurrency (sv_cfg s)) then Some (set_sem (sv_sem s + 1) s, Working)
      else Some (count_status "503" s, Released rejected)
  | Working => Some (count_status "200" s, Answered done_)
  | Answered r => Some (set_sem (sv_sem s - 1) s, Released r)
  | Released r => Some (observe s, Finished r)
  | Finished _ => None
  end.

Record Target := mkTarget { tg_server : Server; tg_requests : list Phase }.

(** A request arrives, or the goroutine of one takes its next action. *)
Inductive target_step : Target → Target → Prop :=
| ts_arrive t : target_step t (mkTarget (tg_server t) (tg_requests t ++ [Arrived]))
| ts_work t i p s' p' :
    tg_requests t !! i = Some p → work_step (tg_server t) p = Some (s', p') →
    target_step t (mkTarget s' (<[i := p']> (tg_requests t))).

(** ** Accounting *)

(** Phases that hold a slot, and phases that follow a decision. *)
Definition holds (p : Phase) : bool := match p with Working | Answered _ => true | _ => false end.
Definition served (p : Phase) : bool :=
  match p with
  | Answered r | Released r | Finished r => bool_decide (code r = 200)
  | _ => false
  end.
Definition refused (p : Phase) : bool :=
  match p with Released r | Finished r => bool_decide (code r = 503) | _ => false end.
Definition observed (p : Phase) : bool := match p with Finished _ => true | _ => false end.

Definition how_many (f : Phase → bool) (l : list Phase) : Z := Z.of_nat (length (filter (λ p, f p = true) l)).

Lemma how_many_snoc f l p : how_many f (l ++ [p]) = how_many f l + (if f p then 1 else 0).
Proof.
  unfold how_many. rewrite filter_app, length_app. simpl. rewrite filter_cons, filter_nil.
  destruct (f p); simpl; repeat case_decide; simpl; (congruence || lia).
Qed.

Lemma how_many_insert f l i p p' :
  l !! i = Some p →
  how_many f (<[i := p']> l) = how_many f l - (if f p then 1 else 0) + (if f p' then 1 else 0).
Proof.
  intros Hi. rewrite (insert_take_drop l i p') by (by eapply lookup_lt_Some).
  rewrite <- (take_drop_middle l i p Hi) at 3. unfold how_many.
  rewrite !filter_app, !length_app, !filter_cons.
  destruct (f p), (f p'); repeat case_decide; simpl; (congruence || lia).
Qed.

(** The answers there are. *)
Definition answer_ok (p : Phase) : Prop :=
  match p with
  | Answered r => r = done_
  | Released r | Finished r => r = done_ ∨ r = rejected
  | _ => True
  end.

(** The semaphore and the metrics count what they say. *)
Record accounted (t : Target) : Prop := {
  ac_sem : sv_sem (tg_server t) = how_many holds (tg_requests t);
  ac_cap : 0 <= sv_sem (tg_server t) <= Concurrency (sv_cfg (tg_server t));
  ac_200 : count (tg_server t) "200" = how_many served (tg_requests t);
  ac_503 : count (tg_server t) "503" = how_many refused (tg_requests t);
  ac_obs : sv_observed (tg_server t) = how_many observed (tg_requests t);
  ac_shape : Forall answer_ok (tg_requests t);
}.

Lemma count_status_same s st : count (count_status st s) st = count s st + 1.
Proof. unfold count, count_status. simpl. by rewrite lookup_insert_eq. Qed.
Lemma count_status_other s st st' : st ≠ st' → count (count_status st s) st' = count s st'.
Proof. intros Hne. unfold count at 1, count_status. simpl. rewrite lookup_insert_ne; [done|congruence]. Qed.
Lemma count_set_sem n s st : count (set_sem n s) st = count s st.
Proof. done. Qed.
Lemma count_observe s st : count (observe s) st = count s st.
Proof. done. Qed.

Lemma holds_bound l i p : l !! i = Some p → holds p = true → 1 <= how_many holds l.
Proof.
  intros Hi Hp. rewrite <- (take_drop_middle l i p Hi). unfold how_many.
  rewrite filter_app, length_app, filter_cons, decide_True by done. simpl. lia.
Qed.

(** One goroutine's action, on the counts. *)
Ltac account Hi :=
  split; simpl; rewrite ?(how_many_insert _ _ _ _ _ Hi), ?count_set_sem, ?count_observe,
    ?count_status_same, ?count_status_other by done;
  simpl; try lia.

Lemma step_accounted t t' : accounted t → target_step t t' → accounted t'.
Proof.
  intros [Hsem Hcap H2 H5 Ho Hsh] Hs. destruct Hs as [t|t i p s' p' Hi Hp].
  - split; simpl; rewrite ?how_many_snoc; simpl; try lia. by apply Forall_snoc.
  - assert (∀ q, answer_ok q → Forall answer_ok (<[i := q]> (tg_requests t))) as Hf by (intros q Hq; by apply Forall_insert).
    pose proof (Forall_lookup_1 _ _ _ _ Hsh Hi) as Hpi.
    destruct p as [| |r|r|r]; simpl in Hp; [case_decide|..]; simplify_eq/=.
    + account Hi. by apply Hf.
    + account Hi. apply Hf. by right.
    + account Hi. by apply Hf.
    + pose proof (holds_bound _ _ _ Hi eq_refl). account Hi. apply Hf. by left.
    + destruct Hpi as [->| ->]; account Hi; apply Hf; simpl; auto.
Qed.

Lemma reachable_accounted cfg s0 t :
  New cfg = Some s0 → rtc target_step (mkTarget s0 []) t → accounted t.
Proof.
  unfold New. intros H0 Hr. case_decide; [done|]. simplify_eq.
  eapply (rtc_invariant target_step accounted); [apply step_accounted| |exact Hr].
  split; simpl; try done. lia.
Qed.

(** The semaphore bounds the work and the counters are exact. However the
    goroutines of the requests interleave, at most [Concurrency] requests hold a slot at
    any moment, every request that was answered got 200 or 503 and was counted exactly
    once under that status, and the histogram has one observation per finished request. *)
Theorem target_accounting cfg s0 t :
  New cfg = Some s0 → rtc target_step (mkTarget s0 []) t →
  how_many holds (tg_requests t) <= Concurrency (sv_cfg (tg_server t)) ∧
  count (tg_server t) "200" = how_many served (tg_requests t) ∧
  count (tg_server t) "503" = how_many refused (tg_requests t) ∧
  sv_observed (tg_server t) = how_many observed (tg_requests t).
Proof.
  intros H0 Hr. destruct (reachable_accounted _ _ _ H0 Hr). lia.
Qed.

(** With a concurrency of zero, which the configuration permits, every request is refused. *)
Definition two_refused : Target :=
  mkTarget (observe (count_status "503" (count_status "503"
    (mkServer (mkTargetConfig 0 50 30 "app") "app" true 0
       {[ ("/work", "200") := 0; ("/work", "503") := 0 ]} 0))))
    [Finished rejected; Released rejected].

Lemma two_refused_reachable :
  ∃ s0, New (mkTargetConfig 0 50 30 "app") = Some s0 ∧ rtc target_step (mkTarget s0 []) two_refused.
Proof.
  eexists. split; [reflexivity|].
  eapply rtc_l; [apply ts_arrive|]. eapply rtc_l; [apply ts_arrive|]. simpl.
  eapply rtc_l; [by eapply (ts_work _ 0)|]. eapply rtc_l; [by eapply (ts_work _ 1)|].
  eapply rtc_l; [by eapply (ts_work _ 0)|]. apply rtc_refl.
Qed.

Lemma target_accounting_witness :
  ∃ s0, New (mkTargetConfig 0 50 30 "app") = Some s0 ∧
    rtc target_step (mkTarget s0 []) two_refused ∧ count (tg_server two_refused) "503" = 2.
Proof.
  destruct two_refused_reachable as (s0 & H0 & Hr). exists s0. split; [exact H0|]. split; [exact Hr|].
  destruct (target_accounting (mkTargetConfig 0 50 30 "app") _ two_refused H0 Hr) as (_ & _ & H & _).
  rewrite H. reflexivity.
Defined.

(** ** Draining *)

(** An action of a goroutine that is already there: arrivals have stopped. *)
Inductive works : Target → Target → Prop :=
| works_at t i p s' p' :
    tg_requests t !! i = Some p → work_step (tg_server t) p = Some (s', p') →
    works t (mkTarget s' (<[i := p']> (tg_requests t))).

Lemma works_target_step t t' : works t t' → target_step t t'.
Proof. intros [t0 i p s' p' Hi Hp]. by eapply ts_work. Qed.

(** The actions a goroutine has left, at most. *)
Definition remaining (p : Phase) : nat :=
  match p with Arrived => 4 | Working => 3 | Answered _ => 2 | Released _ => 1 | Finished _ => 0 end.
Definition left_over (l : list Phase) : nat := sum_list_with remaining l.

Lemma work_step_remaining s p s' p' : work_step s p = Some (s', p') → (remaining p' < remaining p)%nat.
Proof. destruct p; simpl; [case_decide|..]; intros; simplify_eq/=; lia. Qed.

(** Only a finished goroutine has no next action. *)
Lemma work_step_stuck s p : work_step s p = None ↔ ∃ r, p = Finished r.
Proof. destruct p; simpl; [case_decide|..]; naive_solver. Qed.

Lemma left_over_insert l i p p' :
  l !! i = Some p → (left_over (<[i := p']> l) + remaining p = left_over l + remaining p')%nat.
Proof.
  intros Hi. rewrite (insert_take_drop l i p') by (by eapply lookup_lt_Some).
  rewrite <- (take_drop_middle l i p Hi) at 3. unfold left_over.
  rewrite !sum_list_with_app. simpl. lia.
Qed.

Lemma works_left_over t t' : works t t' → (left_over (tg_requests t') < left_over (tg_requests t))%nat.
Proof.
  intros [t0 i p s' p' Hi Hp]. simpl.
  pose proof (left_over_insert _ _ _ p' Hi). apply work_step_remaining in Hp. lia.
Qed.

Lemma nsteps_works n t t' :
  nsteps works n t t' → (n + left_over (tg_requests t') <= left_over (tg_requests t))%nat.
Proof. induction 1 as [|n t t' t'' Hs _ IH]; [lia|]. apply works_left_over in Hs. lia. Qed.

Lemma left_over_bound l : (left_over l <= 4 * length l)%nat.
Proof. unfold left_over. induction l as [|p l IH]; simpl; [lia|]. destruct p; simpl; lia. Qed.

Definition finished (p : Phase) : Prop := ∃ r, p = Finished r.

Lemma nf_finished t : nf works t ↔ Forall finished (tg_requests t).
Proof.
  rewrite Forall_lookup. split.
  - intros Hn i p Hi. apply (work_step_stuck (tg_server t)).
    destruct (work_step _ p) as [[s' p']|] eqn:Hp; [|done]. destruct Hn. eexists. by eapply works_at.
  - intros Hf [t' Hs]. destruct Hs as [t i p s' p' Hi Hp]. destruct (Hf _ _ Hi) as [r ->]. done.
Qed.

Lemma finished_counts l :
  Forall answer_ok l → Forall finished l →
  how_many holds l = 0 ∧ how_many served l + how_many refused l = Z.of_nat (length l) ∧
  how_many observed l = Z.of_nat (length l).
Proof.
  induction l as [|p l IH]; intros Ha Hf; [done|].
  apply Forall_cons in Ha as [Hp Ha]. apply Forall_cons in Hf as [[r ->] Hf]. specialize (IH Ha Hf).
  unfold how_many in *. rewrite !filter_cons. simpl in *.
  destruct Hp as [->| ->]; simpl; repeat case_decide; simpl; (congruence || lia).
Qed.

(** Claim C39: The app drains. However the goroutines are scheduled once arrivals stop,
    they take at most four actions per request and then nothing is left to do; and when
    no goroutine can act, every request was answered, every slot was given back, and the
    two statuses and the histogram both add up to the number of requests. *)
Theorem target_drains cfg s0 t :
  New cfg = Some s0 → rtc target_step (mkTarget s0 []) t →
  (∀ n t', nsteps works n t t' → (n <= 4 * length (tg_requests t))%nat) ∧
  (∀ t', rtc works t t' → nf works t' →
     Forall finished (tg_requests t') ∧ sv_sem (tg_server t') = 0 ∧
     count (tg_server t') "200" + count (tg_server t') "503" = Z.of_nat (length (tg_requests t)) ∧
     sv_observed (tg_server t') = Z.of_nat (length (tg_requests t))).
Proof.
  intros H0 Hr. split.
  - intros n t' Hn. apply nsteps_works in Hn. pose proof (left_over_bound (tg_requests t)). lia.
  - intros t' Hw Hn. apply nf_finished in Hn.
    assert (length (tg_requests t') = length (tg_requests t)) as <-.
    { clear -Hw. induction Hw as [|t t1 t2 Hs _ IH]; [done|]. rewrite IH. destruct Hs. apply length_insert. }
    destruct (reachable_accounted _ _ t' H0) as [Hsem _ H2 H5 Ho Hsh].
    { etrans; [exact Hr|]. eapply rtc_subrel; [apply works_target_step|exact Hw]. }
    destruct (finished_counts _ Hsh Hn) as (? & ? & ?). split; [done|]. lia.
Qed.

Lemma target_drains_witness :
  ∃ s0, New (mkTargetConfig 0 50 30 "app") = Some s0 ∧
    rtc target_step (mkTarget s0 []) two_refused ∧
    (∀ n t', nsteps works n two_refused t' → (n <= 8)%nat).
Proof.
  destruct two_refused_reachable as (s0 & H0 & Hr).
  exists s0. split; [exact H0|]. split; [exact Hr|].
  exact (proj1 (target_drains _ s0 two_refused H0 Hr)).
Defined.

(** ** The work of a request *)

(** [dur] of [handleWork]; [jitter] is the draw of [rand.IntN], in [0, WorkJitterMS). *)
Definition work_duration (cfg : TargetConfig) (jitter : Z) : Duration :=
  let dur := WorkDurationMS cfg *₆₄ Millisecond in
  if decide (WorkJitterMS cfg > 0) then wrap64 (dur + jitter *₆₄ Millisecond) else dur.

(** A request sleeps for the configured time and less than the jitter more, for all
    settings whose sum is below the 292 years of a Duration. *)
Lemma work_duration_bounds cfg jitter :
  0 <= WorkDurationMS cfg → 0 <= WorkJitterMS cfg → 0 <= jitter < Z.max 1 (WorkJitterMS cfg) →
  WorkDurationMS cfg + WorkJitterMS cfg <= 9223372036854 →
  WorkDurationMS cfg * Millisecond <= work_duration cfg jitter
    < WorkDurationMS cfg * Millisecond + Z.max 1 (WorkJitterMS cfg) * Millisecond.
Proof.
  intros. unfold work_duration, Millisecond. rewrite !(wrap64_id (_ * _)) by int_lia.
  case_decide; [rewrite wrap64_id by int_lia|]; lia.
Qed.

(** A setting above it wraps around, and the request does not sleep at all. *)
Example work_duration_wraps : work_duration (mkTargetConfig 8 9223372036855 0 "app") 0 < 0.
Proof. reflexivity. Qed.

(** ** Routes, metrics and the process *)

Inductive Endpoint := HandleHealthz | HandleReadyz | HandleWork | HandleMetrics.

(** The exact paths that the mux knows. *)
Definition Handler (path : string) : option Endpoint :=
  if decide (path = "/healthz") then Some HandleHealthz
  else if decide (path = "/readyz") then Some HandleReadyz
  else if decide (path = "/work") then Some HandleWork
  else if decide (path = "/metrics") then Some HandleMetrics else None.

Definition counter_name : string := "http_requests_total".
Definition const_label : string := "deployment".

(** The query of the controller selects the counter that this server exports, by the
    label that it puts on it. *)
Lemma query_selects_counter deployment :
  InstantRPS deployment =
  "sum(rate(" +:+ counter_name +:+ "{" +:+ const_label +:+ "=" +:+ dq +:+ deployment +:+ dq +:+ "}[2m]))".
Proof. reflexivity. Qed.

(** [main]: the address it listens on. *)
Definition target_addr (env : string → string) : string :=
  ":" +:+ (if decide (env "TARGET_PORT" = EmptyString) then "8080" else env "TARGET_PORT").

(** A loaded configuration always yields a server. *)
Lemma target_env_nonneg env name def : 0 <= def → 0 <= target_envIntOrDefault env name def.
Proof.
  intros. unfold target_envIntOrDefault. case_decide; [done|].
  destruct (Atoi (env name)); [|done]. case_decide; lia.
Qed.

(** The target app cannot panic on its environment: whatever the variables
    hold, the loaded concurrency, duration and jitter are non-negative, and the server is
    built, with a non-empty deployment label. *)
Theorem LoadConfig_builds env :
  ∃ s, New (LoadConfig env) = Some s ∧ sv_label s ≠ EmptyString ∧
    0 <= WorkDurationMS (LoadConfig env) ∧ 0 <= WorkJitterMS (LoadConfig env).
Proof.
  assert (0 <= Concurrency (LoadConfig env)) by (by apply target_env_nonneg).
  unfold New. rewrite decide_False by lia. eexists. split; [done|]. simpl.
  split_and!; [|by apply target_env_nonneg..]. repeat case_decide; done.
Qed.

(** ** target-app/cmd/target-app/main.go *)

Record HttpServer := mkHttpServer {
  hs_Addr : string;
  hs_Handler : Server;
  hs_ReadHeaderTimeout : Duration;
  hs_ReadTimeout : Duration;
  hs_WriteTimeout : Duration;
  hs_IdleTimeout : Duration;
}.

Definition httpSrv (env : string → string) (srv : Server) : HttpServer :=
  mkHttpServer (target_addr env) srv (5 * Second) (30 * Second) (30 * Second) (120 * Second).

(** [http.Server.ListenAndServe] returns only with an error, and never without one. *)
Class Listener (W : Type) := ListenAndServe : HttpServer → ST W string.

(** The exit code; [None] is a panic before the server listens. *)
Definition target_main {W} `{!Listener W} (env : string → string) : ST W (option Z) :=
  match New (LoadConfig env) with
  | None => mret None
  | Some srv => _ ← ListenAndServe (httpSrv env srv); mret (Some 1)
  end.

(** Whatever the environment, the app gets to listen, with a limit on every phase of a
    connection, and ends with exit code 1 when that fails. *)
Lemma target_main_listens {W} `{!Listener W} env (w : W) :
  ∃ srv, New (LoadConfig env) = Some srv ∧
    target_main env w = (Some 1, (ListenAndServe (httpSrv env srv) w).2) ∧
    Forall (λ d, 0 < d) [hs_ReadHeaderTimeout (httpSrv env srv); hs_ReadTimeout (httpSrv env srv);
      hs_WriteTimeout (httpSrv env srv); hs_IdleTimeout (httpSrv env srv)].
Proof.
  destruct (LoadConfig_builds env) as (srv & Hn & _). exists srv. split; [done|]. split.
  - unfold target_main. rewrite Hn. unfold mbind, st_bind, mret, st_ret.
    by destruct (ListenAndServe (httpSrv env srv) w).
  - by repeat constructor.
Qed.

(** ** k6/lib/testserver.go

    The stand-in for local runs of the k6 scenarios: how long a request sleeps, and its
    answer; [None] is the mux's own 404. *)
Definition testserver_handler (path : string) : option (Duration * Response) :=
  if decide (path = "/work") then Some (5 * Millisecond, mkResponse 200 (json "{'status':'ok'}"))
  else if decide (path = "/healthz") then Some (0, mkResponse 200 EmptyString)
  else None.

(** [http.ListenAndServe], with its error, and the process's output. *)
Class TestServerHost (W : Type) := {
  ts_ListenAndServe : string → (string → option (Duration * Response)) → ST W (option string);
  ts_Printf : string → ST W ();
  ts_Stderr : string → ST W ();
}.

(** The exit code. *)
Definition testserver_main {W} `{!TestServerHost W} (env : string → string) : ST W Z :=
  let port := if decide (env "PORT" = EmptyString) then "8080" else env "PORT" in
  _ ← ts_Printf ("test server listening on :" +:+ port +:+ nl);
  r ← ts_ListenAndServe (":" +:+ port) testserver_handler;
  match r with
  | Some err => _ ← ts_Stderr ("server error: " +:+ err +:+ nl); mret 1
  | None => mret 0
  end.

(** It answers on the two paths it shares with target-app with the status of a target-app
    that is not overloaded, which is all that the scenarios check, and never with 503; the
    bodies differ from target-app's on both paths. *)
Theorem testserver_differs s :
  (∃ d r, testserver_handler "/work" = Some (d, r) ∧ code r = code done_ ∧ body r ≠ body done_) ∧
  (∃ d r, testserver_handler "/healthz" = Some (d, r) ∧ code r = code (handleHealthz s) ∧
     body r ≠ body (handleHealthz s)) ∧
  (∀ path d r, testserver_handler path = Some (d, r) → code r = 200 ∧ Handler path ≠ None).
Proof.
  split; [eexists _, _; split; [reflexivity|]; split; [reflexivity|by vm_compute]|].
  split; [eexists _, _; split; [reflexivity|]; split; [reflexivity|by vm_compute]|].
  intros path d r. unfold testserver_handler. case_decide as E1; [|case_decide as E2; [|done]];
    intros [= <- <-]; by subst.
Qed.
