(* ===== verification/Synthetic.v ===== *)
(** * hack/synthetic: the traffic fixtures

    generators.go over a random source that is an interface ([math/rand] is known by its
    documented ranges alone), with [math.Sin] translated from Go's portable source, and
    main.go with its error exits. *)
From S2P Require Import Prelude Float64 FloatOrder FloatRound FloatBound.
From Stdlib Require Import SpecFloat QArith Lqa.
#[local] Open Scope Z_scope.

(** ** [math.Sin] (package [math], sin.go) *)
Definition sin_0 : float64 := S754_finite false (0x15d8fd1fd19ccd) (-85).
Definition sin_1 : float64 := S754_finite true (0x1ae5e5a9291f5d) (-78).
Definition sin_2 : float64 := S754_finite false (0x171de3567d48a1) (-71).
Definition sin_3 : float64 := S754_finite true (0x1a01a019bfdf03) (-65).
Definition sin_4 : float64 := S754_finite false (0x1111111110f7d0) (-59).
Definition sin_5 : float64 := S754_finite true (0x15555555555548) (-55).
Definition cos_0 : float64 := S754_finite true (0x18fa49a0861a9b) (-89).
Definition cos_1 : float64 := S754_finite false (0x11ee9d7b4e3f05) (-81).
Definition cos_2 : float64 := S754_finite true (0x127e4f7eac4bc6) (-74).
Definition cos_3 : float64 := S754_finite false (0x1a01a019c844f5) (-68).
Definition cos_4 : float64 := S754_finite true (0x16c16c16c14f91) (-62).
Definition cos_5 : float64 := S754_finite false (0x1555555555554b) (-57).
Definition PI4A : float64 := S754_finite false (0x1921fb40000000) (-53).
Definition PI4B : float64 := S754_finite false (0x14442d00000000) (-77).
Definition PI4C : float64 := S754_finite false (0x18469898cc5170) (-101).

Definition math_Pi_num : positive := 314159265358979323846264338327950288419716939937510582097494.
Definition math_Pi_den : positive := 100000000000000000000000000000000000000000000000000000000000.

Definition sin_poly (zz z : float64) : float64 :=
  (z + z * zz * (((((sin_0 * zz + sin_1) * zz + sin_2) * zz + sin_3) * zz + sin_4) * zz + sin_5))%f64.
Definition cos_poly (zz : float64) : float64 :=
  (f1 - f64_frac 1 2 * zz +
   zz * zz * (((((cos_0 * zz + cos_1) * zz + cos_2) * zz + cos_3) * zz + cos_4) * zz + cos_5))%f64.

(** The octant and the rest of a non-negative angle below 2^29; [math.trigReduce], used
    from there on, is not translated. *)
Class TrigReduce := trigReduce : float64 → Z * float64.
Definition sin_octant `{TrigReduce} (x : float64) : Z * float64 :=
  if (x >=? f64_of_Z (2 ^ 29))%f64 then trigReduce x
  else
    let j := default 0 (ftruncZ (x * f64_frac (4 * math_Pi_den) math_Pi_num)%f64) in
    let y := f64_of_Z j in
    let odd := Z.odd j in
    let j := if odd then j + 1 else j in
    let y := if odd then (y + f1)%f64 else y in
    (j mod 8, (x - y * PI4A - y * PI4B - y * PI4C)%f64).

Definition math_Sin `{TrigReduce} (x : float64) : float64 :=
  if (x =? f0)%f64 || is_nan x then x
  else if is_inf x then S754_nan
  else
    let sign := (x <? f0)%f64 in
    let '(j, z) := sin_octant (if sign then fneg x else x) in
    let flip := bool_decide (j > 3) in
    let j := if flip then j - 4 else j in
    let zz := (z * z)%f64 in
    let y := if bool_decide (j = 1 ∨ j = 2) then cos_poly zz else sin_poly zz z in
    if xorb sign flip then fneg y else y.

(** ** [math/rand] *)
Class GoRand (R : Type) := {
  rand_New : Z → R;
  NormFloat64 : ST R float64;
  rand_Float64 : ST R float64;
}.

(** Its documented ranges. *)
Class GoRandLaws (R : Type) `{!GoRand R} : Prop := {
  norm_finite r : finite_valid (NormFloat64 r).1;
  float_range r : finite_valid (rand_Float64 r).1 ∧ (0 <= fval (rand_Float64 r).1 < 1)%Q;
}.

(** ** The generators *)
Section generators.
Context {R : Type} `{!GoRand R} `{TrigReduce}.

(** A series of [n] samples, the [i]-th of which may depend on [i]. *)
Fixpoint samples (sample : nat → ST R float64) (i n : nat) : ST R (list float64) :=
  match n with
  | O => mret []
  | S n => v ← sample i; vs ← samples sample (S i) n; mret (v :: vs)
  end.
Definition generate (sample : nat → ST R float64) (seed : Z) (n : nat) : list float64 :=
  (samples sample 0 n (rand_New seed)).1.

(** [base + rng.NormFloat64()*scale], cut off at 0. *)
Definition noisy (base : float64) (scale : Z) : ST R float64 :=
  x ← NormFloat64; mret (math_Max f0 (base + x * f64_of_Z scale)%f64).

Definition GenFlat : Z → nat → list float64 := generate (λ _, noisy (f64_of_Z 200) 5).

Definition cycle (i : nat) : float64 :=
  (f64_of_Z 100 * math_Sin (f64_frac (2 * math_Pi_num) math_Pi_den * f64_of_Z (Z.of_nat i) / f64_of_Z 60))%f64.
Definition GenPeriodic : Z → nat → list float64 :=
  generate (λ i, noisy (f64_of_Z 200 + cycle i)%f64 20).

Definition spiky : ST R float64 :=
  x ← NormFloat64;
  let base := (f64_of_Z 50 + x * f64_of_Z 10)%f64 in
  p ← rand_Float64;
  if (p <? f64_frac 5 100)%f64 then
    m ← rand_Float64;
    mret (math_Max f0 (base + (f64_of_Z 500 + m * f64_of_Z 500))%f64)
  else mret (math_Max f0 base).
Definition GenSpiky : Z → nat → list float64 := generate (λ _, spiky).

Definition GenRamp : Z → nat → list float64 :=
  generate (λ i, noisy (f64_of_Z 100 + f64_of_Z 3 * f64_of_Z (Z.of_nat i))%f64 20).

Definition GenDefault : Z → nat → list float64 := generate (λ _, noisy (f64_of_Z 200) 50).
End generators.

(** ** main.go *)
Record DataPoint := mkDataPoint { dp_TimestampUnix : Z; dp_RPS : float64 }.

Definition baseTS : Z := 1716500000.
Definition toPoints (series : list float64) : list DataPoint :=
  imap (λ i v, mkDataPoint (baseTS + wrap64 (Z.of_nat i * 60)) v) series.

(** [encoding/json] has no text for an infinity or a NaN. *)
Definition marshals (pts : list DataPoint) : bool := forallb (λ p, is_finite (dp_RPS p)) pts.

Class FileSystem (W : Type) := {
  MkdirAll : string → ST W (result string ());
  WriteFile : string → string → list DataPoint → ST W (result string ());
}.

Section main.
Context {R : Type} `{!GoRand R} `{TrigReduce} {W : Type} `{!FileSystem W}.

Record fixture := mkFixture { fx_name : string; fx_count : nat; fx_gen : Z → nat → list float64 }.
Definition fixtures : list fixture := [
  mkFixture "flat_1440" 1440 GenFlat;
  mkFixture "periodic_1440" 1440 GenPeriodic;
  mkFixture "spiky_1440" 1440 GenSpiky;
  mkFixture "gradual_ramp_1440" 1440 GenRamp;
  mkFixture "default_1440" 1440 GenDefault;
  mkFixture "flat_70" 70 GenFlat;
  mkFixture "insufficient_50" 50 GenFlat].

(** The exit code, and the files written. *)
Abbreviation Outcome := (Z * list (string * list DataPoint))%type.

Fixpoint write_fixtures (dir : string) (seed : Z) (fs : list fixture) : ST W Outcome :=
  match fs with
  | [] => mret (0, [])
  | f :: fs =>
      let points := toPoints (fx_gen f seed (fx_count f)) in
      if marshals points then
        r ← WriteFile dir (fx_name f +:+ ".json") points;
        match r with
        | Err _ => mret (1, [])
        | Ok _ => o ← write_fixtures dir seed fs; mret (o.1, (fx_name f, points) :: o.2)
        end
      else mret (1, [])
  end.

Definition synthetic_main (outputDir : string) (seed : Z) : ST W Outcome :=
  r ← MkdirAll outputDir;
  match r with
  | Err _ => mret (1, [])
  | Ok _ => write_fixtures outputDir seed fixtures
  end.
End main.

(** ** The angle and its sine *)
Section sine.
Context `{TrigReduce}.

Lemma sin_poly_mag zz z : mag 60 zz → mag 30 z → mag 1000 (sin_poly zz z).
Proof. intros. unfold sin_poly. eapply mag_mono; [mag_bound|lia]. Qed.

Lemma cos_poly_mag zz : mag 60 zz → mag 1000 (cos_poly zz).
Proof. intros. unfold cos_poly. eapply mag_mono; [mag_bound|lia]. Qed.

Lemma octant_mag x : mag 24 x → mag 30 (sin_octant x).2.
Proof.
  intros Hx. unfold sin_octant.
  assert ((x >=? f64_of_Z (2 ^ 29))%f64 = false) as ->.
  { apply not_true_iff_false. rewrite fle_fval by (apply f64_of_Z_finite_valid || apply Hx; lia).
    destruct (f64_of_Z_exact (2 ^ 29)) as [_ ->]; [lia|]. pose proof (fval_le_mag x).
    destruct Hx as [_ Hm]. rewrite <- pow2_Z in Hm by lia. intros Hle.
    assert (inject_Z (2 ^ 29) <= inject_Z (2 ^ 24))%Q as Hc by lra. rewrite <- Zle_Qle in Hc. lia. }
  destruct (ftruncZ_mag 26 (x * f64_frac (4 * math_Pi_den) math_Pi_num)%f64) as (j & -> & Hj); [|lia|].
  { eapply mag_mono; [eapply (fmul_mag 24 1); [exact Hx|apply mag_b_ok; vm_compute; reflexivity|lia]|lia]. }
  simpl. assert (mag 26 (f64_of_Z j)) as Hy by (by apply f64_of_Z_mag).
  set (y := if Z.odd j then _ else _).
  assert (mag 27 y) as Hy'.
  { unfold y. destruct (Z.odd j); eapply mag_mono; try mag_bound; lia. }
  eapply mag_mono; [mag_bound|lia].
Qed.

Lemma math_Sin_mag x : mag 24 x → mag 1000 (math_Sin x).
Proof.
  intros Hx. unfold math_Sin. rewrite finite_not_nan by (by eapply mag_finite).
  destruct (x =? f0)%f64; [eapply mag_mono; [exact Hx|lia]|].
  assert (is_inf x = false) as -> by (destruct Hx as [[Hf _] _]; by destruct x). simpl.
  set (a := if (x <? f0)%f64 then fneg x else x).
  assert (mag 24 a) as Ha by (unfold a; destruct (x <? f0)%f64; [by apply fneg_mag|done]).
  pose proof (octant_mag a Ha) as Hz. destruct (sin_octant a) as [j z]. simpl in *.
  assert (mag 60 (z * z)%f64) as Hzz by (change 60 with (30 + 30); by apply fmul_mag).
  set (j' := if bool_decide (j > 3) then j - 4 else j).
  assert (mag 1000 (if bool_decide (j' = 1 ∨ j' = 2) then cos_poly (z * z)%f64 else sin_poly (z * z)%f64 z)).
  { case_bool_decide; [by apply cos_poly_mag|by apply sin_poly_mag]. }
  destruct (xorb _ _); [by apply fneg_mag|done].
Qed.

(** Indices whose angle the sine is translated for. *)
Definition small (i : nat) : Prop := Z.of_nat i <= 2 ^ 20.

Lemma index_mag i : small i → mag 20 (f64_of_Z (Z.of_nat i)).
Proof. intros Hi. unfold small in Hi. apply f64_of_Z_mag; lia. Qed.

Lemma cycle_mag i : small i → mag 1007 (cycle i).
Proof.
  intros Hi%index_mag. unfold cycle. change 1007 with (7 + 1000). apply fmul_mag; [|apply math_Sin_mag|lia].
  - apply mag_b_ok. vm_compute. reflexivity.
  - eapply mag_mono; [eapply (fdiv_mag 23 6)|lia].
    + change 23 with (3 + 20). apply fmul_mag; [|done|lia]. apply mag_b_ok. vm_compute. reflexivity.
    + apply mag_b_ok. vm_compute. reflexivity.
    + destruct (f64_of_Z_exact 60) as [_ Hv]; [lia|]. pose proof (fval_le_mag (f64_of_Z 60)) as Hm.
      rewrite Hv in Hm. eapply Qle_trans; [|exact Hm]. by vm_compute.
    + lia.
Qed.
End sine.

(** ** Every sample is a load *)

(** Not below 0, and a number. *)
Definition nonneg (v : float64) : Prop := is_nan v = false ∧ (f0 <=? v)%f64 = true.

Lemma max_nonneg v : is_nan v = false → nonneg (math_Max f0 v).
Proof.
  intros Hv. unfold math_Max, nonneg. rewrite Hv. simpl.
  by destruct v as [[]|[]| |[] m e].
Qed.

Section draws.
Context {R : Type} `{!GoRand R} `{!GoRandLaws R} `{TrigReduce}.

(** Whatever the source's state, what [m] draws satisfies [P]. *)
Definition always {A} (m : ST R A) (P : A → Prop) : Prop := ∀ r, P (m r).1.

Lemma always_bind {A B} (m : ST R A) (f : A → ST R B) P Q :
  always m P → (∀ a, P a → always (f a) Q) → always (m ≫= f) Q.
Proof.
  intros Hm Hf r. unfold mbind, st_bind. pose proof (Hm r) as Ha. destruct (m r) as [a r']. by apply Hf.
Qed.
Lemma always_ret {A} (a : A) (P : A → Prop) : P a → always (mret a) P.
Proof. by intros Ha r. Qed.

Lemma noise_not_nan x k : finite_valid x → Z.abs k <= 2 ^ 53 → is_nan (x * f64_of_Z k)%f64 = false.
Proof. intros. by apply fmul_not_nan; [|apply f64_of_Z_finite_valid]. Qed.

Lemma noisy_nonneg base k : is_finite base = true → Z.abs k <= 2 ^ 53 → always (noisy base k) nonneg.
Proof.
  intros Hb Hk. apply (always_bind _ _ finite_valid); [exact norm_finite|]. intros x Hx.
  apply always_ret, max_nonneg, fadd_not_nan; [done|by apply noise_not_nan].
Qed.

Lemma burst_finite m : finite_valid m ∧ (0 <= fval m < 1)%Q → is_finite (f64_of_Z 500 + m * f64_of_Z 500)%f64 = true.
Proof.
  intros [Hv [Hm0 Hm1]]. assert (mag 0 m) as Hm.
  { split; [done|]. rewrite pow2_0. destruct m as [s|s| |[] m e]; try done; simpl in *; [|lra].
    rewrite smant_neg in Hm0. pose proof (dyadic_pos m e). lra. }
  assert (mag 9 (f64_of_Z 500)) as H5 by (apply mag_b_ok; vm_compute; reflexivity).
  eapply mag_finite. eapply (fadd_mag 9 (0 + 9)); [exact H5|by apply fmul_mag|done].
Qed.

Lemma spiky_nonneg : always spiky nonneg.
Proof.
  apply (always_bind _ _ finite_valid); [exact norm_finite|]. intros x Hx.
  assert (is_nan (f64_of_Z 50 + x * f64_of_Z 10)%f64 = false) as Hbase
    by (apply fadd_not_nan; [done|by apply noise_not_nan]).
  apply (always_bind _ _ (λ m, finite_valid m ∧ (0 <= fval m < 1)%Q)); [exact float_range|]. intros p _. destruct (p <? f64_frac 5 100)%f64.
  - apply (always_bind _ _ (λ m, finite_valid m ∧ (0 <= fval m < 1)%Q)); [exact float_range|]. intros m Hm.
    apply always_ret, max_nonneg, fadd_not_nan'; [done|by apply burst_finite].
  - by apply always_ret, max_nonneg.
Qed.

Lemma samples_all sample (P : float64 → Prop) n : ∀ i,
  (∀ j, (i <= j < i + n)%nat → always (sample j) P) → always (samples sample i n) (λ l, length l = n ∧ Forall P l).
Proof.
  induction n as [|n IH]; intros i Hs; simpl; [by apply always_ret|].
  eapply always_bind; [apply Hs; lia|]. intros v Hv. eapply always_bind; [apply IH; intros; apply Hs; lia|].
  intros vs [Hl Hvs]. apply always_ret. split; [by rewrite <- Hl|by constructor].
Qed.

Lemma generate_all sample seed n (P : float64 → Prop) :
  (∀ j, (j < n)%nat → always (sample j) P) → length (generate sample seed n) = n ∧ Forall P (generate sample seed n).
Proof. intros Hs. apply (samples_all sample P n 0). intros j Hj. apply Hs. lia. Qed.

(** What a generator promises. *)
Definition loads (gen : Z → nat → list float64) : Prop :=
  ∀ seed n, small n → length (gen seed n) = n ∧ Forall nonneg (gen seed n).

Lemma small_le i n : small n → (i < n)%nat → small i.
Proof. unfold small. lia. Qed.

Lemma GenFlat_loads : loads GenFlat.
Proof. intros seed n _. apply generate_all. intros. by apply noisy_nonneg. Qed.
Lemma GenDefault_loads : loads GenDefault.
Proof. intros seed n _. apply generate_all. intros. by apply noisy_nonneg. Qed.
Lemma GenSpiky_loads : loads GenSpiky.
Proof. intros seed n _. apply generate_all. intros. apply spiky_nonneg. Qed.

Lemma GenPeriodic_loads : loads GenPeriodic.
Proof.
  intros seed n Hn. apply generate_all. intros j Hj. apply noisy_nonneg; [|done].
  pose proof (cycle_mag j (small_le _ _ Hn Hj)) as Hc. eapply mag_finite.
  eapply (fadd_mag 8 1007); [apply mag_b_ok; vm_compute; reflexivity|exact Hc|done].
Qed.

Lemma GenRamp_loads : loads GenRamp.
Proof.
  intros seed n Hn. apply generate_all. intros j Hj. apply noisy_nonneg; [|done].
  pose proof (index_mag j (small_le _ _ Hn Hj)) as Hc. eapply mag_finite.
  eapply (fadd_mag 7 (2 + 20)); [apply mag_b_ok; vm_compute; reflexivity| |done].
  apply fmul_mag; [apply mag_b_ok; vm_compute; reflexivity|exact Hc|done].
Qed.
End draws.

(** ** The fixtures *)

Definition fixture_table : list (string * nat) := [
  ("flat_1440", 1440); ("periodic_1440", 1440); ("spiky_1440", 1440); ("gradual_ramp_1440", 1440);
  ("default_1440", 1440); ("flat_70", 70); ("insufficient_50", 50)]%nat.

(** A file of [count] finite, non-negative samples, a minute apart. *)
Definition good_file (count : nat) (points : list DataPoint) : Prop :=
  length points = count ∧ ∀ i p, points !! i = Some p →
    dp_TimestampUnix p = baseTS + 60 * Z.of_nat i ∧ is_finite (dp_RPS p) = true ∧ nonneg (dp_RPS p).

Lemma toPoints_good gen seed n :
  loads gen → Z.of_nat n <= 2 ^ 20 → marshals (toPoints (gen seed n)) = true → good_file n (toPoints (gen seed n)).
Proof.
  intros Hg Hn Hm. destruct (Hg seed n Hn) as [Hl Hall]. unfold toPoints in *.
  split; [by rewrite length_imap|]. intros i p Hp.
  assert (is_finite (dp_RPS p) = true) as Hf.
  { unfold marshals in Hm. rewrite forallb_forall in Hm. apply Hm, list_elem_of_In.
    by eapply list_elem_of_lookup_2. }
  rewrite list_lookup_imap in Hp. apply fmap_Some in Hp as (v & Hv & ->). simpl in *.
  rewrite Forall_lookup in Hall. split_and!; [|done|by eapply Hall].
  apply lookup_lt_Some in Hv. rewrite wrap64_id by int_lia. lia.
Qed.

Section files.
Context {R : Type} `{!GoRand R} `{!GoRandLaws R} `{TrigReduce} {W : Type} `{!FileSystem W}.

(** What a run over the fixtures [fs] wrote, and how it ended. *)
Definition wrote (fs : list fixture) (o : Z * list (string * list DataPoint)) : Prop :=
  (o.1 = 0 ∨ o.1 = 1) ∧ (o.1 = 0 ↔ o.2.*1 = fx_name <$> fs) ∧
  ∃ k, Forall2 (λ f q, q.1 = fx_name f ∧ good_file (fx_count f) q.2) (take k fs) o.2.

Lemma write_fixtures_wrote dir seed fs :
  Forall (λ f, loads (fx_gen f) ∧ Z.of_nat (fx_count f) <= 2 ^ 20) fs →
  ∀ w : W, wrote fs (write_fixtures dir seed fs w).1.
Proof.
  assert (∀ f fs, wrote (f :: fs) (1, [])) as Hfail.
  { intros f fs'. split; [by right|]. split; [done|]. by exists 0%nat. }
  induction 1 as [|f fs [Hg Hn] _ IH]; intros w; simpl.
  { split; [by left|]. split; [done|]. by exists 0%nat. }
  destruct (marshals _) eqn:Hm; [|apply Hfail].
  unfold mbind, st_bind, mret, st_ret. destruct (WriteFile _ _ _ w) as [[[]|e] w']; [|apply Hfail].
  specialize (IH w'). destruct (write_fixtures dir seed fs w') as [[c files] w'']. simpl in *.
  destruct IH as (Hc & Hall & k & Hk). simpl in *. split; [done|]. split.
  - rewrite Hall. split; [intros E|by intros [= E]]. exact (f_equal (cons (fx_name f)) E).
  - exists (S k). simpl. constructor; [|done]. split; [done|]. by apply toPoints_good.
Qed.

Lemma fixtures_load : Forall (λ f, loads (fx_gen f) ∧ Z.of_nat (fx_count f) <= 2 ^ 20) fixtures.
Proof.
  unfold fixtures. repeat (apply Forall_cons; split; [split; [cbn [fx_gen]|by vm_compute]|]); [..|by constructor];
    lazymatch goal with
    | |- context [@GenFlat] => exact GenFlat_loads
    | |- context [@GenPeriodic] => exact GenPeriodic_loads
    | |- context [@GenSpiky] => exact GenSpiky_loads
    | |- context [@GenRamp] => exact GenRamp_loads
    | |- context [@GenDefault] => exact GenDefault_loads
    end.
Qed.
End files.

(** Claim C40: The fixtures are loads. For any random source with the documented ranges,
    any seed and any file system, a run of the generator ends with exit code 0 or 1, and
    what it has written is an initial part of the table of seven fixtures, all of it
    exactly when the code is 0: under each name the promised number of points, a minute
    apart from the fixed anchor, each of them a finite number that is not negative. *)
Theorem fixtures_are_loads {R} `{!GoRand R} `{!GoRandLaws R} `{TrigReduce} {W} `{!FileSystem W}
    dir seed (w : W) :
  let o := (synthetic_main dir seed w).1 in
  (o.1 = 0 ∨ o.1 = 1) ∧ (o.1 = 0 ↔ o.2.*1 = fixture_table.*1) ∧
  ∃ k, Forall2 (λ t q, q.1 = t.1 ∧ good_file t.2 q.2) (take k fixture_table) o.2.
Proof.
  assert (fixture_table = (λ f, (fx_name f, fx_count f)) <$> fixtures) as -> by done.
  assert (wrote fixtures (synthetic_main dir seed w).1) as (Hc & Hall & k & Hk).
  { unfold synthetic_main, mbind, st_bind, mret, st_ret. destruct (MkdirAll dir w) as [[[]|e] w'].
    - apply write_fixtures_wrote, fixtures_load.
    - split; [by right|]. split; [done|]. by exists 0%nat. }
  split; [done|]. split; [by rewrite <- list_fmap_compose|]. exists k.
  rewrite <- fmap_take. by apply Forall2_fmap_l.
Qed.

(** A source that draws the means, and a file system that takes everything. *)
#[local] Instance mean_source : GoRand unit :=
  {| rand_New _ := (); NormFloat64 := mret f0; rand_Float64 := mret (f64_frac 1 2) |}.
#[local] Instance mean_laws : GoRandLaws unit.
Proof. by split; intros r. Qed.
#[local] Instance any_files : FileSystem unit :=
  {| MkdirAll _ := mret (Ok ()); WriteFile _ _ _ := mret (Ok ()) |}.
#[local] Instance no_reduction : TrigReduce := λ x, (0, x).

Lemma fixtures_are_loads_witness :
  ∃ k, Forall2 (λ t q, q.1 = t.1 ∧ good_file t.2 q.2) (take k fixture_table) (synthetic_main (W := unit) "testdata" 42 ()).1.2.
Proof. exact (proj2 (proj2 (fixtures_are_loads "testdata" 42 ()))). Defined.
