(* ===== verification/TestUtils.v ===== *)
(** * test/utils/utils.go: the helpers of the end-to-end tests

    The commands the tests run against a cluster and the edit they make to a manifest, over
    a host with a working directory, an environment, files and external commands, which
    are the class [TestHost]; the text functions are computed. *)
From S2P Require Import Prelude Summary.
From Stdlib Require Import Ascii String.

(** ** Text *)

(** [strings.Contains], [strings.TrimPrefix], and [strings.Replace] of every occurrence of a
    non-empty text by nothing. *)
Definition strings_Contains (s t : string) : bool :=
  match String.index 0 t s with Some _ => true | None => false end.
Fixpoint strings_skip (n : nat) (s : string) : string :=
  match n, s with S n, String _ s => strings_skip n s | _, _ => s end.
Definition strings_TrimPrefix (s prefix : string) : string :=
  if String.prefix prefix s then strings_skip (String.length prefix) s else s.
Fixpoint strings_remove (t : string) (skip : nat) (s : string) : string :=
  match s with
  | EmptyString => EmptyString
  | String a s' =>
      match skip with
      | S k => strings_remove t k s'
      | O => if String.prefix t s then strings_remove t (pred (String.length t)) s'
             else String a (strings_remove t 0 s')
      end
  end.

Definition GetNonEmptyLines (output : string) : list string :=
  filter (λ element, element ≠ EmptyString) (split_lines output).

(** What [bufio.Scanner] makes of a text: its lines without the newline and a carriage
    return before it, no empty last one, and none from the first that exceeds the buffer of
    64 KiB on. *)
Definition MaxScanTokenSize : nat := Z.to_nat 65536.
Fixpoint dropCR (s : string) : string :=
  match s with
  | EmptyString => EmptyString
  | String a EmptyString => if decide (a = ascii_of_nat 13) then EmptyString else s
  | String a s' => String a (dropCR s')
  end.
Fixpoint scanned (ls : list string) : list string :=
  match ls with
  | [] | [EmptyString] => []
  | l :: ls => if decide (String.length l < MaxScanTokenSize)%nat then dropCR l :: scanned ls else []
  end.
Definition Scan_lines (s : string) : list string := scanned (split_lines s).

(** ** The host *)
Record Command := mkCommand { cmd_Args : list string; cmd_Dir : string; cmd_Env : list string }.

Class TestHost (W : Type) := {
  os_Getwd : ST W (string * option string);
  os_Chdir : string → ST W (option string);
  os_Environ : ST W (list string);
  os_LookupEnv : string → ST W (option string);
  os_ReadFile : string → ST W (result string string);
  os_WriteFile : string → string → ST W (option string);
  CombinedOutput : Command → ST W (string * option string);
  GinkgoWriter : string → ST W ();
}.

Definition prometheusOperatorURL : string :=
  "https://github.com/prometheus-operator/prometheus-operator/releases/download/v0.77.1/bundle.yaml".
Definition certmanagerURL : string :=
  "https://github.com/jetstack/cert-manager/releases/download/v1.16.0/cert-manager.yaml".

Fixpoint join_spaces (l : list string) : string :=
  match l with [] => EmptyString | [s] => s | s :: l => s +:+ " " +:+ join_spaces l end.

Section utils.
Context {W : Type} `{!TestHost W}.

Definition warnError (err : string) : ST W () := GinkgoWriter ("warning: " +:+ err +:+ nl).

(** The directory, with the error that its caller ignores. *)
Definition GetProjectDir : ST W (string * option string) :=
  r ← os_Getwd;
  match r with
  | (wd, Some err) => mret (wd, Some err)
  | (wd, None) => mret (strings_remove "/test/e2e" 0 wd, None)
  end.

Definition utils_Run (args : list string) : ST W (string * option string) :=
  d ← GetProjectDir;
  let dir := d.1 in
  c ← os_Chdir dir;
  _ ← (match c with Some err => GinkgoWriter ("chdir dir: " +:+ err +:+ nl) | None => mret () end);
  environ ← os_Environ;
  let command := join_spaces args in
  _ ← GinkgoWriter ("running: " +:+ command +:+ nl);
  r ← CombinedOutput (mkCommand args dir (environ ++ ["GO111MODULE=on"]));
  match r with
  | (output, Some err) =>
      mret (output, Some (command +:+ " failed with error: (" +:+ err +:+ ") " +:+ output))
  | (output, None) => mret (output, None)
  end.

(** A command of which only the error matters, and one whose error is only shown. *)
Definition run_command (args : list string) : ST W (option string) := r ← utils_Run args; mret r.2.
Definition run_warning (args : list string) : ST W () :=
  r ← run_command args;
  match r with Some err => warnError err | None => mret () end.

Definition InstallPrometheusOperator : ST W (option string) :=
  run_command ["kubectl"; "create"; "-f"; prometheusOperatorURL].
Definition UninstallPrometheusOperator : ST W () :=
  run_warning ["kubectl"; "delete"; "-f"; prometheusOperatorURL].
Definition UninstallCertManager : ST W () := run_warning ["kubectl"; "delete"; "-f"; certmanagerURL].
Definition InstallCertManager : ST W (option string) :=
  err ← run_command ["kubectl"; "apply"; "-f"; certmanagerURL];
  match err with
  | Some err => mret (Some err)
  | None => run_command ["kubectl"; "wait"; "deployment.apps/cert-manager-webhook";
      "--for"; "condition=Available"; "--namespace"; "cert-manager"; "--timeout"; "5m"]
  end.

(** Whether one of the names is on a line of a command's output. *)
Definition listed (names : list string) (args : list string) : ST W bool :=
  r ← utils_Run args;
  match r with
  | (_, Some _) => mret false
  | (output, None) =>
      mret (existsb (λ crd, existsb (λ line, strings_Contains line crd) (GetNonEmptyLines output)) names)
  end.
Definition IsPrometheusCRDsInstalled : ST W bool :=
  listed ["prometheuses.monitoring.coreos.com"; "prometheusrules.monitoring.coreos.com";
          "prometheusagents.monitoring.coreos.com"]
    ["kubectl"; "get"; "crds"; "-o"; "custom-columns=NAME:.metadata.name"].
Definition IsCertManagerCRDsInstalled : ST W bool :=
  listed ["certificates.cert-manager.io"; "issuers.cert-manager.io"; "clusterissuers.cert-manager.io";
          "certificaterequests.cert-manager.io"; "orders.acme.cert-manager.io";
          "challenges.acme.cert-manager.io"]
    ["kubectl"; "get"; "crds"].

Definition LoadImageToKindClusterWithName (name : string) : ST W (option string) :=
  v ← os_LookupEnv "KIND_CLUSTER";
  run_command ["kind"; "load"; "docker-image"; name; "--name"; deref_or v "kind"].

(** The new content; [None] is the early return for a target without a line. *)
Definition uncommented (strContent target prefix : string) (idx : nat) : option string :=
  match Scan_lines target with
  | [] => None
  | ls => Some (String.substring 0 idx strContent +:+
                join_lines ((λ l, strings_TrimPrefix l prefix) <$> ls) +:+
                strings_skip (idx + String.length target) strContent)
  end.
Definition UncommentCode (filename target prefix : string) : ST W (option string) :=
  r ← os_ReadFile filename;
  match r with
  | Err err => mret (Some err)
  | Ok strContent =>
      match String.index 0 target strContent with
      | None => mret (Some ("unable to find the code " +:+ target +:+ " to be uncomment"))
      | Some idx =>
          match uncommented strContent target prefix idx with
          | None => mret None
          | Some out => os_WriteFile filename out
          end
      end
  end.
End utils.

(** ** Lines *)

Lemma GetNonEmptyLines_elem output l : l ∈ GetNonEmptyLines output ↔ l ≠ EmptyString ∧ l ∈ split_lines output.
Proof. unfold GetNonEmptyLines. by rewrite list_elem_of_filter. Qed.

Lemma join_split s : join_lines (split_lines s) = s.
Proof.
  induction s as [|a s IH]; [done|]. simpl. pose proof (split_lines_ne s) as Hne.
  destruct (split_lines s) as [|l ls]; [done|]. case_decide as Ha; [subst a|].
  - simpl in IH. simpl. destruct ls; by rewrite <- IH.
  - simpl in IH. destruct ls; simpl; by rewrite <- IH.
Qed.

(** The lines of a text that ends with a line of its own, all short and without a carriage
    return, are scanned as they are. *)
Definition plain_line (l : string) : Prop := (String.length l < MaxScanTokenSize)%nat ∧ dropCR l = l.

Lemma scanned_plain ls : Forall plain_line ls → last ls ≠ Some EmptyString → scanned ls = ls.
Proof.
  induction 1 as [|l ls [Hs Hc] _ IH]; intros Hl; [done|].
  destruct l as [|a l]; [destruct ls as [|l' ls]; [done|]|].
  - rewrite last_cons_cons in Hl. cbn [scanned]. rewrite decide_True by done. f_equal. by apply IH.
  - assert (scanned ls = ls) as E by (apply IH; destruct ls; [done|by rewrite last_cons_cons in Hl]).
    cbn [scanned]. rewrite decide_True by done. by rewrite Hc, E.
Qed.

(** ** [UncommentCode] *)

Lemma prefix_split t s : String.prefix t s = true → ∃ b, s = t +:+ b.
Proof.
  revert s. induction t as [|a t IH]; intros s Hs; [by exists s|].
  destruct s as [|a' s]; [done|]. simpl in Hs. destruct (ascii_dec a a') as [<-|]; [|done].
  destruct (IH s Hs) as [b ->]. by exists b.
Qed.

Lemma index_split t s i :
  String.index 0 t s = Some i → ∃ a b, s = a +:+ t +:+ b ∧ String.length a = i.
Proof.
  revert i. induction s as [|c s IH]; intros i Hi.
  - destruct t; [|done]. exists EmptyString, EmptyString. simpl in Hi. by simplify_eq.
  - cbn [String.index] in Hi. destruct (String.prefix t (String c s)) eqn:Hp.
    + simplify_eq. destruct (prefix_split _ _ Hp) as [b ->]. by exists EmptyString, b.
    + destruct (String.index 0 t s) as [j|] eqn:Hj; [|done]. simplify_eq.
      destruct (IH j eq_refl) as (a & b & -> & <-). by exists (String c a), b.
Qed.

Lemma append_assoc (a b c : string) : (a +:+ b) +:+ c = a +:+ (b +:+ c).
Proof. induction a as [|x a IH]; [done|]. change (String x ((a +:+ b) +:+ c) = String x (a +:+ (b +:+ c))). by rewrite IH. Qed.
Lemma append_empty_r (a : string) : a +:+ EmptyString = a.
Proof. induction a as [|x a IH]; [done|]. change (String x (a +:+ EmptyString) = String x a). by rewrite IH. Qed.
Lemma text_length (a b : string) : String.length (a +:+ b) = (String.length a + String.length b)%nat.
Proof. induction a as [|x a IH]; [done|]. change (S (String.length (a +:+ b)) = S (String.length a + String.length b)%nat). by rewrite IH. Qed.
Lemma skip_append a b : strings_skip (String.length a) (a +:+ b) = b.
Proof. induction a as [|x a IH]; [by destruct b|exact IH]. Qed.
Lemma substring_append a b : String.substring 0 (String.length a) (a +:+ b) = a.
Proof.
  induction a as [|x a IH]; [by destruct b|].
  change (String x (String.substring 0 (String.length a) (a +:+ b)) = String x a). by rewrite IH.
Qed.

(** The file, with every line of the target's first occurrence rid of the prefix once. *)
Lemma uncommented_spec before target after prefix :
  Forall plain_line (split_lines target) → last (split_lines target) ≠ Some EmptyString →
  uncommented (before +:+ target +:+ after) target prefix (String.length before) =
  Some (before +:+ join_lines ((λ l, strings_TrimPrefix l prefix) <$> split_lines target) +:+ after).
Proof.
  intros Hp Hl. unfold uncommented, Scan_lines. rewrite (scanned_plain _ Hp Hl).
  pose proof (split_lines_ne target) as Hne. destruct (split_lines target) as [|l ls]; [done|].
  rewrite substring_append, <- text_length, <- (append_assoc before target after), skip_append. done.
Qed.

(** Replacing text in a file, or leaving the file alone and saying why: an unreadable file and
    a missing target are errors; otherwise the first occurrence of the target is replaced by
    its lines without the prefix, and the file has no other change. *)
Theorem UncommentCode_spec {W} `{!TestHost W} filename target prefix (w : W) :
  Forall plain_line (split_lines target) → last (split_lines target) ≠ Some EmptyString →
  match os_ReadFile filename w with
  | (Err err, w') => UncommentCode filename target prefix w = (Some err, w')
  | (Ok content, w') =>
      match String.index 0 target content with
      | None => ∃ err, UncommentCode filename target prefix w = (Some err, w')
      | Some idx => ∃ before after, content = before +:+ target +:+ after ∧ String.length before = idx ∧
          UncommentCode filename target prefix w =
            os_WriteFile filename
              (before +:+ join_lines ((λ l, strings_TrimPrefix l prefix) <$> split_lines target) +:+ after) w'
      end
  end.
Proof.
  intros Hp Hl. unfold UncommentCode, mbind, st_bind. destruct (os_ReadFile filename w) as [[content|err] w']; [|done].
  destruct (String.index 0 target content) as [idx|] eqn:E; [|by eexists].
  apply index_split in E as (before & after & -> & <-). exists before, after. split; [done|]. split; [done|].
  by rewrite uncommented_spec.
Qed.

(** ** Names in an output *)
Definition part_of (t s : string) : Prop := ∃ a b, s = a +:+ t +:+ b.

Lemma prefix_append t b : String.prefix t (t +:+ b) = true.
Proof. induction t as [|a t IH]; [by destruct b|]. simpl. by destruct (ascii_dec a a). Qed.

Lemma Contains_part s t : strings_Contains s t = true ↔ part_of t s.
Proof.
  unfold strings_Contains. split.
  - destruct (String.index 0 t s) as [i|] eqn:E; [|done]. intros _.
    apply index_split in E as (a & b & E & _). by exists a, b.
  - intros (a & b & ->). induction a as [|c a IH].
    + change (EmptyString +:+ (t +:+ b)) with (t +:+ b). pose proof (prefix_append t b) as Hp.
      destruct (t +:+ b) as [|c s] eqn:E; [by destruct t|]. cbn [String.index]. by rewrite Hp.
    + change (String c a +:+ (t +:+ b)) with (String c (a +:+ (t +:+ b))). cbn [String.index].
      destruct (String.prefix t _); [done|]. by destruct (String.index 0 t (a +:+ (t +:+ b))).
Qed.

Lemma part_of_trans a b c : part_of a b → part_of b c → part_of a c.
Proof.
  intros (x & y & ->) (u & v & ->). exists (u +:+ x), (y +:+ v). by rewrite !append_assoc.
Qed.

Lemma line_part_of l s : l ∈ split_lines s → part_of l s.
Proof.
  rewrite <- (join_split s) at 2. generalize (split_lines s). intros ls.
  induction ls as [|l' ls IH]; intros Hl; [by inversion Hl|].
  assert (part_of l' (join_lines (l' :: ls)) ∧ (ls ≠ [] → part_of (join_lines ls) (join_lines (l' :: ls)))) as [H1 H2].
  { destruct ls as [|l2 ls]; (split; [|intros ?]); try done.
    - exists EmptyString, EmptyString. simpl. by rewrite append_empty_r.
    - by exists EmptyString, (nl +:+ join_lines (l2 :: ls)).
    - exists (l' +:+ nl), EmptyString. by rewrite append_empty_r, append_assoc. }
  apply elem_of_cons in Hl as [->|Hl]; [done|]. eapply part_of_trans; [by apply IH|apply H2]. intros ->. by inversion Hl.
Qed.

(** A text on one line is found on a line. *)
Lemma part_on_line t s : one_line t → part_of t s → ∃ l, l ∈ split_lines s ∧ part_of t l.
Proof.
  intros Ht (a & b & ->). induction a as [|c a (l & Hl & Hp)].
  - change (EmptyString +:+ (t +:+ b)) with (t +:+ b).
    assert (∃ hd tl, split_lines (t +:+ b) = (t +:+ hd) :: tl) as (hd & tl & ->).
    { induction t as [|c t IH].
      - change (EmptyString +:+ b) with b. pose proof (split_lines_ne b). destruct (split_lines b) as [|hd tl]; [done|]. by exists hd, tl.
      - destruct Ht as [Hc Ht]. destruct (IH Ht) as (hd & tl & E). exists hd, tl.
        change (String c t +:+ b) with (String c (t +:+ b)). cbn [split_lines]. rewrite E. by rewrite decide_False. }
    eexists. split; [by left|]. by exists EmptyString, hd.
  - change (String c a +:+ (t +:+ b)) with (String c (a +:+ (t +:+ b))). cbn [split_lines].
    destruct (split_lines (a +:+ (t +:+ b))) as [|l0 ls]; [by inversion Hl|]. case_decide.
    + exists l. split; [by right|done].
    + apply elem_of_cons in Hl as [->|Hl]; [|exists l; split; [by right|done]].
      exists (String c l0). split; [by left|]. destruct Hp as (x & y & ->). by exists (String c x), y.
Qed.

(** The cluster has one of the CRDs exactly when the command succeeds and prints the name of
    one; that the name is looked for line by line makes no difference. *)
Theorem listed_spec {W} `{!TestHost W} names args (w : W) :
  Forall (λ crd, one_line crd ∧ crd ≠ EmptyString) names →
  (listed names args w).2 = (utils_Run args w).2 ∧
  ((listed names args w).1 = true ↔
     ∃ output, (utils_Run args w).1 = (output, None) ∧ Exists (λ crd, part_of crd output) names).
Proof.
  intros Hn. unfold listed, mbind, st_bind. destruct (utils_Run args w) as [[output [err|]] w']; simpl.
  { split; [done|]. split; [done|]. by intros (? & ? & _). }
  split; [done|]. rewrite existsb_exists. split.
  - intros (crd & Hin & (line & Hl & Hc)%existsb_exists). exists output. split; [done|].
    apply Exists_exists. exists crd. split; [by apply list_elem_of_In|].
    apply list_elem_of_In, GetNonEmptyLines_elem in Hl as [_ Hl]. apply Contains_part in Hc.
    eapply part_of_trans; [exact Hc|]. by apply line_part_of.
  - intros (output' & [= <-] & (crd & Hin & Hp)%Exists_exists). exists crd.
    split; [by apply list_elem_of_In|]. destruct (proj1 (Forall_forall _ _) Hn crd Hin) as [H1 Hne].
    destruct (part_on_line crd output H1 Hp) as (l & Hl & Hpl). apply existsb_exists. exists l.
    split; [|by apply Contains_part]. apply list_elem_of_In, GetNonEmptyLines_elem. split; [|done].
    intros ->. destruct Hpl as (x & y & E). destruct x; [|done]. by destruct crd.
Qed.

(** A target that ends with a newline loses it: the line behind it moves up. *)
Theorem trailing_newline_lost :
  uncommented ("#a" +:+ nl +:+ "b") ("#a" +:+ nl) "#" 0 = Some "ab".
Proof. reflexivity. Qed.
